(* ===== verification/_CoqProject ===== *)
-Q . S2P
Prelude.v
JsNumber.v
Random.v
Combat.v
Archetype.v
Ability.v
CombatFeed.v
Creature.v
Config.v
Item.v
Player.v
Loot.v
AutoCombat.v
Encounter.v
Location.v
Json.v
CloudSync.v
Storage.v
WalkLog.v
PlayerSession.v
AuthSession.v
CombatSession.v
SessionInvariant.v
EncounterFlow.v
GameStep.v
Home.v
Inventory.v
CombatView.v
DebugActions.v
Tracking.v
AuthService.v
Theme.v
Readout.v
StageLayout.v
Screens.v
Telemetry.v
Notifications.v
HomeView.v
FightView.v
CardView.v
Motion.v
Server.v
