(* ===== verification/Prelude.v ===== *)
(** * StrideQuest: a verification library

    StrideQuest is a role-playing game played by walking.  The phone's position feeds a
    distance counter; distance rolls encounters; an encounter is fought turn by turn,
    resolved on the spot, or held as a worthy foe; a win pays experience and items; the
    character is saved locally and in the cloud and follows its owner across devices
    and accounts.  This library models the TypeScript program under [src/src] and proves
    the properties that make those parts correct.

    ** The parts and their models

    - Numbers, randomness, records.  [Prelude] (this file) has the notation
      [s <| f := v |>] for assignment to a field, the shared lemmas and the hint
      database [game]; [JsNumber] the doubles of JavaScript; [Random] the stream behind
      [Math.random] as a state monad.
    - Rules of the game ([src/models], [src/constants], [src/services/LootService.ts]).
      [Combat] (mitigation, resistance, evasion), [Archetype], [Ability] (abilities and
      status effects), [CombatFeed] (what a turn publishes), [Creature] (templates,
      scaling, the encounter roll), [Config], [Item], [Player], [Loot], [AutoCombat]
      (automatic resolution, pacing, routing).  One definition per function or method.
    - Walking.  [Location] is [LocationService]: a state machine whose steps are the
      program's calls and the callbacks of the geolocation watch.  [Encounter] is
      [EncounterService] with the [Encounter] model and the sun's position.
    - Persistence.  [Json] has the values that reach storage; [Storage] is
      [src/utils/storage.ts] over an interface of [AsyncStorage] in which any call may
      fail; [WalkLog] the promise chain that serialises the walk log; [CloudSync] is
      [CloudSyncService], a state machine over the writes in flight.
    - Sessions.  [PlayerSession] is [src/hooks/usePlayer.ts], [AuthSession]
      [src/hooks/useAuth.ts]; [CombatSession] is the fight state machine of
      [src/hooks/useEncounter.ts], [SessionInvariant] its theorems, and [EncounterFlow]
      the asynchronous half of that hook with [handleDistanceUpdate] of
      [src/screens/HomeScreen.tsx].  These compose all of the above.  [Readout] adds the
      chance and the countdown the hook displays; [GameStep] and [Home] join the player
      session, the game and the store the way the home screen does, with its effects and
      the account switch; [Tracking] has [useLocation], resuming after a kill, battery
      exemption, permissions and milestones; [AuthService] the sign-in service over an
      interface of its SDKs, with the buttons of [useAuth]; [Theme] is
      [src/hooks/useTheme.tsx].
    - Screens.  [CombatView] has what a fight shows (floating numbers, narration, impact
      effects, bars, ability buttons), [Inventory] the inventory and its detail sheet with
      the rendered player and the ref as two objects, [DebugActions] the debug hook,
      [StageLayout] the geometry of the combat stage, [Screens] the controls and the
      numbers of the remaining screens.  [HomeView] is the render of the home screen with
      the build banner and the debug panel, [FightView] the combat modal with its log, its
      bursts and the tables of drawings, [CardView] the cards, the item sheet and the
      settings; a page is the record of what it shows and of what its controls do.
      [Motion] has the animations: plans of timings laid out on a clock.
    - Around the game.  [Telemetry] is the logger, Crashlytics, Analytics, the Firebase
      start-up and the error boundary, with the analytics calls put back into the reward
      handlers; [Notifications] is [NotificationService] with its callers and the taps.
    - The server.  [Server] has [firestore.rules] and the function of [functions/src] that
      erases the data of a deleted account, composed with the writes of [CloudSync].

    ** What the theorems show

    - Fights: every reachable state of the session is consistent; one encounter pays
      once; a turn does what its ability says; input is frozen exactly during the
      enemy's turn and always returns; a fight can always go on, unless the player fled
      while the last creature was falling; a victory pays what it announces.
    - Encounters: every rolled encounter is presented, held or resolved, never lost;
      skipping a fight pays like fighting it; what a drain of the walk log shows or puts
      back is what was logged, up to the appends storage refused; the displayed chance is
      the one used; a walk meets encounters neither too often nor never.
    - Saves: a character made while the cloud cannot be read never reaches the cloud
      before a read succeeds, and the first answer settles it; after an account is left
      nothing starts, and only the saves whose local write was still under way can reach
      the cloud; the save chosen in a conflict is kept, or its failure is shown; deletion
      erases in an order that can be undone, and the paths on which it stops half way are
      named; a save read back is the save written; the walk log, behind its promise chain,
      is an atomic log in which a failed read empties it ([chain_refines_atomic_log]).
    - The whole home screen: whatever the game does is saved or among the refused writes;
      offline play uploads nothing; switching accounts quiesces every part up to the saves
      in flight.  Tracking resumes after the process is killed as the stored flag says; the
      battery dialog is asked once; each milestone is reported once; signing in keeps the
      guest's save if it can be read.
    - Storage fails in all of these: every call of [AsyncStorage] may be refused, and a
      theorem that needs one to succeed says which.
    - Screens: every hit is shown once; an enabled button acts, and a tap acts on the item
      selected; inventory operations account for every item although the screen mutates
      the rendered player; the displayed chance and countdown are true; the recap of a walk
      adds up; a chosen theme is kept; the sprite stays in its stage, with rounding.  When
      the modal says it is the player's turn a button can be pressed; a production build
      reaches no debug control, and no sequence of debug presses breaks the game's
      invariants; the numbers of an item's sheet add up; deletion asks first.  Animations
      stay within their bounds and come to rest, and a rarity shows before its drop.
    - Around the game: reporting never throws, except an analytics call without an app,
      and a handler with its reports does what it does without them when an app exists; at
      most one start-up of Firebase is under way; a notification says what happened to the
      encounter, and its tap leads there.  Whatever order the writes of a client arrive
      in, the server keeps the newest; it keeps a stored save from stale and foreign writes
      and erases a deleted account.
    - Rules: the type invariant of the player under every operation; experience,
      equipment and loot lose and invent nothing; bounds of every roll, with rounding.
    - Theorems without hypotheses about concrete runs (for instance
      [late_reconcile_poisons_switch]) record where the code falls short.

    ** How the model corresponds to the code

    - A finite double is a rational; every operation rounds with [fl] (53 bits, ties to
      even).  Signed zero, infinities and NaN do not arise in the modelled code, except
      [Number] of stored text, which is an option.  Fields the code keeps integral are
      [Z], exact below 2^53.  [Math.pow(n, 1.5)] is the correctly rounded value;
      trigonometry is an interface.  [Date.now()] is an argument.
    - A creature is one object shared by the encounter objects of its fight: mutation is
      written out, and encounters carry an identity that [!==] compares.  Player
      objects are copied on every change, as in the code; where React compares them
      they carry an identity too.
    - A timer ref holds what its callback captured; firing it is an event.  A React
      state is the value last set.  Sequences of events are lists, and theorems about
      sessions quantify over all of them.
    - In [PlayerSession] every [await] ends a step, the one of a save between its local
      write and its upload included; in [CloudSync] a drain waits for the writes chained
      when it was called, and in [AuthSession] a deletion has a step before its drain and
      one after, with sign-ins, choices and saves in between.  In [EncounterFlow] a handler
      is one step except where the code itself re-checks its state after an [await]: the
      awaits inside [engageHeldFoe] (of the removal of the stored foe) and inside
      [holdEliteEncounter] (of the read and the write of the stored foe) are not split, so
      two holds that overlap, or an encounter presented while a held foe is being engaged,
      are outside the model.
    - The ghost fields of a state (the writes storage refused, what a tap overwrote, the
      uploads) only record what happened; nothing of the program's own state
      depends on them.
    - Code outside the repository is an interface: [AsyncStorage] with its laws,
      trigonometric functions, the sign-in SDKs ([AuthSdk] with its laws), the telemetry
      SDKs ([TelemetrySdk]), the notification library ([Notifee]), the curves of the
      animation library ([Curves]) and, as arguments, what Firestore, Firebase Auth, the
      geolocation module and the platform's dialogs answer.  Each interface has an instance
      in the library, and the witnesses run on it.

    ** Bounds and fuel

    [level_up_loop] has one more than a hundredth of the experience as fuel, which is
    enough because each level costs at least a hundred points ([addExperience_levels]);
    loot and template rolls recurse on their tables; the retry loop of a selection is
    the two retries of the code; the debug action that fills the inventory has one more
    than the number of slots, and each of its rounds fills one.  No other function needs
    fuel.  Theorems that bound rewards assume levels up to 2^40, and those that accumulate
    over a session up to 2^39, far above what experience can buy.

    ** Not modelled

    The layout and the styles of the [.tsx] components and the two palettes; the vector
    drawings of icons and creatures; what the animation library does with a plan beyond the
    ideal clock of [Motion] (frames, the shape of its curves) and the drawing on canvases;
    the locale formatting of the save cards and the texts of the permission dialog; the
    native projects and the build. *)
From stdpp Require Import base decidable strings list.
From Stdlib Require Import ZArith Lia.

(** Facts the proofs of several components use without naming them. *)
Create HintDb game.

(** ** Objects used as maps from string literals *)

(** Property access [o[key]] on an object literal. *)
Fixpoint assoc {A} (key : string) (o : list (string * A)) : option A :=
  match o with
  | [] => None
  | (k, v) :: o' => if decide (k = key) then Some v else assoc key o'
  end.

(** [a || b] on strings: the empty string is falsy. *)
Definition or_string (a b : string) : string := if decide (a = "") then b else a.

(** ** Membership in literal lists *)

(** Split [x ∈ [a; b; ...]] into its cases. *)
Ltac in_cases H :=
  apply list_elem_of_In in H; simpl in H;
  repeat match type of H with _ \/ _ => destruct H as [H|H] end;
  try contradiction; subst.

(** ** Sums of integers *)

Definition sumZ (l : list Z) : Z := fold_right Z.add 0%Z l.

Lemma sumZ_app l l' : sumZ (l ++ l') = (sumZ l + sumZ l')%Z.
Proof. induction l as [|x l IH]; simpl; [reflexivity | rewrite IH; lia]. Qed.

Lemma sumZ_perm l l' : l ≡ₚ l' -> sumZ l = sumZ l'.
Proof. induction 1; csimpl; lia. Qed.

Lemma sumZ_nonneg l : Forall (Z.le 0) l -> (0 <= sumZ l)%Z.
Proof. induction 1; csimpl; lia. Qed.

(** ** Lists of optional entries *)

(** The entries present in a list of slots. *)
Definition present {A} (slots : list (option A)) : list A := omap id slots.

#[global] Arguments present : simpl never.

Lemma present_app {A} (l l' : list (option A)) : present (l ++ l') = present l ++ present l'.
Proof. apply omap_app. Qed.

(** Writing a slot trades its old entry for the new one. *)
Lemma present_insert {A} (slots : list (option A)) i old new :
  slots !! i = Some old ->
  present (<[i := new]> slots) ++ option_list old ≡ₚ present slots ++ option_list new.
Proof.
  intros H. rewrite <- (take_drop_middle slots i old H) at 2.
  rewrite insert_take_drop by (apply lookup_lt_is_Some; eauto).
  unfold present. rewrite !omap_app. csimpl.
  destruct old, new; simpl; rewrite ?app_nil_r; solve_Permutation.
Qed.

(** Split an equality of tuples into its components. *)
Ltac pairs_eq := repeat match goal with |- (_, _) = (_, _) => apply f_equal2 end.

(** ** Removing one element of a list *)

Lemma filter_absent `{EqDecision A} (l : list A) x : x ∉ l -> filter (fun y => y <> x) l = l.
Proof.
  induction l as [|a l IH]; intros H; [reflexivity|].
  apply not_elem_of_cons in H as [H1 H2].
  rewrite filter_cons_True by congruence. f_equal. apply IH, H2.
Qed.

Lemma filter_remove_length `{EqDecision A} (l : list A) x : NoDup l -> x ∈ l ->
  length l = S (length (filter (fun y => y <> x) l)).
Proof.
  induction l as [|a l IH]; intros N Hin; [apply elem_of_nil in Hin; contradiction|].
  apply NoDup_cons in N as [Na N]. destruct (decide (a = x)) as [->|Ne].
  - rewrite filter_cons_False by (intros C; apply C; reflexivity).
    rewrite filter_absent by exact Na. reflexivity.
  - apply elem_of_cons in Hin as [E|Hin]; [congruence|].
    rewrite filter_cons_True by exact Ne. simpl. f_equal. apply IH; assumption.
Qed.

(** ** Assignment to one field of a record

    [s <| f := v |>] is the record [s] with field [f] replaced.  A record becomes
    assignable by giving its eta expansion as an instance of [Fields]. *)
Class Fields (R : Type) := rebuild : R -> R.

Class Assignable {R F} (proj : R -> F) := assign : F -> R -> R.

(** Abstract the projection out of the eta expansion and put a constant there. *)
Ltac derive_assign proj :=
  lazymatch type of proj with
  | ?R -> _ =>
      let inst := constr:(_ : Fields R) in
      let body := eval hnf in inst in
      lazymatch eval pattern proj in body with
      | ?hole _ => exact (fun v => hole (fun _ => v))
      end
  end.

#[export] Hint Extern 0 (Assignable ?proj) => derive_assign proj : typeclass_instances.

#[global] Arguments assign {R F} proj {_} v r.

Declare Scope record_scope.
Open Scope record_scope.
#[warnings="-postfix-notation-not-level-1"]
Notation "s <| f := v |>" := (assign f v s)
  (at level 12, f at next level, left associativity) : record_scope.
