(* ===== verification/JsNumber.v ===== *)
(** * JavaScript numbers

    JavaScript's [number] is an IEEE-754 binary64 value.  This file models the
    finite ones as rationals kept in lowest terms, with every arithmetic
    operation followed by the rounding of the standard (53-bit significand,
    round to nearest, ties to even, gradual underflow at exponent -1074).  The
    sign of zero, the infinities and NaN are not represented.

    [fl] is that rounding; [fl] is executable, so [vm_compute] replays the
    program's arithmetic bit for bit.  The lemmas are the facts the components
    use: [fl] is monotone, leaves integers up to 2^53 alone, and therefore
    never moves a value across a representable bound. *)
From Stdlib Require Import ZArith QArith Qround Qreduction Qpower Qabs Qcanon Lia Lqa Psatz Setoid Morphisms.

Local Open Scope Q_scope.

(** ** Exponents *)

Definition two_pow (e : Z) : Q := Qpower 2 e.

(** The binade of a positive rational: [2^k <= q < 2^(k+1)]. *)
Definition qlog2 (q : Q) : Z :=
  let l := (Z.log2 (Qnum q) - Z.log2 (Zpos (Qden q)))%Z in
  if Qle_bool (two_pow l) q then l else (l - 1)%Z.

Definition precision : Z := 53.
Definition emin : Z := -1074.

(** Exponent of the last significand bit of a positive rational. *)
Definition ulp_exp (q : Q) : Z := Z.max emin (qlog2 q - (precision - 1)).

(** ** Rounding *)

(** Nearest integer, ties to even. *)
Definition rne (q : Q) : Z :=
  let f := Qfloor q in
  match Qcompare (q - inject_Z f) (1 # 2) with
  | Lt => f
  | Gt => (f + 1)%Z
  | Eq => if Z.even f then f else (f + 1)%Z
  end.

Definition fl_pos (q : Q) : Q :=
  let e := ulp_exp q in inject_Z (rne (q * two_pow (- e))) * two_pow e.

Definition fl (q : Q) : Q :=
  Qred (match Qcompare q 0 with
        | Eq => 0
        | Gt => fl_pos q
        | Lt => - fl_pos (- q)
        end).

(** ** Facts about powers of two *)

Lemma two_pow_pos e : 0 < two_pow e.
Proof. unfold two_pow. apply Qpower_0_lt. lra. Qed.

Lemma two_pow_plus a b : two_pow (a + b) == two_pow a * two_pow b.
Proof. unfold two_pow. apply Qpower_plus. lra. Qed.

Lemma two_pow_opp a : two_pow (- a) * two_pow a == 1.
Proof.
  rewrite <- two_pow_plus. replace (- a + a)%Z with 0%Z by lia. reflexivity.
Qed.

Lemma two_pow_Z n : (0 <= n)%Z -> two_pow n == inject_Z (2 ^ n).
Proof.
  intros Hn. unfold two_pow. rewrite Zpower_Qpower by lia. reflexivity.
Qed.

Lemma two_pow_le a b : (a <= b)%Z -> two_pow a <= two_pow b.
Proof. intros. unfold two_pow. apply Qpower_le_compat_l; [lia | lra]. Qed.

Lemma two_pow_lt_inv a b : two_pow a < two_pow b -> (a < b)%Z.
Proof.
  intros H. destruct (Z_lt_le_dec a b) as [|Hle]; [assumption|].
  apply two_pow_le in Hle. lra.
Qed.

(** ** The binade *)

Lemma qlog2_spec q : 0 < q -> two_pow (qlog2 q) <= q < two_pow (qlog2 q + 1).
Proof.
  intros Hq. destruct q as [n d]. unfold qlog2; simpl Qnum; simpl Qden.
  assert (Hn : (0 < n)%Z) by (unfold Qlt in Hq; simpl in Hq; lia).
  set (a := Z.log2 n). set (b := Z.log2 (Z.pos d)).
  assert (Ha : (2 ^ a <= n < 2 ^ (a + 1))%Z)
    by (apply Z.log2_spec in Hn; rewrite <- Z.add_1_r in Hn; exact Hn).
  assert (Hb : (2 ^ b <= Z.pos d < 2 ^ (b + 1))%Z)
    by (pose proof (Z.log2_spec (Z.pos d)) as H; rewrite <- Z.add_1_r in H; apply H; lia).
  assert (Ha0 : (0 <= a)%Z) by apply Z.log2_nonneg.
  assert (Hb0 : (0 <= b)%Z) by apply Z.log2_nonneg.
  assert (Hnd : inject_Z n == (n # d) * inject_Z (Z.pos d)).
  { unfold Qeq; simpl. lia. }
  assert (Hlo : two_pow (a - b - 1) * inject_Z (Z.pos d) <= inject_Z n).
  { apply Qle_trans with (two_pow (a - b - 1) * two_pow (b + 1)).
    - apply Qmult_le_l; [apply two_pow_pos|].
      rewrite two_pow_Z by lia. rewrite <- Zle_Qle. lia.
    - rewrite <- two_pow_plus. replace (a - b - 1 + (b + 1))%Z with a by lia.
      rewrite two_pow_Z by lia. rewrite <- Zle_Qle. lia. }
  assert (Hhi : inject_Z n < two_pow (a - b + 1) * inject_Z (Z.pos d)).
  { apply Qlt_le_trans with (two_pow (a - b + 1) * two_pow b).
    - rewrite <- two_pow_plus. replace (a - b + 1 + b)%Z with (a + 1)%Z by lia.
      rewrite two_pow_Z by lia. rewrite <- Zlt_Qlt. lia.
    - apply Qmult_le_l; [apply two_pow_pos|].
      rewrite two_pow_Z by lia. rewrite <- Zle_Qle. lia. }
  assert (Hd : 0 < inject_Z (Z.pos d)) by reflexivity.
  rewrite Hnd in Hlo, Hhi.
  apply Qmult_le_r in Hlo; [|exact Hd]. apply Qmult_lt_r in Hhi; [|exact Hd].
  destruct (Qle_bool (two_pow (a - b)) (n # d)) eqn:E.
  - apply Qle_bool_iff in E. split; [exact E | exact Hhi].
  - split; [exact Hlo|]. replace (a - b - 1 + 1)%Z with (a - b)%Z by lia.
    apply Qnot_le_lt. intros C. apply Qle_bool_iff in C. congruence.
Qed.

Lemma qlog2_unique q k : two_pow k <= q -> q < two_pow (k + 1) -> qlog2 q = k.
Proof.
  intros H1 H2. pose proof (two_pow_pos k).
  destruct (qlog2_spec q) as [H3 H4]; [lra|].
  assert (two_pow k < two_pow (qlog2 q + 1)) as A by lra.
  assert (two_pow (qlog2 q) < two_pow (k + 1)) as B by lra.
  apply two_pow_lt_inv in A, B. lia.
Qed.

Lemma qlog2_mono x y : 0 < x -> x <= y -> (qlog2 x <= qlog2 y)%Z.
Proof.
  intros Hx Hxy. destruct (qlog2_spec x) as [H1 _]; [lra|].
  destruct (qlog2_spec y) as [_ H2]; [lra|].
  assert (two_pow (qlog2 x) < two_pow (qlog2 y + 1)) as A by lra.
  apply two_pow_lt_inv in A. lia.
Qed.

(** ** Round to nearest, ties to even *)

#[export] Instance rne_proper : Proper (Qeq ==> eq) rne.
Proof.
  intros x y E. unfold rne. rewrite (Qfloor_comp x y E).
  rewrite E. reflexivity.
Qed.

Lemma rne_bounds q : q - (1 # 2) <= inject_Z (rne q) <= q + (1 # 2).
Proof.
  unfold rne. pose proof (Qfloor_le q) as H1. pose proof (Qlt_floor q) as H2.
  rewrite inject_Z_plus in H2. change (inject_Z 1) with 1 in H2.
  destruct (Qcompare_spec (q - inject_Z (Qfloor q)) (1 # 2)) as [E|E|E].
  - destruct (Z.even (Qfloor q)); rewrite ?inject_Z_plus; change (inject_Z 1) with 1; lra.
  - lra.
  - rewrite inject_Z_plus; change (inject_Z 1) with 1; lra.
Qed.

Lemma rne_Z z : rne (inject_Z z) = z.
Proof.
  unfold rne. rewrite Qfloor_Z.
  assert (E : inject_Z z - inject_Z z == 0) by ring. rewrite E. reflexivity.
Qed.

Lemma rne_floor_or q :
  (rne q = Qfloor q \/ rne q = (Qfloor q + 1)%Z).
Proof.
  unfold rne. destruct (Qcompare _ _); [destruct (Z.even _)|..]; auto.
Qed.

Lemma rne_mono x y : x <= y -> (rne x <= rne y)%Z.
Proof.
  intros H. pose proof (Qfloor_resp_le _ _ H) as Hf.
  destruct (Z.eq_dec (Qfloor x) (Qfloor y)) as [E|N].
  - unfold rne. rewrite <- E.
    destruct (Qcompare_spec (x - inject_Z (Qfloor x)) (1 # 2));
    destruct (Qcompare_spec (y - inject_Z (Qfloor x)) (1 # 2));
    try destruct (Z.even (Qfloor x)); try lia; lra.
  - destruct (rne_floor_or x), (rne_floor_or y); lia.
Qed.

(** ** Rounding positive rationals *)

Lemma ulp_exp_mono x y : 0 < x -> x <= y -> (ulp_exp x <= ulp_exp y)%Z.
Proof. intros Hx Hy. unfold ulp_exp. pose proof (qlog2_mono x y Hx Hy). lia. Qed.

#[export] Instance two_pow_div_proper : Proper (eq ==> Qeq) two_pow.
Proof. intros a b ->. reflexivity. Qed.

Lemma scaled_grid m e' e :
  (e <= e')%Z -> inject_Z m * two_pow e' * two_pow (- e) == inject_Z (m * 2 ^ (e' - e)).
Proof.
  intros. rewrite inject_Z_mult, <- two_pow_Z by lia.
  rewrite <- Qmult_assoc, <- two_pow_plus. reflexivity.
Qed.

Lemma unscale_grid m e' e :
  (e <= e')%Z -> inject_Z (m * 2 ^ (e' - e)) * two_pow e == inject_Z m * two_pow e'.
Proof.
  intros. rewrite <- scaled_grid by assumption.
  rewrite <- Qmult_assoc, two_pow_opp. ring.
Qed.

Lemma fl_pos_le_grid q m e' :
  (ulp_exp q <= e')%Z -> q <= inject_Z m * two_pow e' -> fl_pos q <= inject_Z m * two_pow e'.
Proof.
  intros He Hq. unfold fl_pos. rewrite <- (unscale_grid m e' (ulp_exp q)) by assumption.
  apply Qmult_le_compat_r; [|apply Qlt_le_weak, two_pow_pos].
  rewrite <- Zle_Qle. rewrite <- (rne_Z (m * 2 ^ (e' - ulp_exp q))).
  apply rne_mono. rewrite <- scaled_grid by assumption.
  apply Qmult_le_compat_r; [assumption|apply Qlt_le_weak, two_pow_pos].
Qed.

Lemma fl_pos_ge_grid q m e' :
  (ulp_exp q <= e')%Z -> inject_Z m * two_pow e' <= q -> inject_Z m * two_pow e' <= fl_pos q.
Proof.
  intros He Hq. unfold fl_pos. rewrite <- (unscale_grid m e' (ulp_exp q)) by assumption.
  apply Qmult_le_compat_r; [|apply Qlt_le_weak, two_pow_pos].
  rewrite <- Zle_Qle. rewrite <- (rne_Z (m * 2 ^ (e' - ulp_exp q))).
  apply rne_mono. rewrite <- scaled_grid by assumption.
  apply Qmult_le_compat_r; [assumption|apply Qlt_le_weak, two_pow_pos].
Qed.

Lemma fl_pos_nonneg q : 0 < q -> 0 <= fl_pos q.
Proof.
  intros Hq. pose proof (fl_pos_ge_grid q 0 (ulp_exp q) (Z.le_refl _)) as H.
  rewrite Qmult_0_l in H. apply H. lra.
Qed.

Lemma fl_pos_mono x y : 0 < x -> x <= y -> fl_pos x <= fl_pos y.
Proof.
  intros Hx Hxy. pose proof (ulp_exp_mono x y Hx Hxy) as He.
  destruct (Z.eq_dec (ulp_exp x) (ulp_exp y)) as [E|N].
  - unfold fl_pos. rewrite E. apply Qmult_le_compat_r; [|apply Qlt_le_weak, two_pow_pos].
    rewrite <- Zle_Qle. apply rne_mono.
    apply Qmult_le_compat_r; [assumption|apply Qlt_le_weak, two_pow_pos].
  - assert (Hk : (qlog2 x < qlog2 y /\ ulp_exp y <= qlog2 y)%Z)
      by (unfold ulp_exp, precision in *; lia).
    destruct (qlog2_spec x Hx) as [_ H1]. destruct (qlog2_spec y) as [H2 _]; [lra|].
    assert (H3 : two_pow (qlog2 x + 1) <= two_pow (qlog2 y)) by (apply two_pow_le; lia).
    apply Qle_trans with (inject_Z 1 * two_pow (qlog2 y)).
    + apply fl_pos_le_grid; [lia|]. rewrite Qmult_1_l. lra.
    + apply fl_pos_ge_grid; [lia|]. rewrite Qmult_1_l. lra.
Qed.

(** A dyadic number with a significand below 2^53 is left alone. *)
Lemma fl_pos_dyadic_lt m e :
  (0 < m < 2 ^ 53)%Z -> (emin <= e)%Z ->
  fl_pos (inject_Z m * two_pow e) == inject_Z m * two_pow e.
Proof.
  intros Hm He. set (q := inject_Z m * two_pow e).
  assert (Hq : 0 < q).
  { unfold q. apply Qmult_lt_0_compat; [|apply two_pow_pos].
    change 0 with (inject_Z 0). rewrite <- Zlt_Qlt. lia. }
  assert (Hu : (ulp_exp q <= e)%Z).
  { destruct (qlog2_spec q Hq) as [H _].
    assert (q < two_pow (53 + e)) as H'.
    { rewrite two_pow_plus. apply Qmult_lt_compat_r; [apply two_pow_pos|].
      rewrite two_pow_Z by lia. rewrite <- Zlt_Qlt. lia. }
    assert (two_pow (qlog2 q) < two_pow (53 + e)) as A by lra.
    apply two_pow_lt_inv in A. unfold ulp_exp, precision. lia. }
  apply Qle_antisym.
  - apply fl_pos_le_grid; [assumption | apply Qle_refl].
  - apply fl_pos_ge_grid; [assumption | apply Qle_refl].
Qed.

Lemma fl_pos_dyadic m e :
  (0 < m <= 2 ^ 53)%Z -> (emin <= e)%Z ->
  fl_pos (inject_Z m * two_pow e) == inject_Z m * two_pow e.
Proof.
  intros Hm He. destruct (Z.eq_dec m (2 ^ 53)) as [->|N]; [|apply fl_pos_dyadic_lt; lia].
  assert (E : inject_Z (2 ^ 53) * two_pow e == inject_Z (2 ^ 52) * two_pow (e + 1)).
  { rewrite two_pow_plus. change (two_pow 1) with 2. change (2 ^ 53)%Z with (2 ^ 52 * 2)%Z.
    rewrite inject_Z_mult. change (inject_Z 2) with 2. ring. }
  assert (P : forall a b : Q, a == b -> 0 < b -> fl_pos a == fl_pos b).
  { intros a b Eab Hb. apply Qle_antisym; apply fl_pos_mono; lra. }
  rewrite (P _ _ E), E.
  - apply fl_pos_dyadic_lt; lia.
  - apply Qmult_lt_0_compat; [reflexivity | apply two_pow_pos].
Qed.

(** The rounded value is again a 53-bit dyadic number. *)
Lemma fl_pos_form q : 0 < q ->
  exists m, (0 <= m <= 2 ^ 53)%Z /\ fl_pos q = inject_Z m * two_pow (ulp_exp q).
Proof.
  intros Hq. exists (rne (q * two_pow (- ulp_exp q))). split; [|reflexivity].
  destruct (qlog2_spec q Hq) as [_ H]. split.
  - rewrite <- (rne_Z 0). apply rne_mono. pose proof (two_pow_pos (- ulp_exp q)).
    change (inject_Z 0) with 0. apply Qmult_le_0_compat; lra.
  - rewrite <- (rne_Z (2 ^ 53)). apply rne_mono. rewrite <- two_pow_Z by lia.
    apply Qle_trans with (two_pow (qlog2 q + 1) * two_pow (- ulp_exp q)).
    + apply Qmult_le_compat_r; [lra | apply Qlt_le_weak, two_pow_pos].
    + rewrite <- two_pow_plus. apply two_pow_le. unfold ulp_exp, precision. lia.
Qed.

Lemma fl_pos_error q : 0 < q -> Qabs (fl_pos q - q) <= two_pow (ulp_exp q - 1).
Proof.
  intros Hq. set (e := ulp_exp q).
  assert (E : q == (q * two_pow (- e)) * two_pow e)
    by (rewrite <- Qmult_assoc, two_pow_opp; ring).
  pose proof (rne_bounds (q * two_pow (- e))) as B. pose proof (two_pow_pos e).
  assert (H2 : two_pow (e - 1) == (1 # 2) * two_pow e).
  { replace (e - 1)%Z with (-1 + e)%Z by lia. rewrite two_pow_plus. reflexivity. }
  rewrite H2. unfold fl_pos. fold e. apply Qabs_Qle_condition.
  set (t := q * two_pow (- e)) in *. rewrite E. fold t. nra.
Qed.

(** ** Rounding *)

#[export] Instance fl_proper : Proper (Qeq ==> eq) fl.
Proof.
  assert (M : forall x y, 0 < x -> x == y -> fl_pos x == fl_pos y).
  { intros x y Hx E. apply Qle_antisym; apply fl_pos_mono; lra. }
  intros x y E. unfold fl. apply Qred_complete. rewrite E.
  destruct (Qcompare_spec y 0) as [H|H|H]; [reflexivity| |apply M; lra].
  rewrite (M (- x) (- y)); [reflexivity | lra | rewrite E; reflexivity].
Qed.

(** The sign cases of [fl], once. *)
Lemma fl_cases q :
  (q == 0 /\ fl q == 0) \/ (0 < q /\ fl q == fl_pos q) \/ (q < 0 /\ fl q == - fl_pos (- q)).
Proof.
  unfold fl. destruct (Qcompare_spec q 0) as [H|H|H].
  - left. split; [exact H | reflexivity].
  - right; right. split; [exact H | apply Qred_correct].
  - right; left. split; [exact H | apply Qred_correct].
Qed.

Lemma fl_0 : fl 0 = 0.
Proof. reflexivity. Qed.

Lemma fl_red q : Qred (fl q) = fl q.
Proof. unfold fl. apply Qred_complete, Qred_correct. Qed.

Lemma fl_opp q : fl (- q) == - fl q.
Proof.
  destruct (fl_cases q) as [[H1 H2]|[[H1 H2]|[H1 H2]]];
  destruct (fl_cases (- q)) as [[H3 H4]|[[H3 H4]|[H3 H4]]]; try lra.
  rewrite H4, H2.
  assert (E : fl_pos (- - q) == fl_pos q); [|rewrite E; reflexivity].
  apply Qle_antisym; apply fl_pos_mono; lra.
Qed.

Lemma fl_nonneg q : 0 <= q -> 0 <= fl q.
Proof.
  intros H. destruct (fl_cases q) as [[H1 ->]|[[H1 ->]|[H1 _]]];
    [lra | apply fl_pos_nonneg; lra | lra].
Qed.

Lemma fl_mono x y : x <= y -> fl x <= fl y.
Proof.
  intros H.
  destruct (fl_cases x) as [[H1 E1]|[[H1 E1]|[H1 E1]]];
  destruct (fl_cases y) as [[H2 E2]|[[H2 E2]|[H2 E2]]];
  rewrite E1, E2; try lra;
  try (pose proof (fl_pos_nonneg y)); try (pose proof (fl_pos_nonneg (- x))); try lra.
  - apply fl_pos_mono; lra.
  - assert (fl_pos (- y) <= fl_pos (- x)) by (apply fl_pos_mono; lra). lra.
Qed.

(** ** Representable numbers *)

Definition is_double (q : Q) : Prop := fl q == q.

#[export] Instance is_double_proper : Proper (Qeq ==> iff) is_double.
Proof. intros x y E. unfold is_double. rewrite (fl_proper x y E), E. reflexivity. Qed.

Lemma is_double_opp q : is_double q -> is_double (- q).
Proof. unfold is_double. intros H. rewrite fl_opp, H. reflexivity. Qed.

Lemma is_double_dyadic m e :
  (Z.abs m <= 2 ^ 53)%Z -> (emin <= e)%Z -> is_double (inject_Z m * two_pow e).
Proof.
  assert (P : forall k, (0 < k <= 2 ^ 53)%Z -> (emin <= e)%Z ->
              is_double (inject_Z k * two_pow e)).
  { intros k Hk He. unfold is_double.
    assert (Hp : 0 < inject_Z k * two_pow e).
    { apply Qmult_lt_0_compat; [|apply two_pow_pos].
      change 0 with (inject_Z 0). rewrite <- Zlt_Qlt. lia. }
    destruct (fl_cases (inject_Z k * two_pow e)) as [[H _]|[[_ ->]|[H _]]]; try lra.
    apply fl_pos_dyadic; assumption. }
  intros Hm He. destruct (Z.lt_trichotomy m 0) as [H|[->|H]].
  - assert (E : inject_Z m * two_pow e == - (inject_Z (- m) * two_pow e))
      by (rewrite inject_Z_opp; ring).
    rewrite E. apply is_double_opp, P; lia.
  - rewrite Qmult_0_l. unfold is_double; reflexivity.
  - apply P; lia.
Qed.

(** Integers up to [2^53 = Number.MAX_SAFE_INTEGER + 1] are exact. *)
Lemma is_double_Z z : (Z.abs z <= 2 ^ 53)%Z -> is_double (inject_Z z).
Proof.
  intros H. assert (E : inject_Z z == inject_Z z * two_pow 0)
    by (change (two_pow 0) with 1; ring).
  rewrite E. apply is_double_dyadic; [exact H | unfold emin; lia].
Qed.

Lemma is_double_fl q : is_double (fl q).
Proof.
  assert (P : forall x, 0 < x -> is_double (fl_pos x)).
  { intros x Hx. destruct (fl_pos_form x Hx) as (m & Hm & ->).
    apply is_double_dyadic; [lia | unfold ulp_exp; lia]. }
  destruct (fl_cases q) as [[_ ->]|[[H ->]|[H ->]]].
  - reflexivity.
  - apply P, H.
  - apply is_double_opp, P. lra.
Qed.

Lemma fl_idem q : fl (fl q) = fl q.
Proof.
  pose proof (is_double_fl q) as H. unfold is_double in H.
  apply Qred_complete in H. rewrite !fl_red in H. exact H.
Qed.

Lemma fl_Z z : (Z.abs z <= 2 ^ 53)%Z -> fl (inject_Z z) = inject_Z z.
Proof.
  intros H. pose proof (is_double_Z z H) as E. apply Qred_complete in E.
  rewrite fl_red in E. rewrite E. apply Qred_identity. simpl. apply Z.gcd_1_r.
Qed.

(** Rounding never crosses a representable bound. *)
Lemma fl_le_double x b : is_double b -> x <= b -> fl x <= b.
Proof. intros Hb H. apply fl_mono in H. unfold is_double in Hb. lra. Qed.

Lemma fl_ge_double x b : is_double b -> b <= x -> b <= fl x.
Proof. intros Hb H. apply fl_mono in H. unfold is_double in Hb. lra. Qed.

Lemma fl_le_Z x z : (Z.abs z <= 2 ^ 53)%Z -> x <= inject_Z z -> fl x <= inject_Z z.
Proof. intros Hz. apply fl_le_double, is_double_Z, Hz. Qed.

Lemma fl_ge_Z x z : (Z.abs z <= 2 ^ 53)%Z -> inject_Z z <= x -> inject_Z z <= fl x.
Proof. intros Hz. apply fl_ge_double, is_double_Z, Hz. Qed.

(** Relative error of a rounding in the normal range. *)
Lemma fl_error q : two_pow (-1022) <= q -> Qabs (fl q - q) <= two_pow (-53) * q.
Proof.
  intros H. pose proof (two_pow_pos (-1022)) as H0.
  destruct (fl_cases q) as [[H1 _]|[[H1 ->]|[H1 _]]]; try lra.
  apply Qle_trans with (two_pow (ulp_exp q - 1)); [apply fl_pos_error; lra|].
  destruct (qlog2_spec q H1) as [H2 H3].
  assert (Hl : (-1022 < qlog2 q + 1)%Z) by (apply two_pow_lt_inv; lra).
  replace (ulp_exp q - 1)%Z with (-53 + qlog2 q)%Z
    by (unfold ulp_exp, emin, precision; lia).
  rewrite two_pow_plus. apply Qmult_le_l; [apply two_pow_pos | exact H2].
Qed.

Lemma Qmult_bounds a b x y : 0 <= a <= x -> 0 <= b <= y -> 0 <= a * b <= x * y.
Proof.
  intros [A A'] [B B']. split; [apply Qmult_le_0_compat; assumption|].
  apply Qle_trans with (x * b); [apply Qmult_le_compat_r; assumption|].
  rewrite !(Qmult_comm x). apply Qmult_le_compat_r; [assumption | lra].
Qed.

(** Absolute error of a rounding below a bound. *)
Lemma fl_error_abs q b : 0 <= q <= b -> 1 <= b -> Qabs (fl q - q) <= two_pow (-53) * b.
Proof.
  intros [H0 Hb] H1. destruct (Qlt_le_dec q (two_pow (-1022))) as [H|H].
  - assert (Hd : is_double (two_pow (-1022))) by (vm_compute; reflexivity).
    pose proof (fl_nonneg q H0) as Hf.
    pose proof (fl_le_double q _ Hd (Qlt_le_weak _ _ H)) as Hg.
    assert (Hs : two_pow (-1022) <= two_pow (-53) * 1) by (vm_compute; discriminate).
    assert (Hm : two_pow (-53) * 1 <= two_pow (-53) * b)
      by (apply Qmult_le_l; [apply two_pow_pos | exact H1]).
    apply Qabs_Qle_condition. split; lra.
  - apply Qle_trans with (two_pow (-53) * q); [apply fl_error, H|].
    apply Qmult_le_l; [apply two_pow_pos | exact Hb].
Qed.

(** ** Operators and [Math] functions *)

Definition js_add (a b : Q) : Q := fl (a + b).
Definition js_sub (a b : Q) : Q := fl (a - b).
Definition js_mul (a b : Q) : Q := fl (a * b).
Definition js_div (a b : Q) : Q := fl (a / b).

(** A number literal is rounded when the source text is read. *)
Definition lit (q : Q) : Q := fl q.

(** An integer-valued number. *)
Definition num (z : Z) : Q := inject_Z z.

Declare Scope js_scope.
Delimit Scope js_scope with js.
Infix "⊕" := js_add (at level 50, left associativity) : js_scope.
Infix "⊖" := js_sub (at level 50, left associativity) : js_scope.
Infix "⊗" := js_mul (at level 40, left associativity) : js_scope.
Infix "⊘" := js_div (at level 40, left associativity) : js_scope.

Definition js_lt (a b : Q) : bool := negb (Qle_bool b a).
Definition js_le (a b : Q) : bool := Qle_bool a b.
Infix "<.?" := js_lt (at level 70, no associativity) : js_scope.
Infix "<=.?" := js_le (at level 70, no associativity) : js_scope.

Definition math_floor (q : Q) : Z := Qfloor q.
Definition math_ceil (q : Q) : Z := Qceiling q.
(** [Math.round]: the nearest integer, ties towards +infinity. *)
Definition math_round (q : Q) : Z := Qfloor (q + (1 # 2)).
Definition math_max (a b : Q) : Q := if js_lt a b then b else a.
Definition math_min (a b : Q) : Q := if js_lt b a then b else a.

(** [Math.pow(n, 1.5)] for an integer [n >= 1], correctly rounded: the integer
    square root of [n^3] to 64 fractional bits, with a sticky half unit when the
    root is inexact, then rounded to 53 bits. *)
Definition math_pow_3_2 (n : Z) : Q :=
  let a := (n ^ 3 * 4 ^ 64)%Z in
  let s := Z.sqrt a in
  if (s * s =? a)%Z then fl (inject_Z s / inject_Z (2 ^ 64))
  else fl ((inject_Z s + (1 # 2)) / inject_Z (2 ^ 64)).

Lemma js_lt_iff a b : js_lt a b = true <-> a < b.
Proof.
  unfold js_lt. rewrite Bool.negb_true_iff. split.
  - intros H. apply Qnot_le_lt. intros C. apply Qle_bool_iff in C. congruence.
  - intros H. apply Bool.not_true_iff_false. rewrite Qle_bool_iff. lra.
Qed.

Lemma js_lt_false a b : js_lt a b = false <-> b <= a.
Proof.
  rewrite <- Bool.not_true_iff_false, js_lt_iff. split; [apply Qnot_lt_le | lra].
Qed.

Lemma js_le_iff a b : js_le a b = true <-> a <= b.
Proof. apply Qle_bool_iff. Qed.

Lemma js_le_false a b : js_le a b = false <-> b < a.
Proof.
  rewrite <- Bool.not_true_iff_false, js_le_iff. split; [apply Qnot_le_lt | lra].
Qed.

Lemma js_ltP a b : reflect (a < b) (js_lt a b).
Proof. apply Bool.iff_reflect. symmetry. apply js_lt_iff. Qed.

Lemma js_leP a b : reflect (a <= b) (js_le a b).
Proof. apply Bool.iff_reflect. symmetry. apply js_le_iff. Qed.

Lemma math_max_spec a b : a <= math_max a b /\ b <= math_max a b
  /\ (math_max a b = a \/ math_max a b = b).
Proof. unfold math_max. destruct (js_ltP a b); repeat split; auto; lra. Qed.

Lemma math_min_spec a b : math_min a b <= a /\ math_min a b <= b
  /\ (math_min a b = a \/ math_min a b = b).
Proof. unfold math_min. destruct (js_ltP b a); repeat split; auto; lra. Qed.

Lemma math_floor_Z z : math_floor (inject_Z z) = z.
Proof. apply Qfloor_Z. Qed.

Lemma math_floor_mono x y : x <= y -> (math_floor x <= math_floor y)%Z.
Proof. apply Qfloor_resp_le. Qed.

Lemma math_floor_ge x z : inject_Z z <= x -> (z <= math_floor x)%Z.
Proof. intros H. rewrite <- (Qfloor_Z z). apply Qfloor_resp_le, H. Qed.

Lemma math_floor_le x z : x <= inject_Z z -> (math_floor x <= z)%Z.
Proof. intros H. apply Qfloor_resp_le in H. rewrite Qfloor_Z in H. exact H. Qed.

Lemma math_floor_lt x z : x < inject_Z z -> (math_floor x < z)%Z.
Proof.
  intros H. apply Z.nle_gt. intros C. rewrite Zle_Qle in C.
  pose proof (Qfloor_le x). unfold math_floor in C. lra.
Qed.

Lemma math_floor_bounds x :
  inject_Z (math_floor x) <= x /\ x < inject_Z (math_floor x) + 1.
Proof.
  split; [apply Qfloor_le|]. pose proof (Qlt_floor x) as H.
  rewrite inject_Z_plus in H. exact H.
Qed.

#[export] Instance math_floor_proper : Proper (Qeq ==> eq) math_floor.
Proof. intros x y E. apply Qfloor_comp, E. Qed.

(** ** Monotonicity of the operators *)

Lemma js_add_mono a b c d : a <= b -> c <= d -> js_add a c <= js_add b d.
Proof. intros. apply fl_mono. lra. Qed.

Lemma js_sub_mono a b c d : a <= b -> d <= c -> js_sub a c <= js_sub b d.
Proof. intros. apply fl_mono. lra. Qed.

Lemma js_mul_mono_l a b c : 0 <= c -> a <= b -> js_mul a c <= js_mul b c.
Proof. intros. apply fl_mono, Qmult_le_compat_r; assumption. Qed.

Lemma js_mul_mono_r a b c : 0 <= c -> a <= b -> js_mul c a <= js_mul c b.
Proof.
  intros. apply fl_mono. rewrite (Qmult_comm c a), (Qmult_comm c b).
  apply Qmult_le_compat_r; assumption.
Qed.

Lemma js_mul_nonneg a b : 0 <= a -> 0 <= b -> 0 <= js_mul a b.
Proof. intros. apply fl_nonneg, Qmult_le_0_compat; assumption. Qed.

Lemma js_add_nonneg a b : 0 <= a -> 0 <= b -> 0 <= js_add a b.
Proof. intros. apply fl_nonneg. lra. Qed.

Lemma Qdiv_le_compat a b x y : 0 <= a -> a <= b -> 0 < y -> y <= x -> a / x <= b / y.
Proof.
  intros Ha Hab Hy Hyx. apply Qle_shift_div_r; [lra|].
  assert (E : b / y * y == b) by (field; lra).
  assert (H0 : 0 <= b / y) by (apply Qle_shift_div_l; lra).
  apply Qle_trans with (b / y * y); [lra|].
  rewrite !(Qmult_comm (b / y)). apply Qmult_le_compat_r; assumption.
Qed.

Lemma js_div_mono a b x y : 0 <= a -> a <= b -> 0 < y -> y <= x -> js_div a x <= js_div b y.
Proof. intros. apply fl_mono, Qdiv_le_compat; assumption. Qed.

Lemma js_div_nonneg a b : 0 <= a -> 0 < b -> 0 <= js_div a b.
Proof. intros. apply fl_nonneg, Qle_shift_div_l; lra. Qed.

Lemma js_mul_1_r q : is_double q -> js_mul q 1 == q.
Proof.
  intros H. unfold js_mul. assert (E : q * 1 == q) by ring.
  rewrite (fl_proper _ _ E). exact H.
Qed.

Lemma js_add_Z a b : (Z.abs (a + b) <= 2 ^ 53)%Z -> js_add (num a) (num b) = num (a + b).
Proof. intros H. unfold js_add, num. rewrite <- inject_Z_plus. apply fl_Z, H. Qed.

Lemma js_mul_Z a b : (Z.abs (a * b) <= 2 ^ 53)%Z -> js_mul (num a) (num b) = num (a * b).
Proof. intros H. unfold js_mul, num. rewrite <- inject_Z_mult. apply fl_Z, H. Qed.

Lemma num_nonneg z : (0 <= z)%Z -> 0 <= num z.
Proof. intros H. unfold num. change 0 with (inject_Z 0). rewrite <- Zle_Qle. exact H. Qed.

Lemma num_pos z : (0 < z)%Z -> 0 < num z.
Proof. intros H. unfold num. change 0 with (inject_Z 0). rewrite <- Zlt_Qlt. exact H. Qed.

Lemma num_le a b : (a <= b)%Z -> num a <= num b.
Proof. intros H. unfold num. rewrite <- Zle_Qle. exact H. Qed.

Lemma num_lt a b : (a < b)%Z -> num a < num b.
Proof. intros H. unfold num. rewrite <- Zlt_Qlt. exact H. Qed.

Lemma fl_num_le q z : (Z.abs z <= 2 ^ 53)%Z -> q <= num z -> fl q <= num z.
Proof. apply fl_le_Z. Qed.

Lemma fl_num_ge q z : (Z.abs z <= 2 ^ 53)%Z -> num z <= q -> num z <= fl q.
Proof. apply fl_ge_Z. Qed.

(** ** [Math.pow(n, 1.5)] *)

(** The scaled value that [math_pow_3_2] rounds. *)
Definition pow_3_2_scaled (n : Z) : Q :=
  let a := (n ^ 3 * 4 ^ 64)%Z in
  let s := Z.sqrt a in
  if (s * s =? a)%Z then inject_Z s else inject_Z s + (1 # 2).

Lemma math_pow_3_2_eq n : math_pow_3_2 n = fl (pow_3_2_scaled n / inject_Z (2 ^ 64)).
Proof. unfold math_pow_3_2, pow_3_2_scaled. destruct (_ =? _)%Z; reflexivity. Qed.

Lemma sqrt_sticky_mono a b : (0 <= a <= b)%Z ->
  (if (Z.sqrt a * Z.sqrt a =? a)%Z then inject_Z (Z.sqrt a) else inject_Z (Z.sqrt a) + (1 # 2))
  <= (if (Z.sqrt b * Z.sqrt b =? b)%Z then inject_Z (Z.sqrt b) else inject_Z (Z.sqrt b) + (1 # 2)).
Proof.
  intros [H0 H]. pose proof (Z.sqrt_le_mono a b H) as Hs.
  pose proof (Z.sqrt_spec a H0) as Ha. cbv zeta in Ha.
  destruct (Z.eq_dec (Z.sqrt a) (Z.sqrt b)) as [E|N].
  - destruct (Z.eqb_spec (Z.sqrt a * Z.sqrt a) a) as [Ea|Ea];
    destruct (Z.eqb_spec (Z.sqrt b * Z.sqrt b) b) as [Eb|Eb]; rewrite <- E in *; try lra.
    exfalso. apply Ea. lia.
  - assert (Hlt : (Z.sqrt a + 1 <= Z.sqrt b)%Z) by lia.
    rewrite Zle_Qle, inject_Z_plus in Hlt. change (inject_Z 1) with 1 in Hlt.
    destruct (_ =? _)%Z; destruct (_ =? _)%Z; lra.
Qed.

Lemma math_pow_3_2_mono a b : (0 <= a <= b)%Z -> math_pow_3_2 a <= math_pow_3_2 b.
Proof.
  intros H. rewrite !math_pow_3_2_eq. apply fl_mono. unfold Qdiv.
  apply Qmult_le_compat_r; [|vm_compute; discriminate].
  apply sqrt_sticky_mono. split.
  - apply Z.mul_nonneg_nonneg; [apply Z.pow_nonneg|]; lia.
  - apply Z.mul_le_mono_nonneg_r; [lia | apply Z.pow_le_mono_l; lia].
Qed.

Lemma math_pow_3_2_ge_1 n : (1 <= n)%Z -> 1 <= math_pow_3_2 n.
Proof.
  intros H. apply Qle_trans with (math_pow_3_2 1); [vm_compute; discriminate|].
  apply math_pow_3_2_mono. lia.
Qed.

(** ** Automation *)

#[global] Arguments fl : simpl never.
#[global] Arguments js_add : simpl never.
#[global] Arguments js_sub : simpl never.
#[global] Arguments js_mul : simpl never.
#[global] Arguments js_div : simpl never.
#[global] Arguments js_lt : simpl never.
#[global] Arguments js_le : simpl never.
#[global] Arguments lit : simpl never.
#[global] Arguments math_floor : simpl never.
#[global] Arguments math_pow_3_2 : simpl never.

Create HintDb js discriminated.
#[export] Hint Resolve fl_nonneg js_div_nonneg js_mul_nonneg js_add_nonneg num_nonneg num_le : js.
#[export] Hint Resolve js_add_mono js_mul_mono_l js_mul_mono_r math_floor_mono : js.

(** Evaluate closed rational comparisons. *)
Ltac q_compute := vm_compute; (reflexivity || discriminate || (split; discriminate)).

(** Turn the boolean comparisons of the program into propositions. *)
Ltac js_reflect :=
  repeat match goal with
  | H : js_lt _ _ = true |- _ => apply js_lt_iff in H
  | H : js_lt _ _ = false |- _ => apply js_lt_false in H
  | H : js_le _ _ = true |- _ => apply js_le_iff in H
  | H : js_le _ _ = false |- _ => apply js_le_false in H
  end.
