(* ===== verification/Random.v ===== *)
(** * Random numbers

    [Math.random] draws from a stream of results fixed in advance; a computation
    that draws from it is a state-passing function over the position in that
    stream.  [rand_post m P] says that [m] returns a value satisfying [P]
    whatever the stream, as long as the stream holds what ECMAScript promises of
    [Math.random]: doubles that are at least zero and less than one, that is at
    most [1 - 2^-53]. *)
From Stdlib Require Import ZArith QArith Qabs Lia Lqa List.
From S2P Require Import JsNumber.
Import ListNotations.

Record rng := mkRng { rng_src : nat -> Q; rng_pos : nat }.

Definition Rand (A : Type) : Type := rng -> A * rng.

Definition rand_ret {A} (a : A) : Rand A := fun r => (a, r).

Definition rand_bind {A B} (m : Rand A) (k : A -> Rand B) : Rand B :=
  fun r => let (a, r') := m r in k a r'.

Definition math_random : Rand Q :=
  fun r => (rng_src r (rng_pos r), mkRng (rng_src r) (S (rng_pos r))).

Declare Scope rand_scope.
Delimit Scope rand_scope with rand.
Notation "'let!' x ':=' m 'in' k" := (rand_bind m (fun x => k))
  (at level 10, x pattern, m at level 100, k at level 200) : rand_scope.
Open Scope rand_scope.

(** The largest double below one. *)
Definition random_max : Q := (9007199254740991 # 9007199254740992)%Q.

Definition wf_rng (r : rng) : Prop :=
  forall n, (0 <= rng_src r n <= random_max)%Q.

Definition rand_post {A} (m : Rand A) (P : A -> Prop) : Prop :=
  forall r, wf_rng r -> P (fst (m r)) /\ wf_rng (snd (m r)).

Lemma rand_post_ret {A} (a : A) (P : A -> Prop) : P a -> rand_post (rand_ret a) P.
Proof. intros H r Hr. split; assumption. Qed.

Lemma rand_post_bind {A B} (m : Rand A) (k : A -> Rand B) (P : A -> Prop) (R : B -> Prop) :
  rand_post m P -> (forall a, P a -> rand_post (k a) R) -> rand_post (rand_bind m k) R.
Proof.
  intros Hm Hk r Hr. unfold rand_bind. specialize (Hm r Hr).
  destruct (m r) as [a r']. apply Hk; apply Hm.
Qed.

Lemma rand_post_weaken {A} (m : Rand A) (P R : A -> Prop) :
  rand_post m P -> (forall a, P a -> R a) -> rand_post m R.
Proof. intros Hm H r Hr. destruct (Hm r Hr). auto. Qed.

Lemma rand_post_random : rand_post math_random (fun q => 0 <= q <= random_max)%Q.
Proof. intros r Hr. split; [apply Hr | exact Hr]. Qed.

(** ** Scaling a random number to an integer range *)

Section Scaling.
Local Open Scope Q_scope.

Lemma fl_random_max : fl random_max = random_max.
Proof. reflexivity. Qed.

(** [Math.random() * n] stays below [n], rounding included. *)
Lemma random_scale_lt r n :
  0 <= r <= random_max -> (0 < n <= 2 ^ 53)%Z -> js_mul r (num n) < num n.
Proof.
  intros Hr Hn. apply Qle_lt_trans with (js_mul random_max (num n));
    [apply js_mul_mono_l; [apply num_nonneg; lia | apply Hr]|].
  destruct (Z.eq_dec n 1) as [->|N1]; [reflexivity|].
  set (k := Z.log2 (n - 1)).
  assert (Hk : (2 ^ k <= n - 1 < 2 ^ (k + 1))%Z)
    by (pose proof (Z.log2_spec (n - 1)) as H; rewrite <- Z.add_1_r in H; apply H; lia).
  assert (Hk0 : (0 <= k)%Z) by apply Z.log2_nonneg.
  assert (Hlo : two_pow k < num n)
    by (rewrite two_pow_Z by lia; apply num_lt; lia).
  assert (Hhi : num n <= two_pow (k + 1))
    by (rewrite two_pow_Z by lia; apply num_le; lia).
  assert (Hn0 : 0 < num n) by (apply num_pos; lia).
  unfold js_mul. set (x := random_max * num n).
  assert (Hx : x == num n - two_pow (-53) * num n).
  { assert (E : random_max == 1 - two_pow (-53)) by reflexivity.
    unfold x. rewrite E. ring. }
  assert (Hx0 : 0 < x) by (unfold x; apply Qmult_lt_0_compat; [reflexivity | exact Hn0]).
  pose proof (two_pow_pos (-53)) as Hp.
  destruct (fl_cases x) as [[H _]|[[_ ->]|[H _]]]; try lra.
  destruct (qlog2_spec x Hx0) as [Hq _].
  assert (Hkk : (qlog2 x < k + 1)%Z).
  { apply two_pow_lt_inv. apply Qle_lt_trans with x; [exact Hq|].
    rewrite Hx. assert (0 < two_pow (-53) * num n) by (apply Qmult_lt_0_compat; lra). lra. }
  pose proof (fl_pos_error x Hx0) as He. apply Qabs_Qle_condition in He.
  assert (Hu : two_pow (ulp_exp x - 1) <= two_pow (-53) * two_pow k).
  { rewrite <- two_pow_plus. apply two_pow_le. unfold ulp_exp, emin, precision. lia. }
  assert (Hs : two_pow (-53) * two_pow k < two_pow (-53) * num n)
    by (apply Qmult_lt_l; [exact Hp | exact Hlo]).
  clearbody x. lra.
Qed.

End Scaling.

(** [Math.floor(Math.random() * n)], the index of a uniform choice. *)
Definition random_index (n : Z) : Rand Z :=
  let! r := math_random in
  rand_ret (math_floor (js_mul r (num n))).

Lemma random_index_bounds n :
  (0 < n <= 2 ^ 53)%Z -> rand_post (random_index n) (fun i => 0 <= i < n)%Z.
Proof.
  intros Hn. eapply rand_post_bind; [apply rand_post_random|]. intros q Hq.
  apply rand_post_ret. split.
  - apply math_floor_ge. apply js_mul_nonneg; [apply Hq | apply num_nonneg; lia].
  - apply math_floor_lt, random_scale_lt; assumption.
Qed.

(** ** Weighted choice *)

(** [weights.reduce((sum, w) => sum + w, 0)] *)
Definition total_weight (weights : list Q) : Q := fold_left js_add weights 0%Q.

(** The loop [roll -= w; if (roll <= 0) return item;] over weighted items, [None]
    when it runs off the end. *)
Fixpoint roll_down {A} (roll : Q) (entries : list (A * Q)) : option A :=
  match entries with
  | [] => None
  | (item, w) :: entries' =>
      let roll := js_sub roll w in
      if js_le roll 0 then Some item else roll_down roll entries'
  end.

(** The position at which that loop stops. *)
Fixpoint roll_pos (roll : Q) (weights : list Q) : nat :=
  match weights with
  | [] => 0
  | w :: weights' =>
      let roll := js_sub roll w in
      if js_le roll 0 then 0 else S (roll_pos roll weights')
  end.

Lemma roll_down_pos {A} (entries : list (A * Q)) : forall roll,
  roll_down roll entries
  = nth_error (map fst entries) (roll_pos roll (map snd entries)).
Proof.
  induction entries as [|[a w] l IH]; intros roll; simpl; [reflexivity|].
  destruct (js_le (js_sub roll w) 0); [reflexivity | apply IH].
Qed.

Lemma roll_pos_mono weights : forall x y, (x <= y)%Q -> (roll_pos x weights <= roll_pos y weights)%nat.
Proof.
  induction weights as [|w l IH]; intros x y H; simpl; [lia|].
  assert (H' : (js_sub x w <= js_sub y w)%Q) by (apply js_sub_mono; [exact H | lra]).
  destruct (js_leP (js_sub x w) 0) as [Hx|Hx]; [lia|].
  destruct (js_leP (js_sub y w) 0) as [Hy|Hy]; [lra|].
  specialize (IH _ _ H'). lia.
Qed.

(** However the draw falls, the choice is one of the first [roll_pos] items of the
    largest draw, which is a computation for a given table. *)
Lemma roll_down_range {A} (entries : list (A * Q)) total r :
  (0 <= total)%Q -> (0 <= r <= random_max)%Q ->
  (roll_pos (js_mul random_max total) (map snd entries) < length entries)%nat ->
  exists a, roll_down (js_mul r total) entries = Some a
    /\ In a (firstn (S (roll_pos (js_mul random_max total) (map snd entries))) (map fst entries)).
Proof.
  intros Ht Hr Hlen. rewrite roll_down_pos.
  set (p := roll_pos (js_mul random_max total) _) in *.
  assert (Hp : (roll_pos (js_mul r total) (map snd entries) <= p)%nat)
    by (apply roll_pos_mono, js_mul_mono_l; [exact Ht | apply Hr]).
  set (q := roll_pos (js_mul r total) _) in *.
  destruct (nth_error (map fst entries) q) as [a|] eqn:E.
  - exists a. split; [reflexivity|].
    apply (nth_error_In _ q). rewrite nth_error_firstn.
    destruct (Nat.ltb_spec q (S p)); [exact E | lia].
  - exfalso. apply nth_error_None in E. rewrite length_map in E. lia.
Qed.

(** Step over a bind whose first computation satisfies the postcondition of [lem]. *)
Ltac rand_step lem x H := eapply rand_post_bind; [eapply lem | intros x H; cbv beta in H].

Lemma rand_post_true {A} (m : Rand A) :
  (forall r, wf_rng r -> wf_rng (snd (m r))) -> rand_post m (fun _ => True).
Proof. intros H r Hr. split; [exact I | apply H, Hr]. Qed.
