(* ===== verification/Combat.v ===== *)
(** * Damage arithmetic

    The pure scalar rules of a hit: defense mitigation
    ([src/models/combat.ts]), elemental resistance ([src/models/DamageType.ts])
    and speed-driven evasion ([src/models/evasion.ts]).  Stats are integers;
    multipliers, resistances and chances are doubles. *)
From stdpp Require Import base decidable.
From Stdlib Require Import ZArith QArith Qround Lia Lqa.
From S2P Require Import JsNumber Random.
Local Open Scope Z_scope.

(** ** Defense mitigation *)

Definition mitigateDamage (attack defense : Z) (multiplier : Q) : Z :=
  let atk := Z.max 0 attack in
  let def := Z.max 0 defense in
  let denom := atk + def in
  let raw := if denom =? 0 then 0%Q else js_div (js_mul (num atk) (num atk)) (num denom) in
  Z.max 1 (math_floor (js_mul raw multiplier)).

(** ** Damage types and resistances *)

Inductive DamageType := physical | fire | frost | arcane.

#[export] Instance DamageType_eq_dec : EqDecision DamageType.
Proof. solve_decision. Defined.

Record Resistances := mkResistances
  { res_physical : Q; res_fire : Q; res_frost : Q; res_arcane : Q }.

Definition resistance_of (r : Resistances) (t : DamageType) : Q :=
  match t with
  | physical => res_physical r
  | fire => res_fire r
  | frost => res_frost r
  | arcane => res_arcane r
  end.

Definition DEFAULT_RESISTANCES : Resistances := mkResistances 0 0 0 0.

Definition applyResistance (rawDamage : Z) (resistance : Q) : Z :=
  Z.max 0 (math_floor (js_mul (num rawDamage) (js_sub 1 resistance))).

(** ** Evasion *)

Inductive EvadeOutcome := normal | glancing | dodged.

#[export] Instance EvadeOutcome_eq_dec : EqDecision EvadeOutcome.
Proof. solve_decision. Defined.

Inductive Combatant := CPlayer | CCreature.

#[export] Instance Combatant_eq_dec : EqDecision Combatant.
Proof. solve_decision. Defined.

Module EVASION_CONFIG.
Definition glanceMultiplier : Q := lit 0.5.
Definition base_glance : Q := lit 0.08.
Definition base_dodge : Q := lit 0.03.
Definition slope_glance : Q := lit 0.012.
Definition slope_dodge : Q := lit 0.005.
Definition cap_glance (defender : Combatant) : Q :=
  match defender with CPlayer => lit 0.4 | CCreature => lit 0.16 end.
Definition cap_dodge (defender : Combatant) : Q :=
  match defender with CPlayer => lit 0.18 | CCreature => lit 0.08 end.
Definition prdDodgeGrowth : Q := lit 0.5.
End EVASION_CONFIG.

Record EvasionRoll := mkEvasionRoll { outcome : EvadeOutcome; nextDodgeStreak : Z }.

Definition clamp (n lo hi : Q) : Q := math_max lo (math_min hi n).

(** The two chances [rollEvasion] computes before it draws. *)
Definition glanceChance (attackerSpeed defenderSpeed : Z) (defender : Combatant) : Q :=
  let delta := defenderSpeed - attackerSpeed in
  clamp (js_add EVASION_CONFIG.base_glance (js_mul EVASION_CONFIG.slope_glance (num delta)))
    0 (EVASION_CONFIG.cap_glance defender).

Definition dodgeChance (attackerSpeed defenderSpeed : Z) (defender : Combatant)
    (dodgeStreak : Z) : Q :=
  let delta := defenderSpeed - attackerSpeed in
  let dodgeBase :=
    clamp (js_add EVASION_CONFIG.base_dodge (js_mul EVASION_CONFIG.slope_dodge (num delta)))
      0 (EVASION_CONFIG.cap_dodge defender) in
  math_min (EVASION_CONFIG.cap_dodge defender)
    (js_mul dodgeBase (js_add 1 (js_mul EVASION_CONFIG.prdDodgeGrowth (num dodgeStreak)))).

Definition rollEvasion (attackerSpeed defenderSpeed : Z) (defender : Combatant)
    (dodgeStreak : Z) : Rand EvasionRoll :=
  let glance := glanceChance attackerSpeed defenderSpeed defender in
  let dodge := dodgeChance attackerSpeed defenderSpeed defender dodgeStreak in
  let! r := math_random in
  rand_ret
    (if js_lt r dodge then mkEvasionRoll dodged 0
     else if js_lt r (js_add dodge glance) then mkEvasionRoll glancing (dodgeStreak + 1)
     else mkEvasionRoll normal (dodgeStreak + 1)).

Definition applyEvasionDamage (baseDamage : Z) (o : EvadeOutcome) : Z :=
  if (bool_decide (o = dodged) || (baseDamage <=? 0))%bool then 0
  else if bool_decide (o = glancing) then
    Z.max 1 (math_floor (js_mul (num baseDamage) EVASION_CONFIG.glanceMultiplier))
  else baseDamage.

(** ** Mitigation: shared facts *)

(** The value [mitigateDamage] scales by the multiplier. *)
Definition mitigated (attack defense : Z) : Q :=
  let atk := Z.max 0 attack in
  let denom := atk + Z.max 0 defense in
  if denom =? 0 then 0%Q else js_div (js_mul (num atk) (num atk)) (num denom).

Lemma mitigateDamage_eq a d m :
  mitigateDamage a d m = Z.max 1 (math_floor (js_mul (mitigated a d) m)).
Proof. reflexivity. Qed.

Lemma mitigated_nonneg a d : (0 <= mitigated a d)%Q.
Proof.
  unfold mitigated. destruct (Z.eqb_spec (Z.max 0 a + Z.max 0 d) 0); [lra|].
  apply js_div_nonneg; [apply js_mul_nonneg; apply num_nonneg; lia | apply num_pos; lia].
Qed.

Lemma mitigated_defense a d1 d2 : d1 <= d2 -> (mitigated a d2 <= mitigated a d1)%Q.
Proof.
  intros H. pose proof (mitigated_nonneg a d1) as H1. unfold mitigated in *.
  destruct (Z.eqb_spec (Z.max 0 a + Z.max 0 d2) 0) as [E2|E2]; [exact H1|].
  destruct (Z.eqb_spec (Z.max 0 a + Z.max 0 d1) 0) as [E1|E1].
  - replace (Z.max 0 a) with 0 by lia. unfold js_div, js_mul, num.
    change (inject_Z 0 * inject_Z 0)%Q with 0%Q. rewrite fl_0. unfold Qdiv.
    rewrite Qmult_0_l. rewrite fl_0. lra.
  - apply js_div_mono; [apply js_mul_nonneg; apply num_nonneg; lia | lra
      | apply num_pos; lia | apply num_le; lia].
Qed.

(** Squares up to 2^52 are computed exactly. *)
Lemma js_square a : 0 <= a <= 2 ^ 26 -> js_mul (num a) (num a) = num (a * a).
Proof. intros H. apply js_mul_Z. nia. Qed.

Lemma ratio_mono (x y d : Z) : 0 <= x <= y -> 0 <= d -> 0 < x + d ->
  (num (x * x) / num (x + d) <= num (y * y) / num (y + d))%Q.
Proof.
  intros Hxy Hd Hp. apply Qle_shift_div_r; [apply num_pos; lia|].
  assert (Hy : (0 < num (y + d))%Q) by (apply num_pos; lia).
  assert (E : (num (y * y) / num (y + d) * num (x + d)
    == num (y * y) * num (x + d) / num (y + d))%Q) by (field; lra).
  rewrite E.
  apply Qle_shift_div_l; [exact Hy|]. unfold num.
  rewrite <- !inject_Z_mult, <- Zle_Qle.
  assert (0 <= x * y * (y - x)) by (repeat apply Z.mul_nonneg_nonneg; lia).
  assert (0 <= d * ((y - x) * (y + x))) by (repeat apply Z.mul_nonneg_nonneg; lia). lia.
Qed.

Lemma mitigated_attack a1 a2 d : a1 <= a2 -> a2 <= 2 ^ 26 ->
  (mitigated a1 d <= mitigated a2 d)%Q.
Proof.
  intros H Hb. pose proof (mitigated_nonneg a2 d) as H2. unfold mitigated in *.
  destruct (Z.eqb_spec (Z.max 0 a1 + Z.max 0 d) 0) as [E1|E1]; [exact H2|].
  destruct (Z.eqb_spec (Z.max 0 a2 + Z.max 0 d) 0) as [E2|E2]; [lia|].
  rewrite !js_square by lia. apply fl_mono, ratio_mono; lia.
Qed.

Lemma mitigated_le_attack a d : 0 <= a <= 2 ^ 26 -> (mitigated a d <= num a)%Q.
Proof.
  intros Ha. unfold mitigated.
  destruct (Z.eqb_spec (Z.max 0 a + Z.max 0 d) 0) as [E|E]; [apply num_nonneg; lia|].
  rewrite Z.max_r by lia. rewrite js_square by lia. apply fl_num_le; [lia|].
  apply Qle_shift_div_r; [apply num_pos; lia|]. unfold num.
  rewrite <- !inject_Z_mult, <- Zle_Qle. nia.
Qed.

Lemma js_mul_floor_mono x y m : (0 <= m)%Q -> (x <= y)%Q ->
  math_floor (js_mul x m) <= math_floor (js_mul y m).
Proof. intros. apply math_floor_mono, js_mul_mono_l; assumption. Qed.

(** ** Mitigation: properties *)

(** The mitigation curve is monotone.  For a non-negative multiplier, raising
    the attack (up to 2^26) never lowers the damage and raising the defense never
    raises it, rounding included. *)
Theorem mitigateDamage_monotone (a1 a2 d1 d2 : Z) (m : Q) :
  a1 <= a2 -> a2 <= 2 ^ 26 -> d2 <= d1 -> (0 <= m)%Q ->
  mitigateDamage a1 d1 m <= mitigateDamage a2 d2 m.
Proof.
  intros Ha Hb Hd Hm. rewrite !mitigateDamage_eq. apply Z.max_le_compat_l.
  apply js_mul_floor_mono; [exact Hm|].
  apply Qle_trans with (mitigated a1 d2).
  - apply mitigated_defense, Hd.
  - apply mitigated_attack; assumption.
Qed.

Lemma mitigateDamage_monotone_witness :
  mitigateDamage 19 12 (lit 1.1) <= mitigateDamage 46 5 (lit 1.1).
Proof. apply mitigateDamage_monotone; [lia | lia | lia | q_compute]. Defined.

(** C40: a hit deals at least one point of damage and never more than the attack
    scaled by the multiplier (one when that is below one): defense only reduces. *)
Theorem mitigateDamage_bounds (a d : Z) (m : Q) :
  0 <= a <= 2 ^ 26 -> (0 <= m)%Q ->
  1 <= mitigateDamage a d m <= Z.max 1 (math_floor (js_mul (num a) m)).
Proof.
  intros Ha Hm. rewrite mitigateDamage_eq. split; [lia|].
  apply Z.max_le_compat_l, js_mul_floor_mono; [exact Hm|].
  apply mitigated_le_attack, Ha.
Qed.

Lemma mitigateDamage_bounds_witness :
  1 <= mitigateDamage 40 12 (lit 2.0) <= Z.max 1 (math_floor (js_mul (num 40) (lit 2.0))).
Proof. apply mitigateDamage_bounds; [lia | q_compute]. Defined.

Lemma half_is_double a : 0 <= a <= 2 ^ 53 -> is_double (num a / num 2).
Proof.
  intros H. assert (E : (num a / num 2 == inject_Z a * two_pow (-1))%Q) by reflexivity.
  rewrite E. apply is_double_dyadic; [lia | unfold emin; lia].
Qed.

Lemma floor_half a : math_floor (num a / num 2) = a / 2.
Proof. unfold math_floor, num, Qdiv, inject_Z, Qinv, Qmult, Qfloor; simpl. f_equal. lia. Qed.

(** Defense equal to attack halves a basic hit, as the comment in
    [combat.ts] says: the damage is [floor (a / 2)], at least one. *)
Theorem mitigateDamage_even (a : Z) :
  0 <= a <= 2 ^ 26 -> mitigateDamage a a 1 = Z.max 1 (a / 2).
Proof.
  intros Ha. rewrite mitigateDamage_eq. f_equal.
  assert (E : (mitigated a a == num a / num 2)%Q).
  { unfold mitigated. rewrite Z.max_r by lia.
    destruct (Z.eqb_spec (a + a) 0) as [E|E]; [replace a with 0 by lia; reflexivity|].
    rewrite js_square by lia. unfold js_div.
    assert (E' : (num (a * a) / num (a + a) == num a / num 2)%Q).
    { unfold num. rewrite inject_Z_mult, inject_Z_plus. change (inject_Z 2) with 2%Q.
      assert (0 < inject_Z a)%Q by (apply (num_pos a); lia). field. lra. }
    rewrite (fl_proper _ _ E'). apply half_is_double. lia. }
  rewrite <- (floor_half a). apply math_floor_proper.
  rewrite js_mul_1_r; [exact E|]. rewrite E. apply half_is_double. lia.
Qed.

Lemma mitigateDamage_even_witness : mitigateDamage 19 19 1 = Z.max 1 (19 / 2).
Proof. apply mitigateDamage_even. lia. Defined.

(** ** Resistances: properties *)

Lemma applyResistance_mono raw r1 r2 : 0 <= raw -> (r1 <= r2)%Q ->
  applyResistance raw r2 <= applyResistance raw r1.
Proof.
  intros Hr H. unfold applyResistance. apply Z.max_le_compat_l, math_floor_mono.
  apply js_mul_mono_r; [apply num_nonneg, Hr|]. apply js_sub_mono; lra.
Qed.

Lemma applyResistance_0 raw : 0 <= raw <= 2 ^ 53 -> applyResistance raw 0 = raw.
Proof.
  intros H. unfold applyResistance. change (js_sub 1 0) with 1%Q.
  rewrite (math_floor_proper _ _ (js_mul_1_r (num raw) (is_double_Z raw ltac:(lia)))).
  unfold num. rewrite math_floor_Z. lia.
Qed.

Lemma applyResistance_1 raw : applyResistance raw 1 = 0.
Proof.
  unfold applyResistance. change (js_sub 1 1) with 0%Q.
  assert (E : (num raw * 0 == 0)%Q) by ring. unfold js_mul.
  rewrite (fl_proper _ _ E). reflexivity.
Qed.

Lemma applyResistance_m1 raw : 0 <= raw <= 2 ^ 52 -> applyResistance raw (-1) = 2 * raw.
Proof.
  intros H. unfold applyResistance. change (js_sub 1 (-1)) with (num 2).
  rewrite js_mul_Z by lia. unfold num. rewrite math_floor_Z. lia.
Qed.

(** Over its documented range [-1, 1] a resistance never makes damage
    negative and at most doubles it; resisting never raises the damage,
    vulnerability never lowers it, 0 is neutral, 1 is immunity and a higher
    resistance never lets more damage through. *)
Theorem applyResistance_range (raw : Z) (r r' : Q) :
  0 <= raw <= 2 ^ 52 -> (-1 <= r)%Q -> (r <= r')%Q -> (r' <= 1)%Q ->
  0 <= applyResistance raw r' <= applyResistance raw r
  /\ applyResistance raw r <= 2 * raw
  /\ ((0 <= r)%Q -> applyResistance raw r <= raw)
  /\ ((r <= 0)%Q -> raw <= applyResistance raw r)
  /\ applyResistance raw 0 = raw /\ applyResistance raw 1 = 0.
Proof.
  intros Hraw H1 H2 H3. repeat split.
  - unfold applyResistance. lia.
  - apply applyResistance_mono; [lia | exact H2].
  - rewrite <- (applyResistance_m1 raw) by lia. apply applyResistance_mono; [lia | exact H1].
  - intros H. rewrite <- (applyResistance_0 raw) at 2 by lia.
    apply applyResistance_mono; [lia | exact H].
  - intros H. rewrite <- (applyResistance_0 raw) at 1 by lia.
    apply applyResistance_mono; [lia | exact H].
  - apply applyResistance_0. lia.
  - apply applyResistance_1.
Qed.

Lemma applyResistance_range_witness :
  0 <= applyResistance 100 (lit 0.25) <= applyResistance 100 (lit (-0.25))
  /\ applyResistance 100 (lit (-0.25)) <= 2 * 100
  /\ ((0 <= lit (-0.25))%Q -> applyResistance 100 (lit (-0.25)) <= 100)
  /\ ((lit (-0.25) <= 0)%Q -> 100 <= applyResistance 100 (lit (-0.25)))
  /\ applyResistance 100 0 = 100 /\ applyResistance 100 1 = 0.
Proof. apply applyResistance_range; [lia | q_compute | q_compute | q_compute]. Defined.

(** ** Evasion: properties *)

Lemma clamp_bounds n lo hi : (lo <= hi)%Q -> (lo <= clamp n lo hi <= hi)%Q.
Proof.
  intros H. unfold clamp. destruct (math_max_spec lo (math_min hi n)) as (A & B & C).
  destruct (math_min_spec hi n) as (D & E & F). split; [exact A|].
  destruct C as [-> | ->]; assumption.
Qed.

Lemma cap_dodge_nonneg c : (0 <= EVASION_CONFIG.cap_dodge c)%Q.
Proof. destruct c; q_compute. Qed.

Lemma cap_glance_nonneg c : (0 <= EVASION_CONFIG.cap_glance c)%Q.
Proof. destruct c; q_compute. Qed.

Lemma math_min_mono a b c : (b <= c)%Q -> (math_min a b <= math_min a c)%Q.
Proof.
  intros H. destruct (math_min_spec a b) as (A & B & _).
  destruct (math_min_spec a c) as (_ & _ & [-> | ->]); lra.
Qed.

Lemma math_min_glb a b c : (c <= a)%Q -> (c <= b)%Q -> (c <= math_min a b)%Q.
Proof. intros. destruct (math_min_spec a b) as (_ & _ & [-> | ->]); assumption. Qed.

Lemma dodge_growth_mono s t : s <= t ->
  (js_add 1 (js_mul EVASION_CONFIG.prdDodgeGrowth (num s))
   <= js_add 1 (js_mul EVASION_CONFIG.prdDodgeGrowth (num t)))%Q.
Proof.
  intros H. apply js_add_mono; [lra|]. apply js_mul_mono_r; [q_compute | apply num_le, H].
Qed.

Lemma dodgeChance_bounds a d c s : 0 <= s ->
  (0 <= dodgeChance a d c s <= EVASION_CONFIG.cap_dodge c)%Q.
Proof.
  intros Hs. unfold dodgeChance. split; [|apply math_min_spec].
  apply math_min_glb; [apply cap_dodge_nonneg|].
  apply js_mul_nonneg; [apply clamp_bounds, cap_dodge_nonneg|].
  apply js_add_nonneg; [lra|]. apply js_mul_nonneg; [q_compute | apply num_nonneg, Hs].
Qed.

Lemma dodgeChance_mono a d c s t : s <= t ->
  (dodgeChance a d c s <= dodgeChance a d c t)%Q.
Proof.
  intros H. unfold dodgeChance. apply math_min_mono.
  apply js_mul_mono_r; [apply clamp_bounds, cap_dodge_nonneg | apply dodge_growth_mono, H].
Qed.

Lemma clamp_mono n n' lo hi : (n <= n')%Q -> (clamp n lo hi <= clamp n' lo hi)%Q.
Proof.
  intros H. unfold clamp. pose proof (math_min_mono hi n n' H) as M.
  destruct (math_max_spec lo (math_min hi n')) as (A & B & _).
  destruct (math_max_spec lo (math_min hi n)) as (_ & _ & [-> | ->]); lra.
Qed.

(** A roll dodges exactly when the draw falls below the dodge chance; that
    chance stays between 0 and the defender's ceiling and never shrinks as the
    run of non-dodges grows; a draw at or above both ceilings together is a
    normal hit; and the streak restarts at 0 on a dodge and grows by one
    otherwise. *)
Theorem rollEvasion_correct (a d s : Z) (c : Combatant) (r : rng) :
  0 <= s ->
  let q := rng_src r (rng_pos r) in
  let e := fst (rollEvasion a d c s r) in
  (outcome e = dodged <-> (q < dodgeChance a d c s)%Q)
  /\ (0 <= dodgeChance a d c s <= EVASION_CONFIG.cap_dodge c)%Q
  /\ (dodgeChance a d c s <= dodgeChance a d c (s + 1))%Q
  /\ ((js_add (EVASION_CONFIG.cap_dodge c) (EVASION_CONFIG.cap_glance c) <= q)%Q ->
      outcome e = normal)
  /\ nextDodgeStreak e = (if bool_decide (outcome e = dodged) then 0 else s + 1).
Proof.
  intros Hs q e. pose proof (dodgeChance_bounds a d c s Hs) as Hb.
  assert (Hg : (glanceChance a d c <= EVASION_CONFIG.cap_glance c)%Q)
    by apply clamp_bounds, cap_glance_nonneg.
  assert (Hsum := js_add_mono _ _ _ _ (proj2 Hb) Hg).
  assert (Hcap : (EVASION_CONFIG.cap_dodge c
    <= js_add (EVASION_CONFIG.cap_dodge c) (EVASION_CONFIG.cap_glance c))%Q)
    by (destruct c; q_compute).
  subst e. unfold rollEvasion, rand_bind, math_random, rand_ret. simpl fst. fold q.
  destruct (js_ltP q (dodgeChance a d c s)) as [H1|H1];
  [|destruct (js_ltP q (js_add (dodgeChance a d c s) (glanceChance a d c))) as [H2|H2]];
  simpl outcome; simpl nextDodgeStreak; repeat split; try easy; try apply Hb;
  try (apply dodgeChance_mono; lia); intros; exfalso; lra.
Qed.

Lemma rollEvasion_correct_witness :
  let r := mkRng (fun _ => 1 # 100)%Q 0 in
  let e := fst (rollEvasion 10 16 CPlayer 2 r) in
  (outcome e = dodged <-> (1 # 100 < dodgeChance 10 16 CPlayer 2)%Q)
  /\ (0 <= dodgeChance 10 16 CPlayer 2 <= EVASION_CONFIG.cap_dodge CPlayer)%Q
  /\ (dodgeChance 10 16 CPlayer 2 <= dodgeChance 10 16 CPlayer (2 + 1))%Q
  /\ ((js_add (EVASION_CONFIG.cap_dodge CPlayer) (EVASION_CONFIG.cap_glance CPlayer)
        <= 1 # 100)%Q -> outcome e = normal)
  /\ nextDodgeStreak e = (if bool_decide (outcome e = dodged) then 0 else 2 + 1).
Proof. apply (rollEvasion_correct 10 16 2 CPlayer (mkRng (fun _ => 1 # 100)%Q 0)). lia. Defined.

Lemma dodgeChance_speed a d d' c s : 0 <= s -> d <= d' ->
  (dodgeChance a d c s <= dodgeChance a d' c s)%Q.
Proof.
  intros Hs H. unfold dodgeChance. apply math_min_mono, js_mul_mono_l.
  - apply js_add_nonneg; [lra|]. apply js_mul_nonneg; [q_compute | apply num_nonneg, Hs].
  - apply clamp_mono, js_add_mono; [lra|].
    apply js_mul_mono_r; [q_compute | apply num_le; lia].
Qed.

Lemma dodgeChance_shift a d c s : dodgeChance a d c s = dodgeChance 0 (d - a) c s.
Proof. unfold dodgeChance. replace (d - a - 0) with (d - a) by lia. reflexivity. Qed.

(** Streak protection.  A defender at least as fast as the attacker reaches
    its full dodge ceiling after ten hits in a row that were not dodged, so a
    drought never leaves it below that ceiling. *)
Theorem dodgeChance_ramp (a d s : Z) (c : Combatant) :
  a <= d -> 10 <= s -> (dodgeChance a d c s == EVASION_CONFIG.cap_dodge c)%Q.
Proof.
  intros Hd Hs. apply Qle_antisym; [apply dodgeChance_bounds; lia|].
  rewrite dodgeChance_shift.
  apply Qle_trans with (dodgeChance 0 0 c 10); [destruct c; q_compute|].
  apply Qle_trans with (dodgeChance 0 (d - a) c 10).
  - apply dodgeChance_speed; lia.
  - apply dodgeChance_mono, Hs.
Qed.

Lemma dodgeChance_ramp_witness :
  (dodgeChance 12 15 CCreature 11 == EVASION_CONFIG.cap_dodge CCreature)%Q.
Proof. apply dodgeChance_ramp; lia. Defined.

(** An evasion outcome never invents or amplifies damage: a dodge deals
    nothing, a normal hit deals the base damage, a glancing hit deals half of it
    rounded down but at least one point, and a zero-damage swing stays zero. *)
Theorem applyEvasionDamage_spec (base : Z) (o : EvadeOutcome) :
  0 <= base <= 2 ^ 53 ->
  applyEvasionDamage base o =
    match o with
    | dodged => 0
    | glancing => if base =? 0 then 0 else Z.max 1 (base / 2)
    | normal => base
    end
  /\ 0 <= applyEvasionDamage base o <= base.
Proof.
  intros Hb.
  assert (E : math_floor (js_mul (num base) EVASION_CONFIG.glanceMultiplier) = base / 2).
  { rewrite <- floor_half. apply math_floor_proper.
    assert (E : (num base * EVASION_CONFIG.glanceMultiplier == num base / num 2)%Q) by reflexivity.
    unfold js_mul. rewrite (fl_proper _ _ E). apply half_is_double, Hb. }
  assert (Hd : base / 2 <= base) by (apply Z.div_le_upper_bound; lia).
  assert (Hd0 : 0 <= base / 2) by (apply Z.div_pos; lia).
  unfold applyEvasionDamage. rewrite E.
  destruct o; simpl; destruct (Z.leb_spec base 0); destruct (Z.eqb_spec base 0); simpl; lia.
Qed.

Lemma applyEvasionDamage_spec_witness :
  applyEvasionDamage 7 glancing = (if 7 =? 0 then 0 else Z.max 1 (7 / 2))
  /\ 0 <= applyEvasionDamage 7 glancing <= 7.
Proof. apply (applyEvasionDamage_spec 7 glancing). lia. Defined.
