(* ===== verification/Archetype.v ===== *)
(** * Archetypes

    [src/models/Archetype.ts]: the three classes, their attribute growth and the
    combat stats derived from strength and agility. *)
From stdpp Require Import base decidable strings.
From Stdlib Require Import ZArith QArith Lia Lqa.
From S2P Require Import JsNumber.
Local Open Scope Z_scope.

Inductive Archetype := Martial | Agile | Mage.

#[export] Instance Archetype_eq_dec : EqDecision Archetype.
Proof. solve_decision. Defined.

Inductive Resource := rage | energy | mana.

Record ArchetypeConfig := mkArchetypeConfig {
  ac_name : string;
  ac_description : string;
  ac_resource : Resource;
  strBase : Z;
  strPerLevel : Z;
  agiBase : Z;
  agiPerLevel : Z;
  intBase : Z;
  intPerLevel : Z;
  hpConstant : Z
}.

Definition ARCHETYPE_CONFIGS (a : Archetype) : ArchetypeConfig :=
  match a with
  | Martial => {|
      ac_name := "Warrior";
      ac_description := "Melee physical damage dealer. High armor and health, fuelled by rage.";
      ac_resource := rage;
      strBase := 10; strPerLevel := 3;
      agiBase := 6; agiPerLevel := 1;
      intBase := 4; intPerLevel := 0;
      hpConstant := 64 |}
  | Agile => {|
      ac_name := "Rogue";
      ac_description :=
        "Finesse fighter. Swift and precise, medium survivability, fuelled by energy.";
      ac_resource := energy;
      strBase := 6; strPerLevel := 1;
      agiBase := 10; agiPerLevel := 3;
      intBase := 6; intPerLevel := 1;
      hpConstant := 52 |}
  | Mage => {|
      ac_name := "Mage";
      ac_description :=
        "Elemental spellcaster. Devastating spell damage, fragile body, fuelled by mana.";
      ac_resource := mana;
      strBase := 4; strPerLevel := 0;
      agiBase := 6; agiPerLevel := 1;
      intBase := 10; intPerLevel := 3;
      hpConstant := 42 |}
  end.

Record Attributes := mkAttributes { a_str : Z; a_agi : Z; a_int : Z }.

Definition computeAttributes (archetype : Archetype) (level : Z) : Attributes :=
  let cfg := ARCHETYPE_CONFIGS archetype in
  let l := Z.max 1 level in
  {| a_str := strBase cfg + (l - 1) * strPerLevel cfg;
     a_agi := agiBase cfg + (l - 1) * agiPerLevel cfg;
     a_int := intBase cfg + (l - 1) * intPerLevel cfg |}.

Definition deriveAttack (str agi : Z) : Z :=
  Z.max 1 (math_floor (js_add
    (js_add (js_mul (num str) (lit 0.8)) (js_mul (num agi) (lit 0.6))) (num 8))).

Definition deriveDefense (str agi : Z) : Z :=
  Z.max 1 (math_floor (js_add (js_mul (num str) (lit 0.5)) (js_mul (num agi) (lit 0.25)))).

Definition deriveMaxHp (archetype : Archetype) (str agi : Z) : Z :=
  hpConstant (ARCHETYPE_CONFIGS archetype) + str * 3 + agi * 1.

Definition deriveSpeed (agi : Z) : Z :=
  Z.max 1 (math_floor (js_add (js_mul (num agi) (lit 0.6)) (num 5))).

#[global] Arguments deriveAttack : simpl never.
#[global] Arguments deriveDefense : simpl never.
#[global] Arguments deriveMaxHp : simpl never.
#[global] Arguments deriveSpeed : simpl never.

(** ** Lemmas *)

(** Levelling up by one adds the per-level growth to each attribute. *)
Lemma computeAttributes_step a l : 1 <= l ->
  computeAttributes a (l + 1) =
    let cfg := ARCHETYPE_CONFIGS a in let p := computeAttributes a l in
    {| a_str := a_str p + strPerLevel cfg;
       a_agi := a_agi p + agiPerLevel cfg;
       a_int := a_int p + intPerLevel cfg |}.
Proof.
  intros H. unfold computeAttributes; simpl. rewrite !Z.max_r by lia. f_equal; lia.
Qed.

Lemma growth_nonneg a : let cfg := ARCHETYPE_CONFIGS a in
  0 <= strPerLevel cfg /\ 0 <= agiPerLevel cfg /\ 0 <= intPerLevel cfg
  /\ 4 <= strBase cfg /\ 6 <= agiBase cfg /\ 4 <= intBase cfg /\ 42 <= hpConstant cfg.
Proof. destruct a; simpl; lia. Qed.

Lemma computeAttributes_mono a l l' : l <= l' ->
  let p := computeAttributes a l in let p' := computeAttributes a l' in
  4 <= a_str p <= a_str p' /\ 6 <= a_agi p <= a_agi p' /\ 4 <= a_int p <= a_int p'.
Proof.
  intros H. pose proof (growth_nonneg a) as G. unfold computeAttributes; simpl in *. nia.
Qed.

Lemma deriveAttack_mono s s' g g' : s <= s' -> g <= g' -> deriveAttack s g <= deriveAttack s' g'.
Proof.
  intros. unfold deriveAttack. apply Z.max_le_compat_l, math_floor_mono.
  repeat apply js_add_mono; try lra;
    (apply js_mul_mono_l; [q_compute | apply num_le; assumption]).
Qed.

Lemma deriveDefense_mono s s' g g' : s <= s' -> g <= g' -> deriveDefense s g <= deriveDefense s' g'.
Proof.
  intros. unfold deriveDefense. apply Z.max_le_compat_l, math_floor_mono.
  apply js_add_mono; (apply js_mul_mono_l; [q_compute | apply num_le; assumption]).
Qed.

Lemma deriveSpeed_mono g g' : g <= g' -> deriveSpeed g <= deriveSpeed g'.
Proof.
  intros. unfold deriveSpeed. apply Z.max_le_compat_l, math_floor_mono.
  apply js_add_mono; [|lra]. apply js_mul_mono_l; [q_compute | apply num_le; assumption].
Qed.

(** ** Properties *)

(** Gaining levels never weakens a character: for every archetype the
    attributes and the stats derived from them are monotone in the level and
    never fall below the level-1 floor (attack 14, defense 3, speed 8, 60 HP). *)
Theorem derived_stats_monotone (a : Archetype) (l l' : Z) :
  l <= l' ->
  let p := computeAttributes a l in let p' := computeAttributes a l' in
  14 <= deriveAttack (a_str p) (a_agi p) <= deriveAttack (a_str p') (a_agi p')
  /\ 3 <= deriveDefense (a_str p) (a_agi p) <= deriveDefense (a_str p') (a_agi p')
  /\ 8 <= deriveSpeed (a_agi p) <= deriveSpeed (a_agi p')
  /\ 60 <= deriveMaxHp a (a_str p) (a_agi p) <= deriveMaxHp a (a_str p') (a_agi p').
Proof.
  intros H p p'. destruct (computeAttributes_mono a l l' H) as ([S S'] & [A A'] & _).
  fold p p' in S, S', A, A'. repeat split.
  - transitivity (deriveAttack 4 6); [q_compute | apply deriveAttack_mono; lia].
  - apply deriveAttack_mono; lia.
  - transitivity (deriveDefense 4 6); [q_compute | apply deriveDefense_mono; lia].
  - apply deriveDefense_mono; lia.
  - transitivity (deriveSpeed 6); [q_compute | apply deriveSpeed_mono; lia].
  - apply deriveSpeed_mono; lia.
  - unfold deriveMaxHp. pose proof (growth_nonneg a) as G. simpl in G. lia.
  - unfold deriveMaxHp. lia.
Qed.

Lemma derived_stats_monotone_witness :
  let p := computeAttributes Mage 1 in let p' := computeAttributes Mage 10 in
  14 <= deriveAttack (a_str p) (a_agi p) <= deriveAttack (a_str p') (a_agi p')
  /\ 3 <= deriveDefense (a_str p) (a_agi p) <= deriveDefense (a_str p') (a_agi p')
  /\ 8 <= deriveSpeed (a_agi p) <= deriveSpeed (a_agi p')
  /\ 60 <= deriveMaxHp Mage (a_str p) (a_agi p) <= deriveMaxHp Mage (a_str p') (a_agi p').
Proof. apply (derived_stats_monotone Mage 1 10). lia. Defined.

(** The baseline table in the comment of [Archetype.ts] (lines 23 to 27), checked
    against the code: every entry agrees except the level-10 hit points, which the
    comment gives as 181 and the code computes as 190. *)
Theorem martial_baseline :
  let at_level l := computeAttributes Martial l in
  let p1 := at_level 1 in let p10 := at_level 10 in
  (deriveAttack (a_str p1) (a_agi p1), deriveAttack (a_str p10) (a_agi p10)) = (19, 46)
  /\ (deriveDefense (a_str p1) (a_agi p1), deriveDefense (a_str p10) (a_agi p10)) = (6, 22)
  /\ (deriveMaxHp Martial (a_str p1) (a_agi p1), deriveMaxHp Martial (a_str p10) (a_agi p10))
     = (100, 190).
Proof. vm_compute. auto. Qed.
