(* ===== verification/Ability.v ===== *)
(** * Abilities and status effects

    [src/models/Ability.ts] (the ability primitives, their resolution and the
    per-turn status effects) and [src/constants/abilities.ts] (the rosters). *)
From stdpp Require Import base decidable strings list.
From Stdlib Require Import ZArith QArith Lia Lqa.
From S2P Require Import Prelude JsNumber Combat Archetype.
Local Open Scope Z_scope.

Record AbilityBase := mkAbilityBase {
  ab_id : string;
  ab_name : string;
  ab_resourceCost : Z;
  ab_icon : string
}.

Record StatModifiers := mkStatModifiers { sm_attack : option Z; sm_defense : option Z }.

Inductive Ability :=
  | DirectAbility (b : AbilityBase) (damageMultiplier : Q) (damageType : DamageType)
  | DotAbility (b : AbilityBase) (damagePerTick tickCount : Z) (damageType : DamageType)
  | BuffDebuffAbility (b : AbilityBase) (tickDuration : Z) (statModifiers : StatModifiers)
      (targetSelf : bool)
  | DefensiveAbility (b : AbilityBase) (healAmount : option Z) (healPercent : option Q)
      (shieldAmount : option Z).

Definition ability_base (a : Ability) : AbilityBase :=
  match a with
  | DirectAbility b _ _ | DotAbility b _ _ _
  | BuffDebuffAbility b _ _ _ | DefensiveAbility b _ _ _ => b
  end.

Definition resourceCost (a : Ability) : Z := ab_resourceCost (ability_base a).
Definition ability_name (a : Ability) : string := ab_name (ability_base a).

Inductive EffectType := dot | buff | debuff.

#[export] Instance EffectType_eq_dec : EqDecision EffectType.
Proof. solve_decision. Defined.

Record StatusEffect := mkStatusEffect {
  se_id : string;
  se_type : EffectType;
  remainingTicks : Z;
  se_damagePerTick : option Z;
  se_damageType : option DamageType;
  se_statModifiers : option StatModifiers
}.

Record CombatantState := mkCombatantState { statusEffects : list StatusEffect; resource : Z }.

Record ResourceConfig := mkResourceConfig { rc_max : Z; startValue : Z; regenPerTurn : Z }.

Definition RESOURCE_CONFIGS (a : Archetype) : ResourceConfig :=
  match a with
  | Martial => mkResourceConfig 100 0 10
  | Agile => mkResourceConfig 100 80 15
  | Mage => mkResourceConfig 100 100 20
  end.

Record AbilityResult := mkAbilityResult {
  ar_damage : Z; ar_heal : Z; ar_shield : Z; ar_appliedEffects : list StatusEffect
}.

Record DotEffect := mkDotEffect {
  de_damage : Z; de_damageType : option DamageType; de_sourceId : option string
}.

Record TickResult := mkTickResult {
  tr_dotDamage : Z; tr_dotEffects : list DotEffect; tr_updatedState : CombatantState
}.

(** ** Operations *)

Definition initCombatState (archetype : Archetype) : CombatantState :=
  {| statusEffects := []; resource := startValue (RESOURCE_CONFIGS archetype) |}.

Definition regenResource (state : CombatantState) (archetype : Archetype) : CombatantState :=
  let cfg := RESOURCE_CONFIGS archetype in
  {| statusEffects := statusEffects state;
     resource := Z.min (rc_max cfg) (resource state + regenPerTurn cfg) |}.

(** One iteration of the loop of [tickStatusEffects]: the accumulators are the
    running damage, the per-effect breakdown and the surviving effects. *)
Definition tick_one (acc : Z * list DotEffect * list StatusEffect) (effect : StatusEffect)
    : Z * list DotEffect * list StatusEffect :=
  let '(dotDamage, dotEffects, remaining) := acc in
  let '(dotDamage, dotEffects) :=
    match se_type effect, se_damagePerTick effect with
    | dot, Some d =>
        (dotDamage + d,
         dotEffects ++ [mkDotEffect d (se_damageType effect) (Some (se_id effect))])
    | _, _ => (dotDamage, dotEffects)
    end in
  let remaining :=
    if 1 <? remainingTicks effect then
      remaining ++
        [mkStatusEffect (se_id effect) (se_type effect) (remainingTicks effect - 1)
           (se_damagePerTick effect) (se_damageType effect) (se_statModifiers effect)]
    else remaining in
  (dotDamage, dotEffects, remaining).

Definition tickStatusEffects (state : CombatantState) : TickResult :=
  let '(dotDamage, dotEffects, remaining) :=
    fold_left tick_one (statusEffects state) (0, [], []) in
  {| tr_dotDamage := dotDamage;
     tr_dotEffects := dotEffects;
     tr_updatedState := {| statusEffects := remaining; resource := resource state |} |}.

Definition add_modifiers (acc : Z * Z) (effect : StatusEffect) : Z * Z :=
  let '(attack, defense) := acc in
  match se_statModifiers effect with
  | Some m => (attack + default 0 (sm_attack m), defense + default 0 (sm_defense m))
  | None => (attack, defense)
  end.

Record EffectiveStats := mkEffectiveStats { es_attack : Z; es_defense : Z }.

Definition computeEffectiveStats (baseAttack baseDefense : Z) (effects : list StatusEffect)
    : EffectiveStats :=
  let '(attack, defense) := fold_left add_modifiers effects (baseAttack, baseDefense) in
  {| es_attack := Z.max 1 attack; es_defense := Z.max 0 defense |}.

Definition resolveAbility (ability : Ability) (casterAttack targetDefense : Z)
    (targetResistances : Resistances) (casterMaxHp : Z) : AbilityResult :=
  match ability with
  | DirectAbility _ damageMultiplier damageType =>
      let rawDamage := mitigateDamage casterAttack targetDefense damageMultiplier in
      let damage := applyResistance rawDamage (resistance_of targetResistances damageType) in
      mkAbilityResult damage 0 0 []
  | DotAbility b damagePerTick tickCount damageType =>
      let effect := mkStatusEffect (ab_id b) dot tickCount (Some damagePerTick)
                      (Some damageType) None in
      mkAbilityResult 0 0 0 [effect]
  | BuffDebuffAbility b tickDuration statModifiers targetSelf =>
      let effect := mkStatusEffect (ab_id b) (if targetSelf then buff else debuff)
                      tickDuration None None (Some statModifiers) in
      mkAbilityResult 0 0 0 [effect]
  | DefensiveAbility _ healAmount healPercent shieldAmount =>
      let heal := default 0 healAmount +
        match healPercent with
        | Some p => math_floor (js_mul (num casterMaxHp) p)
        | None => 0
        end in
      mkAbilityResult 0 heal (default 0 shieldAmount) []
  end.

(** ** Rosters *)

Definition ARCHETYPE_ABILITIES (a : Archetype) : list Ability :=
  match a with
  | Martial => [
      DirectAbility (mkAbilityBase "strike" "Strike" 0 "⚔️") (lit 1.1) physical;
      DirectAbility (mkAbilityBase "power_strike" "Power Strike" 30 "💪") (lit 2.0) physical;
      BuffDebuffAbility (mkAbilityBase "battle_cry" "Battle Cry" 20 "📣") 3
        (mkStatModifiers (Some 10) None) true;
      DirectAbility (mkAbilityBase "execute" "Execute" 60 "💀") (lit 3.5) physical ]
  | Agile => [
      DirectAbility (mkAbilityBase "quick_slash" "Quick Slash" 0 "🗡️") (lit 0.85) physical;
      DirectAbility (mkAbilityBase "twin_fangs" "Twin Fangs" 20 "⚡") (lit 1.5) physical;
      DotAbility (mkAbilityBase "hemorrhage" "Hemorrhage" 25 "🩸") 8 3 physical;
      DefensiveAbility (mkAbilityBase "evasive_leap" "Evasive Leap" 30 "🌀")
        (Some 12) None None ]
  | Mage => [
      DirectAbility (mkAbilityBase "arcane_bolt" "Arcane Bolt" 15 "✨") (lit 1.0) arcane;
      DirectAbility (mkAbilityBase "fireball" "Fireball" 30 "🔥") (lit 1.8) fire;
      DirectAbility (mkAbilityBase "frost_bolt" "Frost Bolt" 20 "❄️") (lit 1.3) frost;
      DotAbility (mkAbilityBase "immolate" "Immolate" 40 "🌋") 12 4 fire;
      DirectAbility (mkAbilityBase "arcane_surge" "Arcane Surge" 50 "🌟") (lit 3.0) arcane ]
  end.

(** ** Status effects: lemmas *)

(** What one effect contributes to a tick, and what is left of it afterwards. *)
Definition dot_of (e : StatusEffect) : option DotEffect :=
  match se_type e, se_damagePerTick e with
  | dot, Some d => Some (mkDotEffect d (se_damageType e) (Some (se_id e)))
  | _, _ => None
  end.

Definition effect_damage (e : StatusEffect) : Z := default 0 (de_damage <$> dot_of e).

Definition with_ticks (e : StatusEffect) (n : Z) : StatusEffect :=
  mkStatusEffect (se_id e) (se_type e) n (se_damagePerTick e) (se_damageType e)
    (se_statModifiers e).

Definition survive (e : StatusEffect) : option StatusEffect :=
  if 1 <? remainingTicks e then Some (with_ticks e (remainingTicks e - 1)) else None.

Lemma tick_fold l : forall d es rem,
  fold_left tick_one l (d, es, rem) =
    (d + sumZ (effect_damage <$> l), es ++ omap dot_of l, rem ++ omap survive l).
Proof.
  induction l as [|e l IH]; intros d es rem; csimpl.
  - rewrite !app_nil_r. f_equal. f_equal. lia.
  - destruct e as [i t n [x|] dt sm]; destruct t;
      unfold effect_damage at 1, dot_of at 1 2, survive at 1, with_ticks; simpl;
      destruct (1 <? n); rewrite IH, <- ?app_assoc; csimpl; f_equal; f_equal; lia.
Qed.

Lemma tickStatusEffects_eq st :
  tickStatusEffects st =
    {| tr_dotDamage := sumZ (effect_damage <$> statusEffects st);
       tr_dotEffects := omap dot_of (statusEffects st);
       tr_updatedState :=
         {| statusEffects := omap survive (statusEffects st); resource := resource st |} |}.
Proof. unfold tickStatusEffects. rewrite tick_fold. reflexivity. Qed.

(** [n] consecutive ticks: the damage they deal in total and the final state. *)
Fixpoint tick_n (n : nat) (st : CombatantState) : Z * CombatantState :=
  match n with
  | O => (0, st)
  | S n' =>
      let t := tickStatusEffects st in
      let (d, st') := tick_n n' (tr_updatedState t) in
      (tr_dotDamage t + d, st')
  end.

(** Number of ticks an effect takes part in. *)
Definition lifetime (e : StatusEffect) : Z := Z.max 1 (remainingTicks e).

Definition damage_within (n : nat) (e : StatusEffect) : Z :=
  effect_damage e * Z.min (Z.of_nat n) (lifetime e).

Lemma damage_within_step n e :
  damage_within (S n) e = effect_damage e + default 0 (damage_within n <$> survive e).
Proof.
  unfold survive, damage_within. destruct (Z.ltb_spec 1 (remainingTicks e)) as [H|H]; simpl.
  - unfold lifetime; simpl. change (effect_damage (with_ticks e _)) with (effect_damage e).
    replace (Z.min (Z.of_nat (S n)) (Z.max 1 (remainingTicks e)))
      with (1 + Z.min (Z.of_nat n) (Z.max 1 (remainingTicks e - 1))) by lia. lia.
  - unfold lifetime. replace (Z.min (Z.of_nat (S n)) (Z.max 1 (remainingTicks e))) with 1 by lia.
    lia.
Qed.

Lemma survive_damage n l :
  sumZ (damage_within (S n) <$> l)
  = sumZ (effect_damage <$> l) + sumZ (damage_within n <$> omap survive l).
Proof.
  induction l as [|e l IH]; [reflexivity|]. csimpl. rewrite IH, damage_within_step.
  destruct (survive e); csimpl; lia.
Qed.

(** What is left of an effect after [n] ticks. *)
Definition survive_n (n : nat) (e : StatusEffect) : option StatusEffect :=
  if Z.of_nat n <? lifetime e then Some (with_ticks e (remainingTicks e - Z.of_nat n)) else None.

Lemma survive_n_step n e :
  (survive e ≫= survive_n n) = survive_n (S n) e.
Proof.
  unfold survive, survive_n, lifetime.
  destruct (Z.ltb_spec 1 (remainingTicks e)) as [H|H]; simpl.
  - destruct (Z.ltb_spec (Z.of_nat n) (Z.max 1 (remainingTicks e - 1)));
    destruct (Z.ltb_spec (Z.of_nat (S n)) (Z.max 1 (remainingTicks e))); try lia; [|reflexivity].
    unfold with_ticks; simpl. f_equal. f_equal. lia.
  - destruct (Z.ltb_spec (Z.of_nat (S n)) (Z.max 1 (remainingTicks e))); [lia | reflexivity].
Qed.

Lemma omap_survive_step n (l : list StatusEffect) :
  omap (survive_n n) (omap survive l) = omap (survive_n (S n)) l.
Proof.
  induction l as [|e l IH]; [reflexivity|]. csimpl. rewrite <- survive_n_step.
  destruct (survive e) as [e'|]; csimpl; [destruct (survive_n n e')|]; rewrite IH; reflexivity.
Qed.

Lemma omap_survive_0 (l : list StatusEffect) : omap (survive_n 0) l = l.
Proof.
  induction l as [|e l IH]; [reflexivity|]. csimpl. rewrite IH.
  unfold survive_n, lifetime. destruct (Z.ltb_spec (Z.of_nat 0) (Z.max 1 (remainingTicks e)));
    [|lia]. rewrite Z.sub_0_r. destruct e; reflexivity.
Qed.

Lemma tick_n_eq n : forall st,
  tick_n n st = (sumZ (damage_within n <$> statusEffects st),
    {| statusEffects := omap (survive_n n) (statusEffects st); resource := resource st |}).
Proof.
  induction n as [|n IH]; intros st.
  - simpl. rewrite omap_survive_0. destruct st as [l r]; simpl. f_equal.
    induction l as [|e l IH]; [reflexivity|]. csimpl. rewrite <- IH.
    unfold damage_within. pose proof (Z.le_max_l 1 (remainingTicks e)). unfold lifetime. lia.
  - cbn [tick_n]. rewrite tickStatusEffects_eq. cbn [tr_updatedState tr_dotDamage].
    rewrite IH. simpl. rewrite survive_damage, omap_survive_step. reflexivity.
Qed.

(** ** Properties *)

(** Damage over time.  Over [n] turns a combatant's effects deal exactly the
    sum of each effect's damage per tick times the smaller of [n] and its
    duration; the resource is untouched; and once [n] reaches every duration, all
    effects are gone and each has dealt damage for its full duration. *)
Theorem tick_lifetime (n : nat) (st : CombatantState) :
  let (total, st') := tick_n n st in
  total = sumZ ((λ e, effect_damage e * Z.min (Z.of_nat n) (lifetime e)) <$> statusEffects st)
  /\ resource st' = resource st
  /\ (Forall (λ e, lifetime e <= Z.of_nat n) (statusEffects st) ->
      statusEffects st' = []
      /\ total = sumZ ((λ e, effect_damage e * lifetime e) <$> statusEffects st)).
Proof.
  rewrite tick_n_eq. simpl. repeat split; try reflexivity.
  - induction (statusEffects st) as [|e l IH]; [reflexivity|].
    csimpl. apply Forall_cons in H as [He Hl]. unfold survive_n at 1.
    destruct (Z.ltb_spec (Z.of_nat n) (lifetime e)); [lia|]. apply IH, Hl.
  - induction (statusEffects st) as [|e l IH]; [reflexivity|].
    apply Forall_cons in H as [He Hl]. csimpl. rewrite IH by exact Hl.
    unfold damage_within. rewrite Z.min_r by exact He. reflexivity.
Qed.

Lemma tick_lifetime_witness :
  let e := mkStatusEffect "immolate" dot 4 (Some 12) (Some fire) None in
  let (total, st') := tick_n 4 (mkCombatantState [e] 7) in
  total = sumZ ((λ e, effect_damage e * Z.min (Z.of_nat 4) (lifetime e)) <$> [e])
  /\ resource st' = 7
  /\ (Forall (λ e, lifetime e <= Z.of_nat 4) [e] ->
      statusEffects st' = [] /\ total = sumZ ((λ e, effect_damage e * lifetime e) <$> [e])).
Proof.
  apply (tick_lifetime 4
    (mkCombatantState [mkStatusEffect "immolate" dot 4 (Some 12) (Some fire) None] 7)).
Defined.

Example immolate_total :
  fst (tick_n 4 (mkCombatantState
    (ar_appliedEffects (resolveAbility
      (DotAbility (mkAbilityBase "immolate" "Immolate" 40 "") 12 4 fire)
      20 5 DEFAULT_RESISTANCES 100)) 0)) = 48.
Proof. reflexivity. Qed.

(** Sum of the modifiers of a list of effects. *)
Definition modifier_of (f : StatModifiers -> option Z) (e : StatusEffect) : Z :=
  default 0 (se_statModifiers e ≫= f).

Lemma add_modifiers_fold l : forall a d,
  fold_left add_modifiers l (a, d)
  = (a + sumZ (modifier_of sm_attack <$> l), d + sumZ (modifier_of sm_defense <$> l)).
Proof.
  induction l as [|e l IH]; intros a d; csimpl; [f_equal; lia|].
  unfold modifier_of at 1 3. destruct (se_statModifiers e); simpl; rewrite IH; f_equal; lia.
Qed.

(** Effective stats are the base stats plus the sum of all active modifiers,
    floored at attack 1 and defense 0, so the order in which effects were applied
    does not matter. *)
Theorem computeEffectiveStats_order (a d : Z) (l l' : list StatusEffect) :
  l ≡ₚ l' ->
  computeEffectiveStats a d l = computeEffectiveStats a d l'
  /\ computeEffectiveStats a d l =
     {| es_attack := Z.max 1 (a + sumZ (modifier_of sm_attack <$> l));
        es_defense := Z.max 0 (d + sumZ (modifier_of sm_defense <$> l)) |}.
Proof.
  intros H. unfold computeEffectiveStats. rewrite !add_modifiers_fold. split; [|reflexivity].
  rewrite (sumZ_perm _ _ (fmap_Permutation (modifier_of sm_attack) _ _ H)),
    (sumZ_perm _ _ (fmap_Permutation (modifier_of sm_defense) _ _ H)). reflexivity.
Qed.

Lemma computeEffectiveStats_order_witness :
  let e1 := mkStatusEffect "battle_cry" buff 3 None None (Some (mkStatModifiers (Some 10) None)) in
  let e2 := mkStatusEffect "hex" debuff 2 None None (Some (mkStatModifiers (Some (-40)) (Some 3))) in
  computeEffectiveStats 19 6 [e1; e2] = computeEffectiveStats 19 6 [e2; e1]
  /\ computeEffectiveStats 19 6 [e1; e2] = {| es_attack := 1; es_defense := 9 |}.
Proof.
  apply (computeEffectiveStats_order 19 6
    [mkStatusEffect "battle_cry" buff 3 None None (Some (mkStatModifiers (Some 10) None));
     mkStatusEffect "hex" debuff 2 None None (Some (mkStatModifiers (Some (-40)) (Some 3)))]).
  apply Permutation_swap.
Defined.

(** A direct ability's damage follows the fight: it grows with the caster's
    attack, shrinks with the target's defense and with the resistance to the
    ability's own damage type (and no other), and is zero against immunity. *)
Theorem resolveAbility_direct (b : AbilityBase) (m : Q) (t : DamageType)
    (a a' d d' hp hp' : Z) (r r' : Resistances) :
  (0 <= m)%Q -> a <= a' <= 2 ^ 26 -> d' <= d ->
  (resistance_of r' t <= resistance_of r t <= 1)%Q ->
  0 <= ar_damage (resolveAbility (DirectAbility b m t) a d r hp)
    <= ar_damage (resolveAbility (DirectAbility b m t) a' d' r' hp')
  /\ ar_heal (resolveAbility (DirectAbility b m t) a d r hp) = 0
  /\ (resistance_of r t = 1%Q ->
      ar_damage (resolveAbility (DirectAbility b m t) a d r hp) = 0).
Proof.
  intros Hm Ha Hd Hr. simpl. repeat split.
  - unfold applyResistance. lia.
  - transitivity (applyResistance (mitigateDamage a' d' m) (resistance_of r t)).
    + unfold applyResistance. apply Z.max_le_compat_l, js_mul_floor_mono.
      * apply fl_nonneg. lra.
      * apply num_le. rewrite !mitigateDamage_eq. apply Z.max_le_compat_l.
        apply js_mul_floor_mono; [exact Hm|]. apply Qle_trans with (mitigated a d').
        -- apply mitigated_defense, Hd.
        -- apply mitigated_attack; lia.
    + apply applyResistance_mono; [rewrite mitigateDamage_eq; lia | apply Hr].
  - intros ->. apply applyResistance_1.
Qed.

Lemma resolveAbility_direct_witness :
  let strike := DirectAbility (mkAbilityBase "strike" "Strike" 0 "") (lit 1.1) physical in
  let golem := mkResistances (lit 0.2) 0 0 0 in
  0 <= ar_damage (resolveAbility strike 19 12 golem 100)
    <= ar_damage (resolveAbility strike 29 12 DEFAULT_RESISTANCES 100)
  /\ ar_heal (resolveAbility strike 19 12 golem 100) = 0
  /\ (resistance_of golem physical = 1%Q -> ar_damage (resolveAbility strike 19 12 golem 100) = 0).
Proof.
  apply resolveAbility_direct; [q_compute | lia | lia | q_compute].
Defined.
