(* ===== verification/CombatFeed.v ===== *)
(** * The combat feeds

    The presentation events of a fight: [src/models/CombatHitEvent.ts] and the entries
    of [src/models/CombatLog.ts], with the small helpers of [src/hooks/useEncounter.ts]
    that fill them in. *)
From stdpp Require Import base decidable strings list pretty.
From Stdlib Require Import Ascii ZArith QArith Lia.
From S2P Require Import Prelude JsNumber Combat Ability.
Local Open Scope Z_scope.

Inductive ResistTier := resisted | vulnerable | neutral.

#[export] Instance ResistTier_eq_dec : EqDecision ResistTier.
Proof. solve_decision. Defined.

Inductive HitKind := h_hit | h_dot | h_heal | h_buff | h_debuff.

Record CombatHitEvent := mkHit {
  ch_id : Z;
  ch_target : Combatant;
  ch_amount : Z;
  ch_damageType : option DamageType;
  ch_resist : ResistTier;
  ch_kind : HitKind;
  ch_targetMaxHp : Z;
  ch_label : option string;
  ch_evade : option EvadeOutcome
}.

Definition fmt_stat (name : string) (delta : Z) : string :=
  name +:+ " " +:+ (if 0 <=? delta then "↑ +" +:+ pretty delta else "↓ " +:+ pretty delta).

Definition formatStatModLabel (mods : StatModifiers) : string :=
  let parts := from_option (fun d => [fmt_stat "ATK" d]) [] (sm_attack mods)
               ++ from_option (fun d => [fmt_stat "DEF" d]) [] (sm_defense mods) in
  String.concat "  " parts.

Definition classifyResist (resistance : Q) : ResistTier :=
  if js_lt 0 resistance then resisted
  else if js_lt resistance 0 then vulnerable
  else neutral.

Inductive CombatLogTag := t_resisted | t_weak | t_glancing | t_dodged | t_crit.

Inductive CombatLogKind := l_attack | l_dot | l_heal | l_buff | l_debuff | l_defeat.

(** The two levels of [cl_damageType] are the absent property and [null]. *)
Record CombatLogEntry := mkLog {
  cl_id : Z;
  cl_kind : CombatLogKind;
  cl_actor : Combatant;
  cl_target : option Combatant;
  cl_source : option string;
  cl_amount : option Z;
  cl_damageType : option (option DamageType);
  cl_label : option string;
  cl_tags : option (list CombatLogTag)
}.

Definition resistTags (resist : ResistTier) : option (list CombatLogTag) :=
  match resist with
  | resisted => Some [t_resisted]
  | vulnerable => Some [t_weak]
  | neutral => None
  end.

(** [outcome === 'normal' ? undefined : outcome] *)
Definition evadeTag (o : EvadeOutcome) : option EvadeOutcome :=
  match o with normal => None | _ => Some o end.

Definition evade_log_tag (o : EvadeOutcome) : list CombatLogTag :=
  match o with normal => [] | glancing => [t_glancing] | dodged => [t_dodged] end.

Definition upper_first (w : string) : string :=
  match w with
  | String c w' =>
      let n := nat_of_ascii c in
      if ((97 <=? n) && (n <=? 122))%nat then String (ascii_of_nat (n - 32)) w' else w
  | EmptyString => w
  end.

(** [id.split('_')]; [acc] is the part read so far, reversed. *)
Fixpoint split_underscore (id acc : string) : list string :=
  match id with
  | EmptyString => [String.rev acc]
  | String "_" id' => String.rev acc :: split_underscore id' ""
  | String c id' => split_underscore id' (String c acc)
  end.

(** Effect identifiers are ASCII, where [toUpperCase] is [upper_first]. *)
Definition prettifyId (id : string) : string :=
  String.concat " " (upper_first <$> split_underscore id "").

Example prettify_battle_cry : prettifyId "battle_cry" = "Battle Cry".
Proof. reflexivity. Qed.

Example battle_cry_label :
  formatStatModLabel (mkStatModifiers (Some 10) (Some (-5))) = "ATK ↑ +10  DEF ↓ -5".
Proof. vm_compute. reflexivity. Qed.
