(* ===== verification/Creature.v ===== *)
(** * Creatures

    [src/models/Creature.ts]: the creature record and its methods, the 26
    templates, the day and night spawn weights, level scaling, and the weighted
    choice of an encounter's rarity and template. *)
From stdpp Require Import base decidable strings list.
From Stdlib Require Import ZArith QArith Qabs Lia Lqa.
From S2P Require Import Prelude JsNumber Random Combat.
Local Open Scope Z_scope.

Inductive Rarity := common | uncommon | rare | epic | legendary.

#[export] Instance Rarity_eq_dec : EqDecision Rarity.
Proof. solve_decision. Defined.

Inductive SpawnWindow := day | night | any.

#[export] Instance SpawnWindow_eq_dec : EqDecision SpawnWindow.
Proof. solve_decision. Defined.

(** [Partial<Resistances>]: each entry may be missing. *)
Record PartialResistances := mkPartialResistances {
  pr_physical : option Q; pr_fire : option Q; pr_frost : option Q; pr_arcane : option Q
}.

Record CreatureTemplate := mkCreatureTemplate {
  ct_id : string;
  ct_name : string;
  ct_type : string;
  ct_maxHp : Z;
  ct_attack : Z;
  ct_defense : Z;
  ct_speed : Z;
  ct_rarity : Rarity;
  ct_description : option string;
  ct_encounterRate : Q;
  ct_resistances : option PartialResistances;
  ct_spawnWindow : option SpawnWindow
}.

(** ** Spawn windows *)

Definition SPAWN_WINDOW_BY_TYPE : list (string * SpawnWindow) :=
  [("Beast", day); ("Vermin", day); ("Earth", day); ("Construct", day);
   ("Nature", day);
   ("Shadow", night); ("Undead", night); ("Spirit", night); ("Arcane", night);
   ("Fire", any); ("Frost", any); ("Water", any); ("Air", any); ("Ooze", any);
   ("Fungus", any)].

Definition spawnWindowFor (template : CreatureTemplate) : SpawnWindow :=
  match ct_spawnWindow template with
  | Some w => w
  | None => default any (assoc (ct_type template) SPAWN_WINDOW_BY_TYPE)
  end.

Module SPAWN_WEIGHTS.
Definition inWindow : Q := 1.
Definition offWindow : Q := lit 0.15.
Definition any : Q := 1.
End SPAWN_WEIGHTS.

Definition spawnWeightAt (template : CreatureTemplate) (daylight : bool) : Q :=
  let window := spawnWindowFor template in
  if bool_decide (window = any) then SPAWN_WEIGHTS.any
  else
    let inWindow :=
      if daylight then bool_decide (window = day) else bool_decide (window = night) in
    if inWindow then SPAWN_WEIGHTS.inWindow else SPAWN_WEIGHTS.offWindow.

(** ** The creature class *)

Record Creature := mkCreature {
  c_id : string;
  c_name : string;
  c_type : string;
  c_level : Z;
  c_hp : Z;
  c_maxHp : Z;
  c_attack : Z;
  c_defense : Z;
  c_speed : Z;
  c_rarity : Rarity;
  c_description : string;
  c_encounterRate : Q;
  c_resistances : Resistances
}.

Record CreatureConstructorParams := mkCreatureParams {
  cp_id : string;
  cp_name : string;
  cp_type : string;
  cp_level : option Z;
  cp_hp : option Z;
  cp_maxHp : Z;
  cp_attack : Z;
  cp_defense : Z;
  cp_speed : Z;
  cp_rarity : option Rarity;
  cp_description : option string;
  cp_encounterRate : option Q;
  cp_resistances : option PartialResistances
}.

(** [{ ...DEFAULT_RESISTANCES, ...resistances }] *)
Definition merge_resistances (p : option PartialResistances) : Resistances :=
  match p with
  | None => DEFAULT_RESISTANCES
  | Some p =>
      mkResistances
        (default (res_physical DEFAULT_RESISTANCES) (pr_physical p))
        (default (res_fire DEFAULT_RESISTANCES) (pr_fire p))
        (default (res_frost DEFAULT_RESISTANCES) (pr_frost p))
        (default (res_arcane DEFAULT_RESISTANCES) (pr_arcane p))
  end.

Definition new_Creature (p : CreatureConstructorParams) : Creature :=
  {| c_id := cp_id p;
     c_name := cp_name p;
     c_type := cp_type p;
     c_level := default 1 (cp_level p);
     c_hp := default (cp_maxHp p) (cp_hp p);
     c_maxHp := cp_maxHp p;
     c_attack := cp_attack p;
     c_defense := cp_defense p;
     c_speed := cp_speed p;
     c_rarity := default common (cp_rarity p);
     c_description := or_string (default "" (cp_description p))
                        ("A " +:+ cp_type p +:+ " creature");
     c_encounterRate := default (lit 0.5) (cp_encounterRate p);
     c_resistances := merge_resistances (cp_resistances p) |}.

Definition rarity_multiplier (r : Rarity) : Q :=
  match r with
  | common => 1
  | uncommon => lit 1.5
  | rare => 2
  | epic => 3
  | legendary => 5
  end.

Definition getRarityMultiplier (c : Creature) : Q := rarity_multiplier (c_rarity c).

Definition getExperienceReward (c : Creature) : Z :=
  let baseExp := 10 * c_level c in
  math_floor (js_mul (num baseExp) (getRarityMultiplier c)).

Definition isDefeated (c : Creature) : bool := c_hp c <=? 0.

Definition set_hp (c : Creature) (hp : Z) : Creature :=
  {| c_id := c_id c; c_name := c_name c; c_type := c_type c; c_level := c_level c;
     c_hp := hp; c_maxHp := c_maxHp c; c_attack := c_attack c; c_defense := c_defense c;
     c_speed := c_speed c; c_rarity := c_rarity c; c_description := c_description c;
     c_encounterRate := c_encounterRate c; c_resistances := c_resistances c |}.

Definition takeDamage (c : Creature) (amount : Z) : Creature :=
  set_hp c (Z.max 0 (c_hp c - amount)).

Definition calculateDamage (c : Creature) (playerDefense : Z) : Z :=
  mitigateDamage (c_attack c) playerDefense 1.

(** ** Templates *)

Definition forest_sprite : CreatureTemplate := {|
  ct_id := "forest_sprite"; ct_name := "Forest Sprite"; ct_type := "Nature";
  ct_maxHp := 50; ct_attack := 15; ct_defense := 5; ct_speed := 20;
  ct_rarity := common;
  ct_description := Some "A small nature spirit found in wooded areas";
  ct_encounterRate := lit 0.6;
  ct_resistances := None;
  ct_spawnWindow := None |}.

Definition urban_phantom : CreatureTemplate := {|
  ct_id := "urban_phantom"; ct_name := "Urban Phantom"; ct_type := "Shadow";
  ct_maxHp := 60; ct_attack := 18; ct_defense := 8; ct_speed := 25;
  ct_rarity := common;
  ct_description := Some "A mysterious entity that appears in city areas";
  ct_encounterRate := lit 0.5;
  ct_resistances := None;
  ct_spawnWindow := None |}.

Definition coastal_spirit : CreatureTemplate := {|
  ct_id := "coastal_spirit"; ct_name := "Coastal Spirit"; ct_type := "Water";
  ct_maxHp := 70; ct_attack := 20; ct_defense := 10; ct_speed := 15;
  ct_rarity := uncommon;
  ct_description := Some "A spirit drawn to bodies of water";
  ct_encounterRate := lit 0.3;
  ct_resistances := None;
  ct_spawnWindow := None |}.

Definition mountain_guardian : CreatureTemplate := {|
  ct_id := "mountain_guardian"; ct_name := "Mountain Guardian"; ct_type := "Earth";
  ct_maxHp := 80; ct_attack := 20; ct_defense := 12; ct_speed := 10;
  ct_rarity := rare;
  ct_description := Some "A powerful guardian of elevated terrain";
  ct_encounterRate := lit 0.15;
  ct_resistances := None;
  ct_spawnWindow := None |}.

Definition wind_dancer : CreatureTemplate := {|
  ct_id := "wind_dancer"; ct_name := "Wind Dancer"; ct_type := "Air";
  ct_maxHp := 55; ct_attack := 22; ct_defense := 6; ct_speed := 35;
  ct_rarity := uncommon;
  ct_description := Some "An agile creature that moves with the wind";
  ct_encounterRate := lit 0.35;
  ct_resistances := None;
  ct_spawnWindow := None |}.

Definition grove_warden : CreatureTemplate := {|
  ct_id := "grove_warden"; ct_name := "Grove Warden"; ct_type := "Nature";
  ct_maxHp := 95; ct_attack := 22; ct_defense := 15; ct_speed := 12;
  ct_rarity := rare;
  ct_description := Some "An ancient guardian woven from the forest's oldest roots.";
  ct_encounterRate := lit 0.15;
  ct_resistances := Some (mkPartialResistances (Some (lit 0.2)) (Some (lit (-0.25))) None None);
  ct_spawnWindow := None |}.

Definition void_stalker : CreatureTemplate := {|
  ct_id := "void_stalker"; ct_name := "Void Stalker"; ct_type := "Shadow";
  ct_maxHp := 72; ct_attack := 28; ct_defense := 8; ct_speed := 30;
  ct_rarity := rare;
  ct_description := Some "A predator from between the streetlights — all fang and shadow.";
  ct_encounterRate := lit 0.12;
  ct_resistances := Some (mkPartialResistances None None (Some (lit 0.25)) None);
  ct_spawnWindow := None |}.

Definition tidal_behemoth : CreatureTemplate := {|
  ct_id := "tidal_behemoth"; ct_name := "Tidal Behemoth"; ct_type := "Water";
  ct_maxHp := 115; ct_attack := 21; ct_defense := 13; ct_speed := 8;
  ct_rarity := rare;
  ct_description := Some "A leviathan that drags the tide behind it.";
  ct_encounterRate := lit 0.12;
  ct_resistances := Some (mkPartialResistances None (Some (lit 0.3)) (Some (lit (-0.25))) None);
  ct_spawnWindow := None |}.

Definition ashen_colossus : CreatureTemplate := {|
  ct_id := "ashen_colossus"; ct_name := "Ashen Colossus"; ct_type := "Earth";
  ct_maxHp := 150; ct_attack := 30; ct_defense := 20; ct_speed := 8;
  ct_rarity := epic;
  ct_description := Some "A mountain given wrath; its every step splits the earth.";
  ct_encounterRate := lit 0.06;
  ct_resistances := Some (mkPartialResistances (Some (lit 0.15)) (Some (lit 0.4)) (Some (lit (-0.2))) None);
  ct_spawnWindow := Some any |}.

Definition tempest_djinn : CreatureTemplate := {|
  ct_id := "tempest_djinn"; ct_name := "Tempest Djinn"; ct_type := "Air";
  ct_maxHp := 120; ct_attack := 36; ct_defense := 14; ct_speed := 32;
  ct_rarity := epic;
  ct_description := Some "A storm bound into furious form.";
  ct_encounterRate := lit 0.06;
  ct_resistances := Some (mkPartialResistances (Some (lit (-0.15))) None (Some (lit 0.3)) None);
  ct_spawnWindow := None |}.

Definition alley_cur : CreatureTemplate := {|
  ct_id := "alley_cur"; ct_name := "Alley Cur"; ct_type := "Beast";
  ct_maxHp := 52; ct_attack := 16; ct_defense := 6; ct_speed := 24;
  ct_rarity := common;
  ct_description := Some "A half-wild dog that rules a stretch of backstreet.";
  ct_encounterRate := lit 0.55;
  ct_resistances := None;
  ct_spawnWindow := None |}.

Definition gutter_swarm : CreatureTemplate := {|
  ct_id := "gutter_swarm"; ct_name := "Gutter Swarm"; ct_type := "Vermin";
  ct_maxHp := 44; ct_attack := 17; ct_defense := 4; ct_speed := 28;
  ct_rarity := common;
  ct_description := Some "A boiling knot of rats and roaches that moves as one body.";
  ct_encounterRate := lit 0.6;
  ct_resistances := None;
  ct_spawnWindow := None |}.

Definition mossback_toad : CreatureTemplate := {|
  ct_id := "mossback_toad"; ct_name := "Mossback Toad"; ct_type := "Nature";
  ct_maxHp := 66; ct_attack := 14; ct_defense := 9; ct_speed := 11;
  ct_rarity := common;
  ct_description := Some "A bloated thing crusted in creekbed moss, in no hurry at all.";
  ct_encounterRate := lit 0.5;
  ct_resistances := None;
  ct_spawnWindow := None |}.

Definition grit_golemling : CreatureTemplate := {|
  ct_id := "grit_golemling"; ct_name := "Grit Golemling"; ct_type := "Earth";
  ct_maxHp := 58; ct_attack := 16; ct_defense := 8; ct_speed := 15;
  ct_rarity := common;
  ct_description := Some "A knee-high clot of gravel and grime, scraped up off the path.";
  ct_encounterRate := lit 0.5;
  ct_resistances := None;
  ct_spawnWindow := None |}.

Definition pale_stray : CreatureTemplate := {|
  ct_id := "pale_stray"; ct_name := "Pale Stray"; ct_type := "Shadow";
  ct_maxHp := 48; ct_attack := 19; ct_defense := 4; ct_speed := 22;
  ct_rarity := common;
  ct_description := Some "A gaunt figure that shuffles the night streets, always reaching.";
  ct_encounterRate := lit 0.5;
  ct_resistances := None;
  ct_spawnWindow := None |}.

Definition sump_ooze : CreatureTemplate := {|
  ct_id := "sump_ooze"; ct_name := "Sump Ooze"; ct_type := "Ooze";
  ct_maxHp := 64; ct_attack := 14; ct_defense := 8; ct_speed := 9;
  ct_rarity := common;
  ct_description := Some "A crawling slick of gutter-runoff that swallows what it touches.";
  ct_encounterRate := lit 0.5;
  ct_resistances := None;
  ct_spawnWindow := None |}.

Definition ash_wretch : CreatureTemplate := {|
  ct_id := "ash_wretch"; ct_name := "Ash Wretch"; ct_type := "Undead";
  ct_maxHp := 52; ct_attack := 18; ct_defense := 6; ct_speed := 19;
  ct_rarity := common;
  ct_description := Some "A soot-caked thing that claws its way out of a cold hearth.";
  ct_encounterRate := lit 0.5;
  ct_resistances := None;
  ct_spawnWindow := None |}.

Definition copper_sentinel : CreatureTemplate := {|
  ct_id := "copper_sentinel"; ct_name := "Copper Sentinel"; ct_type := "Construct";
  ct_maxHp := 62; ct_attack := 16; ct_defense := 9; ct_speed := 14;
  ct_rarity := common;
  ct_description := Some "A knee-high watch-construct, long forgotten and still on patrol.";
  ct_encounterRate := lit 0.45;
  ct_resistances := None;
  ct_spawnWindow := None |}.

Definition cinder_hound : CreatureTemplate := {|
  ct_id := "cinder_hound"; ct_name := "Cinder Hound"; ct_type := "Fire";
  ct_maxHp := 60; ct_attack := 23; ct_defense := 7; ct_speed := 30;
  ct_rarity := uncommon;
  ct_description := Some "A lean hound that smoulders as it runs; flame slides off its coat.";
  ct_encounterRate := lit 0.32;
  ct_resistances := Some (mkPartialResistances None (Some (lit 0.2)) None None);
  ct_spawnWindow := None |}.

Definition bog_lurker : CreatureTemplate := {|
  ct_id := "bog_lurker"; ct_name := "Bog Lurker"; ct_type := "Water";
  ct_maxHp := 78; ct_attack := 19; ct_defense := 10; ct_speed := 11;
  ct_rarity := uncommon;
  ct_description := Some "It surfaces from cold, still water and never feels the chill.";
  ct_encounterRate := lit 0.3;
  ct_resistances := Some (mkPartialResistances None None (Some (lit 0.2)) None);
  ct_spawnWindow := None |}.

Definition gale_wisp : CreatureTemplate := {|
  ct_id := "gale_wisp"; ct_name := "Gale Wisp"; ct_type := "Air";
  ct_maxHp := 52; ct_attack := 23; ct_defense := 6; ct_speed := 37;
  ct_rarity := uncommon;
  ct_description := Some "A darting scrap of loose wind — a hard frost stops it cold.";
  ct_encounterRate := lit 0.33;
  ct_resistances := Some (mkPartialResistances None None (Some (lit (-0.2))) None);
  ct_spawnWindow := None |}.

Definition scrap_golem : CreatureTemplate := {|
  ct_id := "scrap_golem"; ct_name := "Scrap Golem"; ct_type := "Earth";
  ct_maxHp := 74; ct_attack := 20; ct_defense := 12; ct_speed := 10;
  ct_rarity := uncommon;
  ct_description := Some "A shambling heap of rebar and rust; blades ring off and do little.";
  ct_encounterRate := lit 0.28;
  ct_resistances := Some (mkPartialResistances (Some (lit 0.2)) None None None);
  ct_spawnWindow := None |}.

Definition frost_molting : CreatureTemplate := {|
  ct_id := "frost_molting"; ct_name := "Frost Molting"; ct_type := "Frost";
  ct_maxHp := 66; ct_attack := 21; ct_defense := 8; ct_speed := 18;
  ct_rarity := uncommon;
  ct_description := Some "A brittle shell of hoarfrost; one flame shatters it.";
  ct_encounterRate := lit 0.3;
  ct_resistances := Some (mkPartialResistances None (Some (lit (-0.2))) None None);
  ct_spawnWindow := None |}.

Definition fungal_creeper : CreatureTemplate := {|
  ct_id := "fungal_creeper"; ct_name := "Fungal Creeper"; ct_type := "Fungus";
  ct_maxHp := 74; ct_attack := 19; ct_defense := 7; ct_speed := 12;
  ct_rarity := uncommon;
  ct_description := Some "A lattice of pale mushroom-flesh that steel shears right through.";
  ct_encounterRate := lit 0.3;
  ct_resistances := Some (mkPartialResistances (Some (lit (-0.2))) None None None);
  ct_spawnWindow := None |}.

Definition null_moth : CreatureTemplate := {|
  ct_id := "null_moth"; ct_name := "Null Moth"; ct_type := "Arcane";
  ct_maxHp := 58; ct_attack := 22; ct_defense := 7; ct_speed := 28;
  ct_rarity := uncommon;
  ct_description := Some "A moth of dead static that drinks stray magic from the air.";
  ct_encounterRate := lit 0.3;
  ct_resistances := Some (mkPartialResistances None None None (Some (lit 0.2)));
  ct_spawnWindow := None |}.

Definition bound_revenant : CreatureTemplate := {|
  ct_id := "bound_revenant"; ct_name := "Bound Revenant"; ct_type := "Spirit";
  ct_maxHp := 70; ct_attack := 20; ct_defense := 10; ct_speed := 13;
  ct_rarity := uncommon;
  ct_description := Some "A soul lashed to old bones; raw arcane snaps the binding.";
  ct_encounterRate := lit 0.28;
  ct_resistances := Some (mkPartialResistances None None None (Some (lit (-0.2))));
  ct_spawnWindow := None |}.

Definition CREATURE_TEMPLATES : list CreatureTemplate :=
  [forest_sprite;
   urban_phantom;
   coastal_spirit;
   mountain_guardian;
   wind_dancer;
   grove_warden;
   void_stalker;
   tidal_behemoth;
   ashen_colossus;
   tempest_djinn;
   alley_cur;
   gutter_swarm;
   mossback_toad;
   grit_golemling;
   pale_stray;
   sump_ooze;
   ash_wretch;
   copper_sentinel;
   cinder_hound;
   bog_lurker;
   gale_wisp;
   scrap_golem;
   frost_molting;
   fungal_creeper;
   null_moth;
   bound_revenant].

(** ** Level scaling *)

(** [Math.floor(stat * levelMultiplier)] with
    [levelMultiplier = 1 + (level - 1) * 0.1]. *)
Definition scale_stat (stat level : Z) : Z :=
  let levelMultiplier := js_add 1 (js_mul (num (level - 1)) (lit 0.1)) in
  math_floor (js_mul (num stat) levelMultiplier).

Definition createCreatureFromTemplate (template : CreatureTemplate) (playerLevel : Z)
    : Rand Creature :=
  let! i := random_index 5 in
  let levelVariation := i - 2 in
  let level := Z.max 1 (playerLevel + levelVariation) in
  rand_ret (new_Creature {|
    cp_id := ct_id template;
    cp_name := ct_name template;
    cp_type := ct_type template;
    cp_level := Some level;
    cp_hp := None;
    cp_maxHp := scale_stat (ct_maxHp template) level;
    cp_attack := scale_stat (ct_attack template) level;
    cp_defense := scale_stat (ct_defense template) level;
    cp_speed := scale_stat (ct_speed template) level;
    cp_rarity := Some (ct_rarity template);
    cp_description := ct_description template;
    cp_encounterRate := Some (ct_encounterRate template);
    cp_resistances := ct_resistances template |}).

(** ** Choosing an encounter *)

Definition ENCOUNTER_RARITY_WEIGHTS : list (Z * list (Rarity * Z)) :=
  [(20, [(common, 25); (uncommon, 45); (rare, 18); (epic, 12)]);
   (12, [(common, 32); (uncommon, 48); (rare, 16); (epic, 4)]);
   (6, [(common, 40); (uncommon, 45); (rare, 15)]);
   (3, [(common, 55); (uncommon, 43); (rare, 2)]);
   (1, [(common, 85); (uncommon, 15); (rare, 0)])].

(** The band [rollEncounterRarity] selects: the first whose [minLevel] the player
    has reached, else the last. *)
Definition rarity_band (playerLevel : Z) : list (Rarity * Z) :=
  match find (fun band => fst band <=? playerLevel) ENCOUNTER_RARITY_WEIGHTS with
  | Some (_, weights) => weights
  | None => from_option snd [] (last ENCOUNTER_RARITY_WEIGHTS)
  end.

Definition rollEncounterRarity (playerLevel : Z) : Rand Rarity :=
  let entries := prod_map id num <$> rarity_band playerLevel in
  let total := total_weight (snd <$> entries) in
  let! r := math_random in
  rand_ret (default common (roll_down (js_mul r total) entries)).

(** The templates a rarity is drawn from. *)
Definition rarity_pool (rarity : Rarity) : list CreatureTemplate :=
  let ofRarity := filter (fun t => ct_rarity t = rarity) CREATURE_TEMPLATES in
  match ofRarity with [] => CREATURE_TEMPLATES | _ => ofRarity end.

Definition pickEncounterTemplateOfRarity (rarity : Rarity) (daylight : option bool)
    : Rand (option CreatureTemplate) :=
  let pool := rarity_pool rarity in
  match daylight with
  | None =>
      let! i := random_index (Z.of_nat (length pool)) in
      rand_ret (pool !! Z.to_nat i)
  | Some daylight =>
      let entries := (fun t => (t, spawnWeightAt t daylight)) <$> pool in
      let total := total_weight (snd <$> entries) in
      let! r := math_random in
      rand_ret
        (match roll_down (js_mul r total) entries with
         | Some t => Some t
         | None => last pool
         end)
  end.

Definition pickEncounterTemplate (playerLevel : Z) (daylight : option bool)
    : Rand (option CreatureTemplate) :=
  let! rarity := rollEncounterRarity playerLevel in
  pickEncounterTemplateOfRarity rarity daylight.

Definition ELITE_RARITIES : list Rarity := [rare; epic; legendary].

Definition isEliteCreature (r : Rarity) : bool := bool_decide (r ∈ ELITE_RARITIES).

(** ** Scaling: lemmas *)

Section Scaling.
Local Open Scope Q_scope.

(** The multiplier is within 2^-34 of the exact [1 + n / 10]. *)
Lemma levelMultiplier_error n : (0 <= n <= 2 ^ 20)%Z ->
  Qabs (js_add 1 (js_mul (num n) (lit 0.1)) - (1 + num n * (1 # 10))) <= two_pow (-34).
Proof.
  intros Hn. assert (N0 : 0 <= num n) by (apply num_nonneg; lia).
  assert (N1 : num n <= num (2 ^ 20)) by (apply num_le; lia).
  change (num (2 ^ 20)) with (1048576 # 1) in N1.
  assert (C : (1 # 10) <= lit 0.1 <= (1 # 10) + two_pow (-57)) by (split; q_compute).
  set (c := lit 0.1) in *. clearbody c. change (two_pow (-57)) with (1 # 144115188075855872) in C.
  pose proof (Qmult_bounds (num n) c 1048576 (1 # 8) ltac:(lra) ltac:(lra)) as P.
  change (1048576 * (1 # 8)) with (1048576 # 8) in P.
  assert (D : num n * (1 # 10) <= num n * c <= num n * (1 # 10) + (1048576 # 144115188075855872)).
  { pose proof (Qmult_bounds (num n) (c - (1 # 10)) 1048576 (1 # 144115188075855872)
      ltac:(lra) ltac:(lra)) as [D1 D2].
    assert (E : num n * (c - (1 # 10)) == num n * c - num n * (1 # 10)) by ring.
    rewrite E in D1, D2. change (1048576 * (1 # 144115188075855872))
      with (1048576 # 144115188075855872) in D2. lra. }
  unfold js_add, js_mul.
  pose proof (fl_error_abs _ _ P ltac:(lra)) as E1. apply Qabs_Qle_condition in E1.
  pose proof (fl_nonneg _ (proj1 P)) as F1.
  set (p := fl (num n * c)) in *. clearbody p.
  change (two_pow (-53)) with (1 # 9007199254740992) in E1.
  assert (P2 : 0 <= 1 + p <= 262144) by (split; lra).
  pose proof (fl_error_abs _ _ P2 ltac:(lra)) as E2. apply Qabs_Qle_condition in E2.
  set (m := fl (1 + p)) in *. clearbody m.
  change (two_pow (-53)) with (1 # 9007199254740992) in E2.
  change (two_pow (-34)) with (1 # 17179869184).
  apply Qabs_Qle_condition. split; lra.
Qed.

Lemma scale_product_error s n : (0 <= s <= 2 ^ 10)%Z -> (0 <= n <= 2 ^ 20)%Z ->
  Qabs (js_mul (num s) (js_add 1 (js_mul (num n) (lit 0.1))) - num (s * (n + 10)) * (1 # 10))
    <= (1 # 20).
Proof.
  intros Hs Hn. pose proof (levelMultiplier_error n Hn) as E.
  apply Qabs_Qle_condition in E. set (m := js_add 1 _) in *. clearbody m.
  change (two_pow (-34)) with (1 # 17179869184) in E.
  assert (N : num (s * (n + 10)) == num s * (num n + 10))
    by (unfold num; rewrite inject_Z_mult, inject_Z_plus; reflexivity).
  assert (S0 : 0 <= num s <= 1024) by (split; [apply num_nonneg | apply (num_le _ 1024)]; lia).
  assert (N0 : 0 <= num n <= 1048576)
    by (split; [apply num_nonneg | apply (num_le _ 1048576)]; lia).
  assert (M : 0 <= m <= 131072) by lra.
  pose proof (Qmult_bounds (num s) m 1024 131072 ltac:(lra) ltac:(lra)) as P.
  change (1024 * 131072) with (134217728 # 1) in P.
  assert (D : - (1 # 8388608) <= num s * m - num s * (1 + num n * (1 # 10)) <= (1 # 8388608)).
  { pose proof (Qmult_bounds (num s) (m - (1 + num n * (1 # 10)) + (1 # 17179869184))
      1024 (2 # 17179869184) ltac:(lra) ltac:(lra)) as [D1 D2].
    assert (E0 : num s * (m - (1 + num n * (1 # 10)) + (1 # 17179869184))
      == num s * m - num s * (1 + num n * (1 # 10)) + num s * (1 # 17179869184)) by ring.
    rewrite E0 in D1, D2. change (1024 * (2 # 17179869184)) with (2048 # 17179869184) in D2.
    split; lra. }
  assert (X : num s * (num n + 10) * (1 # 10) == num s * (1 + num n * (1 # 10))) by ring.
  pose proof (fl_error_abs _ _ P ltac:(lra)) as E1. apply Qabs_Qle_condition in E1.
  change (two_pow (-53)) with (1 # 9007199254740992) in E1.
  unfold js_mul. apply Qabs_Qle_condition. rewrite N, X. split; lra.
Qed.

End Scaling.

(** Rounding costs a scaled stat at most one point and never adds one. *)
Lemma scale_stat_exact s l : 0 <= s <= 2 ^ 10 -> 1 <= l <= 2 ^ 20 ->
  s * (l + 9) / 10 - 1 <= scale_stat s l <= s * (l + 9) / 10.
Proof.
  intros Hs Hl. unfold scale_stat.
  pose proof (scale_product_error s (l - 1) Hs ltac:(lia)) as E.
  apply Qabs_Qle_condition in E. set (x := js_mul _ _) in *. clearbody x.
  replace (s * (l - 1 + 10)) with (s * (l + 9)) in E by lia.
  pose proof (Z.div_mod (s * (l + 9)) 10 ltac:(lia)) as D.
  pose proof (Z.mod_pos_bound (s * (l + 9)) 10 ltac:(lia)) as R.
  set (q := s * (l + 9) / 10) in *. set (r := (s * (l + 9)) mod 10) in *.
  rewrite D in E. clear D. clearbody q r.
  assert (N : (num (10 * q + r) == 10 * num q + num r)%Q)
    by (unfold num; rewrite inject_Z_plus, inject_Z_mult; reflexivity).
  assert (R1 : (0 <= num r <= 9)%Q) by (split; [apply num_nonneg | apply (num_le _ 9)]; lia).
  rewrite N in E. split.
  - apply math_floor_ge. replace (q - 1) with (q + -1) by lia. rewrite inject_Z_plus.
    change (inject_Z (-1)) with (-(1))%Q. unfold num in *. lra.
  - assert (math_floor x < q + 1); [|lia]. apply math_floor_lt.
    rewrite inject_Z_plus. change (inject_Z 1) with 1%Q. unfold num in *. lra.
Qed.

Lemma scale_stat_ge s l : 0 <= s <= 2 ^ 53 -> 1 <= l -> s <= scale_stat s l.
Proof.
  intros Hs Hl. unfold scale_stat. apply math_floor_ge, fl_ge_Z; [lia|].
  assert (M : (1 <= js_add 1 (js_mul (num (l - 1)) (lit 0.1)))%Q).
  { apply (fl_ge_Z _ 1); [lia|].
    assert (0 <= js_mul (num (l - 1)) (lit 0.1))%Q
      by (apply js_mul_nonneg; [apply num_nonneg; lia | q_compute]).
    change (inject_Z 1) with 1%Q. lra. }
  assert (0 <= num s)%Q by (apply num_nonneg; lia). unfold num in *. nra.
Qed.

Lemma scale_stat_mono s l l' : 0 <= s -> l <= l' -> scale_stat s l <= scale_stat s l'.
Proof.
  intros Hs Hl. apply math_floor_mono, js_mul_mono_r; [apply num_nonneg, Hs|].
  apply js_add_mono; [lra|]. apply js_mul_mono_l; [q_compute | apply num_le; lia].
Qed.

(** ** Choice: lemmas *)

Lemma rarity_band_cases l :
  rarity_band l = from_option snd []
    (if 20 <=? l then ENCOUNTER_RARITY_WEIGHTS !! 0%nat
     else if 12 <=? l then ENCOUNTER_RARITY_WEIGHTS !! 1%nat
     else if 6 <=? l then ENCOUNTER_RARITY_WEIGHTS !! 2%nat
     else if 3 <=? l then ENCOUNTER_RARITY_WEIGHTS !! 3%nat
     else ENCOUNTER_RARITY_WEIGHTS !! 4%nat).
Proof.
  unfold rarity_band, ENCOUNTER_RARITY_WEIGHTS. cbn [find fst].
  destruct (20 <=? l); [reflexivity|]. destruct (12 <=? l); [reflexivity|].
  destruct (6 <=? l); [reflexivity|]. destruct (3 <=? l); [reflexivity|].
  destruct (1 <=? l); reflexivity.
Qed.

(** The rarities a level can meet. *)
Definition allowed_rarities (playerLevel : Z) : list Rarity :=
  if 12 <=? playerLevel then [common; uncommon; rare; epic]
  else if 3 <=? playerLevel then [common; uncommon; rare]
  else [common; uncommon].

(** A table whose loop always stops inside its first [n] entries. *)
Definition stops_within {A} (n : nat) (entries : list (A * Q)) : bool :=
  js_le 0 (total_weight (snd <$> entries))
  && (S (roll_pos (js_mul random_max (total_weight (snd <$> entries))) (map snd entries))
        <=? n)%nat
  && (n <=? length entries)%nat.

Lemma stops_within_roll {A} n (entries : list (A * Q)) r :
  stops_within n entries = true -> (0 <= r <= random_max)%Q ->
  exists a, roll_down (js_mul r (total_weight (snd <$> entries))) entries = Some a
    /\ a ∈ take n (map fst entries).
Proof.
  intros H Hr. unfold stops_within in H.
  apply andb_prop in H as [H H3]. apply andb_prop in H as [H1 H2].
  apply Nat.leb_le in H2, H3. js_reflect.
  destruct (roll_down_range entries _ r H1 Hr) as (a & E & Ha); [lia|].
  exists a. split; [exact E|]. apply list_elem_of_In.
  rewrite <- (firstn_skipn (S (roll_pos
     (js_mul random_max (total_weight (snd <$> entries))) (map snd entries)))
     (take n (map fst entries))).
  apply in_or_app. left. rewrite firstn_firstn, Nat.min_l by lia. exact Ha.
Qed.

Lemma rollEncounterRarity_allowed l :
  rand_post (rollEncounterRarity l) (fun r => r ∈ allowed_rarities l).
Proof.
  unfold rollEncounterRarity, allowed_rarities. rewrite rarity_band_cases.
  eapply rand_post_bind; [apply rand_post_random|]. intros q Hq. apply rand_post_ret.
  destruct (Z.leb_spec 20 l), (Z.leb_spec 12 l), (Z.leb_spec 6 l), (Z.leb_spec 3 l); try lia;
    match goal with |- context [roll_down (js_mul q (total_weight (snd <$> ?e))) ?e] =>
      match goal with |- context [_ ∈ ?allowed] =>
        destruct (stops_within_roll (length allowed) e q ltac:(vm_compute; reflexivity) Hq)
          as (a & -> & Ha)
      end
    end; exact Ha.
Qed.

(** The tables of a pool, by day and by night. *)
Definition pool_entries (rarity : Rarity) (daylight : bool) : list (CreatureTemplate * Q) :=
  (fun t => (t, spawnWeightAt t daylight)) <$> rarity_pool rarity.

Lemma pool_entries_stop rarity daylight :
  stops_within (length (rarity_pool rarity)) (pool_entries rarity daylight) = true.
Proof. destruct rarity, daylight; vm_compute; reflexivity. Qed.

Lemma pool_entries_fst rarity daylight : map fst (pool_entries rarity daylight) = rarity_pool rarity.
Proof. unfold pool_entries. rewrite map_map. apply map_id. Qed.

Lemma pick_in_pool rarity daylight :
  rand_post (pickEncounterTemplateOfRarity rarity daylight)
    (fun o => exists t, o = Some t /\ t ∈ rarity_pool rarity).
Proof.
  unfold pickEncounterTemplateOfRarity. destruct daylight as [d|].
  - eapply rand_post_bind; [apply rand_post_random|]. intros q Hq. apply rand_post_ret.
    destruct (stops_within_roll _ _ q (pool_entries_stop rarity d) Hq) as (t & E & Ht).
    fold (pool_entries rarity d). rewrite E. exists t. split; [reflexivity|].
    rewrite pool_entries_fst, firstn_all in Ht. exact Ht.
  - eapply rand_post_bind.
    + apply random_index_bounds. destruct rarity; vm_compute; split; congruence.
    + intros i Hi. cbv beta in Hi. apply rand_post_ret.
      destruct (lookup_lt_is_Some_2 (rarity_pool rarity) (Z.to_nat i)) as [t E]; [lia|].
      exists t. split; [exact E|]. apply list_elem_of_lookup_2 with (Z.to_nat i), E.
Qed.

Lemma rarity_pool_rarity rarity t :
  rarity <> legendary -> t ∈ rarity_pool rarity -> ct_rarity t = rarity.
Proof.
  intros N H. assert (E : rarity_pool rarity = filter (fun t => ct_rarity t = rarity) CREATURE_TEMPLATES)
    by (destruct rarity; [reflexivity .. | congruence]).
  rewrite E in H. apply list_elem_of_filter in H. apply H.
Qed.

Lemma allowed_not_legendary l r : r ∈ allowed_rarities l -> r <> legendary.
Proof. unfold allowed_rarities. intros H. repeat case_match; in_cases H; congruence. Qed.

(** ** Properties *)

(** A creature made from a template is within two levels of the player (and
    at least level 1), at full health, keeps the template's identity, rarity and
    resistances, and each scaled stat is the template's stat times
    [(level + 9) / 10] rounded down, or one less where the double product falls
    just under an integer; it is never below the template's stat. *)
Theorem createCreature_scaled (t : CreatureTemplate) (playerLevel : Z) :
  1 <= playerLevel <= 2 ^ 20 - 2 ->
  Forall (fun s => 0 <= s <= 2 ^ 10) [ct_maxHp t; ct_attack t; ct_defense t; ct_speed t] ->
  rand_post (createCreatureFromTemplate t playerLevel) (fun c =>
    1 <= c_level c /\ Z.abs (c_level c - playerLevel) <= 2
    /\ c_hp c = c_maxHp c
    /\ (c_id c, c_name c, c_type c, c_rarity c) = (ct_id t, ct_name t, ct_type t, ct_rarity t)
    /\ c_resistances c = merge_resistances (ct_resistances t)
    /\ Forall2 (fun base scaled =>
         base <= scaled
         /\ base * (c_level c + 9) / 10 - 1 <= scaled <= base * (c_level c + 9) / 10)
       [ct_maxHp t; ct_attack t; ct_defense t; ct_speed t]
       [c_maxHp c; c_attack c; c_defense c; c_speed c]).
Proof.
  intros Hl Hs. eapply rand_post_bind; [apply (random_index_bounds 5); lia|].
  intros i Hi. cbv beta in Hi. apply rand_post_ret. simpl.
  set (level := Z.max 1 (playerLevel + (i - 2))).
  assert (L : 1 <= level <= 2 ^ 20) by lia.
  repeat (split; [lia || reflexivity|]).
  repeat match goal with
  | H : Forall _ (_ :: _) |- _ => apply Forall_cons in H as [? H]
  | |- Forall2 _ (_ :: _) (_ :: _) => constructor
  end; [..| constructor];
    (split; [apply scale_stat_ge | apply scale_stat_exact]; lia).
Qed.

Lemma createCreature_scaled_witness :
  rand_post (createCreatureFromTemplate ashen_colossus 20) (fun c =>
    1 <= c_level c /\ Z.abs (c_level c - 20) <= 2
    /\ c_hp c = c_maxHp c
    /\ (c_id c, c_name c, c_type c, c_rarity c)
       = (ct_id ashen_colossus, ct_name ashen_colossus, ct_type ashen_colossus,
          ct_rarity ashen_colossus)
    /\ c_resistances c = merge_resistances (ct_resistances ashen_colossus)
    /\ Forall2 (fun base scaled =>
         base <= scaled
         /\ base * (c_level c + 9) / 10 - 1 <= scaled <= base * (c_level c + 9) / 10)
       [ct_maxHp ashen_colossus; ct_attack ashen_colossus; ct_defense ashen_colossus;
        ct_speed ashen_colossus]
       [c_maxHp c; c_attack c; c_defense c; c_speed c]).
Proof.
  apply (createCreature_scaled ashen_colossus 20); [lia|].
  repeat constructor; vm_compute; discriminate.
Defined.

Example scale_stat_loses_one : scale_stat 15 73 = 15 * (73 + 9) / 10 - 1.
Proof. reflexivity. Qed.

(** C39: an encounter's rarity is the one rolled, and the roll is bounded by the player's
    level.  For every draw, by day, by night or with no sun information, a template is
    chosen; it exists and has exactly the rarity that was rolled first.  That is never
    legendary, not epic before level 12 and not rare before level 3, so a creature met
    before level 3 is never elite. *)
Theorem encounter_rarity_gated (playerLevel : Z) (daylight : option bool) (r : rng) :
  wf_rng r ->
  exists t, fst (pickEncounterTemplate playerLevel daylight r) = Some t /\ t ∈ CREATURE_TEMPLATES
    /\ ct_rarity t = fst (rollEncounterRarity playerLevel r)
    /\ ct_rarity t <> legendary
    /\ (playerLevel < 12 -> ct_rarity t <> epic)
    /\ (playerLevel < 3 -> isEliteCreature (ct_rarity t) = false).
Proof.
  intros R. unfold pickEncounterTemplate, rand_bind.
  destruct (rollEncounterRarity_allowed playerLevel r R) as [Hr R'].
  destruct (rollEncounterRarity playerLevel r) as [rolled r1]. cbn [fst snd] in *.
  destruct (pick_in_pool rolled daylight r1 R') as [(t & -> & Ht) _]. exists t.
  pose proof (allowed_not_legendary _ _ Hr) as N.
  pose proof (rarity_pool_rarity _ _ N Ht) as E. split; [reflexivity|]. split.
  { unfold rarity_pool in Ht. case_match; [exact Ht|].
    rewrite <- H in Ht. apply list_elem_of_filter in Ht. apply Ht. }
  rewrite E. split; [reflexivity|]. split; [exact N|]. unfold allowed_rarities in Hr. split; intros Hl.
  - destruct (Z.leb_spec 12 playerLevel); [lia|]. case_match; in_cases Hr; congruence.
  - destruct (Z.leb_spec 12 playerLevel); [lia|]. destruct (Z.leb_spec 3 playerLevel); [lia|].
    in_cases Hr; reflexivity.
Qed.

Lemma encounter_rarity_gated_witness :
  let r := mkRng (fun n => if Nat.even n then (9 # 10)%Q else (1 # 2)%Q) 0 in
  exists t, fst (pickEncounterTemplate 7 (Some false) r) = Some t
    /\ ct_rarity t = rare /\ ct_rarity t = fst (rollEncounterRarity 7 r).
Proof.
  cbv zeta.
  destruct (encounter_rarity_gated 7 (Some false) (mkRng (fun n => if Nat.even n then (9 # 10)%Q else (1 # 2)%Q) 0))
    as (t & E & _ & R & _).
  - intros n. cbn. destruct (Nat.even n); split; discriminate || reflexivity.
  - exists t. split; [exact E|]. split; [rewrite R; vm_compute; reflexivity | exact R].
Defined.

(** The time of day is cosmetic.  From the same draws, the encounter picked by
    day, by night or with no sun information has the same rarity and consumes
    the same number of draws. *)
Theorem rarity_ignores_daylight (playerLevel : Z) (d d' : option bool) (r : rng) :
  wf_rng r ->
  let (o, r1) := pickEncounterTemplate playerLevel d r in
  let (o', r2) := pickEncounterTemplate playerLevel d' r in
  (ct_rarity <$> o) = (ct_rarity <$> o') /\ o <> None /\ r1 = r2.
Proof.
  intros Hr. unfold pickEncounterTemplate, rand_bind.
  destruct (rollEncounterRarity_allowed playerLevel r Hr) as [Ha Hr'].
  destruct (rollEncounterRarity playerLevel r) as [rar r']. simpl in Ha, Hr'.
  apply allowed_not_legendary in Ha.
  assert (P : forall d, snd (pickEncounterTemplateOfRarity rar d r') = snd (math_random r'))
    by (intros [?|]; reflexivity).
  pose proof (P d) as P1. pose proof (P d') as P2.
  destruct (pick_in_pool rar d r' Hr') as [(t & Et & Ht) _].
  destruct (pick_in_pool rar d' r' Hr') as [(t' & Et' & Ht') _].
  destruct (pickEncounterTemplateOfRarity rar d r') as [o r1].
  destruct (pickEncounterTemplateOfRarity rar d' r') as [o' r2]. simpl in *. subst.
  split; [|split; congruence]. csimpl. f_equal.
  rewrite (rarity_pool_rarity rar t Ha Ht), (rarity_pool_rarity rar t' Ha Ht'). reflexivity.
Qed.

Lemma rarity_ignores_daylight_witness :
  let r := mkRng (fun n => if Nat.even n then (9 # 10)%Q else (1 # 2)%Q) 0 in
  let (o, r1) := pickEncounterTemplate 7 (Some true) r in
  let (o', r2) := pickEncounterTemplate 7 (Some false) r in
  (ct_rarity <$> o) = (ct_rarity <$> o') /\ o <> None /\ r1 = r2.
Proof.
  apply rarity_ignores_daylight. intros n. simpl.
  destruct (Nat.even n); split; vm_compute; discriminate.
Defined.

(** The draws tried: the middle of each item's share of the total weight. *)
Definition candidate_draws (weights : list Q) : list Q :=
  imap (fun i w => Qred ((total_weight (take i weights) + w / 2) / total_weight weights)) weights.

Definition pool_weights (rarity : Rarity) (d : option bool) : list Q :=
  (fun t => from_option (spawnWeightAt t) 1%Q d) <$> rarity_pool rarity.

(** Some draw in the range of [Math.random] picks a template with the id of [t]. *)
Definition reachable (t : CreatureTemplate) (d : option bool) : bool :=
  existsb (fun q =>
    js_le 0 q && js_le q random_max &&
    match fst (pickEncounterTemplateOfRarity (ct_rarity t) d (mkRng (fun _ => q) 0)) with
    | Some t' => bool_decide (ct_id t' = ct_id t)
    | None => false
    end) (candidate_draws (pool_weights (ct_rarity t) d)).

Lemma all_reachable :
  forallb (fun t => forallb (reachable t) [None; Some true; Some false]) CREATURE_TEMPLATES = true.
Proof. vm_cast_no_check (eq_refl true). Qed.

(** No creature is ever excluded.  For every template, by day, by night and
    with no sun information, some draw picks it: the pick returns a template with
    its id. *)
Theorem every_template_reachable (t : CreatureTemplate) (d : option bool) :
  t ∈ CREATURE_TEMPLATES ->
  exists (q : Q) (t' : CreatureTemplate), (0 <= q <= random_max)%Q
    /\ fst (pickEncounterTemplateOfRarity (ct_rarity t) d (mkRng (fun _ => q) 0)) = Some t'
    /\ ct_id t' = ct_id t.
Proof.
  intros Ht. pose proof all_reachable as A. rewrite forallb_forall in A.
  specialize (A t ltac:(apply list_elem_of_In, Ht)). rewrite forallb_forall in A.
  specialize (A d ltac:(destruct d as [[]|]; simpl; auto)).
  apply existsb_exists in A as (q & _ & E). exists q.
  apply andb_prop in E as [E E']. apply andb_prop in E as [E1 E2]. js_reflect.
  case_match; [|discriminate]. apply bool_decide_eq_true in E'. eauto.
Qed.

Lemma every_template_reachable_witness :
  exists (q : Q) (t' : CreatureTemplate), (0 <= q <= random_max)%Q
    /\ fst (pickEncounterTemplateOfRarity (ct_rarity alley_cur) (Some false)
              (mkRng (fun _ => q) 0)) = Some t'
    /\ ct_id t' = ct_id alley_cur.
Proof.
  apply (every_template_reachable alley_cur (Some false)).
  apply list_elem_of_lookup_2 with 10%nat. reflexivity.
Defined.
