(* ===== verification/Config.v ===== *)
(** * Configuration

    The tuning constants of [src/constants/config.ts] that the modelled code
    reads, and the build environment of [src/constants/environment.ts]. *)
From stdpp Require Import base decidable strings.
From Stdlib Require Import ZArith QArith.
From S2P Require Import JsNumber.
Local Open Scope Z_scope.

Module ENCOUNTER_CONFIG.
Definition MIN_ENCOUNTER_DISTANCE : Q := 50.
Definition ENCOUNTER_CHANCE_PER_METER : Q := lit 0.001.
Definition MIN_TIME_BETWEEN_ENCOUNTERS : Z := 30000.
Definition AUTO_FLEE_DISTANCE : Q := 100.
End ENCOUNTER_CONFIG.

Module LOCATION_CONFIG.
Definition ENABLE_HIGH_ACCURACY : bool := true.
Definition TIMEOUT : Z := 15000.
Definition MAXIMUM_AGE : Z := 10000.
Definition DISTANCE_FILTER : Q := 5.
Definition MAX_VALID_DISTANCE : Q := 1000.
End LOCATION_CONFIG.

Module PLAYER_CONFIG.
Definition MAX_INVENTORY_SIZE : nat := 50.
End PLAYER_CONFIG.

Module LOOT_CONFIG.
Definition BASE_DROP_CHANCE : Q := lit 0.4.
Definition ACTIVE_COMBAT_DROP_CHANCE_BONUS : Q := lit 0.2.
Definition ACTIVE_COMBAT_LOOT_MULTIPLIER : Q := 2.
End LOOT_CONFIG.

Module COMBAT_CONFIG.
Definition AUTO_COMBAT_BASE_WIN_RATE : Q := lit 0.75.
Definition ACTIVE_COMBAT_XP_MULTIPLIER : Q := lit 1.5.
Definition LOSS_XP_FRACTION : Q := lit 0.25.
Definition AUTO_COMBAT_LEVEL_STEP : Q := lit 0.05.
Definition AUTO_COMBAT_MIN_WIN_RATE : Q := lit 0.2.
Definition AUTO_COMBAT_MAX_WIN_RATE : Q := lit 0.95.
End COMBAT_CONFIG.

(** ** Environment *)

Inductive AppEnvironment := development | testing | production.

#[export] Instance AppEnvironment_eq_dec : EqDecision AppEnvironment.
Proof. solve_decision. Defined.

(** [dev] is the bundler's [__DEV__], [env] the inlined [process.env.APP_ENV]. *)
Definition getAppEnvironment (dev : bool) (env : option string) : AppEnvironment :=
  if dev then development
  else if bool_decide (env = Some "testing") then testing else production.

Record EnvConfig := mkEnvConfig {
  enableDebugMode : bool;
  showEnvironmentBanner : bool;
  enableCrashTest : bool;
  enableVerboseLogging : bool;
  environmentName : AppEnvironment
}.

Definition ENV_CONFIG (APP_ENV : AppEnvironment) : EnvConfig :=
  let dev_or_test := bool_decide (APP_ENV = development) || bool_decide (APP_ENV = testing) in
  {| enableDebugMode := dev_or_test;
     showEnvironmentBanner := dev_or_test;
     enableCrashTest := dev_or_test;
     enableVerboseLogging := bool_decide (APP_ENV = development);
     environmentName := APP_ENV |}.

(** [Platform.OS] *)
Inductive Platform := ios | android.
