(* ===== verification/Item.v ===== *)
(** * Items

    [src/models/Item.ts].  The source's discriminated union has one member per
    item type; every type but [accessory] fixes the slot to the type's own name. *)
From stdpp Require Import base decidable strings list.
From Stdlib Require Import ZArith QArith.
From S2P Require Import Creature.
Local Open Scope Z_scope.

Inductive AffixStat := s_attack | s_defense | s_maxHp.

#[export] Instance AffixStat_eq_dec : EqDecision AffixStat.
Proof. solve_decision. Defined.

Record Affix := mkAffix { af_stat : AffixStat; af_value : Z }.

#[export] Instance Affix_eq_dec : EqDecision Affix.
Proof. solve_decision. Defined.

Inductive EquipmentSlot :=
  | slot_weapon | slot_offhand | slot_head | slot_chest | slot_legs | slot_boots
  | slot_gloves | slot_accessory1 | slot_accessory2.

#[export] Instance EquipmentSlot_eq_dec : EqDecision EquipmentSlot.
Proof. solve_decision. Defined.

(** The members of the union; the seven with a [slot] field carry it. *)
Inductive ItemType := weapon | offhand | head | chest | legs | boots | gloves | accessory.

#[export] Instance ItemType_eq_dec : EqDecision ItemType.
Proof. solve_decision. Defined.

Record Item := mkItem {
  it_id : string;
  it_name : string;
  it_description : string;
  it_rarity : Rarity;
  it_level : Z;
  it_attack : option Z;
  it_defense : option Z;
  it_maxHp : option Z;
  it_dropChance : Q;
  it_affixes : option (list Affix);
  it_type : ItemType
}.

(** [item.slot], absent on accessories. *)
Definition item_slot (t : ItemType) : option EquipmentSlot :=
  match t with
  | weapon => Some slot_weapon
  | offhand => Some slot_offhand
  | head => Some slot_head
  | chest => Some slot_chest
  | legs => Some slot_legs
  | boots => Some slot_boots
  | gloves => Some slot_gloves
  | accessory => None
  end.

Definition getItemSlot (item : Item) : EquipmentSlot :=
  default slot_accessory1 (item_slot (it_type item)).

Definition canEquipInSlot (item : Item) (slot : EquipmentSlot) : bool :=
  match item_slot (it_type item) with
  | None => bool_decide (slot = slot_accessory1) || bool_decide (slot = slot_accessory2)
  | Some s => bool_decide (s = slot)
  end.
