(* ===== verification/Player.v ===== *)
(** * The player

    [src/models/Player.ts]: the player's state, every method that reads or changes
    it, and its serialised form.  A method that mutates [this] is a function from
    the old player to the new one (paired with the method's result when it has
    one). *)
From stdpp Require Import base decidable strings list.
From Stdlib Require Import ZArith QArith Lia Lqa.
From S2P Require Import Prelude JsNumber Combat Archetype Creature Config Item.
Local Open Scope Z_scope.

(** ** Equipment and inventory *)

Record Equipment := mkEquipment {
  eq_weapon : option Item;
  eq_offhand : option Item;
  eq_head : option Item;
  eq_chest : option Item;
  eq_legs : option Item;
  eq_boots : option Item;
  eq_gloves : option Item;
  eq_accessory1 : option Item;
  eq_accessory2 : option Item
}.

Definition createEmptyEquipment : Equipment :=
  mkEquipment None None None None None None None None None.

Definition createEmptyInventory : list (option Item) :=
  replicate PLAYER_CONFIG.MAX_INVENTORY_SIZE None.

(** [equipment[slot]] *)
Definition equip_get (e : Equipment) (slot : EquipmentSlot) : option Item :=
  match slot with
  | slot_weapon => eq_weapon e
  | slot_offhand => eq_offhand e
  | slot_head => eq_head e
  | slot_chest => eq_chest e
  | slot_legs => eq_legs e
  | slot_boots => eq_boots e
  | slot_gloves => eq_gloves e
  | slot_accessory1 => eq_accessory1 e
  | slot_accessory2 => eq_accessory2 e
  end.

(** [equipment[slot] = item] *)
Definition equip_set (e : Equipment) (slot : EquipmentSlot) (item : option Item) : Equipment :=
  let '(mkEquipment w o h c l b g a1 a2) := e in
  match slot with
  | slot_weapon => mkEquipment item o h c l b g a1 a2
  | slot_offhand => mkEquipment w item h c l b g a1 a2
  | slot_head => mkEquipment w o item c l b g a1 a2
  | slot_chest => mkEquipment w o h item l b g a1 a2
  | slot_legs => mkEquipment w o h c item b g a1 a2
  | slot_boots => mkEquipment w o h c l item g a1 a2
  | slot_gloves => mkEquipment w o h c l b item a1 a2
  | slot_accessory1 => mkEquipment w o h c l b g item a2
  | slot_accessory2 => mkEquipment w o h c l b g a1 item
  end.

(** [Object.values(equipment)] *)
Definition equip_values (e : Equipment) : list (option Item) :=
  [eq_weapon e; eq_offhand e; eq_head e; eq_chest e; eq_legs e; eq_boots e; eq_gloves e;
   eq_accessory1 e; eq_accessory2 e].

#[global] Arguments equip_values : simpl never.

(** ** State *)

Record Player := mkPlayer {
  p_id : string;
  p_name : string;
  p_level : Z;
  p_experience : Z;
  p_attack : Z;
  p_defense : Z;
  p_hp : Z;
  p_maxHp : Z;
  p_totalDistance : Q;
  p_totalEncounters : Z;
  p_creaturesDefeated : Z;
  p_combatTurnsTaken : Z;
  p_equipment : Equipment;
  p_inventory : list (option Item);
  p_archetype : Archetype;
  p_str : Z;
  p_agi : Z;
  p_int : Z
}.

(** Assignments to groups of fields. *)
Definition with_hp (p : Player) (hp : Z) : Player :=
  let '(mkPlayer i n l x a d _ m td te cd ct eq inv ar s g t) := p in
  mkPlayer i n l x a d hp m td te cd ct eq inv ar s g t.

Definition with_stats (p : Player) (attack defense maxHp hp : Z) : Player :=
  let '(mkPlayer i n l x _ _ _ _ td te cd ct eq inv ar s g t) := p in
  mkPlayer i n l x attack defense hp maxHp td te cd ct eq inv ar s g t.

Definition with_progress (p : Player) (level experience str agi int : Z) : Player :=
  let '(mkPlayer i n _ _ a d h m td te cd ct eq inv ar _ _ _) := p in
  mkPlayer i n level experience a d h m td te cd ct eq inv ar str agi int.

Definition with_archetype (p : Player) (archetype : Archetype) : Player :=
  let '(mkPlayer i n l x a d h m td te cd ct eq inv _ s g t) := p in
  mkPlayer i n l x a d h m td te cd ct eq inv archetype s g t.

Definition with_counters (p : Player) (distance : Q) (encounters defeated turns : Z) : Player :=
  let '(mkPlayer i n l x a d h m _ _ _ _ eq inv ar s g t) := p in
  mkPlayer i n l x a d h m distance encounters defeated turns eq inv ar s g t.

Definition with_inventory (p : Player) (inventory : list (option Item)) : Player :=
  let '(mkPlayer i n l x a d h m td te cd ct eq _ ar s g t) := p in
  mkPlayer i n l x a d h m td te cd ct eq inventory ar s g t.

Definition with_equipment (p : Player) (equipment : Equipment) : Player :=
  let '(mkPlayer i n l x a d h m td te cd ct _ inv ar s g t) := p in
  mkPlayer i n l x a d h m td te cd ct equipment inv ar s g t.

(** ** Constructor *)

Record PlayerConstructorParams := mkPlayerParams {
  pp_id : option string;
  pp_name : option string;
  pp_level : option Z;
  pp_experience : option Z;
  pp_attack : option Z;
  pp_defense : option Z;
  pp_hp : option Z;
  pp_maxHp : option Z;
  pp_totalDistance : option Q;
  pp_totalEncounters : option Z;
  pp_creaturesDefeated : option Z;
  pp_combatTurnsTaken : option Z;
  pp_equipment : option Equipment;
  pp_inventory : option (list (option Item));
  pp_archetype : option Archetype;
  pp_str : option Z;
  pp_agi : option Z;
  pp_int : option Z
}.

Definition default_params : PlayerConstructorParams :=
  mkPlayerParams None None None None None None None None None None None None None None None
    None None None.

(** The inventory the constructor stores: exactly [maxSlots] slots, padded with
    [null] or cut. *)
Definition normalize_inventory (inventory : option (list (option Item))) : list (option Item) :=
  let maxSlots := PLAYER_CONFIG.MAX_INVENTORY_SIZE in
  match inventory with
  | Some inv =>
      if (length inv =? maxSlots)%nat then inv
      else take maxSlots (inv ++ replicate (maxSlots - length inv) None)
  | None => createEmptyInventory
  end.

Definition new_Player (q : PlayerConstructorParams) : Player :=
  let archetype := default Martial (pp_archetype q) in
  let level := default 1 (pp_level q) in
  let computed := computeAttributes archetype level in
  let str := default (a_str computed) (pp_str q) in
  let agi := default (a_agi computed) (pp_agi q) in
  let int := default (a_int computed) (pp_int q) in
  let maxHp := default (deriveMaxHp archetype str agi) (pp_maxHp q) in
  let hp := default maxHp (pp_hp q) in
  {| p_id := default "player1" (pp_id q);
     p_name := default "Adventurer" (pp_name q);
     p_level := level;
     p_experience := default 0 (pp_experience q);
     p_attack := default (deriveAttack str agi) (pp_attack q);
     p_defense := default (deriveDefense str agi) (pp_defense q);
     p_hp := if maxHp <? hp then maxHp else hp;
     p_maxHp := maxHp;
     p_totalDistance := default 0%Q (pp_totalDistance q);
     p_totalEncounters := default 0 (pp_totalEncounters q);
     p_creaturesDefeated := default 0 (pp_creaturesDefeated q);
     p_combatTurnsTaken := default 0 (pp_combatTurnsTaken q);
     p_equipment := default createEmptyEquipment (pp_equipment q);
     p_inventory := normalize_inventory (pp_inventory q);
     p_archetype := archetype;
     p_str := str;
     p_agi := agi;
     p_int := int |}.

(** ** Derived stats *)

(** One step of the equipment loop of [recalculateStats]. *)
Definition add_gear (acc : Z * Z * Z) (slot : option Item) : Z * Z * Z :=
  let '(baseAttack, baseDefense, baseMaxHp) := acc in
  match slot with
  | Some item =>
      (from_option (Z.add baseAttack) baseAttack (it_attack item),
       from_option (Z.add baseDefense) baseDefense (it_defense item),
       from_option (Z.add baseMaxHp) baseMaxHp (it_maxHp item))
  | None => (baseAttack, baseDefense, baseMaxHp)
  end.

Definition recalculateStats (p : Player) : Player :=
  let '(baseAttack, baseDefense, baseMaxHp) :=
    fold_left add_gear (equip_values (p_equipment p))
      (deriveAttack (p_str p) (p_agi p), deriveDefense (p_str p) (p_agi p),
       deriveMaxHp (p_archetype p) (p_str p) (p_agi p)) in
  let maxHpChange := baseMaxHp - p_maxHp p in
  with_stats p baseAttack baseDefense baseMaxHp
    (Z.max 0 (Z.min baseMaxHp (p_hp p + maxHpChange))).

(** ** Experience and levels *)

Definition exp_for_next (level : Z) : Z :=
  math_floor (js_mul 100 (math_pow_3_2 (Z.max 1 level))).

#[global] Arguments exp_for_next : simpl never.

Definition getExperienceForNextLevel (p : Player) : Z := exp_for_next (p_level p).

(** One iteration of the [while] loop of [checkLevelUp]. *)
Definition level_up_once (p : Player) : Player :=
  let cfg := ARCHETYPE_CONFIGS (p_archetype p) in
  with_progress p (p_level p + 1) (p_experience p - getExperienceForNextLevel p)
    (p_str p + strPerLevel cfg) (p_agi p + agiPerLevel cfg) (p_int p + intPerLevel cfg).

Fixpoint level_up_loop (fuel : nat) (p : Player) (levelsGained : Z) : Player * Z :=
  match fuel with
  | O => (p, levelsGained)
  | S fuel' =>
      if getExperienceForNextLevel p <=? p_experience p
      then level_up_loop fuel' (level_up_once p) (levelsGained + 1)
      else (p, levelsGained)
  end.

(** Every level costs at least 100 experience, which bounds the iterations. *)
Definition level_up_fuel (p : Player) : nat := S (Z.to_nat (p_experience p / 100)).

Definition checkLevelUp (p : Player) : Player * Z :=
  let (p', levelsGained) := level_up_loop (level_up_fuel p) p 0 in
  (if 0 <? levelsGained then recalculateStats p' else p', levelsGained).

Definition addExperience (p : Player) (amount : Z) : Player * Z :=
  checkLevelUp (with_progress p (p_level p) (p_experience p + amount) (p_str p) (p_agi p) (p_int p)).

(** [targetLevel] is the argument after its [Math.floor]. *)
Definition setLevel (p : Player) (targetLevel : Z) : Player :=
  let level := Z.max 1 targetLevel in
  let attrs := computeAttributes (p_archetype p) level in
  let p := recalculateStats
    (with_progress p level 0 (a_str attrs) (a_agi attrs) (a_int attrs)) in
  with_hp p (p_maxHp p).

Definition setArchetype (p : Player) (archetype : Archetype) : Player :=
  let attrs := computeAttributes archetype (p_level p) in
  let p := recalculateStats
    (with_progress (with_archetype p archetype) (p_level p) (p_experience p)
       (a_str attrs) (a_agi attrs) (a_int attrs)) in
  with_hp p (p_maxHp p).

(** ** Combat and counters *)

Definition player_calculateDamage (p : Player) (creatureDefense : Z) (damageMultiplier : Q) : Z :=
  mitigateDamage (p_attack p) creatureDefense damageMultiplier.

Definition p_speed (p : Player) : Z := deriveSpeed (p_agi p).

Definition player_takeDamage (p : Player) (amount : Z) : Player :=
  with_hp p (Z.max 0 (p_hp p - amount)).

Definition player_isDefeated (p : Player) : bool := p_hp p <=? 0.

Definition restoreHp (p : Player) (amount : Z) : Player :=
  with_hp p (Z.min (p_maxHp p) (p_hp p + amount)).

Definition fullHeal (p : Player) : Player := with_hp p (p_maxHp p).

Definition addDistance (p : Player) (distance : Q) : Player :=
  with_counters p (js_add (p_totalDistance p) distance) (p_totalEncounters p)
    (p_creaturesDefeated p) (p_combatTurnsTaken p).

Definition incrementEncounters (p : Player) : Player :=
  with_counters p (p_totalDistance p) (p_totalEncounters p + 1) (p_creaturesDefeated p)
    (p_combatTurnsTaken p).

Definition defeatCreature (p : Player) : Player :=
  with_counters p (p_totalDistance p) (p_totalEncounters p) (p_creaturesDefeated p + 1)
    (p_combatTurnsTaken p).

Definition incrementCombatTurns (p : Player) : Player :=
  with_counters p (p_totalDistance p) (p_totalEncounters p) (p_creaturesDefeated p)
    (p_combatTurnsTaken p + 1).

Record PlayerStats := mkPlayerStats {
  ps_id : string;
  ps_name : string;
  ps_level : Z;
  ps_experience : Z;
  ps_experienceForNextLevel : Z;
  ps_attack : Z;
  ps_defense : Z;
  ps_hp : Z;
  ps_maxHp : Z;
  ps_totalDistance : Q;
  ps_totalEncounters : Z;
  ps_creaturesDefeated : Z;
  ps_archetype : Archetype;
  ps_str : Z;
  ps_agi : Z;
  ps_int : Z
}.

Definition getStats (p : Player) : PlayerStats :=
  {| ps_id := p_id p;
     ps_name := p_name p;
     ps_level := p_level p;
     ps_experience := p_experience p;
     ps_experienceForNextLevel := getExperienceForNextLevel p;
     ps_attack := p_attack p;
     ps_defense := p_defense p;
     ps_hp := p_hp p;
     ps_maxHp := p_maxHp p;
     ps_totalDistance := p_totalDistance p;
     ps_totalEncounters := p_totalEncounters p;
     ps_creaturesDefeated := p_creaturesDefeated p;
     ps_archetype := p_archetype p;
     ps_str := p_str p;
     ps_agi := p_agi p;
     ps_int := p_int p |}.

(** ** Inventory and equipment operations *)

(** [inventory.findIndex(slot => slot === null)]; [None] for [-1]. *)
Fixpoint find_empty (inv : list (option Item)) : option nat :=
  match inv with
  | [] => None
  | None :: _ => Some 0%nat
  | Some _ :: inv' => S <$> find_empty inv'
  end.

Definition addItemToInventory (p : Player) (item : Item) : Player * Z :=
  match find_empty (p_inventory p) with
  | Some i => (with_inventory p (<[i := Some item]> (p_inventory p)), Z.of_nat i)
  | None => (p, -1)
  end.

Definition clearInventory (p : Player) : Player := with_inventory p createEmptyInventory.

(** [index < 0 || index >= this.inventory.length] *)
Definition index_out_of_range (p : Player) (index : Z) : bool :=
  (index <? 0) || (Z.of_nat (length (p_inventory p)) <=? index).

Definition removeItemFromInventory (p : Player) (index : Z) : Player * option Item :=
  if index_out_of_range p index then (p, None)
  else
    let item := mjoin (p_inventory p !! Z.to_nat index) in
    (with_inventory p (<[Z.to_nat index := None]> (p_inventory p)), item).

Definition getEmptyInventorySlots (p : Player) : nat :=
  length (filter (fun slot => slot = None) (p_inventory p)).

Definition getUsedInventorySlots (p : Player) : nat :=
  length (filter (fun slot => slot <> None) (p_inventory p)).

Definition isInventoryFull (p : Player) : bool := (getEmptyInventorySlots p =? 0)%nat.

Definition getEquipTargetSlot (p : Player) (item : Item) : EquipmentSlot :=
  match item_slot (it_type item) with
  | None => match eq_accessory1 (p_equipment p) with
            | None => slot_accessory1
            | Some _ => slot_accessory2
            end
  | Some slot => slot
  end.

Definition statTotal (it : Item) : Z :=
  default 0 (it_attack it) + default 0 (it_defense it) + default 0 (it_maxHp it).

Definition wouldUpgrade (p : Player) (item : Item) : bool :=
  match equip_get (p_equipment p) (getEquipTargetSlot p item) with
  | None => false
  | Some replaced => statTotal replaced <? statTotal item
  end.

Definition resolveEquipTargetSlot (p : Player) (item : Item)
    (preferredSlot : option EquipmentSlot) : EquipmentSlot :=
  match item_slot (it_type item), preferredSlot with
  | None, Some slot_accessory1 => slot_accessory1
  | None, Some slot_accessory2 => slot_accessory2
  | _, _ => getEquipTargetSlot p item
  end.

(** The assignment at the end of [equipItem]: an accessory goes to [accessory1]
    or else [accessory2]; any other item to the slot of the [switch], which has no
    case for the accessory slots. *)
Definition equip_assign (e : Equipment) (item : Item) (targetSlot : EquipmentSlot) : Equipment :=
  match item_slot (it_type item) with
  | None =>
      match targetSlot with
      | slot_accessory1 => equip_set e slot_accessory1 (Some item)
      | _ => equip_set e slot_accessory2 (Some item)
      end
  | Some _ =>
      match targetSlot with
      | slot_accessory1 | slot_accessory2 => e
      | s => equip_set e s (Some item)
      end
  end.

Definition equipItem (p : Player) (inventoryIndex : Z) (preferredSlot : option EquipmentSlot)
    : Player * bool :=
  if index_out_of_range p inventoryIndex then (p, false)
  else
    let i := Z.to_nat inventoryIndex in
    match mjoin (p_inventory p !! i) with
    | None => (p, false)
    | Some item =>
        if p_level p <? it_level item then (p, false)
        else
          let targetSlot := resolveEquipTargetSlot p item preferredSlot in
          let inventory := <[i := None]> (p_inventory p) in
          let displaced :=
            match equip_get (p_equipment p) targetSlot with
            | None => Some inventory
            | Some existingItem =>
                match find_empty inventory with
                | Some j => Some (<[j := Some existingItem]> inventory)
                | None => None
                end
            end in
          match displaced with
          | None => (with_inventory p (<[i := Some item]> inventory), false)
          | Some inventory =>
              (recalculateStats
                 (with_equipment (with_inventory p inventory)
                    (equip_assign (p_equipment p) item targetSlot)), true)
          end
    end.

(** ** Serialised form *)

Record PlayerData := mkPlayerData {
  d_id : string;
  d_name : string;
  d_level : Z;
  d_experience : Z;
  d_attack : Z;
  d_defense : Z;
  d_hp : option Z;
  d_maxHp : option Z;
  d_totalDistance : Q;
  d_totalEncounters : Z;
  d_creaturesDefeated : Z;
  d_combatTurnsTaken : option Z;
  d_equipment : Equipment;
  d_inventory : option (list (option Item));
  d_archetype : option Archetype;
  d_str : option Z;
  d_agi : option Z;
  d_int : option Z
}.

Definition toJSON (p : Player) : PlayerData :=
  {| d_id := p_id p;
     d_name := p_name p;
     d_level := p_level p;
     d_experience := p_experience p;
     d_attack := p_attack p;
     d_defense := p_defense p;
     d_hp := Some (p_hp p);
     d_maxHp := Some (p_maxHp p);
     d_totalDistance := p_totalDistance p;
     d_totalEncounters := p_totalEncounters p;
     d_creaturesDefeated := p_creaturesDefeated p;
     d_combatTurnsTaken := Some (p_combatTurnsTaken p);
     d_equipment := p_equipment p;
     d_inventory := Some (p_inventory p);
     d_archetype := Some (p_archetype p);
     d_str := Some (p_str p);
     d_agi := Some (p_agi p);
     d_int := Some (p_int p) |}.

(** The attributes of a save, recomputed from its level when any is missing. *)
Definition load_attributes (data : PlayerData) (archetype : Archetype) : Attributes :=
  match d_str data, d_agi data, d_int data with
  | Some str, Some agi, Some intVal => mkAttributes str agi intVal
  | _, _, _ => computeAttributes archetype (d_level data)
  end.

Definition fromJSON (data : PlayerData) : Player :=
  let archetype := default Martial (d_archetype data) in
  let attrs := load_attributes data archetype in
  new_Player {|
    pp_id := Some (d_id data);
    pp_name := Some (d_name data);
    pp_level := Some (d_level data);
    pp_experience := Some (d_experience data);
    pp_attack := Some (d_attack data);
    pp_defense := Some (d_defense data);
    pp_hp := d_hp data;
    pp_maxHp := d_maxHp data;
    pp_totalDistance := Some (d_totalDistance data);
    pp_totalEncounters := Some (d_totalEncounters data);
    pp_creaturesDefeated := Some (d_creaturesDefeated data);
    pp_combatTurnsTaken := d_combatTurnsTaken data;
    pp_equipment := Some (d_equipment data);
    pp_inventory := d_inventory data;
    pp_archetype := Some archetype;
    pp_str := Some (a_str attrs);
    pp_agi := Some (a_agi attrs);
    pp_int := Some (a_int attrs) |}.

(** ** Derived stats: lemmas *)

Definition gear_total (f : Item -> option Z) (e : Equipment) : Z :=
  sumZ ((fun o : option Item => default 0 (o ≫= f)) <$> equip_values e).

(** The stats [recalculateStats] assigns. *)
Definition full_attack (p : Player) : Z :=
  deriveAttack (p_str p) (p_agi p) + gear_total it_attack (p_equipment p).
Definition full_defense (p : Player) : Z :=
  deriveDefense (p_str p) (p_agi p) + gear_total it_defense (p_equipment p).
Definition full_maxHp (p : Player) : Z :=
  deriveMaxHp (p_archetype p) (p_str p) (p_agi p) + gear_total it_maxHp (p_equipment p).

Lemma add_gear_fold (slots : list (option Item)) : forall a d m,
  fold_left add_gear slots (a, d, m) =
    (a + sumZ ((fun o : option Item => default 0 (o ≫= it_attack)) <$> slots),
     d + sumZ ((fun o : option Item => default 0 (o ≫= it_defense)) <$> slots),
     m + sumZ ((fun o : option Item => default 0 (o ≫= it_maxHp)) <$> slots)).
Proof.
  induction slots as [|[it|] slots IH]; intros a d m; csimpl.
  - pairs_eq; lia.
  - rewrite IH. destruct (it_attack it), (it_defense it), (it_maxHp it); simpl; pairs_eq; lia.
  - rewrite IH. pairs_eq; lia.
Qed.

Lemma recalculateStats_eq p :
  recalculateStats p =
    with_stats p (full_attack p) (full_defense p) (full_maxHp p)
      (Z.max 0 (Z.min (full_maxHp p) (p_hp p + (full_maxHp p - p_maxHp p)))).
Proof. unfold recalculateStats. rewrite add_gear_fold. reflexivity. Qed.

(** Replacing a slot's item changes a total by the difference of the two. *)
Lemma gear_total_set f e s o :
  gear_total f (equip_set e s o)
  = gear_total f e - default 0 (equip_get e s ≫= f) + default 0 (o ≫= f).
Proof. destruct e, s; unfold gear_total, equip_values; csimpl; lia. Qed.

Lemma equip_get_set e s o s' :
  equip_get (equip_set e s o) s' = if decide (s = s') then o else equip_get e s'.
Proof. destruct e, s, s'; reflexivity. Qed.

Lemma equip_values_set e s o :
  present (equip_values (equip_set e s o)) ++ option_list (equip_get e s)
  ≡ₚ present (equip_values e) ++ option_list o.
Proof.
  destruct e, s; unfold equip_values; cbn [equip_set equip_get eq_weapon eq_offhand eq_head
    eq_chest eq_legs eq_boots eq_gloves eq_accessory1 eq_accessory2];
  match goal with |- _ ++ option_list ?x ≡ₚ present ?r ++ _ =>
    first [ apply (present_insert r 0 x o); reflexivity
          | apply (present_insert r 1 x o); reflexivity
          | apply (present_insert r 2 x o); reflexivity
          | apply (present_insert r 3 x o); reflexivity
          | apply (present_insert r 4 x o); reflexivity
          | apply (present_insert r 5 x o); reflexivity
          | apply (present_insert r 6 x o); reflexivity
          | apply (present_insert r 7 x o); reflexivity
          | apply (present_insert r 8 x o); reflexivity ]
  end.
Qed.

(** ** The invariant *)

(** What the loot generator guarantees of an item. *)
Definition item_ok (it : Item) : Prop :=
  0 <= default 0 (it_attack it) /\ 0 <= default 0 (it_defense it) /\ 0 <= default 0 (it_maxHp it).

(** All the items a player owns, worn or carried. *)
Definition all_items (p : Player) : list Item :=
  present (p_inventory p) ++ present (equip_values (p_equipment p)).

Definition slots_typed (e : Equipment) : Prop :=
  forall s it, equip_get e s = Some it -> canEquipInSlot it s = true.

Definition attributes_of (p : Player) : Attributes := mkAttributes (p_str p) (p_agi p) (p_int p).

Record wf_player (p : Player) : Prop := {
  wf_level : 1 <= p_level p;
  wf_experience : 0 <= p_experience p < exp_for_next (p_level p);
  wf_hp : 0 <= p_hp p <= p_maxHp p;
  wf_inventory : length (p_inventory p) = PLAYER_CONFIG.MAX_INVENTORY_SIZE;
  wf_items : Forall item_ok (all_items p);
  wf_slots : slots_typed (p_equipment p);
  wf_attributes : attributes_of p = computeAttributes (p_archetype p) (p_level p);
  wf_attack : p_attack p = full_attack p;
  wf_defense : p_defense p = full_defense p;
  wf_maxHp : p_maxHp p = full_maxHp p
}.

Lemma gear_total_nonneg f p :
  Forall (fun it => 0 <= default 0 (f it)) (present (equip_values (p_equipment p))) ->
  0 <= gear_total f (p_equipment p).
Proof.
  intros H. apply sumZ_nonneg, Forall_fmap. revert H. unfold present.
  induction (equip_values (p_equipment p)) as [|[it|] l IH]; csimpl; intros H; constructor;
    simpl; try lia.
  - apply Forall_cons in H as [H _]. exact H.
  - apply IH. apply Forall_cons in H as [_ H]. exact H.
  - apply IH, H.
Qed.

Lemma items_ok_gear p : Forall item_ok (all_items p) ->
  0 <= gear_total it_maxHp (p_equipment p).
Proof.
  intros H. apply gear_total_nonneg. apply Forall_app in H as [_ H].
  eapply Forall_impl; [exact H|]. intros it Hit. apply Hit.
Qed.

Lemma full_maxHp_pos p : Forall item_ok (all_items p) ->
  attributes_of p = computeAttributes (p_archetype p) (p_level p) -> 60 <= full_maxHp p.
Proof.
  intros Hi Ha. pose proof (items_ok_gear p Hi) as G. unfold full_maxHp.
  pose proof (computeAttributes_mono (p_archetype p) _ _ (Z.le_refl (p_level p))) as M.
  rewrite <- Ha in M. unfold attributes_of in M. simpl in M. pose proof (growth_nonneg (p_archetype p)) as C.
  simpl in C. unfold deriveMaxHp. lia.
Qed.

Lemma exp_for_next_ge l : 100 <= exp_for_next l.
Proof.
  unfold exp_for_next. apply math_floor_ge, fl_ge_Z; [lia|].
  pose proof (math_pow_3_2_ge_1 (Z.max 1 l)) as H.
  specialize (H ltac:(lia)). change (inject_Z 100) with 100%Q. lra.
Qed.

(** [recalculateStats] restores the invariant's stat equations and keeps the
    hit points in range. *)
Lemma recalculateStats_wf p :
  1 <= p_level p -> 0 <= p_experience p < exp_for_next (p_level p) ->
  length (p_inventory p) = PLAYER_CONFIG.MAX_INVENTORY_SIZE ->
  Forall item_ok (all_items p) -> slots_typed (p_equipment p) ->
  attributes_of p = computeAttributes (p_archetype p) (p_level p) ->
  wf_player (recalculateStats p).
Proof.
  intros Hl He Hi Hit Hs Ha. pose proof (full_maxHp_pos p Hit Ha) as Hm.
  rewrite recalculateStats_eq. destruct p. constructor; simpl in *; auto; lia.
Qed.

Lemma with_hp_wf p hp : 0 <= hp <= p_maxHp p -> wf_player p -> wf_player (with_hp p hp).
Proof. intros H []. destruct p. constructor; auto. Qed.

Lemma with_counters_wf p a b c d : wf_player p -> wf_player (with_counters p a b c d).
Proof. intros []. destruct p. constructor; auto. Qed.

Lemma with_inventory_wf p inv :
  length inv = PLAYER_CONFIG.MAX_INVENTORY_SIZE -> Forall item_ok (present inv) ->
  wf_player p -> wf_player (with_inventory p inv).
Proof.
  intros H1 H2 []. destruct p. constructor; auto. simpl in *. apply Forall_app. split; [exact H2|].
  apply Forall_app in wf_items0. apply wf_items0.
Qed.

(** ** Levelling: lemmas *)

(** Experience needed to gain [n] levels from level [l]. *)
Fixpoint levels_cost (l : Z) (n : nat) : Z :=
  match n with
  | O => 0
  | S n' => exp_for_next l + levels_cost (l + 1) n'
  end.

Lemma levels_cost_last l n : levels_cost l (S n) = levels_cost l n + exp_for_next (l + Z.of_nat n).
Proof.
  revert l. induction n as [|n IH]; intros l.
  - cbn [levels_cost]. replace (l + Z.of_nat 0) with l by lia. lia.
  - change (levels_cost l (S (S n))) with (exp_for_next l + levels_cost (l + 1) (S n)).
    rewrite IH. cbn [levels_cost]. replace (l + 1 + Z.of_nat n) with (l + Z.of_nat (S n)) by lia. lia.
Qed.

Lemma levels_cost_add l n m :
  levels_cost l (n + m) = levels_cost l n + levels_cost (l + Z.of_nat n) m.
Proof.
  revert l. induction n as [|n IH]; intros l; cbn [levels_cost Nat.add].
  - replace (l + Z.of_nat 0) with l by lia. lia.
  - rewrite IH. replace (l + 1 + Z.of_nat n) with (l + Z.of_nat (S n)) by lia. lia.
Qed.

Lemma levels_cost_nonneg l n : 100 * Z.of_nat n <= levels_cost l n.
Proof.
  revert l. induction n as [|n IH]; intros l; cbn [levels_cost]; [lia|].
  pose proof (exp_for_next_ge l). specialize (IH (l + 1)). lia.
Qed.

Lemma levels_cost_mono l n m : (n < m)%nat -> levels_cost l n < levels_cost l m.
Proof.
  intros H. replace m with (n + (m - n))%nat by lia. rewrite levels_cost_add.
  pose proof (levels_cost_nonneg (l + Z.of_nat n) (m - n)). lia.
Qed.

(** [x] experience buys exactly [n] levels from level [l]. *)
Definition buys (l x : Z) (n : nat) : Prop := levels_cost l n <= x < levels_cost l (S n).

Lemma buys_unique l x n m : buys l x n -> buys l x m -> n = m.
Proof.
  unfold buys. intros [H1 H2] [H3 H4].
  destruct (lt_eq_lt_dec n m) as [[H|H]|H]; [|exact H|]; exfalso.
  - assert (levels_cost l (S n) <= levels_cost l m); [|lia].
    destruct (decide (S n = m)) as [->|]; [lia|]. apply Z.lt_le_incl, levels_cost_mono. lia.
  - assert (levels_cost l (S m) <= levels_cost l n); [|lia].
    destruct (decide (S m = n)) as [->|]; [lia|]. apply Z.lt_le_incl, levels_cost_mono. lia.
Qed.

(** The player after [n] iterations of the loop. *)
Definition after_levels (p : Player) (n : nat) : Player :=
  let cfg := ARCHETYPE_CONFIGS (p_archetype p) in
  with_progress p (p_level p + Z.of_nat n) (p_experience p - levels_cost (p_level p) n)
    (p_str p + Z.of_nat n * strPerLevel cfg) (p_agi p + Z.of_nat n * agiPerLevel cfg)
    (p_int p + Z.of_nat n * intPerLevel cfg).

Lemma after_levels_0 p : after_levels p 0 = p.
Proof. destruct p. unfold after_levels. cbn. f_equal; lia. Qed.

Lemma after_levels_S p n : after_levels (level_up_once p) n = after_levels p (S n).
Proof.
  destruct p. unfold after_levels, level_up_once, getExperienceForNextLevel.
  cbn [p_level p_experience p_str p_agi p_int p_archetype with_progress levels_cost].
  f_equal; lia.
Qed.

Lemma level_up_loop_spec fuel : forall p g,
  0 <= p_experience p -> p_experience p / 100 < Z.of_nat fuel ->
  exists n, level_up_loop fuel p g = (after_levels p n, g + Z.of_nat n)
    /\ buys (p_level p) (p_experience p) n.
Proof.
  induction fuel as [|fuel IH]; intros p g H0 Hf.
  { pose proof (Z.div_pos _ 100 H0 ltac:(lia)). lia. }
  cbn [level_up_loop]. pose proof (exp_for_next_ge (p_level p)) as H100.
  unfold getExperienceForNextLevel. destruct (Z.leb_spec (exp_for_next (p_level p)) (p_experience p)).
  - assert (E : p_experience (level_up_once p) = p_experience p - exp_for_next (p_level p)
      /\ p_level (level_up_once p) = p_level p + 1) by (destruct p; split; reflexivity).
    destruct E as [E1 E2].
    destruct (IH (level_up_once p) (g + 1)) as (n & -> & B).
    + lia.
    + rewrite E1. assert ((p_experience p - exp_for_next (p_level p)) / 100
        <= (p_experience p - 1 * 100) / 100) by (apply Z.div_le_mono; lia).
      replace (p_experience p - 1 * 100) with (p_experience p + (-1) * 100) in * by lia.
      rewrite Z.div_add in * by lia. lia.
    + exists (S n). split; [rewrite after_levels_S; f_equal; lia|].
      rewrite E1, E2 in B. unfold buys in *. cbn [levels_cost] in *. lia.
  - exists 0%nat. rewrite after_levels_0. split; [f_equal; lia|].
    unfold buys. cbn [levels_cost]. lia.
Qed.

Lemma checkLevelUp_spec p : 0 <= p_experience p ->
  exists n, buys (p_level p) (p_experience p) n
    /\ checkLevelUp p = (if (n =? 0)%nat then p else recalculateStats (after_levels p n), Z.of_nat n).
Proof.
  intros H. unfold checkLevelUp.
  destruct (level_up_loop_spec (level_up_fuel p) p 0 H) as (n & -> & B).
  { unfold level_up_fuel. pose proof (Z.div_pos _ 100 H ltac:(lia)). lia. }
  exists n. split; [exact B|]. destruct n as [|n]; [rewrite after_levels_0; reflexivity|].
  destruct (Z.ltb_spec 0 (0 + Z.of_nat (S n))); [reflexivity | lia].
Qed.

(** Stats in step with attributes and gear, hit points in range. *)
Definition synced (p : Player) : Prop :=
  p_attack p = full_attack p /\ p_defense p = full_defense p /\ p_maxHp p = full_maxHp p
  /\ 0 <= p_hp p <= p_maxHp p.

Lemma wf_synced p : wf_player p -> synced p.
Proof. intros []. repeat split; auto; lia. Qed.

Lemma recalculateStats_synced p : synced p -> recalculateStats p = p.
Proof.
  intros (Ha & Hd & Hm & Hh). rewrite recalculateStats_eq, <- Ha, <- Hd, <- Hm.
  destruct p. simpl in *. f_equal. lia.
Qed.

Lemma full_maxHp_after p n : full_maxHp p <= full_maxHp (after_levels p n).
Proof.
  pose proof (growth_nonneg (p_archetype p)) as G. simpl in G.
  unfold full_maxHp, deriveMaxHp, after_levels. destruct p. simpl in *. nia.
Qed.

Lemma recalculateStats_after p n : synced p ->
  recalculateStats (after_levels p n)
  = let q := after_levels p n in
    with_stats q (full_attack q) (full_defense q) (full_maxHp q)
      (p_hp p + (full_maxHp q - p_maxHp p)).
Proof.
  intros (_ & _ & Hm & Hh). rewrite recalculateStats_eq.
  pose proof (full_maxHp_after p n) as G.
  assert (E : p_hp (after_levels p n) = p_hp p /\ p_maxHp (after_levels p n) = p_maxHp p)
    by (destruct p; split; reflexivity).
  destruct E as [-> ->]. cbv zeta. f_equal. lia.
Qed.

(** [addExperience] before the loop runs. *)
Definition gain (p : Player) (amount : Z) : Player :=
  with_progress p (p_level p) (p_experience p + amount) (p_str p) (p_agi p) (p_int p).

Lemma gain_synced p a : synced p -> synced (gain p a).
Proof. intros H. destruct p. exact H. Qed.

Lemma gain_fields p a :
  p_level (gain p a) = p_level p /\ p_experience (gain p a) = p_experience p + a.
Proof. destruct p. split; reflexivity. Qed.

Lemma addExperience_spec p amount : synced p -> 0 <= p_experience p + amount ->
  exists n, buys (p_level p) (p_experience p + amount) n
    /\ addExperience p amount = (recalculateStats (after_levels (gain p amount) n), Z.of_nat n).
Proof.
  intros Hs Hx. unfold addExperience. fold (gain p amount).
  destruct (gain_fields p amount) as [E1 E2].
  destruct (checkLevelUp_spec (gain p amount)) as (n & B & ->); [lia|].
  rewrite E1, E2 in B. exists n. split; [exact B|].
  destruct n as [|n]; [|reflexivity]. simpl. rewrite after_levels_0.
  rewrite recalculateStats_synced by apply gain_synced, Hs. reflexivity.
Qed.

Lemma after_levels_attributes p n : 1 <= p_level p ->
  attributes_of p = computeAttributes (p_archetype p) (p_level p) ->
  attributes_of (after_levels p n) = computeAttributes (p_archetype p) (p_level p + Z.of_nat n).
Proof.
  intros Hl E. injection E as E1 E2 E3.
  unfold attributes_of, after_levels, computeAttributes. destruct p; simpl in *. subst.
  rewrite !Z.max_r by lia. f_equal; lia.
Qed.

Lemma addExperience_wf p amount : 0 <= amount -> wf_player p -> wf_player (fst (addExperience p amount)).
Proof.
  intros H W. pose proof (wf_synced p W) as S. destruct W.
  destruct (addExperience_spec p amount S) as (n & [B1 B2] & ->); [lia|]. rewrite levels_cost_last in B2.
  pose proof (after_levels_attributes (gain p amount) n) as A.
  destruct p. simpl in *. apply recalculateStats_wf; simpl; auto; try lia.
Qed.

(** What experience never touches. *)
Definition kept (p : Player) : string * string * Equipment * list (option Item) * Archetype :=
  (p_id p, p_name p, p_equipment p, p_inventory p, p_archetype p).

Definition tally (p : Player) : Q * Z * Z * Z :=
  (p_totalDistance p, p_totalEncounters p, p_creaturesDefeated p, p_combatTurnsTaken p).

Lemma addExperience_keeps p amount : synced p -> 0 <= p_experience p + amount ->
  let p' := fst (addExperience p amount) in kept p' = kept p /\ tally p' = tally p.
Proof.
  intros S H. destruct (addExperience_spec p amount S H) as (n & _ & ->).
  cbn [fst]. rewrite recalculateStats_eq. destruct p. split; reflexivity.
Qed.

Lemma full_with_stats q a d m h : let q' := with_stats q a d m h in
  full_attack q' = full_attack q /\ full_defense q' = full_defense q
  /\ full_maxHp q' = full_maxHp q.
Proof. destruct q. repeat split. Qed.

Lemma with_stats_twice q a d m h a' d' m' h' :
  with_stats (with_stats q a d m h) a' d' m' h' = with_stats q a' d' m' h'.
Proof. destruct q. reflexivity. Qed.

Lemma after_gain_split p a b n m ta td tm th :
  after_levels (gain (with_stats (after_levels (gain p a) n) ta td tm th) b) m
  = with_stats (after_levels (gain p (a + b)) (n + m)) ta td tm th.
Proof.
  destruct p. unfold after_levels, gain.
  cbn [p_level p_experience p_str p_agi p_int p_archetype with_progress with_stats].
  rewrite levels_cost_add. f_equal; lia.
Qed.

(** ** Experience: properties *)

Lemma addExperience_account (p : Player) (amount : Z) :
  wf_player p -> 0 <= amount ->
  let (p', gained) := addExperience p amount in
  0 <= gained /\ p_level p' = p_level p + gained
  /\ 0 <= p_experience p' < getExperienceForNextLevel p'
  /\ p_experience p + amount = p_experience p' + levels_cost (p_level p) (Z.to_nat gained)
  /\ attributes_of p' = computeAttributes (p_archetype p) (p_level p')
  /\ p_maxHp p' - p_hp p' = p_maxHp p - p_hp p /\ p_maxHp p <= p_maxHp p'.
Proof.
  intros W H. pose proof (wf_synced p W) as Sy.
  pose proof (gain_synced p amount Sy) as Sg. destruct W.
  destruct (addExperience_spec p amount Sy) as (n & [B1 B2] & ->); [lia|].
  rewrite levels_cost_last in B2.
  pose proof (full_maxHp_after (gain p amount) n) as M.
  pose proof (after_levels_attributes (gain p amount) n) as A.
  rewrite recalculateStats_after by exact Sg. cbv zeta. rewrite Nat2Z.id.
  destruct Sg as (_ & _ & Sm & _). unfold getExperienceForNextLevel.
  set (q := full_maxHp (after_levels (gain p amount) n)) in *. clearbody q.
  destruct p; simpl in *. repeat split; try lia. rewrite <- A by auto. reflexivity.
Qed.

(** C29: awarding experience always terminates with less experience than the next
    level costs; the levels gained are exactly those the total pays for and no
    experience is lost or created; attributes are those of the new level; and the
    damage the player had taken is unchanged, so a level-up raises hit points by
    exactly what it adds to the maximum. *)
Theorem addExperience_levels (p : Player) (amount : Z) :
  wf_player p -> 0 <= amount ->
  let (p', gained) := addExperience p amount in
  0 <= gained /\ p_level p' = p_level p + gained
  /\ 0 <= p_experience p' < getExperienceForNextLevel p'
  /\ p_experience p + amount = p_experience p' + levels_cost (p_level p) (Z.to_nat gained)
  /\ attributes_of p' = computeAttributes (p_archetype p) (p_level p')
  /\ p_maxHp p' - p_hp p' = p_maxHp p - p_hp p /\ p_maxHp p <= p_maxHp p'.
Proof. apply addExperience_account. Qed.

Definition sample_player : Player := new_Player default_params.

Lemma sample_player_wf : wf_player sample_player.
Proof.
  constructor; [vm_compute; repeat split; discriminate .. | reflexivity | | | reflexivity
    | reflexivity | reflexivity | reflexivity].
  - constructor.
  - intros [] it H; discriminate.
Qed.

Lemma addExperience_levels_witness :
  let (p', gained) := addExperience sample_player 1000 in
  0 <= gained /\ p_level p' = p_level sample_player + gained
  /\ 0 <= p_experience p' < getExperienceForNextLevel p'
  /\ p_experience sample_player + 1000
     = p_experience p' + levels_cost (p_level sample_player) (Z.to_nat gained)
  /\ attributes_of p' = computeAttributes (p_archetype sample_player) (p_level p')
  /\ p_maxHp p' - p_hp p' = p_maxHp sample_player - p_hp sample_player
  /\ p_maxHp sample_player <= p_maxHp p'.
Proof. apply (addExperience_levels sample_player 1000); [apply sample_player_wf | lia]. Defined.

Example level_up_sample :
  let (p', gained) := addExperience sample_player 1000 in
  (gained, p_level p', p_experience p', p_hp p', p_maxHp p') = (3, 4, 99, 130, 130).
Proof. vm_compute. reflexivity. Qed.

(** How experience is split into awards does not matter.  Awarding [a] and then
    [b] leaves exactly the player that awarding [a + b] at once does, and the
    levels gained add up. *)
Theorem addExperience_split (p : Player) (a b : Z) :
  wf_player p -> 0 <= a -> 0 <= b ->
  addExperience p (a + b)
  = let (p1, g1) := addExperience p a in
    let (p2, g2) := addExperience p1 b in (p2, g1 + g2).
Proof.
  intros W Ha Hb. pose proof (wf_synced p W) as S.
  pose proof (wf_synced _ (addExperience_wf p a Ha W)) as S1.
  assert (X0 : 0 <= p_experience p) by apply W.
  destruct (addExperience_spec p a S ltac:(lia)) as (n & B & E). rewrite E in *. simpl in S1.
  rewrite recalculateStats_after in * by apply gain_synced, S. cbv zeta in *.
  set (p1 := with_stats _ _ _ _ _) in *.
  assert (F : p_level p1 = p_level p + Z.of_nat n
    /\ p_experience p1 = p_experience p + a - levels_cost (p_level p) n)
    by (destruct p; split; reflexivity). destruct F as [F1 F2].
  destruct (addExperience_spec p1 b S1) as (m & B' & ->); [unfold buys in B; lia|].
  destruct (addExperience_spec p (a + b) S ltac:(lia)) as (k & B'' & ->).
  assert (k = (n + m)%nat) as ->.
  { apply (buys_unique _ _ _ _ B''). unfold buys in *.
    replace (Datatypes.S (n + m)) with (n + Datatypes.S m)%nat by lia.
    rewrite !levels_cost_add. rewrite F1, F2 in B'. lia. }
  rewrite !recalculateStats_after by (apply gain_synced; assumption). cbv zeta.
  apply f_equal2; [|lia].
  subst p1. rewrite after_gain_split.
  set (q := after_levels (gain p (a + b)) (n + m)).
  destruct (full_with_stats q (full_attack (after_levels (gain p a) n))
    (full_defense (after_levels (gain p a) n)) (full_maxHp (after_levels (gain p a) n))
    (p_hp (gain p a) + (full_maxHp (after_levels (gain p a) n) - p_maxHp (gain p a))))
    as (-> & -> & ->).
  rewrite with_stats_twice. f_equal. destruct p; simpl. lia.
Qed.

Lemma addExperience_split_witness :
  addExperience sample_player (150 + 900)
  = let (p1, g1) := addExperience sample_player 150 in
    let (p2, g2) := addExperience p1 900 in (p2, g1 + g2).
Proof. apply (addExperience_split sample_player 150 900); [apply sample_player_wf | lia | lia]. Defined.

(** ** Inventory and equipment: lemmas *)

Lemma find_empty_Some inv i : find_empty inv = Some i ->
  inv !! i = Some None /\ forall j, (j < i)%nat -> inv !! j <> Some None.
Proof.
  revert i. induction inv as [|[it|] inv IH]; intros i H; simpl in H; [discriminate | |].
  - destruct (find_empty inv) as [k|] eqn:E; [|discriminate]. injection H as <-.
    destruct (IH k eq_refl) as [H1 H2]. split; [exact H1|].
    intros [|j] Hj; simpl; [discriminate | apply H2; lia].
  - injection H as <-. split; [reflexivity | lia].
Qed.

Lemma find_empty_None inv : find_empty inv = None <-> forall i, inv !! i <> Some None.
Proof.
  induction inv as [|[it|] inv IH]; simpl.
  - split; [intros _ i; rewrite lookup_nil; discriminate | reflexivity].
  - destruct (find_empty inv) eqn:E; simpl; split; intros H; try discriminate; try reflexivity.
    + exfalso. apply find_empty_Some in E as [E _]. apply (H (S n)). exact E.
    + intros [|i]; simpl; [discriminate|]. apply IH. reflexivity.
  - split; [discriminate | intros H; exfalso; apply (H 0%nat); reflexivity].
Qed.

(** Clearing a slot leaves an empty one to be found. *)
Lemma find_empty_cleared inv i : (i < length inv)%nat -> find_empty (<[i := None]> inv) <> None.
Proof.
  intros H E. apply find_empty_None with (i := i) in E. apply E.
  apply list_lookup_insert_eq, H.
Qed.

Lemma find_empty_full p : find_empty (p_inventory p) = None <-> isInventoryFull p = true.
Proof.
  unfold isInventoryFull, getEmptyInventorySlots. rewrite Nat.eqb_eq, length_zero_iff_nil.
  induction (p_inventory p) as [|[it|] inv IH]; csimpl; [split; reflexivity | |].
  - rewrite <- IH. destruct (find_empty inv); simpl; split; congruence.
  - split; discriminate.
Qed.

Lemma slot_lookup p index it :
  index_out_of_range p index = false ->
  mjoin (p_inventory p !! Z.to_nat index) = Some it ->
  p_inventory p !! Z.to_nat index = Some (Some it)
  /\ (Z.to_nat index < length (p_inventory p))%nat.
Proof.
  intros Hr H. destruct (p_inventory p !! Z.to_nat index) as [o|] eqn:E; [|discriminate].
  simpl in H. subst. split; [reflexivity|]. eapply lookup_lt_Some, E.
Qed.

(** The slot [equipItem] resolves to always accepts the item. *)
Lemma resolve_typed p it pref : canEquipInSlot it (resolveEquipTargetSlot p it pref) = true.
Proof.
  unfold resolveEquipTargetSlot, getEquipTargetSlot, canEquipInSlot.
  destruct (item_slot (it_type it)) as [s|] eqn:E.
  - apply bool_decide_eq_true. reflexivity.
  - destruct pref as [[]|], (eq_accessory1 (p_equipment p)); reflexivity.
Qed.

(** For such a slot the final assignment is a plain write. *)
Lemma equip_assign_set e it s : canEquipInSlot it s = true ->
  equip_assign e it s = equip_set e s (Some it).
Proof.
  unfold canEquipInSlot, equip_assign. destruct (it_type it), s; simpl; congruence || reflexivity.
Qed.

(** What a successful [equipItem] does to the inventory. *)
Definition swap_inventory (inv : list (option Item)) (i : nat) (existing : option Item)
    : list (option Item) :=
  match existing with
  | None => <[i := None]> inv
  | Some old => from_option (fun j => <[j := Some old]> (<[i := None]> inv)) (<[i := None]> inv)
                  (find_empty (<[i := None]> inv))
  end.

Definition equipped (p : Player) (i : nat) (it : Item) (s : EquipmentSlot) : Player :=
  recalculateStats
    (with_equipment
       (with_inventory p (swap_inventory (p_inventory p) i (equip_get (p_equipment p) s)))
       (equip_set (p_equipment p) s (Some it))).

Lemma equipped_fields p i it s :
  p_equipment (equipped p i it s) = equip_set (p_equipment p) s (Some it)
  /\ p_inventory (equipped p i it s)
     = swap_inventory (p_inventory p) i (equip_get (p_equipment p) s)
  /\ (p_str (equipped p i it s), p_agi (equipped p i it s), p_archetype (equipped p i it s))
     = (p_str p, p_agi p, p_archetype p).
Proof. unfold equipped. rewrite recalculateStats_eq. destruct p. repeat split. Qed.

(** When [equipItem] succeeds. *)
Definition can_equip (p : Player) (index : Z) (it : Item) : Prop :=
  0 <= index /\ p_inventory p !! Z.to_nat index = Some (Some it) /\ it_level it <= p_level p.

(** [equipItem] either changes nothing or equips; the branch that puts the item
    back for want of an empty slot is never taken. *)
Lemma equipItem_cases p index pref :
  (equipItem p index pref = (p, false) /\ ~ exists it, can_equip p index it)
  \/ exists it, can_equip p index it
       /\ equipItem p index pref
          = (equipped p (Z.to_nat index) it (resolveEquipTargetSlot p it pref), true).
Proof.
  unfold equipItem. destruct (index_out_of_range p index) eqn:Hr.
  { left. split; [reflexivity|]. intros (it & H0 & H & _). apply lookup_lt_Some in H.
    unfold index_out_of_range in Hr. lia. }
  destruct (mjoin _) as [it|] eqn:E.
  2: { left. split; [reflexivity|]. intros (it & _ & H & _). rewrite H in E. discriminate. }
  destruct (slot_lookup p index it Hr E) as [L Hl].
  destruct (Z.ltb_spec (p_level p) (it_level it)).
  { left. split; [reflexivity|]. intros (it' & _ & L' & Hl').
    rewrite L in L'. injection L' as ->. lia. }
  right. exists it. unfold index_out_of_range in Hr. split; [split; [lia | auto]|].
  cbv zeta. rewrite equip_assign_set by apply resolve_typed. unfold equipped, swap_inventory.
  destruct (equip_get _ _) as [old|]; [|reflexivity].
  pose proof (find_empty_cleared _ _ Hl) as N.
  destruct (find_empty _); [reflexivity | congruence].
Qed.

Lemma swap_inventory_length inv i o : length (swap_inventory inv i o) = length inv.
Proof.
  unfold swap_inventory. destruct o; [destruct (find_empty _); simpl|];
    rewrite ?length_insert; reflexivity.
Qed.

Lemma swap_inventory_perm inv i it o : inv !! i = Some (Some it) ->
  it :: present (swap_inventory inv i o) ≡ₚ present inv ++ option_list o.
Proof.
  intros H. assert (Hl : (i < length inv)%nat) by (eapply lookup_lt_Some, H).
  pose proof (present_insert inv i (Some it) None H) as P. simpl in P. rewrite app_nil_r in P.
  unfold swap_inventory. destruct o as [old|]; simpl.
  - pose proof (find_empty_cleared inv i Hl) as N.
    destruct (find_empty (<[i:=None]> inv)) as [j|] eqn:E; [|congruence]. simpl.
    apply find_empty_Some in E as [E _].
    pose proof (present_insert _ j None (Some old) E) as P'. simpl in P'. rewrite app_nil_r in P'.
    rewrite P', <- P. solve_Permutation.
  - rewrite app_nil_r, <- P. solve_Permutation.
Qed.

Lemma all_items_recalc p : all_items (recalculateStats p) = all_items p.
Proof. rewrite recalculateStats_eq. destruct p. reflexivity. Qed.

Lemma equipped_items p i it s :
  p_inventory p !! i = Some (Some it) -> all_items (equipped p i it s) ≡ₚ all_items p.
Proof.
  intros H. pose proof (swap_inventory_perm _ _ _ (equip_get (p_equipment p) s) H) as P.
  pose proof (equip_values_set (p_equipment p) s (Some it)) as Q.
  unfold equipped. rewrite all_items_recalc. destruct p. unfold all_items. simpl in *.
  set (inv' := present (swap_inventory _ _ _)) in *.
  set (eq' := present (equip_values (equip_set _ _ _))) in *.
  set (old := option_list _) in *. clearbody inv' eq' old.
  apply (Permutation_app_inv_l (old ++ [it])).
  transitivity ((it :: inv') ++ (eq' ++ old)); [solve_Permutation|].
  rewrite P, Q. solve_Permutation.
Qed.

Lemma equipItem_wf p index pref : wf_player p -> wf_player (fst (equipItem p index pref)).
Proof.
  intros W. destruct (equipItem_cases p index pref) as [[-> _]|(it & (_ & L & _) & ->)];
    [exact W|]. cbn [fst].
  pose proof (resolve_typed p it pref) as T.
  set (s := resolveEquipTargetSlot p it pref) in *. clearbody s.
  pose proof (equipped_items p _ it s L) as P. unfold equipped in P. rewrite all_items_recalc in P.
  destruct W. apply recalculateStats_wf.
  4: rewrite P; assumption.
  all: destruct p; simpl in *; auto.
  - rewrite swap_inventory_length; auto.
  - intros s' it'. rewrite equip_get_set.
    destruct (decide (s = s')) as [<-|]; [intros [= <-]; exact T | apply wf_slots0].
Qed.

Lemma present_In {A} (l : list (option A)) i a : l !! i = Some (Some a) -> a ∈ present l.
Proof.
  intros H. unfold present. apply list_elem_of_omap. exists (Some a).
  split; [eapply list_elem_of_lookup_2, H | reflexivity].
Qed.

Lemma addItem_wf p it : item_ok it -> wf_player p -> wf_player (fst (addItemToInventory p it)).
Proof.
  intros Hi W. unfold addItemToInventory.
  destruct (find_empty (p_inventory p)) as [i|] eqn:E; [|exact W]. simpl.
  apply find_empty_Some in E as [E _].
  apply with_inventory_wf; [rewrite length_insert; apply W | | exact W].
  pose proof (present_insert _ _ _ (Some it) E) as P. simpl in P. rewrite app_nil_r in P.
  rewrite P. apply Forall_app. split; [|constructor; [exact Hi | constructor]].
  destruct W. apply Forall_app in wf_items0. apply wf_items0.
Qed.

Lemma removeItem_wf p index : wf_player p -> wf_player (fst (removeItemFromInventory p index)).
Proof.
  intros W. unfold removeItemFromInventory.
  destruct (index_out_of_range p index) eqn:Hr; [exact W|]. simpl.
  apply with_inventory_wf; [rewrite length_insert; apply W | | exact W].
  destruct (p_inventory p !! Z.to_nat index) as [o|] eqn:E.
  - pose proof (present_insert _ _ _ None E) as P. simpl in P. rewrite app_nil_r in P.
    destruct W. apply Forall_app in wf_items0 as [F _]. rewrite <- P in F.
    apply Forall_app in F. apply F.
  - rewrite list_insert_ge by (apply lookup_ge_None, E).
    destruct W. apply Forall_app in wf_items0. apply wf_items0.
Qed.

Lemma setLevel_wf p l : wf_player p -> wf_player (setLevel p l).
Proof.
  intros W. unfold setLevel. cbv zeta. apply with_hp_wf.
  1: match goal with |- _ <= p_maxHp ?q <= _ => assert (W' : wf_player q) end.
  2: destruct W'; lia.
  all: destruct W; apply recalculateStats_wf; destruct p; simpl in *; auto; try lia;
    pose proof (exp_for_next_ge (Z.max 1 l)); lia.
Qed.

Lemma setArchetype_wf p a : wf_player p -> wf_player (setArchetype p a).
Proof.
  intros W. unfold setArchetype. cbv zeta. apply with_hp_wf.
  1: match goal with |- _ <= p_maxHp ?q <= _ => assert (W' : wf_player q) end.
  2: destruct W'; lia.
  all: destruct W; apply recalculateStats_wf; destruct p; simpl in *; auto; try lia.
Qed.

(** ** The operations as a state machine *)

(** Every method that changes the player. *)
Inductive PlayerOp :=
  | OpAddExperience (amount : Z)
  | OpTakeDamage (amount : Z)
  | OpRestoreHp (amount : Z)
  | OpFullHeal
  | OpAddDistance (distance : Q)
  | OpIncrementEncounters
  | OpDefeatCreature
  | OpIncrementCombatTurns
  | OpSetLevel (targetLevel : Z)
  | OpSetArchetype (archetype : Archetype)
  | OpAddItem (item : Item)
  | OpRemoveItem (index : Z)
  | OpClearInventory
  | OpEquip (index : Z) (preferredSlot : option EquipmentSlot).

Definition apply_op (p : Player) (op : PlayerOp) : Player :=
  match op with
  | OpAddExperience n => fst (addExperience p n)
  | OpTakeDamage n => player_takeDamage p n
  | OpRestoreHp n => restoreHp p n
  | OpFullHeal => fullHeal p
  | OpAddDistance d => addDistance p d
  | OpIncrementEncounters => incrementEncounters p
  | OpDefeatCreature => defeatCreature p
  | OpIncrementCombatTurns => incrementCombatTurns p
  | OpSetLevel l => setLevel p l
  | OpSetArchetype a => setArchetype p a
  | OpAddItem it => fst (addItemToInventory p it)
  | OpRemoveItem i => fst (removeItemFromInventory p i)
  | OpClearInventory => clearInventory p
  | OpEquip i s => fst (equipItem p i s)
  end.

(** The arguments the callers pass: awards, damage and healing are not negative,
    items have non-negative bonuses. *)
Definition op_ok (op : PlayerOp) : Prop :=
  match op with
  | OpAddExperience n | OpTakeDamage n | OpRestoreHp n => 0 <= n
  | OpAddItem it => item_ok it
  | _ => True
  end.

#[export] Hint Resolve with_counters_wf setLevel_wf setArchetype_wf addExperience_wf addItem_wf
  removeItem_wf equipItem_wf : game.
#[export] Hint Extern 1 (wf_player (addDistance _ _)) => apply with_counters_wf : game.
#[export] Hint Extern 1 (wf_player (incrementEncounters _)) => apply with_counters_wf : game.
#[export] Hint Extern 1 (wf_player (defeatCreature _)) => apply with_counters_wf : game.
#[export] Hint Extern 1 (wf_player (incrementCombatTurns _)) => apply with_counters_wf : game.

Lemma apply_op_wf p op : op_ok op -> wf_player p -> wf_player (apply_op p op).
Proof.
  intros H W. destruct op; cbn [apply_op op_ok] in *; auto with game;
    try (apply with_hp_wf; [destruct W; lia | exact W]).
  apply with_inventory_wf; [reflexivity | constructor | exact W].
Qed.

(** ** Properties *)

(** C28: the player's invariant.  Starting from a well-formed player, any sequence of
    operations leaves level at least 1, experience below the next threshold, hit
    points between 0 and the maximum, exactly 50 inventory slots, every worn item
    in a slot of its type, attributes equal to those of the archetype and level,
    and attack, defense and maximum hit points equal to the derived base plus the
    bonuses of worn gear. *)
Theorem player_invariant (p : Player) (ops : list PlayerOp) :
  wf_player p -> Forall op_ok ops -> wf_player (fold_left apply_op ops p).
Proof.
  intros W H. revert p W. induction H as [|op ops Hop _ IH]; intros p W; simpl; [exact W|].
  apply IH, apply_op_wf; assumption.
Qed.

Definition sample_sword : Item :=
  mkItem "i1" "Iron Sword" "A blade" uncommon 1 (Some 5) None None (lit 0.4) None weapon.
Definition sample_ring : Item :=
  mkItem "i2" "Ring" "A band" rare 1 None (Some 1) (Some 20) (lit 0.4) None accessory.

Lemma player_invariant_witness :
  wf_player (fold_left apply_op
    [OpAddItem sample_sword; OpEquip 0 None; OpTakeDamage 500; OpAddExperience 250;
     OpSetArchetype Mage; OpRestoreHp 3] sample_player).
Proof.
  apply player_invariant; [apply sample_player_wf|].
  repeat constructor; vm_compute; discriminate.
Defined.

(** Equipping never duplicates or destroys an item.  [equipItem] succeeds
    exactly when the index is in range, the slot holds an item and the player's
    level allows it; on success the item is in the slot it resolves to, which
    accepts its type, every other slot is unchanged and the displaced item is
    back in the inventory; on failure nothing changes.  The multiset of owned
    items is the same in every case. *)
Theorem equipItem_conserves (p : Player) (index : Z) (pref : option EquipmentSlot) :
  let (p', ok) := equipItem p index pref in
  all_items p' ≡ₚ all_items p
  /\ (ok = true <-> exists it, can_equip p index it)
  /\ (ok = false -> p' = p)
  /\ (ok = true -> forall it, can_equip p index it ->
      let s := resolveEquipTargetSlot p it pref in
      canEquipInSlot it s = true
      /\ equip_get (p_equipment p') s = Some it
      /\ (forall s', s' <> s -> equip_get (p_equipment p') s' = equip_get (p_equipment p) s')
      /\ (forall old, equip_get (p_equipment p) s = Some old -> old ∈ present (p_inventory p'))).
Proof.
  destruct (equipItem_cases p index pref) as [[-> N]|(it & (H0 & L & Hl) & ->)].
  { split; [reflexivity|]. split; [split; [discriminate | contradiction]|].
    split; [reflexivity | discriminate]. }
  split; [apply equipped_items, L|].
  split; [split; [intros _; exists it; split; auto | reflexivity]|].
  split; [discriminate|]. intros _ it' (_ & L' & _). rewrite L in L'. injection L' as <-.
  set (s := resolveEquipTargetSlot p it pref).
  destruct (equipped_fields p (Z.to_nat index) it s) as (-> & -> & _).
  split; [apply resolve_typed|]. split; [|split].
  - rewrite equip_get_set, decide_True by reflexivity. reflexivity.
  - intros s' Hs. rewrite equip_get_set, decide_False by congruence. reflexivity.
  - intros old Ho. rewrite Ho. unfold swap_inventory.
    pose proof (find_empty_cleared _ _ (lookup_lt_Some _ _ _ L)) as N.
    destruct (find_empty _) as [j|] eqn:Ej; [|congruence]. simpl.
    apply find_empty_Some in Ej as [Ej _].
    apply present_In with j. apply list_lookup_insert_eq. eapply lookup_lt_Some, Ej.
Qed.

Lemma equipItem_conserves_witness :
  let p := fst (addItemToInventory sample_player sample_ring) in
  let (p', ok) := equipItem p 0 (Some slot_accessory2) in
  all_items p' ≡ₚ all_items p
  /\ (ok = true <-> exists it, can_equip p 0 it)
  /\ (ok = false -> p' = p)
  /\ (ok = true -> forall it, can_equip p 0 it ->
      let s := resolveEquipTargetSlot p it (Some slot_accessory2) in
      canEquipInSlot it s = true
      /\ equip_get (p_equipment p') s = Some it
      /\ (forall s', s' <> s -> equip_get (p_equipment p') s' = equip_get (p_equipment p) s')
      /\ (forall old, equip_get (p_equipment p) s = Some old -> old ∈ present (p_inventory p'))).
Proof. apply (equipItem_conserves (fst (addItemToInventory sample_player sample_ring)) 0). Defined.

(** Sum of the three combat stats a player shows. *)
Definition power (p : Player) : Z := p_attack p + p_defense p + p_maxHp p.

Lemma equipped_power p i it s : synced p ->
  power (equipped p i it s)
  = power p + statTotal it - from_option statTotal 0 (equip_get (p_equipment p) s).
Proof.
  intros (Ha & Hd & Hm & _). unfold power. rewrite Ha, Hd, Hm. unfold equipped.
  rewrite recalculateStats_eq.
  unfold full_attack, full_defense, full_maxHp, statTotal. destruct p; simpl.
  rewrite !gear_total_set. destruct (equip_get _ _); simpl; lia.
Qed.

(** The upgrade badge tells the truth.  [wouldUpgrade] is true exactly when the
    slot the item goes to is occupied and equipping it from the inventory with no
    preferred slot raises the player's combined attack, defense and maximum hit
    points. *)
Theorem wouldUpgrade_correct (p : Player) (index : Z) (it : Item) :
  wf_player p -> can_equip p index it ->
  wouldUpgrade p it = true <->
  equip_get (p_equipment p) (getEquipTargetSlot p it) <> None
  /\ power p < power (fst (equipItem p index None)).
Proof.
  intros W C. destruct (equipItem_cases p index None) as [[_ N]|(it' & C' & ->)];
    [exfalso; eauto|].
  destruct C as (_ & L & _), C' as (_ & L' & _). rewrite L in L'. injection L' as <-.
  assert (R : resolveEquipTargetSlot p it None = getEquipTargetSlot p it)
    by (unfold resolveEquipTargetSlot; destruct (item_slot _); reflexivity).
  cbn [fst]. rewrite R, equipped_power by (apply wf_synced, W).
  unfold wouldUpgrade. destruct (equip_get _ _) as [old|]; simpl.
  - rewrite Z.ltb_lt. split; [intros H; split; [discriminate | lia] | lia].
  - split; [discriminate | intros [H _]; congruence].
Qed.

Lemma wouldUpgrade_correct_witness :
  let better := mkItem "i3" "Steel Sword" "A blade" rare 1 (Some 9) None None 1 None weapon in
  let p := fst (addItemToInventory
    (fst (equipItem (fst (addItemToInventory sample_player sample_sword)) 0 None)) better) in
  wouldUpgrade p better = true <->
  equip_get (p_equipment p) (getEquipTargetSlot p better) <> None
  /\ power p < power (fst (equipItem p 0 None)).
Proof.
  set (better := mkItem "i3" "Steel Sword" "A blade" rare 1 (Some 9) None None 1 None weapon).
  apply (wouldUpgrade_correct (fst (addItemToInventory (fst (equipItem
    (fst (addItemToInventory sample_player sample_sword)) 0 None)) better)) 0 better).
  - apply addItem_wf; [vm_compute; repeat split; discriminate|].
    apply equipItem_wf, addItem_wf; [vm_compute; repeat split; discriminate|].
    apply sample_player_wf.
  - vm_compute. repeat split; discriminate.
Defined.

Lemma with_inventory_id p : with_inventory p (p_inventory p) = p.
Proof. destruct p. reflexivity. Qed.

Lemma with_inventory_twice p i j : with_inventory (with_inventory p i) j = with_inventory p j.
Proof. destruct p. reflexivity. Qed.

(** Picking up an item.  It is refused with [-1], and nothing changes, exactly
    when the inventory is full; otherwise it lands in the first empty slot, the
    index returned, one fewer slot is empty, and removing it from there returns it
    and restores the player. *)
Theorem addItem_remove_roundtrip (p : Player) (it : Item) :
  let (p', i) := addItemToInventory p it in
  (i = -1 <-> isInventoryFull p = true)
  /\ (i = -1 -> p' = p)
  /\ (i <> -1 ->
      0 <= i /\ p_inventory p !! Z.to_nat i = Some None
      /\ (forall j, (j < Z.to_nat i)%nat -> p_inventory p !! j <> Some None)
      /\ length (present (p_inventory p')) = S (length (present (p_inventory p)))
      /\ removeItemFromInventory p' i = (p, Some it)).
Proof.
  unfold addItemToInventory. pose proof (find_empty_full p) as FF.
  destruct (find_empty (p_inventory p)) as [i|] eqn:E; rewrite <- FF.
  2: { repeat split; congruence. }
  apply find_empty_Some in E as [E F]. pose proof (lookup_lt_Some _ _ _ E) as Hl.
  split; [split; [lia | discriminate]|]. split; [lia|]. intros _. rewrite Nat2Z.id.
  split; [lia|]. split; [exact E|]. split; [exact F|].
  assert (I : p_inventory (with_inventory p (<[i:=Some it]> (p_inventory p)))
    = <[i:=Some it]> (p_inventory p)) by (destruct p; reflexivity).
  split.
  - rewrite I. pose proof (present_insert _ _ _ (Some it) E) as P. simpl in P.
    rewrite app_nil_r in P. rewrite P, length_app. simpl. lia.
  - unfold removeItemFromInventory, index_out_of_range. rewrite I, length_insert, Nat2Z.id.
    destruct (Z.ltb_spec (Z.of_nat i) 0); [lia|].
    destruct (Z.leb_spec (Z.of_nat (length (p_inventory p))) (Z.of_nat i)); [lia|]. simpl.
    rewrite list_lookup_insert_eq by exact Hl. rewrite list_insert_insert_eq. cbn [mjoin option_join].
    rewrite with_inventory_twice, list_insert_id by exact E. rewrite with_inventory_id. reflexivity.
Qed.

(** ** Saving and loading *)

Lemma normalize_inventory_length o :
  length (normalize_inventory o) = PLAYER_CONFIG.MAX_INVENTORY_SIZE.
Proof.
  unfold normalize_inventory. destruct o as [inv|]; [|reflexivity].
  destruct (Nat.eqb_spec (length inv) PLAYER_CONFIG.MAX_INVENTORY_SIZE) as [E|N]; [exact E|].
  rewrite length_take, length_app, length_replicate. lia.
Qed.

Lemma normalize_inventory_prefix inv i :
  (i < length inv)%nat -> (i < PLAYER_CONFIG.MAX_INVENTORY_SIZE)%nat ->
  normalize_inventory (Some inv) !! i = inv !! i.
Proof.
  intros H1 H2. unfold normalize_inventory. destruct (_ =? _)%nat; [reflexivity|].
  rewrite lookup_take_lt by exact H2. apply lookup_app_l, H1.
Qed.

Lemma from_to_JSON (p : Player) :
  p_hp p <= p_maxHp p -> length (p_inventory p) = PLAYER_CONFIG.MAX_INVENTORY_SIZE ->
  fromJSON (toJSON p) = p.
Proof.
  intros H1 H2. unfold fromJSON, new_Player, toJSON. destruct p. simpl in *.
  destruct (Z.ltb_spec p_maxHp0 p_hp0); [lia|]. rewrite H2, Nat.eqb_refl. reflexivity.
Qed.

(** A save loads back as the same player: for a player with hit points within
    the maximum and a full-size inventory, [fromJSON] after [toJSON] is the
    identity. *)
Theorem player_roundtrip (p : Player) :
  p_hp p <= p_maxHp p -> length (p_inventory p) = PLAYER_CONFIG.MAX_INVENTORY_SIZE ->
  fromJSON (toJSON p) = p.
Proof. apply from_to_JSON. Qed.

Lemma player_roundtrip_witness :
  let p := fst (equipItem (fst (addItemToInventory sample_player sample_ring)) 0 None) in
  fromJSON (toJSON p) = p.
Proof. apply player_roundtrip; vm_compute; [discriminate | reflexivity]. Defined.

(** Any save loads into a usable player.  Whatever optional fields are missing
    and however long the stored inventory is, the loaded player has exactly 50
    slots which agree with the stored ones as far as both go, hit points at most
    the maximum, and, when any attribute is missing, all three attributes of its
    archetype (Martial when absent) at its level. *)
Theorem fromJSON_legacy (data : PlayerData) :
  let p := fromJSON data in
  length (p_inventory p) = PLAYER_CONFIG.MAX_INVENTORY_SIZE
  /\ (forall inv i, d_inventory data = Some inv -> (i < length inv)%nat ->
        (i < PLAYER_CONFIG.MAX_INVENTORY_SIZE)%nat -> p_inventory p !! i = inv !! i)
  /\ p_hp p <= p_maxHp p
  /\ (d_hp data = None -> p_hp p = p_maxHp p)
  /\ p_archetype p = default Martial (d_archetype data)
  /\ (d_str data = None \/ d_agi data = None \/ d_int data = None ->
      attributes_of p = computeAttributes (p_archetype p) (p_level p)).
Proof.
  cbv zeta. unfold fromJSON, new_Player.
  split; [apply normalize_inventory_length|].
  split; [intros inv i -> H1 H2; apply normalize_inventory_prefix; assumption|].
  split; [simpl; match goal with |- (if ?a <? ?b then _ else _) <= _ =>
            destruct (Z.ltb_spec a b); lia end|].
  split; [intros ->; simpl; rewrite Z.ltb_irrefl; reflexivity|].
  split; [reflexivity|]. intros H. unfold attributes_of, load_attributes. simpl.
  destruct (d_str data), (d_agi data), (d_int data);
    try (destruct H as [H|[H|H]]; discriminate); reflexivity.
Qed.

Lemma fromJSON_legacy_witness :
  let data := mkPlayerData "player1" "Adventurer" 5 12 30 9 (Some 999) (Some 150) 1234 7 3 None
    createEmptyEquipment (Some [Some sample_sword; None]) None None (Some 3) None in
  let p := fromJSON data in
  length (p_inventory p) = PLAYER_CONFIG.MAX_INVENTORY_SIZE
  /\ (forall inv i, d_inventory data = Some inv -> (i < length inv)%nat ->
        (i < PLAYER_CONFIG.MAX_INVENTORY_SIZE)%nat -> p_inventory p !! i = inv !! i)
  /\ p_hp p <= p_maxHp p
  /\ (d_hp data = None -> p_hp p = p_maxHp p)
  /\ p_archetype p = default Martial (d_archetype data)
  /\ (d_str data = None \/ d_agi data = None \/ d_int data = None ->
      attributes_of p = computeAttributes (p_archetype p) (p_level p)).
Proof.
  apply (fromJSON_legacy (mkPlayerData "player1" "Adventurer" 5 12 30 9 (Some 999) (Some 150)
    1234 7 3 None createEmptyEquipment (Some [Some sample_sword; None]) None None (Some 3) None)).
Defined.
