(* ===== verification/Loot.v ===== *)
(** * Loot

    [src/services/LootService.ts]: rolling an item's slot, rarity, base stat,
    affixes and name, and the two drop rolls.  Every draw of [Math.random] is made
    in the order of the source. *)
From stdpp Require Import base decidable strings list pretty.
From Stdlib Require Import ZArith QArith Lia Lqa.
From S2P Require Import Prelude JsNumber Random Creature Config Item Player.
Local Open Scope Z_scope.

(** ** Tables *)

Definition SLOTS : list ItemType :=
  [weapon; offhand; head; chest; legs; boots; gloves; accessory].

Definition RARITIES : list Rarity := [common; uncommon; rare; epic; legendary].

Definition RARITY_WEIGHTS : list (Z * list Z) :=
  [(15, [10; 25; 35; 25; 5]);
   (10, [20; 35; 30; 14; 1]);
   (5, [40; 40; 18; 2; 0]);
   (1, [65; 30; 5; 0; 0])].

Definition BASE_RANGES (r : Rarity) : Z * Z :=
  match r with
  | common => (2, 5)
  | uncommon => (6, 12)
  | rare => (12, 20)
  | epic => (20, 30)
  | legendary => (28, 40)
  end.

Definition AFFIX_RANGES (r : Rarity) : Z * Z :=
  match r with
  | common => (0, 0)
  | uncommon => (2, 5)
  | rare => (4, 9)
  | epic => (6, 14)
  | legendary => (10, 20)
  end.

Definition AFFIX_COUNT_OPTIONS (r : Rarity) : list nat :=
  match r with
  | common => [0]
  | uncommon => [1]
  | rare => [1; 2]
  | epic => [2]
  | legendary => [2; 3]
  end%nat.

Definition AFFIX_POOLS (slot : ItemType) : list AffixStat :=
  match slot with
  | weapon => [s_attack; s_defense; s_maxHp]
  | offhand => [s_defense; s_maxHp; s_attack]
  | head => [s_defense; s_maxHp; s_attack]
  | chest => [s_defense; s_maxHp; s_attack]
  | legs => [s_defense; s_maxHp; s_attack]
  | boots => [s_defense; s_attack; s_maxHp]
  | gloves => [s_attack; s_defense; s_maxHp]
  | accessory => [s_attack; s_defense; s_maxHp]
  end.

Definition BASE_NAMES (slot : ItemType) : list string :=
  match slot with
  | weapon => ["Blade"; "Axe"; "Staff"; "Dagger"; "Hammer"]
  | offhand => ["Shield"; "Buckler"; "Focus"]
  | head => ["Helm"; "Cap"; "Hood"]
  | chest => ["Chestplate"; "Robe"; "Vest"]
  | legs => ["Greaves"; "Pants"; "Leggings"]
  | boots => ["Boots"; "Sabatons"; "Treads"]
  | gloves => ["Gauntlets"; "Gloves"; "Grips"]
  | accessory => ["Ring"; "Amulet"; "Pendant"]
  end.

Definition AFFIX_PREFIXES (stat : AffixStat) : list string :=
  match stat with
  | s_attack => ["Sharp"; "Deadly"; "Fierce"; "Savage"; "Keen"]
  | s_defense => ["Sturdy"; "Hardened"; "Stalwart"; "Fortified"; "Reinforced"]
  | s_maxHp => ["Vital"; "Hardy"; "Enduring"; "Resilient"; "Robust"]
  end.

Definition COMMON_PREFIXES : list string := ["Worn"; "Battered"; "Plain"].

Definition slot_name (slot : ItemType) : string :=
  match slot with
  | weapon => "weapon" | offhand => "offhand" | head => "head" | chest => "chest"
  | legs => "legs" | boots => "boots" | gloves => "gloves" | accessory => "accessory"
  end.

Definition rarity_name (r : Rarity) : string :=
  match r with
  | common => "common" | uncommon => "uncommon" | rare => "rare" | epic => "epic"
  | legendary => "legendary"
  end.

(** ** Rolls *)

Definition randInt (min max : Z) : Rand Z :=
  let! i := random_index (max - min + 1) in rand_ret (i + min).

(** [arr[Math.floor(Math.random() * arr.length)]]; [undef] stands for the
    [undefined] of an index out of range, which [pick_in] shows is never read. *)
Definition pick {A} (undef : A) (arr : list A) : Rand A :=
  let! i := random_index (Z.of_nat (length arr)) in
  rand_ret (nth (Z.to_nat i) arr undef).

Definition rarity_weights (playerLevel : Z) : list Z :=
  match find (fun band => fst band <=? playerLevel) RARITY_WEIGHTS with
  | Some (_, weights) => weights
  | None => from_option snd [] (RARITY_WEIGHTS !! 3%nat)
  end.

Definition rollRarity (playerLevel : Z) : Rand Rarity :=
  let weights := num <$> rarity_weights playerLevel in
  let total := total_weight weights in
  let! r := math_random in
  rand_ret (default common (roll_down (js_mul r total) (zip RARITIES weights))).

(** The loop of [rollAffixes]: [count] iterations at most, while the pool lasts. *)
Fixpoint roll_affix_loop (count : nat) (pool : list AffixStat) (range : Z * Z)
    : Rand (list Affix) :=
  match count, pool with
  | S count', _ :: _ =>
      let! idx := random_index (Z.of_nat (length pool)) in
      let stat := nth (Z.to_nat idx) pool s_attack in
      let pool' := delete (Z.to_nat idx) pool in
      let! value := randInt (fst range) (snd range) in
      let! rest := roll_affix_loop count' pool' range in
      rand_ret (mkAffix stat value :: rest)
  | _, _ => rand_ret []
  end.

Definition rollAffixes (slot : ItemType) (rarity : Rarity) : Rand (list Affix) :=
  let! count := pick 0%nat (AFFIX_COUNT_OPTIONS rarity) in
  if (count =? 0)%nat then rand_ret []
  else roll_affix_loop count (AFFIX_POOLS slot) (AFFIX_RANGES rarity).

(** [affixes.reduce((a, b) => (a.value >= b.value ? a : b))] *)
Definition dominant_affix (a : Affix) (rest : list Affix) : Affix :=
  fold_left (fun a b => if af_value b <=? af_value a then a else b) rest a.

Definition buildName (slot : ItemType) (affixes : list Affix) : Rand string :=
  let! base := pick "" (BASE_NAMES slot) in
  match affixes with
  | [] => let! p := pick "" COMMON_PREFIXES in rand_ret (p +:+ " " +:+ base)
  | a :: rest =>
      let! p := pick "" (AFFIX_PREFIXES (af_stat (dominant_affix a rest))) in
      rand_ret (p +:+ " " +:+ base)
  end.

(** The three optional stats while they are being filled in. *)
Definition Stats3 : Type := option Z * option Z * option Z.

Definition primary_stats (stat : AffixStat) (v : Z) : Stats3 :=
  match stat with
  | s_attack => (Some v, None, None)
  | s_defense => (None, Some v, None)
  | s_maxHp => (None, None, Some v)
  end.

Definition bake_affix (acc : Stats3) (a : Affix) : Stats3 :=
  let '(attack, defense, maxHp) := acc in
  match af_stat a with
  | s_attack => (Some (default 0 attack + af_value a), defense, maxHp)
  | s_defense => (attack, Some (default 0 defense + af_value a), maxHp)
  | s_maxHp => (attack, defense, Some (default 0 maxHp + af_value a))
  end.

Definition scaleStat (statMultiplier : Q) (v : Z) : Z :=
  math_floor (js_mul (num v) statMultiplier).

(** [now] is the value of [Date.now()]. *)
Definition generateItem (now playerLevel : Z) (rarityOverride : option Rarity)
    (statMultiplier : Q) : Rand Item :=
  let! slot := pick weapon SLOTS in
  let! rarity :=
    match rarityOverride with Some r => rand_ret r | None => rollRarity playerLevel end in
  let primaryStat := nth 0 (AFFIX_POOLS slot) s_attack in
  let baseRange := BASE_RANGES rarity in
  let! rolled := randInt (fst baseRange) (snd baseRange) in
  let baseValue := scaleStat statMultiplier rolled in
  let! rolledAffixes := rollAffixes slot rarity in
  let affixes :=
    (fun a => mkAffix (af_stat a) (scaleStat statMultiplier (af_value a))) <$> rolledAffixes in
  let '(attack, defense, maxHp) :=
    fold_left bake_affix affixes (primary_stats primaryStat baseValue) in
  let! tag := randInt 0 9999 in
  let! name := buildName slot affixes in
  rand_ret {|
    it_id := "gen_" +:+ slot_name slot +:+ "_" +:+ pretty now +:+ "_" +:+ pretty tag;
    it_name := name;
    it_description := "A " +:+ rarity_name rarity +:+ " " +:+ slot_name slot +:+ ".";
    it_rarity := rarity;
    it_level := Z.max 1 (playerLevel - 1);
    it_attack := attack;
    it_defense := defense;
    it_maxHp := maxHp;
    it_dropChance := 0;
    it_affixes := Some affixes;
    it_type := slot |}.

Definition shouldDropItem : Rand bool :=
  let! r := math_random in rand_ret (js_lt r LOOT_CONFIG.BASE_DROP_CHANCE).

(** [forceDrop || roll]: the roll is drawn only when not forced. *)
Definition or_roll (forceDrop : bool) (roll : Rand bool) : Rand bool :=
  if forceDrop then rand_ret true else roll.

Definition dropItem (now : Z) (forceDrop : bool) (playerLevel : Z) (rarityOverride : option Rarity)
    : Rand (option Item) :=
  let! drop := or_roll forceDrop shouldDropItem in
  if drop then
    let! item := generateItem now playerLevel rarityOverride 1 in rand_ret (Some item)
  else rand_ret None.

(** ** Active-combat rewards ([src/models/combatRewards.ts]) *)

Definition activeCombatXp (baseReward : Z) : Z :=
  math_floor (js_mul (num baseReward) COMBAT_CONFIG.ACTIVE_COMBAT_XP_MULTIPLIER).

Definition activeCombatDropChance : Q :=
  js_add LOOT_CONFIG.BASE_DROP_CHANCE LOOT_CONFIG.ACTIVE_COMBAT_DROP_CHANCE_BONUS.

Definition dropActiveCombatItem (now : Z) (forceDrop : bool) (playerLevel : Z)
    (rarityOverride : option Rarity) : Rand (option Item) :=
  let! drop := or_roll forceDrop
    (let! r := math_random in rand_ret (js_lt r activeCombatDropChance)) in
  if drop then
    let! item := generateItem now playerLevel rarityOverride
                   LOOT_CONFIG.ACTIVE_COMBAT_LOOT_MULTIPLIER in rand_ret (Some item)
  else rand_ret None.

(** ** Lemmas *)

Lemma randInt_range min max : min <= max < min + 2 ^ 53 ->
  rand_post (randInt min max) (fun v => min <= v <= max).
Proof.
  intros H. rand_step random_index_bounds i Hi; [lia|]. apply rand_post_ret. lia.
Qed.

Lemma pick_in {A} (undef : A) (arr : list A) :
  arr <> [] -> Z.of_nat (length arr) <= 2 ^ 53 -> rand_post (pick undef arr) (fun a => a ∈ arr).
Proof.
  intros H1 H2. destruct arr as [|a arr]; [congruence|].
  rand_step random_index_bounds i Hi; [simpl length in *; lia|]. apply rand_post_ret.
  apply list_elem_of_In, nth_In. simpl length in *. lia.
Qed.

Lemma scaleStat_mono m v w : (0 <= m)%Q -> v <= w -> scaleStat m v <= scaleStat m w.
Proof. intros Hm H. apply math_floor_mono, js_mul_mono_l; [exact Hm | apply num_le, H]. Qed.

Lemma scaleStat_nonneg m v : (0 <= m)%Q -> 0 <= v -> 0 <= scaleStat m v.
Proof.
  intros Hm H. apply math_floor_ge. apply js_mul_nonneg; [apply num_nonneg, H | exact Hm].
Qed.

(** Rarities the level bands give a positive weight. *)
Definition droppable (playerLevel : Z) (r : Rarity) : Prop :=
  (playerLevel < 10 -> r <> legendary) /\ (playerLevel < 5 -> r <> epic).

Lemma rollRarity_droppable l : rand_post (rollRarity l) (droppable l).
Proof.
  unfold rollRarity. eapply rand_post_bind; [apply rand_post_random|]. intros q Hq.
  apply rand_post_ret. unfold rarity_weights, RARITY_WEIGHTS. cbn [find fst].
  destruct (Z.leb_spec 15 l), (Z.leb_spec 10 l), (Z.leb_spec 5 l), (Z.leb_spec 1 l); try lia;
    match goal with |- droppable _ (default _ (roll_down (js_mul q (total_weight ?w)) ?e)) =>
      change (total_weight w) with (total_weight (snd <$> e));
      first [ destruct (stops_within_roll 3 e q ltac:(vm_compute; reflexivity) Hq) as (a & -> & Ha)
            | destruct (stops_within_roll 4 e q ltac:(vm_compute; reflexivity) Hq) as (a & -> & Ha)
            | destruct (stops_within_roll 5 e q ltac:(vm_compute; reflexivity) Hq) as (a & -> & Ha) ]
    end; in_cases Ha; simpl; split; congruence || lia.
Qed.

(** *** Affixes *)

Definition affixes_ok (count : nat) (pool : list AffixStat) (range : Z * Z) (l : list Affix) : Prop :=
  length l = Nat.min count (length pool)
  /\ NoDup (af_stat <$> l)
  /\ Forall (fun a => af_stat a ∈ pool /\ fst range <= af_value a <= snd range) l.

Lemma delete_notin {A} (l : list A) i x : NoDup l -> l !! i = Some x -> x ∉ delete i l.
Proof.
  intros N H E. rewrite (delete_Permutation l i x H), NoDup_cons in N. destruct N; contradiction.
Qed.

Lemma roll_affix_loop_ok range count : fst range <= snd range < fst range + 2 ^ 53 ->
  forall pool, NoDup pool -> Z.of_nat (length pool) <= 2 ^ 53 ->
  rand_post (roll_affix_loop count pool range) (affixes_ok count pool range).
Proof.
  intros Hr. induction count as [|count IH]; intros pool Hn Hl.
  { apply rand_post_ret. split; [reflexivity|]. split; constructor. }
  destruct pool as [|p0 pool0] eqn:EP.
  { apply rand_post_ret. split; [reflexivity|]. split; constructor. }
  rewrite <- EP in *. assert (L : (0 < length pool)%nat) by (rewrite EP; simpl; lia).
  assert (E : roll_affix_loop (S count) pool range =
    (let! idx := random_index (Z.of_nat (length pool)) in
     let! value := randInt (fst range) (snd range) in
     let! rest := roll_affix_loop count (delete (Z.to_nat idx) pool) range in
     rand_ret (mkAffix (nth (Z.to_nat idx) pool s_attack) value :: rest)))
    by (rewrite EP; reflexivity).
  rewrite E. clear E EP. rand_step random_index_bounds i Hi; [lia|].
  destruct (lookup_lt_is_Some_2 pool (Z.to_nat i) ltac:(lia)) as [x Ex].
  rewrite (nth_lookup_Some _ _ _ _ Ex).
  rand_step randInt_range v Hv; [exact Hr|].
  pose proof (delete_Permutation _ _ _ Ex) as DP.
  assert (N' : NoDup (delete (Z.to_nat i) pool))
    by (rewrite DP, NoDup_cons in Hn; apply Hn).
  assert (L' : length pool = S (length (delete (Z.to_nat i) pool))) by (rewrite DP at 1; reflexivity).
  rand_step IH rest Hrest; [exact N' | lia |]. apply rand_post_ret.
  destruct Hrest as (R1 & R2 & R3). split; [cbn [length]; lia|]. split.
  - csimpl. apply NoDup_cons. split; [|exact R2].
    intros Hin. apply list_elem_of_fmap in Hin as (a & -> & Ha).
    rewrite Forall_forall in R3. apply (delete_notin pool _ _ Hn Ex), R3, Ha.
  - constructor; simpl; [split; [eapply list_elem_of_lookup_2, Ex | lia]|].
    eapply Forall_impl; [exact R3|]. simpl. intros a [Ha Hb]. split; [|exact Hb].
    rewrite DP. apply elem_of_cons. right. exact Ha.
Qed.

Lemma rollAffixes_ok slot r :
  rand_post (rollAffixes slot r) (fun l =>
    length l ∈ AFFIX_COUNT_OPTIONS r /\ NoDup (af_stat <$> l)
    /\ Forall (fun a => fst (AFFIX_RANGES r) <= af_value a <= snd (AFFIX_RANGES r)) l).
Proof.
  assert (NP : NoDup (AFFIX_POOLS slot)) by (destruct slot; apply (bool_decide_eq_true_1 (NoDup _)); reflexivity).
  assert (LP : length (AFFIX_POOLS slot) = 3%nat) by (destruct slot; reflexivity).
  rand_step @pick_in count Hc; [destruct r; discriminate | destruct r; vm_compute; discriminate |].
  assert (C3 : (count <= 3)%nat) by (destruct r; in_cases Hc; lia).
  destruct (Nat.eqb_spec count 0) as [->|N].
  { apply rand_post_ret. split; [exact Hc | split; constructor]. }
  eapply rand_post_weaken; [apply roll_affix_loop_ok;
    [destruct r; simpl; lia | exact NP | rewrite LP; lia]|].
  intros l (H1 & H2 & H3). rewrite LP in H1. split; [|split; [exact H2|]].
  - rewrite H1, Nat.min_l by exact C3. exact Hc.
  - eapply Forall_impl; [exact H3|]. intros a Ha. apply Ha.
Qed.

(** *** Baking *)

Definition total3 (s : Stats3) : Z :=
  let '(a, d, m) := s in default 0 a + default 0 d + default 0 m.

Definition nonneg3 (s : Stats3) : Prop :=
  let '(a, d, m) := s in 0 <= default 0 a /\ 0 <= default 0 d /\ 0 <= default 0 m.

Lemma bake_total l : forall s,
  total3 (fold_left bake_affix l s) = total3 s + sumZ (af_value <$> l).
Proof.
  induction l as [|a l IH]; intros [[x y] z]; csimpl; [lia|].
  destruct (af_stat a); rewrite IH; simpl; lia.
Qed.

Lemma bake_nonneg l : Forall (fun a => 0 <= af_value a) l ->
  forall s, nonneg3 s -> nonneg3 (fold_left bake_affix l s).
Proof.
  induction 1 as [|a l Ha _ IH]; intros [[x y] z] Hs; simpl in *; [exact Hs|].
  apply IH. destruct (af_stat a); simpl; lia.
Qed.

Lemma buildName_true slot affixes : rand_post (buildName slot affixes) (fun _ => True).
Proof.
  apply rand_post_true. intros r Hr. destruct affixes; exact Hr.
Qed.

(** What [generateItem] guarantees of the item it returns. *)
Record generated (playerLevel : Z) (rarityOverride : option Rarity) (m : Q) (it : Item) : Prop := {
  gen_level : it_level it = Z.max 1 (playerLevel - 1);
  gen_rarity : match rarityOverride with
               | Some r => it_rarity it = r
               | None => droppable playerLevel (it_rarity it)
               end;
  gen_ok : item_ok it;
  gen_stats : exists affixes base,
    it_affixes it = Some affixes
    /\ length affixes ∈ AFFIX_COUNT_OPTIONS (it_rarity it)
    /\ NoDup (af_stat <$> affixes)
    /\ fst (BASE_RANGES (it_rarity it)) <= base <= snd (BASE_RANGES (it_rarity it))
    /\ Forall (fun a => scaleStat m (fst (AFFIX_RANGES (it_rarity it))) <= af_value a
                        <= scaleStat m (snd (AFFIX_RANGES (it_rarity it)))) affixes
    /\ statTotal it = scaleStat m base + sumZ (af_value <$> affixes)
}.

Lemma ranges_ok r : 0 <= fst (BASE_RANGES r) <= snd (BASE_RANGES r)
  /\ snd (BASE_RANGES r) <= 40 /\ 0 <= fst (AFFIX_RANGES r).
Proof. destruct r; simpl; lia. Qed.

Lemma generateItem_generated now l ov m : (0 <= m)%Q ->
  rand_post (generateItem now l ov m) (generated l ov m).
Proof.
  intros Hm. rand_step @pick_in slot Hslot; [discriminate | vm_compute; discriminate |].
  eapply rand_post_bind with (P := fun r => match ov with Some r' => r = r' | None => droppable l r end).
  { destruct ov; [apply rand_post_ret; reflexivity | apply rollRarity_droppable]. }
  intros r Hr. destruct (ranges_ok r) as (B1 & B2 & B3).
  rand_step randInt_range base Hbase; [lia|]. rand_step rollAffixes_ok rolled Haff.
  destruct Haff as (A1 & A2 & A3). cbv zeta.
  set (affixes := _ <$> rolled).
  assert (AV : Forall (fun a => scaleStat m (fst (AFFIX_RANGES r)) <= af_value a
                        <= scaleStat m (snd (AFFIX_RANGES r))) affixes).
  { apply Forall_fmap. eapply Forall_impl; [exact A3|]. intros a Ha. simpl.
    split; apply scaleStat_mono; (exact Hm || apply Ha). }
  set (s0 := primary_stats _ _).
  pose proof (bake_total affixes s0) as T.
  assert (NN : nonneg3 (fold_left bake_affix affixes s0)).
  { apply bake_nonneg.
    - eapply Forall_impl; [exact AV|]. intros a Ha. simpl in Ha.
      pose proof (scaleStat_nonneg m _ Hm B3). lia.
    - pose proof (scaleStat_nonneg m base Hm ltac:(lia)).
      unfold s0. destruct (nth 0 (AFFIX_POOLS slot) s_attack); simpl; lia. }
  assert (T0 : total3 s0 = scaleStat m base)
    by (unfold s0; destruct (nth 0 (AFFIX_POOLS slot) s_attack); simpl; lia).
  destruct (fold_left bake_affix affixes s0) as [[attack defense] maxHp].
  rand_step randInt_range tag Htag; [lia|]. rand_step buildName_true name Hname.
  apply rand_post_ret. constructor; simpl; auto.
  exists affixes, base. rewrite T0 in T. simpl in T. unfold affixes.
  rewrite length_fmap, <- list_fmap_compose. auto 10.
Qed.

(** ** Properties *)

(** Found gear can be worn at once.  Whatever the draws, if a drop for a
    player's own level fits in the inventory, equipping it from the slot it landed
    in succeeds and leaves a well-formed player. *)
Theorem drop_equippable (now : Z) (p : Player) (force : bool) (ov : option Rarity) :
  wf_player p ->
  rand_post (dropItem now force (p_level p) ov) (fun o =>
    forall it, o = Some it ->
    let (p', i) := addItemToInventory p it in
    i <> -1 -> snd (equipItem p' i None) = true /\ wf_player (fst (equipItem p' i None))).
Proof.
  intros W. unfold dropItem.
  eapply rand_post_bind with (P := fun _ => True).
  { apply rand_post_true. destruct force; intros r Hr; exact Hr. }
  intros [] _; [|apply rand_post_ret; discriminate].
  rand_step generateItem_generated it Hit; [discriminate|]. apply rand_post_ret.
  intros ? [= <-]. destruct Hit as [Hl _ Hok _].
  pose proof (addItem_wf p it Hok W) as W'. unfold addItemToInventory in *.
  destruct (find_empty (p_inventory p)) as [i|] eqn:E; [|congruence]. simpl in W'. intros _.
  split; [|apply equipItem_wf, W'].
  apply find_empty_Some in E as [E _]. pose proof (lookup_lt_Some _ _ _ E) as L.
  destruct (equipItem_cases (with_inventory p (<[i:=Some it]> (p_inventory p))) (Z.of_nat i) None)
    as [[_ N]|(it' & _ & ->)]; [|reflexivity].
  exfalso. apply N. exists it. split; [lia|]. rewrite Nat2Z.id.
  destruct W. destruct p; simpl in *. split; [apply list_lookup_insert_eq, L | lia].
Qed.

Lemma drop_equippable_witness :
  rand_post (dropItem 1700000000000 true (p_level sample_player) None) (fun o =>
    forall it, o = Some it ->
    let (p', i) := addItemToInventory sample_player it in
    i <> -1 -> snd (equipItem p' i None) = true /\ wf_player (fst (equipItem p' i None))).
Proof. apply drop_equippable, sample_player_wf. Defined.

(** Rolled gear respects its tier.  With no override, nothing epic drops before
    level 5 and nothing legendary before level 10; the number of affixes is one of
    the rarity's options, their stats are distinct and their values in the scaled
    range; and the item's attack, defense and hit points add up to its scaled base
    roll plus its affixes, so the affix list shown accounts for every point. *)
Theorem generateItem_tiers (now playerLevel : Z) (m : Q) :
  (0 <= m)%Q ->
  rand_post (generateItem now playerLevel None m) (fun it =>
    (playerLevel < 5 -> it_rarity it <> epic) /\ (playerLevel < 10 -> it_rarity it <> legendary)
    /\ exists affixes base,
      it_affixes it = Some affixes
      /\ length affixes ∈ AFFIX_COUNT_OPTIONS (it_rarity it)
      /\ NoDup (af_stat <$> affixes)
      /\ fst (BASE_RANGES (it_rarity it)) <= base <= snd (BASE_RANGES (it_rarity it))
      /\ Forall (fun a => scaleStat m (fst (AFFIX_RANGES (it_rarity it))) <= af_value a
                        <= scaleStat m (snd (AFFIX_RANGES (it_rarity it)))) affixes
      /\ statTotal it = scaleStat m base + sumZ (af_value <$> affixes)).
Proof.
  intros Hm. eapply rand_post_weaken; [apply generateItem_generated, Hm|].
  intros it [_ [R1 R2] _ G]. auto.
Qed.

Lemma generateItem_tiers_witness :
  rand_post (generateItem 1700000000000 4 None 2) (fun it =>
    (4 < 5 -> it_rarity it <> epic) /\ (4 < 10 -> it_rarity it <> legendary)
    /\ exists affixes base,
      it_affixes it = Some affixes
      /\ length affixes ∈ AFFIX_COUNT_OPTIONS (it_rarity it)
      /\ NoDup (af_stat <$> affixes)
      /\ fst (BASE_RANGES (it_rarity it)) <= base <= snd (BASE_RANGES (it_rarity it))
      /\ Forall (fun a => scaleStat 2 (fst (AFFIX_RANGES (it_rarity it))) <= af_value a
                        <= scaleStat 2 (snd (AFFIX_RANGES (it_rarity it)))) affixes
      /\ statTotal it = scaleStat 2 base + sumZ (af_value <$> affixes)).
Proof. apply generateItem_tiers. discriminate. Defined.

Lemma scaleStat_1 v : Z.abs v <= 2 ^ 53 -> scaleStat 1 v = v.
Proof.
  intros H. unfold scaleStat. change 1%Q with (num 1). rewrite js_mul_Z by lia.
  rewrite Z.mul_1_r. apply math_floor_Z.
Qed.

Lemma scaleStat_2 v : Z.abs v <= 2 ^ 52 -> scaleStat 2 v = 2 * v.
Proof.
  intros H. unfold scaleStat. change 2%Q with (num 2). rewrite js_mul_Z by lia.
  rewrite Z.mul_comm. apply math_floor_Z.
Qed.

(** The part of an item that the draws before naming decide. *)
Definition item_core (it : Item) : ItemType * Rarity * Z := (it_type it, it_rarity it, it_level it).

Lemma generateItem_core now l ov r : wf_rng r -> exists slot rarity base rolled,
  Z.abs base <= 40 /\ Forall (fun a => Z.abs (af_value a) <= 20) rolled
  /\ forall m, let (it, _) := generateItem now l ov m r in
      item_core it = (slot, rarity, Z.max 1 (l - 1))
      /\ statTotal it = scaleStat m base + sumZ (scaleStat m <$> (af_value <$> rolled)).
Proof.
  intros W. unfold generateItem, rand_bind at 1.
  destruct (pick weapon SLOTS r) as [slot r1] eqn:E1.
  assert (W1 : wf_rng r1) by (injection E1 as _ <-; exact W).
  unfold rand_bind at 1.
  destruct ((match ov with Some r => rand_ret r | None => rollRarity l end) r1) as [rar r2] eqn:E2.
  assert (W2 : wf_rng r2) by (destruct ov; injection E2 as _ <-; exact W1).
  destruct (ranges_ok rar) as (B1 & B2 & B3). unfold rand_bind at 1.
  destruct (randInt_range (fst (BASE_RANGES rar)) (snd (BASE_RANGES rar)) ltac:(lia) r2 W2) as [Hb W3].
  destruct (randInt _ _ r2) as [base r3]. simpl in Hb, W3. unfold rand_bind at 1.
  destruct (rollAffixes_ok slot rar r3 W3) as [(_ & _ & Ha) W4].
  destruct (rollAffixes slot rar r3) as [rolled r4]. simpl in Ha, W4.
  exists slot, rar, base, rolled. split; [lia|]. split.
  { eapply Forall_impl; [exact Ha|]. intros a H. simpl in H. destruct rar; simpl in *; lia. }
  intros m. cbv zeta. set (affixes := _ <$> rolled).
  set (s0 := primary_stats _ _). pose proof (bake_total affixes s0) as T.
  assert (T0 : total3 s0 = scaleStat m base)
    by (unfold s0; destruct (nth 0 (AFFIX_POOLS slot) s_attack); simpl; lia).
  rewrite T0 in T. destruct (fold_left bake_affix affixes s0) as [[at' de] mh].
  unfold rand_bind at 1. destruct (randInt 0 9999 r4) as [tag r5].
  unfold rand_bind at 1. destruct (buildName slot affixes r5) as [name r6].
  split; [reflexivity|]. simpl in T. unfold statTotal. simpl.
  rewrite T. unfold affixes. rewrite <- !list_fmap_compose. reflexivity.
Qed.

(** An active win is worth exactly double.  From the same draws, the item
    generated with the active-combat multiplier has the same type, rarity and
    level as the passive one and exactly twice its combined stats; and every draw
    that makes a passive win drop makes an active win drop. *)
Theorem active_loot_doubles (now playerLevel : Z) (ov : option Rarity) (r : rng) :
  wf_rng r ->
  let it := fst (generateItem now playerLevel ov 1 r) in
  let it' := fst (generateItem now playerLevel ov LOOT_CONFIG.ACTIVE_COMBAT_LOOT_MULTIPLIER r) in
  item_core it' = item_core it /\ statTotal it' = 2 * statTotal it
  /\ (fst (shouldDropItem r) = true ->
      fst (dropActiveCombatItem now false playerLevel ov r) <> None).
Proof.
  intros W. cbv zeta.
  destruct (generateItem_core now playerLevel ov r W) as (s & rar & base & rolled & Hb & Ha & H).
  pose proof (H 1%Q) as H1. pose proof (H LOOT_CONFIG.ACTIVE_COMBAT_LOOT_MULTIPLIER) as H2.
  destruct (generateItem now playerLevel ov 1 r) as [it1 ?].
  destruct (generateItem now playerLevel ov LOOT_CONFIG.ACTIVE_COMBAT_LOOT_MULTIPLIER r) as [it2 ?].
  cbn [fst]. destruct H1 as [-> ->], H2 as [-> ->]. split; [reflexivity|]. split.
  - unfold LOOT_CONFIG.ACTIVE_COMBAT_LOOT_MULTIPLIER.
    rewrite scaleStat_1, scaleStat_2 by lia. clear H Hb.
    induction Ha as [|a l Ha _ IH]; csimpl; [lia|].
    rewrite scaleStat_1, scaleStat_2 by lia. lia.
  - clear. intros D.
    change (js_lt (rng_src r (rng_pos r)) LOOT_CONFIG.BASE_DROP_CHANCE = true) in D.
    apply js_lt_iff in D.
    assert (Q : (LOOT_CONFIG.BASE_DROP_CHANCE <= activeCombatDropChance)%Q) by q_compute.
    assert (J : js_lt (rng_src r (rng_pos r)) activeCombatDropChance = true)
      by (apply js_lt_iff; lra).
    unfold dropActiveCombatItem, or_roll, rand_bind, rand_ret, math_random. cbv beta iota.
    rewrite J. destruct (generateItem _ _ _ _ _). discriminate.
Qed.

Lemma active_loot_doubles_witness :
  let r := mkRng (fun n => (Z.of_nat (n mod 3) # 4)%Q) 0 in
  let it := fst (generateItem 0 16 None 1 r) in
  let it' := fst (generateItem 0 16 None LOOT_CONFIG.ACTIVE_COMBAT_LOOT_MULTIPLIER r) in
  item_core it' = item_core it /\ statTotal it' = 2 * statTotal it
  /\ (fst (shouldDropItem r) = true -> fst (dropActiveCombatItem 0 false 16 None r) <> None).
Proof.
  apply active_loot_doubles. intros n. simpl rng_src.
  pose proof (Nat.mod_upper_bound n 3 ltac:(lia)). unfold Qle, random_max; simpl. lia.
Defined.
