(* ===== verification/AutoCombat.v ===== *)
(** * Passive combat, pacing and routing

    [src/models/AutoCombat.ts] (the idle resolution of an encounter),
    [src/models/combatPacing.ts] (how long the enemy's turn is shown) and
    [src/models/encounterRouting.ts] (what happens to a fresh encounter). *)
From stdpp Require Import base decidable strings list.
From Stdlib Require Import ZArith QArith Lia Lqa.
From S2P Require Import Prelude JsNumber Random Combat Creature Config Item Player Loot.
Local Open Scope Z_scope.

(** ** Passive resolution *)

Record AutoCombatOutcome := mkAutoCombatOutcome {
  aco_won : bool; aco_xpGained : Z; aco_item : option Item
}.

Definition autoCombatWinChance (playerLevel creatureLevel : Z) : Q :=
  let raw := js_add COMBAT_CONFIG.AUTO_COMBAT_BASE_WIN_RATE
    (js_mul COMBAT_CONFIG.AUTO_COMBAT_LEVEL_STEP (num (playerLevel - creatureLevel))) in
  math_min COMBAT_CONFIG.AUTO_COMBAT_MAX_WIN_RATE
    (math_max COMBAT_CONFIG.AUTO_COMBAT_MIN_WIN_RATE raw).

Definition computeAutoCombatXp (creature : Creature) (won : bool) : Z :=
  let reward := getExperienceReward creature in
  if won then reward else math_floor (js_mul (num reward) COMBAT_CONFIG.LOSS_XP_FRACTION).

Definition resolveAutoCombat (now playerLevel : Z) (creature : Creature) : Rand AutoCombatOutcome :=
  let! r := math_random in
  let won := js_lt r (autoCombatWinChance playerLevel (c_level creature)) in
  let xpGained := computeAutoCombatXp creature won in
  let! item := if won then dropItem now false playerLevel None else rand_ret None in
  rand_ret (mkAutoCombatOutcome won xpGained item).

(** ** Counter-attack pacing *)

Definition COUNTER_BEAT_MAX_MS : Z := 2000.
Definition COUNTER_BEAT_MIN_MS : Z := 1000.
Definition COUNTER_BEAT_RAMP_TURNS : Z := 20.

Definition counterBeatMs (combatTurnsTaken : Z) : Z :=
  let turns := Z.max 0 combatTurnsTaken in
  let progress := math_min 1 (js_div (num turns) (num COUNTER_BEAT_RAMP_TURNS)) in
  math_round (js_sub (num COUNTER_BEAT_MAX_MS)
    (js_mul progress (num (COUNTER_BEAT_MAX_MS - COUNTER_BEAT_MIN_MS)))).

(** ** Routing *)

Inductive EncounterRoute := present_ | autoResolve | hold | passive.

#[export] Instance EncounterRoute_eq_dec : EqDecision EncounterRoute.
Proof. solve_decision. Defined.

Definition resolveEncounterRoute (isBackground isElite autoResolveBelowRare : bool)
    : EncounterRoute :=
  if negb isBackground then
    if negb isElite && autoResolveBelowRare then autoResolve else present_
  else if isElite then hold else passive.

(** ** Lemmas *)

Lemma math_min_mono_r a x y : (x <= y -> math_min a x <= math_min a y)%Q.
Proof.
  intros H. destruct (math_min_spec a x) as (H1 & H2 & _).
  unfold math_min at 2. destruct (js_lt y a); lra.
Qed.

Lemma math_max_mono_r a x y : (x <= y -> math_max a x <= math_max a y)%Q.
Proof.
  intros H. destruct (math_max_spec a y) as (H1 & H2 & _).
  unfold math_max at 1. destruct (js_lt a x); lra.
Qed.

Lemma reward_ge c : 1 <= c_level c <= 2 ^ 40 -> 10 <= getExperienceReward c.
Proof.
  intros H. unfold getExperienceReward, getRarityMultiplier. apply math_floor_ge, fl_ge_Z; [lia|].
  assert (L : (10 <= num (10 * c_level c))%Q) by (apply (num_le 10); lia).
  assert (M : (1 <= rarity_multiplier (c_rarity c))%Q) by (destruct (c_rarity c); q_compute).
  change (inject_Z 10) with 10%Q. nra.
Qed.

Lemma loss_xp_bounds reward : 4 <= reward <= 2 ^ 50 ->
  1 <= math_floor (js_mul (num reward) COMBAT_CONFIG.LOSS_XP_FRACTION) <= reward.
Proof.
  intros H. assert (E : COMBAT_CONFIG.LOSS_XP_FRACTION = (1 # 4)%Q) by (vm_compute; reflexivity).
  rewrite E. assert (L : (4 <= num reward)%Q) by (apply (num_le 4); lia). split.
  - apply math_floor_ge, fl_ge_Z; [lia|]. change (inject_Z 1) with 1%Q. lra.
  - apply math_floor_le, fl_le_Z; [lia|]. unfold num in *. lra.
Qed.

Lemma reward_le c : 1 <= c_level c <= 2 ^ 40 -> getExperienceReward c <= 2 ^ 50.
Proof.
  intros H. unfold getExperienceReward, getRarityMultiplier. apply math_floor_le, fl_le_Z; [lia|].
  assert (L : (0 <= num (10 * c_level c) <= num (10 * 2 ^ 40))%Q)
    by (split; [apply num_nonneg | apply num_le]; lia).
  assert (M : (0 <= rarity_multiplier (c_rarity c) <= 5)%Q)
    by (destruct (c_rarity c); split; q_compute).
  apply Qle_trans with (num (10 * 2 ^ 40) * 5)%Q; [apply Qmult_bounds; assumption | q_compute].
Qed.

(** ** Properties *)

(** The passive win chance is [0.75] at even level, never certain and never
    hopeless (between [0.2] and [0.95]), and does not fall when the player's level
    rises or the creature's level drops. *)
Theorem autoCombatWinChance_monotone (p p' c c' : Z) :
  p <= p' -> c' <= c ->
  (lit 0.2 <= autoCombatWinChance p c <= autoCombatWinChance p' c')%Q
  /\ (autoCombatWinChance p' c' <= lit 0.95)%Q
  /\ autoCombatWinChance p p = lit 0.75.
Proof.
  intros Hp Hc. split; [split|split].
  - unfold autoCombatWinChance. set (raw := js_add _ _).
    destruct (math_max_spec COMBAT_CONFIG.AUTO_COMBAT_MIN_WIN_RATE raw) as (M & _).
    unfold math_min. destruct (js_lt _ _); [exact M | q_compute].
  - apply math_min_mono_r, math_max_mono_r, js_add_mono; [lra|].
    apply js_mul_mono_r; [q_compute | apply num_le; lia].
  - apply math_min_spec.
  - unfold autoCombatWinChance. rewrite Z.sub_diag. vm_compute. reflexivity.
Qed.

Lemma autoCombatWinChance_monotone_witness :
  (lit 0.2 <= autoCombatWinChance 3 9 <= autoCombatWinChance 4 8)%Q
  /\ (autoCombatWinChance 4 8 <= lit 0.95)%Q
  /\ autoCombatWinChance 3 3 = lit 0.75.
Proof. apply autoCombatWinChance_monotone; lia. Defined.

Lemma resolveAutoCombat_pays (now playerLevel : Z) (c : Creature) :
  1 <= playerLevel -> 1 <= c_level c <= 2 ^ 40 ->
  rand_post (resolveAutoCombat now playerLevel c) (fun o =>
    1 <= aco_xpGained o <= getExperienceReward c
    /\ (aco_won o = true -> aco_xpGained o = getExperienceReward c)
    /\ (aco_won o = false -> aco_item o = None)
    /\ (forall it, aco_item o = Some it -> it_level it <= playerLevel /\ item_ok it)).
Proof.
  intros Hp Hc. pose proof (reward_ge c Hc) as R. pose proof (reward_le c Hc) as R'.
  rand_step rand_post_random q Hq. cbv zeta.
  destruct (js_lt q _); unfold computeAutoCombatXp.
  - eapply rand_post_bind with (P := fun o => forall it, o = Some it ->
      it_level it <= playerLevel /\ item_ok it).
    + unfold dropItem. eapply rand_post_bind with (P := fun _ => True);
        [apply rand_post_true; intros r Hr; exact Hr|].
      intros [] _; [|apply rand_post_ret; discriminate].
      rand_step generateItem_generated it Hit; [discriminate|]. apply rand_post_ret.
      intros ? [= <-]. destruct Hit. split; [lia | assumption].
    + intros o Ho. apply rand_post_ret. simpl.
      split; [lia|]. split; [reflexivity|]. split; [discriminate | exact Ho].
  - eapply rand_post_bind with (P := fun o => o = None); [apply rand_post_ret; reflexivity|].
    intros o ->. apply rand_post_ret. simpl.
    pose proof (loss_xp_bounds (getExperienceReward c) ltac:(lia)).
    split; [lia|]. split; [discriminate|]. split; [reflexivity | discriminate].
Qed.

(** Passive combat only ever pays.  Every resolution grants between 1 and the
    creature's full reward in experience, the full reward exactly on a win and at
    least a point on a loss; only a win can drop an item, and an item dropped is
    wearable at the player's level with non-negative bonuses. *)
Theorem resolveAutoCombat_rewards (now playerLevel : Z) (c : Creature) :
  1 <= playerLevel -> 1 <= c_level c <= 2 ^ 40 ->
  rand_post (resolveAutoCombat now playerLevel c) (fun o =>
    1 <= aco_xpGained o <= getExperienceReward c
    /\ (aco_won o = true -> aco_xpGained o = getExperienceReward c)
    /\ (aco_won o = false -> aco_item o = None)
    /\ (forall it, aco_item o = Some it -> it_level it <= playerLevel /\ item_ok it)).
Proof. apply resolveAutoCombat_pays. Qed.

Definition sample_creature : Creature :=
  fst (createCreatureFromTemplate alley_cur 3 (mkRng (fun _ => (1 # 2)%Q) 0)).

Lemma resolveAutoCombat_rewards_witness :
  rand_post (resolveAutoCombat 0 3 sample_creature) (fun o =>
    1 <= aco_xpGained o <= getExperienceReward sample_creature
    /\ (aco_won o = true -> aco_xpGained o = getExperienceReward sample_creature)
    /\ (aco_won o = false -> aco_item o = None)
    /\ (forall it, aco_item o = Some it -> it_level it <= 3 /\ item_ok it)).
Proof. apply resolveAutoCombat_rewards; [lia | vm_compute; split; discriminate]. Defined.

(** The enemy's turn eases from two seconds for a new player to one second
    after 20 turns, staying in between and never lengthening with experience. *)
Theorem counterBeatMs_ramp (t t' : Z) :
  t <= t' -> 1000 <= counterBeatMs t' <= counterBeatMs t /\ counterBeatMs t <= 2000
  /\ (t <= 0 -> counterBeatMs t = 2000) /\ (20 <= t -> counterBeatMs t = 1000).
Proof.
  intros H.
  assert (Mono : forall a b, a <= b -> counterBeatMs b <= counterBeatMs a).
  { intros a b Hab. unfold counterBeatMs, math_round. apply math_floor_mono.
    apply Qplus_le_compat; [|lra]. apply js_sub_mono; [lra|].
    apply js_mul_mono_l; [q_compute|]. apply math_min_mono_r, js_div_mono;
      [apply num_nonneg; lia | apply num_le; lia | q_compute | lra]. }
  assert (Low : forall a, a <= 0 -> counterBeatMs a = 2000).
  { intros a Ha. unfold counterBeatMs. rewrite Z.max_l by lia. vm_compute. reflexivity. }
  assert (High : forall a, 20 <= a -> counterBeatMs a = 1000).
  { intros a Ha. unfold counterBeatMs. set (d := js_div _ _).
    assert (D : (1 <= d)%Q).
    { apply (fl_ge_Z _ 1); [lia|]. change (inject_Z 1) with 1%Q.
      apply Qle_shift_div_l; [q_compute|]. rewrite Qmult_1_l. apply num_le.
      unfold COUNTER_BEAT_RAMP_TURNS. lia. }
    unfold math_min. destruct (js_ltP d 1); [lra|]. vm_compute. reflexivity. }
  split; [split; [|apply Mono, H]|].
  - destruct (Z.le_gt_cases 20 t') as [G|G]; [rewrite High; lia|].
    rewrite <- (High 20) by lia. apply Mono. lia.
  - split; [|split; [apply Low | apply High]].
    destruct (Z.le_gt_cases t 0) as [G|G]; [rewrite Low; lia|].
    rewrite <- (Low 0) by lia. apply Mono. lia.
Qed.

Lemma counterBeatMs_ramp_witness :
  1000 <= counterBeatMs 7 <= counterBeatMs 3 /\ counterBeatMs 3 <= 2000
  /\ (3 <= 0 -> counterBeatMs 3 = 2000) /\ (20 <= 3 -> counterBeatMs 3 = 1000).
Proof. apply (counterBeatMs_ramp 3 7). lia. Defined.

(** Elites are never resolved behind the player's back.  A creature routed to a
    silent resolution is below rare; an elite is fought at once in the foreground
    and held for later in the background; nothing is presented or resolved at the
    active tier while the app is in the background; and the idle toggle matters only
    in the foreground, for below-rare creatures. *)
Theorem route_never_skips_elites (bg auto auto' : bool) (r : Rarity) :
  let route := resolveEncounterRoute bg (isEliteCreature r) auto in
  (route = autoResolve \/ route = passive -> r = common \/ r = uncommon)
  /\ (isEliteCreature r = true -> route = if bg then hold else present_)
  /\ (bg = true -> route = hold \/ route = passive)
  /\ (route <> resolveEncounterRoute bg (isEliteCreature r) auto' ->
      bg = false /\ isEliteCreature r = false).
Proof.
  destruct bg, auto, auto', r; vm_compute; intuition (congruence || discriminate).
Qed.

Lemma route_never_skips_elites_witness :
  let route := resolveEncounterRoute false (isEliteCreature common) true in
  (route = autoResolve \/ route = passive -> common = common \/ common = uncommon)
  /\ (isEliteCreature common = true -> route = if false then hold else present_)
  /\ (false = true -> route = hold \/ route = passive)
  /\ (route <> resolveEncounterRoute false (isEliteCreature common) false ->
      false = false /\ isEliteCreature common = false).
Proof. apply (route_never_skips_elites false true false common). Defined.
