(* ===== verification/Encounter.v ===== *)
(** * Encounters

    [src/models/sun.ts] (is the sun up), [src/models/Encounter.ts] (the encounter
    and its random creation) and [src/services/EncounterService.ts] (the pacing of
    encounters over distance and time).

    The trigonometric functions and the square root of [Math] are
    implementation-approximated, so they are the parameter [Trig]; the clock
    readings are arguments. *)
From stdpp Require Import base decidable strings list.
From Stdlib Require Import ZArith QArith Qabs Qround Lia Lqa.
From S2P Require Import Prelude JsNumber Random Creature Config.
Local Open Scope Z_scope.

(** ** The sun *)

Class Trig := {
  math_sin : Q -> Q;
  math_cos : Q -> Q;
  math_asin : Q -> Q;
  math_atan2 : Q -> Q -> Q;
  math_sqrt : Q -> Q
}.

Definition math_PI : Q := lit (3141592653589793116 # 1000000000000000000).

(** The remainder operator [%]: the sign of the dividend, computed exactly. *)
Definition js_rem (a b : Q) : Q :=
  fl (a - b * inject_Z (Z.quot (Qnum (a / b)) (Zpos (Qden (a / b))))).

Definition RAD : Q := js_div math_PI 180.
Definition J2000 : Q := 2451545.

(** [date] is [date.valueOf()], in milliseconds. *)
Definition daysSinceJ2000 (date : Z) : Q :=
  js_sub (js_add (js_sub (js_div (num date) 86400000) (lit 0.5)) 2440588) J2000.

Section Sun.
Context `{Trig}.

Definition solarElevationDeg (date : Z) (latitude longitude : Q) : Q :=
  let d := daysSinceJ2000 date in
  let meanAnomaly := js_mul (js_add (lit 357.529) (js_mul (lit 0.98560028) d)) RAD in
  let meanLongitude := js_mul (js_add (lit 280.459) (js_mul (lit 0.98564736) d)) RAD in
  let eclipticLongitude :=
    js_add meanLongitude
      (js_mul (js_add (js_mul (lit 1.915) (math_sin meanAnomaly))
                 (js_mul (lit 0.02) (math_sin (js_mul 2 meanAnomaly)))) RAD) in
  let obliquity := js_mul (js_sub (lit 23.439) (js_mul (lit 0.00000036) d)) RAD in
  let declination := math_asin (js_mul (math_sin obliquity) (math_sin eclipticLongitude)) in
  let rightAscension :=
    math_atan2 (js_mul (math_cos obliquity) (math_sin eclipticLongitude))
      (math_cos eclipticLongitude) in
  let gmstHours :=
    js_rem (js_add (lit 18.697374558) (js_mul (lit 24.06570982441908) d)) 24 in
  let localSiderealTime := js_mul (js_add (js_mul gmstHours 15) longitude) RAD in
  let hourAngle := js_sub localSiderealTime rightAscension in
  let lat := js_mul latitude RAD in
  let sinElevation :=
    js_add (js_mul (math_sin lat) (math_sin declination))
      (js_mul (js_mul (math_cos lat) (math_cos declination)) (math_cos hourAngle)) in
  js_div (math_asin (math_max (-1) (math_min 1 sinElevation))) RAD.

Definition HORIZON_ELEVATION_DEG : Q := lit (-0.833).

Definition isDaylight (date : Z) (latitude longitude : Q) : bool :=
  js_lt HORIZON_ELEVATION_DEG (solarElevationDeg date latitude longitude).

End Sun.

(** ** The encounter *)

Record Location := mkLocation { latitude : Q; longitude : Q }.

Inductive EncounterStatus := active | defeated | fled.

#[export] Instance EncounterStatus_eq_dec : EqDecision EncounterStatus.
Proof. solve_decision. Defined.

Record Encounter := mkEncounter {
  e_creature : Creature;
  e_location : Location;
  e_timestamp : Z;
  e_playerLevel : Z;
  e_status : EncounterStatus;
  e_daylight : option bool
}.

(** [a || b] on numbers: a missing value and zero are falsy. *)
Definition or_number (a : option Z) (b : Z) : Z :=
  match a with Some n => if n =? 0 then b else n | None => b end.

Definition new_Encounter (now : Z) (creature : Creature) (location : Location)
    (timestamp playerLevel : option Z) (status : option EncounterStatus)
    (daylight : option bool) : Encounter :=
  {| e_creature := creature;
     e_location := location;
     e_timestamp := or_number timestamp now;
     e_playerLevel := or_number playerLevel 1;
     e_status := default active status;
     e_daylight := daylight |}.

Definition set_status (e : Encounter) (s : EncounterStatus) : Encounter :=
  {| e_creature := e_creature e; e_location := e_location e; e_timestamp := e_timestamp e;
     e_playerLevel := e_playerLevel e; e_status := s; e_daylight := e_daylight e |}.

Definition defeat (e : Encounter) : Encounter := set_status e defeated.
Definition flee (e : Encounter) : Encounter := set_status e fled.
Definition isActive (e : Encounter) : bool := bool_decide (e_status e = active).

Section Creation.
Context `{Trig}.

(** [None] stands for the exception a missing template would raise. *)
Definition createRandomEncounter (now : Z) (location : Location) (playerLevel : Z)
    (rarityOverride : option Rarity) : Rand (option Encounter) :=
  let daylight := isDaylight now (latitude location) (longitude location) in
  let! template :=
    match rarityOverride with
    | Some r => pickEncounterTemplateOfRarity r (Some daylight)
    | None => pickEncounterTemplate playerLevel (Some daylight)
    end in
  match template with
  | None => rand_ret None
  | Some template =>
      let! creature := createCreatureFromTemplate template playerLevel in
      rand_ret (Some
        (new_Encounter now creature location None (Some playerLevel) None (Some daylight)))
  end.

(** ** The service *)

Record EncounterService := mkEncounterService {
  distanceSinceLastEncounter : Q;
  lastEncounterTime : option Z;
  minEncounterDistance : Q;
  encounterChancePerMeter : Q;
  minTimeBetweenEncounters : Z;
  hasEncounterCallback : bool;
  bypassTimeConstraint : bool
}.

Definition new_EncounterService : EncounterService :=
  {| distanceSinceLastEncounter := 0;
     lastEncounterTime := None;
     minEncounterDistance := 50;
     encounterChancePerMeter := lit 0.001;
     minTimeBetweenEncounters := 30000;
     hasEncounterCallback := false;
     bypassTimeConstraint := false |}.

Definition set_tracking (s : EncounterService) (distance : Q) (time : option Z) : EncounterService :=
  {| distanceSinceLastEncounter := distance;
     lastEncounterTime := time;
     minEncounterDistance := minEncounterDistance s;
     encounterChancePerMeter := encounterChancePerMeter s;
     minTimeBetweenEncounters := minTimeBetweenEncounters s;
     hasEncounterCallback := hasEncounterCallback s;
     bypassTimeConstraint := bypassTimeConstraint s |}.

Definition setEncounterCallback (s : EncounterService) : EncounterService :=
  {| distanceSinceLastEncounter := distanceSinceLastEncounter s;
     lastEncounterTime := lastEncounterTime s;
     minEncounterDistance := minEncounterDistance s;
     encounterChancePerMeter := encounterChancePerMeter s;
     minTimeBetweenEncounters := minTimeBetweenEncounters s;
     hasEncounterCallback := true;
     bypassTimeConstraint := bypassTimeConstraint s |}.

(** [lastEncounterTime ? Date.now() - lastEncounterTime : Infinity]; [None] is
    [Infinity]. *)
Definition timeSinceLastEncounter (s : EncounterService) (now : Z) : option Z :=
  match lastEncounterTime s with
  | Some t => if t =? 0 then None else Some (now - t)
  | None => None
  end.

(** [timeSince < this.minTimeBetweenEncounters] *)
Definition time_too_short (s : EncounterService) (now : Z) : bool :=
  match timeSinceLastEncounter s now with
  | Some t => t <? minTimeBetweenEncounters s
  | None => false
  end.

Definition timeConstraintMet (s : EncounterService) (now : Z) : bool :=
  bypassTimeConstraint s || negb (time_too_short s now).

(** [Math.min(1, extraDistance * this.encounterChancePerMeter)] *)
Definition probability_at (s : EncounterService) (distance : Q) : Q :=
  math_min 1 (js_mul (js_sub distance (minEncounterDistance s)) (encounterChancePerMeter s)).

(** What an update produces: the encounter it returns, and the one it passes to
    the callback; [Throws] is an exception out of the creation. *)
Inductive UpdateResult :=
  | NoEncounter
  | Generated (e : Encounter) (notified : option Encounter)
  | Throws.

Definition generateEncounter (now : Z) (location : Location) (playerLevel : Z)
    (rarityOverride : option Rarity) : Rand (option Encounter) :=
  createRandomEncounter now location playerLevel rarityOverride.

(** [now] is the clock when the update arrives and [now'] when the encounter has
    been made; [distanceData] and [playerLocation] may be missing. *)
Definition processDistanceUpdate (s : EncounterService) (now now' : Z)
    (incremental : option Q) (playerLocation : option Location) (playerLevel : Z)
    : Rand (EncounterService * UpdateResult) :=
  match incremental, playerLocation with
  | Some incremental, Some location =>
      let s := set_tracking s (js_add (distanceSinceLastEncounter s) incremental)
                 (lastEncounterTime s) in
      if js_le (minEncounterDistance s) (distanceSinceLastEncounter s) && timeConstraintMet s now
      then
        let! r := math_random in
        if js_lt r (probability_at s (distanceSinceLastEncounter s)) then
          let! o := generateEncounter now' location playerLevel None in
          rand_ret
            (match o with
             | None => (s, Throws)
             | Some e =>
                 (set_tracking s 0 (Some now'),
                  Generated e (if hasEncounterCallback s then Some e else None))
             end)
        else rand_ret (s, NoEncounter)
      else rand_ret (s, NoEncounter)
  | _, _ => rand_ret (s, NoEncounter)
  end.

Definition getDistanceBasedProbability (s : EncounterService) : Q :=
  if js_lt (distanceSinceLastEncounter s) (minEncounterDistance s) then 0
  else probability_at s (distanceSinceLastEncounter s).

Definition getCurrentEncounterProbability (s : EncounterService) (now : Z) : Q :=
  if negb (bypassTimeConstraint s) && time_too_short s now then 0
  else getDistanceBasedProbability s.

Definition getDistanceBasedProbabilityAfterIncremental (s : EncounterService)
    (incrementalDistance : Q) : Q :=
  let distanceAfterIncremental := js_add (distanceSinceLastEncounter s) incrementalDistance in
  if js_lt distanceAfterIncremental (minEncounterDistance s) then 0
  else probability_at s distanceAfterIncremental.

Definition getProbabilityAfterIncremental (s : EncounterService) (now : Z)
    (incrementalDistance : Q) : Q :=
  if negb (bypassTimeConstraint s) && time_too_short s now then 0
  else getDistanceBasedProbabilityAfterIncremental s incrementalDistance.

Definition forceEncounter (s : EncounterService) (now : Z) (location : Location)
    (playerLevel : Z) (rarityOverride : option Rarity)
    : Rand (EncounterService * option Encounter) :=
  let! o := generateEncounter now location playerLevel rarityOverride in
  rand_ret (match o with
            | Some e => (set_tracking s 0 (Some now), Some e)
            | None => (s, None)
            end).

Definition reset (s : EncounterService) : EncounterService := set_tracking s 0 None.

Record EncounterConfig := mkEncounterConfig {
  cfg_minEncounterDistance : option Q;
  cfg_encounterChancePerMeter : option Q;
  cfg_minTimeBetweenEncounters : option Z
}.

Definition configure (s : EncounterService) (config : EncounterConfig) : EncounterService :=
  {| distanceSinceLastEncounter := distanceSinceLastEncounter s;
     lastEncounterTime := lastEncounterTime s;
     minEncounterDistance := default (minEncounterDistance s) (cfg_minEncounterDistance config);
     encounterChancePerMeter :=
       default (encounterChancePerMeter s) (cfg_encounterChancePerMeter config);
     minTimeBetweenEncounters :=
       default (minTimeBetweenEncounters s) (cfg_minTimeBetweenEncounters config);
     hasEncounterCallback := hasEncounterCallback s;
     bypassTimeConstraint := bypassTimeConstraint s |}.

Definition isTimeConstraintBlocking (s : EncounterService) (now : Z) : bool :=
  if bypassTimeConstraint s then false else time_too_short s now.

Definition getTimeRemainingUntilEncounter (s : EncounterService) (now : Z) : Z :=
  match timeSinceLastEncounter s now with
  | None => 0
  | Some t =>
      let remaining := minTimeBetweenEncounters s - t in
      Z.max 0 (math_ceil (js_div (num remaining) 1000))
  end.

Definition setBypassTimeConstraint (s : EncounterService) (bypass : bool) : EncounterService :=
  {| distanceSinceLastEncounter := distanceSinceLastEncounter s;
     lastEncounterTime := lastEncounterTime s;
     minEncounterDistance := minEncounterDistance s;
     encounterChancePerMeter := encounterChancePerMeter s;
     minTimeBetweenEncounters := minTimeBetweenEncounters s;
     hasEncounterCallback := hasEncounterCallback s;
     bypassTimeConstraint := bypass |}.

Record EncounterReadiness := mkEncounterReadiness {
  er_distance : Q; er_minDistance : Q; er_probability : Q; er_timeSince : option Z
}.

Definition getEncounterStatus (s : EncounterService) (now : Z) : EncounterReadiness :=
  {| er_distance := distanceSinceLastEncounter s;
     er_minDistance := minEncounterDistance s;
     er_probability := getCurrentEncounterProbability s now;
     er_timeSince := timeSinceLastEncounter s now |}.

End Creation.

(** ** Lemmas *)

Section Properties.
Context `{Trig}.

(** Creation never fails, and makes an active encounter at the given place with a
    creature close to the player's level. *)
Definition fresh_encounter (now : Z) (location : Location) (playerLevel : Z) (e : Encounter) : Prop :=
  e_status e = active /\ e_location e = location /\ e_timestamp e = now
  /\ e_daylight e = Some (isDaylight now (latitude location) (longitude location))
  /\ 1 <= c_level (e_creature e) <= Z.max 1 (playerLevel + 2)
  /\ c_hp (e_creature e) = c_maxHp (e_creature e) /\ 1 <= c_maxHp (e_creature e).

Lemma pool_maxHp r t : t ∈ rarity_pool r -> 1 <= ct_maxHp t <= 1000.
Proof.
  assert (E : forallb (fun t => (1 <=? ct_maxHp t) && (ct_maxHp t <=? 1000)) (rarity_pool r) = true)
    by (destruct r; vm_compute; reflexivity).
  intros I. apply list_elem_of_In in I. rewrite forallb_forall in E. specialize (E t I).
  apply andb_true_iff in E as [E1 E2]. lia.
Qed.

Lemma createRandomEncounter_fresh now loc lvl ov :
  rand_post (createRandomEncounter now loc lvl ov) (fun o =>
    exists e, o = Some e /\ fresh_encounter now loc lvl e).
Proof.
  unfold createRandomEncounter. cbv zeta.
  eapply rand_post_bind with (P := fun o : option CreatureTemplate =>
    exists t, o = Some t /\ 1 <= ct_maxHp t <= 1000).
  { destruct ov.
    - eapply rand_post_weaken; [apply pick_in_pool|]. intros o (t & -> & I). eauto using pool_maxHp.
    - rand_step rollEncounterRarity_allowed r Hr.
      eapply rand_post_weaken; [apply pick_in_pool|]. intros o (t & -> & I). eauto using pool_maxHp. }
  intros o (t & -> & Hm). unfold createCreatureFromTemplate.
  eapply rand_post_bind with (P := fun c => 1 <= c_level c <= Z.max 1 (lvl + 2)
    /\ c_hp c = c_maxHp c /\ 1 <= c_maxHp c).
  - rand_step random_index_bounds i Hi; [lia|]. apply rand_post_ret. simpl.
    pose proof (scale_stat_ge (ct_maxHp t) (Z.max 1 (lvl + (i - 2)))). lia.
  - intros c Hc. apply rand_post_ret. eexists. split; [reflexivity|].
    unfold fresh_encounter, new_Encounter; simpl. auto 10.
Qed.

(** The decision of [processDistanceUpdate], read off the debug getter. *)
Lemma process_gate s now inc :
  let s1 := set_tracking s (js_add (distanceSinceLastEncounter s) inc) (lastEncounterTime s) in
  getProbabilityAfterIncremental s now inc
  = if js_le (minEncounterDistance s1) (distanceSinceLastEncounter s1) && timeConstraintMet s1 now
    then probability_at s1 (distanceSinceLastEncounter s1) else 0%Q.
Proof.
  cbv zeta. unfold getProbabilityAfterIncremental, getDistanceBasedProbabilityAfterIncremental,
    timeConstraintMet, js_lt, js_le. simpl.
  change (time_too_short (set_tracking s (js_add (distanceSinceLastEncounter s) inc)
    (lastEncounterTime s)) now) with (time_too_short s now).
  change (probability_at (set_tracking s (js_add (distanceSinceLastEncounter s) inc)
    (lastEncounterTime s))) with (probability_at s).
  destruct (bypassTimeConstraint s), (time_too_short s now), (Qle_bool _ _); reflexivity.
Qed.

(** ** Properties *)

(** The readiness readout is the truth.  The probability
    [getProbabilityAfterIncremental] reports for a step is the one
    [processDistanceUpdate] then uses: the update generates an encounter exactly
    when the draw falls below it, and it never throws. *)
Theorem process_matches_probability (s : EncounterService) (now now' lvl : Z) (inc : Q)
    (loc : Location) (r : rng) :
  wf_rng r ->
  let '((_, res), _) := processDistanceUpdate s now now' (Some inc) (Some loc) lvl r in
  res <> Throws
  /\ (res <> NoEncounter
      <-> (rng_src r (rng_pos r) < getProbabilityAfterIncremental s now inc)%Q).
Proof.
  intros W. rewrite process_gate. unfold processDistanceUpdate.
  set (s1 := set_tracking s _ _). destruct (_ && _).
  - unfold rand_bind at 1. cbn [math_random].
    set (q := rng_src r (rng_pos r)). destruct (js_ltP q (probability_at s1
      (distanceSinceLastEncounter s1))) as [L|L].
    + unfold rand_bind. unfold generateEncounter.
      destruct (createRandomEncounter_fresh now' loc lvl None
        {| rng_src := rng_src r; rng_pos := S (rng_pos r) |} W) as [(e & E & _) _].
      destruct (createRandomEncounter _ _ _ _ _) as [o r']. simpl in E. subst o. simpl.
      split; [discriminate | split; [intros _; exact L | discriminate]].
    + simpl. split; [discriminate | split; [congruence | contradiction]].
  - simpl. split; [discriminate | split; [congruence|]]. intros L. exfalso.
    pose proof (W (rng_pos r)). lra.
Qed.

Lemma process_gated_spec (s : EncounterService) (now now' lvl : Z) (inc : Q) (loc : Location) :
  rand_post (processDistanceUpdate s now now' (Some inc) (Some loc) lvl) (fun '(s', res) =>
    let walked := js_add (distanceSinceLastEncounter s) inc in
    match res with
    | Throws => False
    | NoEncounter => s' = set_tracking s walked (lastEncounterTime s)
    | Generated e notified =>
        (minEncounterDistance s <= walked)%Q
        /\ (bypassTimeConstraint s = false -> forall t, timeSinceLastEncounter s now = Some t ->
            minTimeBetweenEncounters s <= t)
        /\ s' = set_tracking s 0 (Some now')
        /\ notified = (if hasEncounterCallback s then Some e else None)
        /\ fresh_encounter now' loc lvl e
    end).
Proof.
  unfold processDistanceUpdate. cbv zeta. set (s1 := set_tracking s _ _).
  destruct (js_le (minEncounterDistance s1) (distanceSinceLastEncounter s1)) eqn:D;
    [|apply rand_post_ret; reflexivity].
  destruct (timeConstraintMet s1 now) eqn:T; [|apply rand_post_ret; reflexivity].
  cbn [andb]. rand_step rand_post_random q Hq.
  destruct (js_lt _ _); [|apply rand_post_ret; reflexivity].
  rand_step createRandomEncounter_fresh o Ho. destruct Ho as (e & -> & F).
  apply rand_post_ret. js_reflect. split; [exact D|]. split; [|auto].
  intros B t Ht. unfold timeConstraintMet, time_too_short in T.
  change (timeSinceLastEncounter s1 now) with (timeSinceLastEncounter s now) in T.
  change (bypassTimeConstraint s1) with (bypassTimeConstraint s) in T.
  rewrite B, Ht in T. simpl in T. change (minTimeBetweenEncounters s1)
    with (minTimeBetweenEncounters s) in T.
  destruct (Z.ltb_spec t (minTimeBetweenEncounters s)); [discriminate | lia].
Qed.

(** An encounter is earned.  [processDistanceUpdate] accumulates the distance
    walked until it generates; when it does, the minimum distance had been walked,
    the minimum time had passed (or the debug bypass is on), the tracking restarts
    from zero at the present time, the callback hears of it exactly when one is set,
    and the encounter is active, where the player is and near the player's level. *)
Theorem process_gated (s : EncounterService) (now now' lvl : Z) (inc : Q) (loc : Location) :
  rand_post (processDistanceUpdate s now now' (Some inc) (Some loc) lvl) (fun '(s', res) =>
    let walked := js_add (distanceSinceLastEncounter s) inc in
    match res with
    | Throws => False
    | NoEncounter => s' = set_tracking s walked (lastEncounterTime s)
    | Generated e notified =>
        (minEncounterDistance s <= walked)%Q
        /\ (bypassTimeConstraint s = false -> forall t, timeSinceLastEncounter s now = Some t ->
            minTimeBetweenEncounters s <= t)
        /\ s' = set_tracking s 0 (Some now')
        /\ notified = (if hasEncounterCallback s then Some e else None)
        /\ fresh_encounter now' loc lvl e
    end).
Proof. apply process_gated_spec. Qed.

(** A walk is never fruitless.  With the default configuration, an update that
    brings the distance since the last encounter to 1050 metres, at least 30 seconds
    after it, generates an encounter whatever the draw. *)
Theorem encounter_guaranteed (s : EncounterService) (now now' lvl : Z) (inc : Q)
    (loc : Location) :
  minEncounterDistance s = 50%Q -> encounterChancePerMeter s = lit 0.001 ->
  (1050 <= js_add (distanceSinceLastEncounter s) inc)%Q ->
  (forall t, timeSinceLastEncounter s now = Some t -> minTimeBetweenEncounters s <= t) ->
  rand_post (processDistanceUpdate s now now' (Some inc) (Some loc) lvl) (fun '(_, res) =>
    exists e notified, res = Generated e notified).
Proof.
  intros Hm Hc Hd Ht. unfold processDistanceUpdate. cbv zeta. set (s1 := set_tracking s _ _).
  assert (D : js_le (minEncounterDistance s1) (distanceSinceLastEncounter s1) = true)
    by (apply js_le_iff; change (minEncounterDistance s1) with (minEncounterDistance s);
        rewrite Hm; simpl; lra).
  assert (T : timeConstraintMet s1 now = true).
  { unfold timeConstraintMet, time_too_short.
    change (timeSinceLastEncounter s1 now) with (timeSinceLastEncounter s now).
    change (minTimeBetweenEncounters s1) with (minTimeBetweenEncounters s).
    destruct (timeSinceLastEncounter s now) as [t|]; [|apply orb_true_r].
    specialize (Ht t eq_refl). destruct (Z.ltb_spec t (minTimeBetweenEncounters s)); [lia|].
    apply orb_true_r. }
  rewrite D, T. cbn [andb]. rand_step rand_post_random q Hq.
  assert (P : js_lt q (probability_at s1 (distanceSinceLastEncounter s1)) = true).
  { apply js_lt_iff. unfold probability_at. set (x := js_mul _ _).
    assert (X : (1 <= x)%Q).
    { assert (E : (1000 <= js_sub (distanceSinceLastEncounter s1) (minEncounterDistance s1))%Q).
      { change (minEncounterDistance s1) with (minEncounterDistance s). rewrite Hm.
        apply (fl_ge_Z _ 1000); [lia|]. change (inject_Z 1000) with 1000%Q. simpl. lra. }
      apply Qle_trans with (js_mul 1000 (lit 0.001)); [q_compute|].
      unfold x. change (encounterChancePerMeter s1) with (encounterChancePerMeter s).
      rewrite Hc. apply js_mul_mono_l; [q_compute | exact E]. }
    unfold math_min. destruct (js_ltP x 1); [lra|].
    assert (R : (random_max < 1)%Q) by reflexivity. lra. }
  rewrite P. rand_step createRandomEncounter_fresh o Ho. destruct Ho as (e & -> & _).
  apply rand_post_ret. eauto.
Qed.

(** *** Pacing of a whole walk *)

(** One distance update of a walk. *)
Record Update := mkUpdate {
  u_now : Z; u_now' : Z; u_incremental : option Q; u_location : option Location; u_level : Z
}.

(** The service over a sequence of updates, and the times it generated at. *)
Fixpoint walk (s : EncounterService) (us : list Update) : Rand (list Z) :=
  match us with
  | [] => rand_ret []
  | u :: us' =>
      let! step := processDistanceUpdate s (u_now u) (u_now' u) (u_incremental u)
                     (u_location u) (u_level u) in
      let! times := walk (fst step) us' in
      rand_ret (match snd step with Generated _ _ => u_now' u :: times | _ => times end)
  end.

(** Consecutive times at least [gap] apart. *)
Fixpoint spaced (gap : Z) (last : option Z) (times : list Z) : Prop :=
  match times with
  | [] => True
  | t :: times' =>
      match last with Some t0 => t0 + gap <= t | None => True end /\ spaced gap (Some t) times'
  end.

Lemma process_config s now now' inc loc lvl :
  rand_post (processDistanceUpdate s now now' inc loc lvl) (fun '(s', res) =>
    minTimeBetweenEncounters s' = minTimeBetweenEncounters s
    /\ bypassTimeConstraint s' = bypassTimeConstraint s
    /\ match res with
       | Generated _ _ => lastEncounterTime s' = Some now'
           /\ (bypassTimeConstraint s = false -> forall t, timeSinceLastEncounter s now = Some t ->
               minTimeBetweenEncounters s <= t)
       | _ => lastEncounterTime s' = lastEncounterTime s
       end).
Proof.
  destruct inc as [inc|], loc as [loc|];
    [|apply rand_post_ret; auto .. ].
  eapply rand_post_weaken; [apply process_gated|]. intros [s' []].
  - intros ->. auto.
  - intros (_ & Ht & -> & _). auto.
  - contradiction.
Qed.

(** Encounters are paced over the whole walk.  For any sequence of updates whose
    clock readings are positive and where each creation does not end before its
    update began, any two consecutive encounters are at least the minimum time
    apart. *)
Theorem walk_paced (s : EncounterService) (us : list Update) :
  bypassTimeConstraint s = false ->
  Forall (fun u => 0 < u_now u <= u_now' u) us ->
  (forall t, lastEncounterTime s = Some t -> 0 < t) ->
  rand_post (walk s us) (spaced (minTimeBetweenEncounters s) (lastEncounterTime s)).
Proof.
  intros B F. revert s B. induction F as [|u us Hu _ IH]; intros s B L.
  { apply rand_post_ret. exact I. }
  cbn [walk]. rand_step process_config x Hx. destruct x as [s' res].
  destruct Hx as (G & B' & R). rewrite B in B'. cbn [fst snd].
  destruct res as [|e n|].
  - rand_step IH times Ht; [exact B' | rewrite R; exact L |].
    apply rand_post_ret. rewrite <- G, <- R. exact Ht.
  - destruct R as [R1 R2]. rand_step IH times Ht; [exact B' | rewrite R1; intros t [= <-]; lia |].
    apply rand_post_ret. rewrite G, R1 in Ht. cbn [spaced]. split; [|exact Ht].
    destruct (lastEncounterTime s) as [t0|] eqn:E; [|exact I].
    specialize (L t0 eq_refl). specialize (R2 B (u_now u - t0)). unfold timeSinceLastEncounter in R2.
    rewrite E in R2. destruct (Z.eqb_spec t0 0); [lia|]. specialize (R2 eq_refl). lia.
  - rand_step IH times Ht; [exact B' | rewrite R; exact L |].
    apply rand_post_ret. rewrite <- G, <- R. exact Ht.
Qed.

End Properties.

(** *** Concrete inputs *)

(** A crude stand-in for the trigonometric functions. *)
Definition sample_trig : Trig :=
  {| math_sin := fun _ => 0%Q; math_cos := fun _ => 1%Q; math_asin := fun x => x;
     math_atan2 := fun y _ => y; math_sqrt := fun x => x |}.

Definition sample_rng : rng := mkRng (fun n => (Z.of_nat (n mod 3) # 4)%Q) 0.

Lemma sample_rng_wf : wf_rng sample_rng.
Proof.
  intros n. simpl rng_src. pose proof (Nat.mod_upper_bound n 3 ltac:(lia)).
  unfold Qle, random_max; simpl. lia.
Qed.

Lemma process_matches_probability_witness :
  let '((_, res), _) := @processDistanceUpdate sample_trig new_EncounterService 1000 1001
    (Some 700%Q) (Some (mkLocation 45 7)) 3 sample_rng in
  res <> Throws
  /\ (res <> NoEncounter
      <-> (rng_src sample_rng (rng_pos sample_rng)
           < getProbabilityAfterIncremental new_EncounterService 1000 700)%Q).
Proof. apply (@process_matches_probability sample_trig), sample_rng_wf. Defined.

Lemma encounter_guaranteed_witness :
  rand_post (@processDistanceUpdate sample_trig
    (set_tracking new_EncounterService 600 (Some 1000)) 40000 40001 (Some 450%Q)
    (Some (mkLocation 45 7)) 3) (fun '(_, res) => exists e notified, res = Generated e notified).
Proof.
  apply (@encounter_guaranteed sample_trig); [reflexivity | reflexivity | q_compute |].
  intros t [= <-]. vm_compute. discriminate.
Defined.

Lemma walk_paced_witness :
  rand_post (@walk sample_trig new_EncounterService
    [mkUpdate 1000 1001 (Some 900%Q) (Some (mkLocation 45 7)) 3;
     mkUpdate 2000 2001 (Some 900%Q) (Some (mkLocation 45 7)) 3;
     mkUpdate 40000 40001 (Some 900%Q) (Some (mkLocation 45 7)) 3]) (spaced 30000 None).
Proof.
  apply (@walk_paced sample_trig new_EncounterService); [reflexivity | | discriminate].
  repeat constructor; simpl; lia.
Defined.

Example walk_sample :
  fst (@walk sample_trig new_EncounterService
    [mkUpdate 1000 1001 (Some 900%Q) (Some (mkLocation 45 7)) 3;
     mkUpdate 2000 2001 (Some 900%Q) (Some (mkLocation 45 7)) 3;
     mkUpdate 40000 40001 (Some 900%Q) (Some (mkLocation 45 7)) 3] sample_rng) = [1001; 40001].
Proof. vm_compute. reflexivity. Qed.

(** *** Waiting time *)

Lemma ceil_positive x : (0 < x)%Q <-> 0 < math_ceil x.
Proof.
  unfold math_ceil. split; intros H.
  - rewrite Zlt_Qlt. apply Qlt_le_trans with x; [exact H | apply Qle_ceiling].
  - destruct (Qlt_le_dec 0 x) as [L|L]; [exact L|]. exfalso.
    pose proof (Qceiling_resp_le _ _ L) as C. change (Qceiling 0) with 0 in C. lia.
Qed.

Lemma js_div_1000_pos n : 0 < n <-> (0 < js_div (num n) 1000)%Q.
Proof.
  split; intros H.
  - apply Qlt_le_trans with (js_div (num 1) 1000); [reflexivity|].
    apply js_div_mono; [q_compute | apply num_le; lia | reflexivity | lra].
  - destruct (Z.lt_ge_cases 0 n) as [L|L]; [exact L|]. exfalso.
    assert (js_div (num n) 1000 <= 0)%Q; [|lra].
    apply (fl_le_Z _ 0); [lia|]. apply Qle_shift_div_r; [reflexivity|].
    rewrite Qmult_0_l. apply (num_le n 0). lia.
Qed.

(** The countdown and the gate agree, but only without the debug bypass: with it
    off, a positive number of seconds remains exactly while the time constraint
    blocks.  (The bypass is ignored by the countdown; see the example below.) *)
Theorem timeRemaining_blocking (s : EncounterService) (now : Z) :
  bypassTimeConstraint s = false ->
  isTimeConstraintBlocking s now = true <-> 0 < getTimeRemainingUntilEncounter s now.
Proof.
  intros B. unfold isTimeConstraintBlocking, getTimeRemainingUntilEncounter, time_too_short.
  rewrite B. destruct (timeSinceLastEncounter s now) as [t|]; [|split; [discriminate | lia]].
  rewrite Z.ltb_lt. pose proof (js_div_1000_pos (minTimeBetweenEncounters s - t)) as D.
  pose proof (ceil_positive (js_div (num (minTimeBetweenEncounters s - t)) 1000)) as C.
  cbv zeta. rewrite <- D in C.
  set (c := math_ceil _) in *. destruct C. split; intros; lia.
Qed.

Lemma timeRemaining_blocking_witness :
  isTimeConstraintBlocking (set_tracking new_EncounterService 10 (Some 5000)) 20000 = true
  <-> 0 < getTimeRemainingUntilEncounter (set_tracking new_EncounterService 10 (Some 5000)) 20000.
Proof. apply timeRemaining_blocking. reflexivity. Defined.

(** With the bypass on, nothing blocks and yet the countdown still runs. *)
Theorem timeRemaining_ignores_bypass :
  let s := setBypassTimeConstraint (set_tracking new_EncounterService 10 (Some 5000)) true in
  isTimeConstraintBlocking s 20000 = false /\ getTimeRemainingUntilEncounter s 20000 = 15.
Proof. vm_compute. auto. Qed.

(** *** The sun *)

Section SunProperties.
Context `{Trig}.
(** ECMAScript: [Math.asin] returns a value between -pi/2 and pi/2. *)
Hypothesis asin_range : forall x, (-1 <= x <= 1)%Q ->
  (- js_div math_PI 2 <= math_asin x <= js_div math_PI 2)%Q.

(** The sun's elevation is always an angle between -90 and 90 degrees, for any
    date and any coordinates, polar ones included, however the other trigonometric
    functions round. *)
Theorem solarElevation_range (date : Z) (lat lon : Q) :
  (-90 <= solarElevationDeg date lat lon <= 90)%Q.
Proof.
  unfold solarElevationDeg. cbv zeta.
  match goal with |- context [math_max (-1) (math_min 1 ?x)] => set (sinElevation := x) end.
  assert (R : (-1 <= math_max (-1) (math_min 1 sinElevation) <= 1)%Q).
  { destruct (math_max_spec (-1) (math_min 1 sinElevation)) as (M & _ & _).
    destruct (math_min_spec 1 sinElevation) as (N & _ & _).
    split; [exact M|]. unfold math_max. destruct (js_lt _ _); [exact N | lra]. }
  destruct (asin_range _ R) as [A B]. set (y := math_asin _) in *. clearbody y.
  assert (P : (0 < RAD)%Q) by reflexivity.
  split.
  - apply Qle_trans with (js_div (- js_div math_PI 2) RAD); [q_compute|].
    apply fl_mono, Qmult_le_compat_r; [exact A | apply Qinv_le_0_compat; lra].
  - apply Qle_trans with (js_div (js_div math_PI 2) RAD); [|q_compute].
    apply fl_mono, Qmult_le_compat_r; [exact B | apply Qinv_le_0_compat; lra].
Qed.

End SunProperties.

Lemma solarElevation_range_witness :
  (-90 <= @solarElevationDeg sample_trig 1700000000000 89 45 <= 90)%Q.
Proof.
  apply (@solarElevation_range sample_trig). intros x Hx. simpl.
  assert (H : (1 <= js_div math_PI 2)%Q) by q_compute. lra.
Defined.
