(* ===== verification/Location.v ===== *)
(** * Location tracking

    [src/services/LocationService.ts]: the GPS watch, distance accumulation and the
    switch between high and low accuracy.  The geolocation library is outside the
    program: what the service asks of it (opening and clearing watches) and what it
    tells its own callbacks are the effects an operation emits, and the identifiers
    the library hands out are arguments. *)
From stdpp Require Import base decidable strings list relations.
From Stdlib Require Import ZArith QArith Lia Lqa.
From S2P Require Import Prelude JsNumber Encounter.
Local Open Scope Z_scope.

(** [GeolocationPosition], flattened: [coords] and the timestamp. *)
Record GeolocationPosition := mkPosition {
  pos_latitude : Q;
  pos_longitude : Q;
  pos_accuracy : Q;
  pos_altitude : option Q;
  pos_heading : option Q;
  pos_speed : option Q;
  pos_timestamp : Z
}.

Record LocationData := mkLocationData {
  loc_latitude : Q;
  loc_longitude : Q;
  loc_accuracy : Q;
  loc_altitude : option Q;
  loc_heading : option Q;
  loc_speed : Q;
  loc_timestamp : Z
}.

Record DistanceData := mkDistanceData {
  dd_incremental : Q; dd_total : Q; dd_location : LocationData
}.

Definition LOW_SPEED_THRESHOLD_MS : Q := js_div 1 (lit 3.6).
Definition LOW_SPEED_READINGS_TO_DOWNGRADE : Z := 3.

#[global] Arguments LOW_SPEED_THRESHOLD_MS : simpl never.

Record WatchConfig := mkWatchConfig {
  wc_enableHighAccuracy : bool;
  wc_distanceFilter : Z;
  wc_showsBackgroundLocationIndicator : bool;
  wc_interval : Z;
  wc_fastestInterval : Z
}.

Definition highAccuracyWatchConfig : WatchConfig := mkWatchConfig true 5 true 5000 2000.
Definition lowAccuracyWatchConfig : WatchConfig := mkWatchConfig false 30 true 30000 15000.

Record LocationService := mkLocationService {
  watchId : option Z;
  currentLocation : option LocationData;
  totalDistance : Q;
  hasLocationCallback : bool;
  hasDistanceCallback : bool;
  isTracking : bool;
  isHighAccuracy : bool;
  consecutiveLowSpeedReadings : Z
}.

Definition new_LocationService : LocationService :=
  {| watchId := None; currentLocation := None; totalDistance := 0;
     hasLocationCallback := false; hasDistanceCallback := false; isTracking := false;
     isHighAccuracy := true; consecutiveLowSpeedReadings := 0 |}.

Inductive Effect :=
  | WatchPosition (id : Z) (config : WatchConfig)
  | ClearWatch (id : Z)
  | GetCurrentPosition
  | NotifyLocation (l : LocationData)
  | NotifyDistance (d : DistanceData)
  | LogWarning (msg : string)
  | LogError (msg : string).

(** Assignments. *)
Definition set_watch (s : LocationService) (id : option Z) : LocationService :=
  let '(mkLocationService _ c t hl hd tr ha n) := s in mkLocationService id c t hl hd tr ha n.
Definition set_location (s : LocationService) (l : option LocationData) : LocationService :=
  let '(mkLocationService w _ t hl hd tr ha n) := s in mkLocationService w l t hl hd tr ha n.
Definition set_total (s : LocationService) (d : Q) : LocationService :=
  let '(mkLocationService w c _ hl hd tr ha n) := s in mkLocationService w c d hl hd tr ha n.
Definition set_callbacks (s : LocationService) (b : bool) : LocationService :=
  let '(mkLocationService w c t _ _ tr ha n) := s in mkLocationService w c t b b tr ha n.
Definition set_tracking_flag (s : LocationService) (b : bool) : LocationService :=
  let '(mkLocationService w c t hl hd _ ha n) := s in mkLocationService w c t hl hd b ha n.
Definition set_accuracy (s : LocationService) (b : bool) (n : Z) : LocationService :=
  let '(mkLocationService w c t hl hd tr _ _) := s in mkLocationService w c t hl hd tr b n.

Section Service.
Context `{Trig}.

Definition calculateDistance (lat1 lon1 lat2 lon2 : Q) : Q :=
  let R := 6371000%Q in
  let phi1 := js_div (js_mul lat1 math_PI) 180 in
  let phi2 := js_div (js_mul lat2 math_PI) 180 in
  let dphi := js_div (js_mul (js_sub lat2 lat1) math_PI) 180 in
  let dlambda := js_div (js_mul (js_sub lon2 lon1) math_PI) 180 in
  let a :=
    js_add (js_mul (math_sin (js_div dphi 2)) (math_sin (js_div dphi 2)))
      (js_mul (js_mul (js_mul (math_cos phi1) (math_cos phi2)) (math_sin (js_div dlambda 2)))
         (math_sin (js_div dlambda 2))) in
  let c := js_mul 2 (math_atan2 (math_sqrt a) (math_sqrt (js_sub 1 a))) in
  js_mul R c.

(** The [LocationData] both position callbacks build. *)
Definition location_of (p : GeolocationPosition) : LocationData :=
  {| loc_latitude := pos_latitude p;
     loc_longitude := pos_longitude p;
     loc_accuracy := pos_accuracy p;
     loc_altitude := pos_altitude p;
     loc_heading := pos_heading p;
     loc_speed := default 0%Q (pos_speed p);
     loc_timestamp := pos_timestamp p |}.

(** The success callback of [getCurrentLocation]. *)
Definition on_current_position (s : LocationService) (p : GeolocationPosition)
    : LocationService * LocationData :=
  let location := location_of p in (set_location s (Some location), location).

(** [fresh] is the identifier [Geolocation.watchPosition] returns. *)
Definition startWatch (s : LocationService) (fresh : Z) : LocationService * list Effect :=
  (set_watch s (Some fresh),
   [WatchPosition fresh
      (if isHighAccuracy s then highAccuracyWatchConfig else lowAccuracyWatchConfig)]).

Definition startTracking (s : LocationService) (fresh : Z) : LocationService * list Effect :=
  if isTracking s then (s, [LogWarning "Location tracking is already active"])
  else
    let s := set_callbacks s true in
    let s := set_tracking_flag s true in
    let s := set_accuracy s true 0 in
    let (s, eff) := startWatch s fresh in
    (s, GetCurrentPosition :: eff).

(** The promise of the initial [getCurrentLocation] settles. *)
Definition initial_location_resolved (s : LocationService) (p : GeolocationPosition)
    : LocationService * list Effect :=
  let (s, location) := on_current_position s p in
  (s, if hasLocationCallback s then [NotifyLocation location] else []).

Definition initial_location_rejected (s : LocationService) : LocationService * list Effect :=
  (s, [LogError "Error getting initial location:"]).

Definition switchAccuracyMode (s : LocationService) (toHighAccuracy : bool) (fresh : Z)
    : LocationService * list Effect :=
  let s := set_accuracy s toHighAccuracy 0 in
  let s := set_location s None in
  let '(s, cleared) :=
    match watchId s with
    | Some id => (set_watch s None, [ClearWatch id])
    | None => (s, [])
    end in
  let (s, eff) := startWatch s fresh in
  (s, cleared ++ eff).

Definition updateAccuracyMode (s : LocationService) (speedMs : Q) (fresh : Z)
    : LocationService * list Effect :=
  if js_lt speedMs LOW_SPEED_THRESHOLD_MS then
    let s := set_accuracy s (isHighAccuracy s) (consecutiveLowSpeedReadings s + 1) in
    if isHighAccuracy s && (LOW_SPEED_READINGS_TO_DOWNGRADE <=? consecutiveLowSpeedReadings s)
    then switchAccuracyMode s false fresh
    else (s, [])
  else
    let s := set_accuracy s (isHighAccuracy s) 0 in
    if negb (isHighAccuracy s) then switchAccuracyMode s true fresh else (s, []).

(** The distance part of the watch callback. *)
Definition accumulate (s : LocationService) (location : LocationData)
    : LocationService * list Effect :=
  match currentLocation s with
  | None => (s, [])
  | Some cur =>
      let distance := calculateDistance (loc_latitude cur) (loc_longitude cur)
                        (loc_latitude location) (loc_longitude location) in
      if js_le 1 distance && js_lt distance 1000 && isHighAccuracy s then
        let s := set_total s (js_add (totalDistance s) distance) in
        (s, if hasDistanceCallback s
            then [NotifyDistance (mkDistanceData distance (totalDistance s) location)] else [])
      else (s, [])
  end.

(** The accuracy part of the watch callback. *)
Definition adapt_accuracy (s : LocationService) (speed : option Q)
    (isFirstCallbackAfterSwitch : bool) (fresh : Z) : LocationService * list Effect :=
  match speed with
  | Some speed => updateAccuracyMode s speed fresh
  | None =>
      if negb (isHighAccuracy s) && negb isFirstCallbackAfterSwitch
      then switchAccuracyMode s true fresh
      else (s, [])
  end.

(** The success callback of the watch. *)
Definition on_watch_position (s : LocationService) (p : GeolocationPosition) (fresh : Z)
    : LocationService * list Effect :=
  let location := location_of p in
  let isFirstCallbackAfterSwitch :=
    bool_decide (currentLocation s = None) && negb (isHighAccuracy s) in
  let (s, eff1) := accumulate s location in
  let s := set_location s (Some location) in
  let eff2 := if hasLocationCallback s then [NotifyLocation location] else [] in
  let (s, eff3) := adapt_accuracy s (pos_speed p) isFirstCallbackAfterSwitch fresh in
  (s, eff1 ++ eff2 ++ eff3).

(** The error callback of the watch. *)
Definition on_watch_error (s : LocationService) (code : Z) : LocationService * list Effect :=
  (s, LogError "Location tracking error:" ::
      (if code =? 1 then [LogError "Location permission denied"]
       else if code =? 2 then [LogError "Location position unavailable"]
       else if code =? 3 then [LogError "Location request timeout"]
       else [])).

Definition stopTracking (s : LocationService) : LocationService * list Effect :=
  let '(s, eff) :=
    match watchId s with
    | Some id => (set_watch s None, [ClearWatch id])
    | None => (s, [])
    end in
  (set_callbacks (set_tracking_flag s false) false, eff).

Definition resetDistance (s : LocationService) : LocationService := set_total s 0.

Definition getCurrentSpeed (s : LocationService) : Q :=
  match currentLocation s with
  | None => 0
  | Some l => if Qeq_bool (loc_speed l) 0 then 0%Q else js_mul (loc_speed l) (lit 3.6)
  end.

Definition isWalking (s : LocationService) : bool :=
  let speed := getCurrentSpeed s in js_le 3 speed && js_le speed 8.

(** ** The service and the device together *)

(** The watches open on the device after a list of effects. *)
Definition apply_effect (open : list Z) (e : Effect) : list Z :=
  match e with
  | WatchPosition id _ => id :: open
  | ClearWatch id => filter (fun x => x <> id) open
  | _ => open
  end.

(** The world: the service, the watches open on the device, and the distance
    updates delivered so far. *)
Record World := mkWorld { w_service : LocationService; w_open : list Z; w_distances : list Q }.

Definition distance_of (e : Effect) : option Q :=
  match e with NotifyDistance d => Some (dd_incremental d) | _ => None end.

Definition deliver (w : World) (r : LocationService * list Effect) : World :=
  mkWorld (fst r) (fold_left apply_effect (snd r) (w_open w))
    (w_distances w ++ omap distance_of (snd r)).

(** What can happen.  The library calls a watch's callbacks only while that watch is
    open, and never reuses the identifier of an open watch. *)
Inductive loc_step : World -> World -> Prop :=
  | step_start w fresh : fresh ∉ w_open w ->
      loc_step w (deliver w (startTracking (w_service w) fresh))
  | step_initial w p : loc_step w (deliver w (initial_location_resolved (w_service w) p))
  | step_initial_failed w : loc_step w (deliver w (initial_location_rejected (w_service w)))
  | step_position w id p fresh : id ∈ w_open w -> fresh ∉ w_open w ->
      loc_step w (deliver w (on_watch_position (w_service w) p fresh))
  | step_error w id code : id ∈ w_open w ->
      loc_step w (deliver w (on_watch_error (w_service w) code))
  | step_stop w : loc_step w (deliver w (stopTracking (w_service w))).

Definition initial_world : World := mkWorld new_LocationService [] [].

(** ** Lemmas *)

Record world_ok (w : World) : Prop := {
  ok_open : w_open w = option_list (watchId (w_service w));
  ok_tracking : isTracking (w_service w) = bool_decide (watchId (w_service w) <> None);
  ok_callback : hasDistanceCallback (w_service w) = isTracking (w_service w);
  ok_total : totalDistance (w_service w) = fold_left js_add (w_distances w) 0%Q;
  ok_distances : Forall (fun d => 1 <= d < 1000)%Q (w_distances w)
}.

#[local] Arguments filter : simpl never.

Lemma filter_single (id : Z) : filter (fun x => x <> id) [id] = [].
Proof. rewrite filter_cons_False by (intros N; apply N; reflexivity). reflexivity. Qed.

Lemma switchAccuracyMode_ok s to fresh w d :
  world_ok (mkWorld s w d) -> isTracking s = true ->
  world_ok (deliver (mkWorld s w d) (switchAccuracyMode s to fresh))
  /\ isHighAccuracy (fst (switchAccuracyMode s to fresh)) = to
  /\ currentLocation (fst (switchAccuracyMode s to fresh)) = None.
Proof.
  intros [O T C S D] Tr. simpl in *.
  destruct s as [[id|] cl td hl hd tr ha n]; simpl in *; [|congruence]. subst.
  split; [|split; reflexivity]. unfold switchAccuracyMode, deliver; simpl.
  rewrite filter_single. constructor; simpl; rewrite ?app_nil_r; auto.
Qed.

Lemma set_accuracy_ok s b n w d :
  world_ok (mkWorld s w d) -> world_ok (mkWorld (set_accuracy s b n) w d).
Proof. intros []. destruct s. constructor; auto. Qed.

Lemma set_location_ok s l w d :
  world_ok (mkWorld s w d) -> world_ok (mkWorld (set_location s l) w d).
Proof. intros []. destruct s. constructor; auto. Qed.

Lemma deliver_nil s w d : deliver (mkWorld s w d) (s, []) = mkWorld s w d.
Proof. unfold deliver. simpl. rewrite app_nil_r. reflexivity. Qed.

Lemma set_accuracy_tracking s b n : isTracking (set_accuracy s b n) = isTracking s.
Proof. destruct s. reflexivity. Qed.

Lemma updateAccuracyMode_ok s v fresh w d :
  world_ok (mkWorld s w d) -> isTracking s = true ->
  world_ok (deliver (mkWorld s w d) (updateAccuracyMode s v fresh)).
Proof.
  intros W Tr. unfold updateAccuracyMode.
  destruct (js_lt v LOW_SPEED_THRESHOLD_MS); cbv zeta.
  - pose proof (set_accuracy_ok s (isHighAccuracy s) (consecutiveLowSpeedReadings s + 1) w d W) as W'.
    destruct (_ && _).
    + apply (switchAccuracyMode_ok _ false fresh) in W' as [W' _]; [exact W'|].
      rewrite set_accuracy_tracking. exact Tr.
    + unfold deliver. simpl. rewrite app_nil_r. exact W'.
  - pose proof (set_accuracy_ok s (isHighAccuracy s) 0 w d W) as W'.
    destruct (negb _).
    + apply (switchAccuracyMode_ok _ true fresh) in W' as [W' _]; [exact W'|].
      rewrite set_accuracy_tracking. exact Tr.
    + unfold deliver. simpl. rewrite app_nil_r. exact W'.
Qed.

Lemma adapt_accuracy_ok s v first fresh w d :
  world_ok (mkWorld s w d) -> isTracking s = true ->
  world_ok (deliver (mkWorld s w d) (adapt_accuracy s v first fresh)).
Proof.
  intros W Tr. unfold adapt_accuracy. destruct v as [v|]; [apply updateAccuracyMode_ok; assumption|].
  destruct (_ && _); [apply switchAccuracyMode_ok; assumption | rewrite deliver_nil; exact W].
Qed.

Lemma accumulate_ok s l w d :
  world_ok (mkWorld s w d) -> isTracking s = true ->
  world_ok (deliver (mkWorld s w d) (accumulate s l))
  /\ isTracking (fst (accumulate s l)) = true
  /\ fold_left apply_effect (snd (accumulate s l)) w = w.
Proof.
  intros W Tr. unfold accumulate.
  destruct (currentLocation s) as [cur|]; [|rewrite deliver_nil; auto].
  cbv zeta. set (distance := calculateDistance _ _ _ _).
  destruct (js_le 1 distance && js_lt distance 1000 && isHighAccuracy s) eqn:G;
    [|rewrite deliver_nil; auto].
  apply andb_prop in G as [G _]. apply andb_prop in G as [G1 G2]. js_reflect.
  destruct W as [O T C S D]. simpl in *.
  destruct s as [wi cl td hl hd tr ha n]; simpl in *. rewrite C, Tr.
  split; [|split; reflexivity]. unfold deliver; simpl.
  constructor; simpl; auto; try congruence.
  - rewrite S, fold_left_app. reflexivity.
  - apply Forall_app. split; [exact D | constructor; [split; assumption | constructor]].
Qed.

Lemma deliver_app w s1 e1 s2 e2 :
  deliver (deliver w (s1, e1)) (s2, e2) = deliver w (s2, e1 ++ e2).
Proof.
  unfold deliver; simpl. rewrite fold_left_app, omap_app, app_assoc. reflexivity.
Qed.

Lemma on_watch_position_ok s p fresh w d :
  world_ok (mkWorld s w d) -> isTracking s = true ->
  world_ok (deliver (mkWorld s w d) (on_watch_position s p fresh)).
Proof.
  intros W Tr. unfold on_watch_position. set (first := _ && _).
  destruct (accumulate_ok s (location_of p) w d W Tr) as (W1 & T1 & _).
  destruct (accumulate s (location_of p)) as [s1 e1]. cbn [fst] in T1.
  set (s2 := set_location s1 (Some (location_of p))).
  set (e2 := if hasLocationCallback s2 then _ else _).
  assert (W2 : world_ok (deliver (deliver (mkWorld s w d) (s1, e1)) (s2, e2))).
  { assert (E : deliver (deliver (mkWorld s w d) (s1, e1)) (s2, e2)
      = mkWorld s2 (w_open (deliver (mkWorld s w d) (s1, e1)))
          (w_distances (deliver (mkWorld s w d) (s1, e1)))).
    { unfold e2, deliver. destruct (hasLocationCallback s2); simpl; rewrite app_nil_r; reflexivity. }
    rewrite E. apply set_location_ok. exact W1. }
  assert (T2 : isTracking s2 = true) by (unfold s2; destruct s1; exact T1).
  destruct (deliver (deliver (mkWorld s w d) (s1, e1)) (s2, e2)) as [s' w' d'] eqn:E'.
  assert (s' = s2) as -> by (unfold deliver in E'; injection E'; auto).
  pose proof (adapt_accuracy_ok s2 (pos_speed p) first fresh _ _ W2 T2) as W3.
  rewrite <- E' in W3.
  destruct (adapt_accuracy s2 (pos_speed p) first fresh) as [s3 e3].
  rewrite !deliver_app in W3. exact W3.
Qed.

Lemma tracking_of_open w id : world_ok w -> id ∈ w_open w -> isTracking (w_service w) = true.
Proof.
  intros [O T _ _ _] Hin. rewrite O in Hin. rewrite T.
  destruct (watchId (w_service w)); [reflexivity|]. apply elem_of_nil in Hin. contradiction.
Qed.

Lemma loc_step_ok w w' : loc_step w w' -> world_ok w -> world_ok w'.
Proof.
  intros [w0 fresh F | w0 p | w0 | w0 id p fresh Hin F | w0 id code Hin | w0] W;
    destruct w0 as [s op d].
  - unfold startTracking. cbn [w_service]. destruct (isTracking s) eqn:Tr.
    + unfold deliver; simpl. rewrite app_nil_r. exact W.
    + destruct W as [O T C S D]. simpl in *. rewrite Tr in T.
      destruct s as [[i|] cl td hl hd tr ha n]; simpl in *; [discriminate|]. subst.
      unfold deliver; simpl. rewrite app_nil_r. constructor; simpl; auto.
  - unfold initial_location_resolved. simpl.
    pose proof (set_location_ok s (Some (location_of p)) op d W) as W'.
    unfold deliver. destruct (hasLocationCallback _); simpl; rewrite app_nil_r; exact W'.
  - unfold deliver; simpl. rewrite app_nil_r. exact W.
  - apply on_watch_position_ok; [exact W | apply (tracking_of_open _ id W Hin)].
  - unfold on_watch_error, deliver; simpl.
    destruct (code =? 1), (code =? 2), (code =? 3); simpl; rewrite app_nil_r; exact W.
  - destruct W as [O T C S D]. simpl in *. unfold stopTracking.
    destruct s as [[i|] cl td hl hd tr ha n]; simpl in *; subst; unfold deliver; simpl;
      rewrite ?filter_single; constructor; simpl; rewrite ?app_nil_r; auto.
Qed.

Lemma initial_world_ok : world_ok initial_world.
Proof. constructor; simpl; auto. Qed.

(** ** Properties *)

(** C26: no watch is leaked and no distance is lost or invented.  In every state
    reachable by any interleaving of starts, stops, fixes, errors and position
    updates, the device has exactly the service's one watch open while tracking and
    none otherwise; and the total distance is exactly the sum of the distance
    updates delivered, each of at least 1 and less than 1000 metres. *)
Theorem tracking_invariant (w : World) :
  rtc loc_step initial_world w ->
  w_open w = option_list (watchId (w_service w))
  /\ (isTracking (w_service w) = true <-> watchId (w_service w) <> None)
  /\ totalDistance (w_service w) = fold_left js_add (w_distances w) 0%Q
  /\ Forall (fun d => 1 <= d < 1000)%Q (w_distances w).
Proof.
  intros R. assert (W : world_ok w).
  { revert R. generalize initial_world_ok. generalize initial_world. intros w0 W0 R.
    induction R as [|w1 w2 w3 St _ IH]; [exact W0|]. apply IH, (loc_step_ok _ _ St W0). }
  destruct W as [O T _ S D]. rewrite T, bool_decide_eq_true. auto.
Qed.

(** Two readings processed one after the other. *)
Definition two_readings (s : LocationService) (p p' : GeolocationPosition) (f f' : Z)
    : LocationService * list Effect :=
  on_watch_position (fst (on_watch_position s p f)) p' f'.

Lemma accumulate_gate s l :
  currentLocation s = None \/ isHighAccuracy s = false -> accumulate s l = (s, []).
Proof.
  unfold accumulate. intros [-> | E]; [reflexivity|].
  destruct (currentLocation s); [|reflexivity]. cbv zeta. rewrite E, andb_false_r. reflexivity.
Qed.

Lemma adapt_total s v first f :
  totalDistance (fst (adapt_accuracy s v first f)) = totalDistance s
  /\ omap distance_of (snd (adapt_accuracy s v first f)) = []
  /\ (isHighAccuracy (fst (adapt_accuracy s v first f)) <> isHighAccuracy s ->
      currentLocation (fst (adapt_accuracy s v first f)) = None).
Proof.
  unfold adapt_accuracy, updateAccuracyMode, switchAccuracyMode. destruct s as [wi cl td hl hd tr ha n].
  destruct v as [v|]; [destruct (js_lt v _)|]; simpl;
    destruct ha; simpl; try destruct (_ <=? _); try destruct first; destruct wi; simpl; auto;
    repeat split; congruence.
Qed.

Lemma position_no_credit s p f :
  currentLocation s = None \/ isHighAccuracy s = false ->
  totalDistance (fst (on_watch_position s p f)) = totalDistance s
  /\ omap distance_of (snd (on_watch_position s p f)) = [].
Proof.
  intros G. unfold on_watch_position. rewrite accumulate_gate by exact G.
  set (first := _ && _). set (s2 := set_location s _).
  destruct (adapt_total s2 (pos_speed p) first f) as (A1 & A2 & _).
  destruct (adapt_accuracy s2 (pos_speed p) first f) as [s3 e3]. simpl in *. split.
  - rewrite A1. unfold s2. destruct s; reflexivity.
  - rewrite omap_app, A2. destruct (hasLocationCallback s2); reflexivity.
Qed.

Lemma accumulate_mode s l : isHighAccuracy (fst (accumulate s l)) = isHighAccuracy s.
Proof.
  unfold accumulate. destruct (currentLocation s); [|reflexivity]. cbv zeta.
  destruct (_ && _); [destruct s|]; reflexivity.
Qed.

Lemma position_switch s p f :
  isHighAccuracy (fst (on_watch_position s p f)) <> isHighAccuracy s ->
  currentLocation (fst (on_watch_position s p f)) = None.
Proof.
  unfold on_watch_position. set (first := _ && _).
  pose proof (accumulate_mode s (location_of p)) as A.
  destruct (accumulate s (location_of p)) as [s1 e1]. simpl in A.
  set (s2 := set_location s1 _).
  destruct (adapt_total s2 (pos_speed p) first f) as (_ & _ & A3).
  assert (A2 : isHighAccuracy s2 = isHighAccuracy s) by (rewrite <- A; destruct s1; reflexivity).
  destruct (adapt_accuracy s2 (pos_speed p) first f) as [s3 e3]. simpl in *.
  rewrite A2 in A3. exact A3.
Qed.

(** C38: no phantom distance.  A reading taken in low-accuracy mode, or with no anchor,
    never adds distance; and when a reading switches the accuracy mode, in either
    direction, the next reading adds none either, so the jump between network and
    satellite positions is never counted. *)
Theorem no_phantom_distance (s : LocationService) (p p' : GeolocationPosition) (f f' : Z) :
  (isHighAccuracy s = false \/ currentLocation s = None ->
   totalDistance (fst (on_watch_position s p f)) = totalDistance s)
  /\ (isHighAccuracy (fst (on_watch_position s p f)) <> isHighAccuracy s ->
      totalDistance (fst (two_readings s p p' f f'))
      = totalDistance (fst (on_watch_position s p f))
      /\ omap distance_of (snd (two_readings s p p' f f')) = []).
Proof.
  split.
  - intros G. apply position_no_credit. tauto.
  - intros Sw. unfold two_readings. apply position_no_credit. left. apply position_switch, Sw.
Qed.

(** The accuracy mode a reading leads to. *)
Definition next_mode (s : LocationService) (p : GeolocationPosition) : bool :=
  match pos_speed p with
  | Some v =>
      if js_lt v LOW_SPEED_THRESHOLD_MS
      then isHighAccuracy s && (consecutiveLowSpeedReadings s + 1 <? LOW_SPEED_READINGS_TO_DOWNGRADE)
      else true
  | None =>
      isHighAccuracy s || bool_decide (currentLocation s <> None)
  end.

Lemma adapt_mode s v first f :
  isHighAccuracy (fst (adapt_accuracy s v first f))
  = match v with
    | Some v =>
        if js_lt v LOW_SPEED_THRESHOLD_MS
        then isHighAccuracy s
             && (consecutiveLowSpeedReadings s + 1 <? LOW_SPEED_READINGS_TO_DOWNGRADE)
        else true
    | None => isHighAccuracy s || negb first
    end.
Proof.
  unfold adapt_accuracy, updateAccuracyMode, switchAccuracyMode.
  destruct s as [wi cl td hl hd tr ha n]. destruct v as [v|].
  - destruct (js_lt v _); [|destruct ha, wi; reflexivity]. simpl.
    rewrite Z.leb_antisym. destruct ha, (_ <? _), wi; reflexivity.
  - destruct ha, first, wi; reflexivity.
Qed.

Lemma accumulate_counter s l :
  consecutiveLowSpeedReadings (fst (accumulate s l)) = consecutiveLowSpeedReadings s.
Proof.
  unfold accumulate. destruct (currentLocation s); [|reflexivity]. cbv zeta.
  destruct (_ && _); [destruct s|]; reflexivity.
Qed.

(** The accuracy mode follows the walker.  A reading at or above walking pace
    always leads to high accuracy; a slow reading keeps high accuracy until it is the
    third in a row and never restores it; a reading without speed restores high
    accuracy unless it is the cached first one after a downgrade. *)
Theorem accuracy_transition (s : LocationService) (p : GeolocationPosition) (f : Z) :
  isHighAccuracy (fst (on_watch_position s p f)) = next_mode s p.
Proof.
  unfold on_watch_position, next_mode. set (first := _ && _).
  pose proof (accumulate_mode s (location_of p)) as A.
  pose proof (accumulate_counter s (location_of p)) as B.
  destruct (accumulate s (location_of p)) as [s1 e1]. simpl in A, B.
  set (s2 := set_location s1 _).
  pose proof (adapt_mode s2 (pos_speed p) first f) as M.
  destruct (adapt_accuracy s2 (pos_speed p) first f) as [s3 e3].
  cbn [fst] in M |- *. rewrite M.
  assert (isHighAccuracy s2 = isHighAccuracy s) as -> by (rewrite <- A; destruct s1; reflexivity).
  assert (consecutiveLowSpeedReadings s2 = consecutiveLowSpeedReadings s) as ->
    by (rewrite <- B; destruct s1; reflexivity).
  destruct (pos_speed p) as [v|]; [reflexivity|]. unfold first.
  destruct (isHighAccuracy s), (currentLocation s); reflexivity.
Qed.

End Service.

(** ** Concrete inputs *)

(** A flat-earth stand-in for the trigonometric functions. *)
Definition flat_trig : Trig :=
  {| math_sin := fun x => x; math_cos := fun _ => 1%Q; math_asin := fun x => x;
     math_atan2 := fun y _ => y; math_sqrt := fun x => x |}.

Definition reading (lat : Q) (speed : option Q) : GeolocationPosition :=
  mkPosition lat 7 10 None None speed 0.

Lemma tracking_invariant_witness :
  let w1 := deliver initial_world (@startTracking new_LocationService 1) in
  let w2 := deliver w1 (@on_watch_position flat_trig (w_service w1) (reading 45 (Some 1%Q)) 2) in
  let w3 := deliver w2 (@on_watch_position flat_trig (w_service w2) (reading 46 (Some 1%Q)) 2) in
  w_open w3 = option_list (watchId (w_service w3))
  /\ (isTracking (w_service w3) = true <-> watchId (w_service w3) <> None)
  /\ totalDistance (w_service w3) = fold_left js_add (w_distances w3) 0%Q
  /\ Forall (fun d => 1 <= d < 1000)%Q (w_distances w3).
Proof.
  intros w1 w2 w3. apply (@tracking_invariant flat_trig).
  assert (O1 : w_open w1 = [1]) by (vm_compute; reflexivity).
  assert (O2 : w_open w2 = [1]) by (vm_compute; reflexivity).
  apply rtc_l with w1; [apply (@step_start flat_trig initial_world 1), not_elem_of_nil|].
  apply rtc_l with w2; [|apply rtc_once].
  - apply (@step_position flat_trig w1 1); rewrite O1, list_elem_of_singleton; congruence.
  - apply (@step_position flat_trig w2 1); rewrite O2, list_elem_of_singleton; congruence.
Defined.

Lemma no_phantom_distance_witness :
  let s := mkLocationService (Some 1) (Some (location_of (reading 45 None))) 500 true true true
             false 0 in
  let p := reading 46 (Some 2%Q) in let p' := reading 47 (Some 2%Q) in
  (isHighAccuracy s = false \/ currentLocation s = None ->
   totalDistance (fst (@on_watch_position flat_trig s p 2)) = totalDistance s)
  /\ (isHighAccuracy (fst (@on_watch_position flat_trig s p 2)) <> isHighAccuracy s ->
      totalDistance (fst (@two_readings flat_trig s p p' 2 3))
      = totalDistance (fst (@on_watch_position flat_trig s p 2))
      /\ omap distance_of (snd (@two_readings flat_trig s p p' 2 3)) = []).
Proof. intros s p p'. apply (@no_phantom_distance flat_trig s p p' 2 3). Defined.

(** Stopping keeps the last position as the anchor: when tracking restarts and a
    watch reading arrives before the initial fix, the ground covered while tracking
    was off is credited. *)
Theorem restart_keeps_anchor :
  let s1 := fst (startTracking new_LocationService 1) in
  let s2 := fst (@on_watch_position flat_trig s1 (reading 45 (Some 1%Q)) 2) in
  let s3 := fst (startTracking (fst (stopTracking s2)) 3) in
  let s4 := fst (@on_watch_position flat_trig s3 (reading 46 (Some 1%Q)) 4) in
  totalDistance s3 = 0%Q /\ (900 < totalDistance s4)%Q.
Proof. vm_compute. auto. Qed.
