(* ===== verification/Json.v ===== *)
(** * JSON

    The values [JSON.stringify] writes and [JSON.parse] reads, and the encodings of
    the objects the program persists.  A property whose value is [undefined] is left
    out, as [JSON.stringify] does; [null] is written.  Stored text is either a value
    that some [JSON.stringify] or [String] call wrote, or text that does not parse.

    The decoders give a typed view of a parsed value; the program itself only casts
    ([as PlayerData]) after its validators have run. *)
From stdpp Require Import base decidable strings list.
From Stdlib Require Import ZArith QArith Lia.
From S2P Require Import Prelude JsNumber Archetype Creature Config Item Player Encounter.
Local Open Scope Z_scope.

#[warnings="-register-all"]
Inductive json :=
  | JNull
  | JBool (b : bool)
  | JNum (q : Q)
  | JStr (s : string)
  | JArr (l : list json)
  | JObj (o : list (string * json)).

(** [d.key]; [None] is [undefined] (also for a value that is not an object). *)
Definition jget (j : json) (key : string) : option json :=
  match j with JObj o => assoc key o | _ => None end.

Definition is_string (o : option json) : bool :=
  match o with Some (JStr _) => true | _ => false end.
Definition is_number (o : option json) : bool :=
  match o with Some (JNum _) => true | _ => false end.
Definition is_boolean (o : option json) : bool :=
  match o with Some (JBool _) => true | _ => false end.
(** [typeof v === 'object' && v !== null]: objects and arrays. *)
Definition is_object (o : option json) : bool :=
  match o with Some (JObj _) | Some (JArr _) => true | _ => false end.
Definition is_null (o : option json) : bool :=
  match o with Some JNull => true | _ => false end.

(** ** Encoders *)

Definition jint (z : Z) : json := JNum (num z).

(** A property that may be [undefined]. *)
Definition field {A} (key : string) (enc : A -> json) (o : option A) : list (string * json) :=
  match o with Some a => [(key, enc a)] | None => [] end.

(** A value that may be [null]. *)
Definition nullable {A} (enc : A -> json) (o : option A) : json := from_option enc JNull o.

Definition enc_rarity (r : Rarity) : json :=
  JStr (match r with
        | common => "common" | uncommon => "uncommon" | rare => "rare" | epic => "epic"
        | legendary => "legendary"
        end).

Definition enc_affix_stat (s : AffixStat) : json :=
  JStr (match s with s_attack => "attack" | s_defense => "defense" | s_maxHp => "maxHp" end).

Definition enc_affix (a : Affix) : json :=
  JObj [("stat", enc_affix_stat (af_stat a)); ("value", jint (af_value a))].

Definition item_type_name (t : ItemType) : string :=
  match t with
  | weapon => "weapon" | offhand => "offhand" | head => "head" | chest => "chest"
  | legs => "legs" | boots => "boots" | gloves => "gloves" | accessory => "accessory"
  end.

(** [type] and, for every type but accessories, [slot]. *)
Definition enc_type_slot (t : ItemType) : list (string * json) :=
  ("type", JStr (item_type_name t)) ::
  match t with accessory => [] | _ => [("slot", JStr (item_type_name t))] end.

Definition enc_item (it : Item) : json :=
  JObj ([("id", JStr (it_id it)); ("name", JStr (it_name it));
         ("description", JStr (it_description it)); ("rarity", enc_rarity (it_rarity it));
         ("level", jint (it_level it)); ("dropChance", JNum (it_dropChance it))]
        ++ field "affixes" (fun l => JArr (enc_affix <$> l)) (it_affixes it)
        ++ field "attack" jint (it_attack it)
        ++ field "defense" jint (it_defense it)
        ++ field "maxHp" jint (it_maxHp it)
        ++ enc_type_slot (it_type it)).

Definition enc_equipment (e : Equipment) : json :=
  JObj [("weapon", nullable enc_item (eq_weapon e));
        ("offhand", nullable enc_item (eq_offhand e));
        ("head", nullable enc_item (eq_head e));
        ("chest", nullable enc_item (eq_chest e));
        ("legs", nullable enc_item (eq_legs e));
        ("boots", nullable enc_item (eq_boots e));
        ("gloves", nullable enc_item (eq_gloves e));
        ("accessory1", nullable enc_item (eq_accessory1 e));
        ("accessory2", nullable enc_item (eq_accessory2 e))].

(** The values of the [Archetype] enum. *)
Definition enc_archetype (a : Archetype) : json :=
  JStr (match a with Martial => "martial" | Agile => "agile" | Mage => "mage" end).

Definition enc_player (d : PlayerData) : json :=
  JObj ([("id", JStr (d_id d)); ("name", JStr (d_name d)); ("level", jint (d_level d));
         ("experience", jint (d_experience d)); ("attack", jint (d_attack d));
         ("defense", jint (d_defense d))]
        ++ field "hp" jint (d_hp d)
        ++ field "maxHp" jint (d_maxHp d)
        ++ [("totalDistance", JNum (d_totalDistance d));
            ("totalEncounters", jint (d_totalEncounters d));
            ("creaturesDefeated", jint (d_creaturesDefeated d))]
        ++ field "combatTurnsTaken" jint (d_combatTurnsTaken d)
        ++ [("equipment", enc_equipment (d_equipment d))]
        ++ field "inventory" (fun l => JArr (nullable enc_item <$> l)) (d_inventory d)
        ++ field "archetype" enc_archetype (d_archetype d)
        ++ field "str" jint (d_str d)
        ++ field "agi" jint (d_agi d)
        ++ field "int" jint (d_int d)).

(** ** Decoders *)

Definition dec_int (j : json) : option Z :=
  match j with JNum (n # 1) => Some n | _ => None end.
Definition dec_num (j : json) : option Q := match j with JNum q => Some q | _ => None end.
Definition dec_str (j : json) : option string := match j with JStr s => Some s | _ => None end.
Definition dec_bool (j : json) : option bool := match j with JBool b => Some b | _ => None end.

Definition dec_list {A} (dec : json -> option A) (j : json) : option (list A) :=
  match j with JArr l => mapM dec l | _ => None end.

(** A property that may be missing: absent is [Some None]. *)
Definition optional {A} (dec : json -> option A) (o : option json) : option (option A) :=
  match o with None => Some None | Some j => Some <$> dec j end.

Definition dec_nullable {A} (dec : json -> option A) (j : json) : option (option A) :=
  match j with JNull => Some None | _ => Some <$> dec j end.

Definition dec_rarity (j : json) : option Rarity :=
  match j with
  | JStr "common" => Some common
  | JStr "uncommon" => Some uncommon
  | JStr "rare" => Some rare
  | JStr "epic" => Some epic
  | JStr "legendary" => Some legendary
  | _ => None
  end.

Definition dec_affix_stat (j : json) : option AffixStat :=
  match j with
  | JStr "attack" => Some s_attack
  | JStr "defense" => Some s_defense
  | JStr "maxHp" => Some s_maxHp
  | _ => None
  end.

Definition dec_affix (j : json) : option Affix :=
  st ← jget j "stat" ≫= dec_affix_stat;
  v ← jget j "value" ≫= dec_int;
  Some (mkAffix st v).

Definition dec_item_type (j : json) : option ItemType :=
  match j with
  | JStr "weapon" => Some weapon
  | JStr "offhand" => Some offhand
  | JStr "head" => Some head
  | JStr "chest" => Some chest
  | JStr "legs" => Some legs
  | JStr "boots" => Some boots
  | JStr "gloves" => Some gloves
  | JStr "accessory" => Some accessory
  | _ => None
  end.

Definition dec_item (j : json) : option Item :=
  id ← jget j "id" ≫= dec_str;
  name ← jget j "name" ≫= dec_str;
  description ← jget j "description" ≫= dec_str;
  rarity ← jget j "rarity" ≫= dec_rarity;
  level ← jget j "level" ≫= dec_int;
  attack ← optional dec_int (jget j "attack");
  defense ← optional dec_int (jget j "defense");
  maxHp ← optional dec_int (jget j "maxHp");
  dropChance ← jget j "dropChance" ≫= dec_num;
  affixes ← optional (dec_list dec_affix) (jget j "affixes");
  type ← jget j "type" ≫= dec_item_type;
  Some (mkItem id name description rarity level attack defense maxHp dropChance affixes type).

Definition dec_equipment (j : json) : option Equipment :=
  w ← jget j "weapon" ≫= dec_nullable dec_item;
  o ← jget j "offhand" ≫= dec_nullable dec_item;
  h ← jget j "head" ≫= dec_nullable dec_item;
  c ← jget j "chest" ≫= dec_nullable dec_item;
  l ← jget j "legs" ≫= dec_nullable dec_item;
  b ← jget j "boots" ≫= dec_nullable dec_item;
  g ← jget j "gloves" ≫= dec_nullable dec_item;
  a1 ← jget j "accessory1" ≫= dec_nullable dec_item;
  a2 ← jget j "accessory2" ≫= dec_nullable dec_item;
  Some (mkEquipment w o h c l b g a1 a2).

Definition dec_archetype (j : json) : option Archetype :=
  match j with
  | JStr "martial" => Some Martial
  | JStr "agile" => Some Agile
  | JStr "mage" => Some Mage
  | _ => None
  end.

(** The typed record behind a parsed value.  The program has no decoder: it validates the
    parsed object and casts it, and the fields it then reads are these.  [dec_player] is the
    model's inverse of [enc_player] ([dec_player_round]). *)
Definition dec_player (j : json) : option PlayerData :=
  id ← jget j "id" ≫= dec_str;
  name ← jget j "name" ≫= dec_str;
  level ← jget j "level" ≫= dec_int;
  experience ← jget j "experience" ≫= dec_int;
  attack ← jget j "attack" ≫= dec_int;
  defense ← jget j "defense" ≫= dec_int;
  hp ← optional dec_int (jget j "hp");
  maxHp ← optional dec_int (jget j "maxHp");
  totalDistance ← jget j "totalDistance" ≫= dec_num;
  totalEncounters ← jget j "totalEncounters" ≫= dec_int;
  creaturesDefeated ← jget j "creaturesDefeated" ≫= dec_int;
  combatTurnsTaken ← optional dec_int (jget j "combatTurnsTaken");
  equipment ← jget j "equipment" ≫= dec_equipment;
  inventory ← optional (dec_list (dec_nullable dec_item)) (jget j "inventory");
  archetype ← optional dec_archetype (jget j "archetype");
  str ← optional dec_int (jget j "str");
  agi ← optional dec_int (jget j "agi");
  int ← optional dec_int (jget j "int");
  Some (mkPlayerData id name level experience attack defense hp maxHp totalDistance
    totalEncounters creaturesDefeated combatTurnsTaken equipment inventory archetype str agi int).

(** ** Round trips *)

Lemma assoc_eq {A} key (v : A) o : assoc key ((key, v) :: o) = Some v.
Proof. simpl. rewrite decide_True by reflexivity. reflexivity. Qed.

Lemma assoc_ne {A} k key (v : A) o : k <> key -> assoc key ((k, v) :: o) = assoc key o.
Proof. intros H. simpl. rewrite decide_False by exact H. reflexivity. Qed.

Lemma assoc_field_eq {A} key (enc : A -> json) o rest :
  assoc key rest = None -> assoc key (field key enc o ++ rest) = enc <$> o.
Proof. intros H. destruct o; simpl; [rewrite decide_True by reflexivity; reflexivity | exact H]. Qed.

Lemma assoc_field_ne {A} k key (enc : A -> json) o rest :
  k <> key -> assoc key (field k enc o ++ rest) = assoc key rest.
Proof. intros H. destruct o; simpl; [rewrite decide_False by exact H|]; reflexivity. Qed.

Lemma assoc_field_last {A} key (enc : A -> json) o : assoc key (field key enc o) = enc <$> o.
Proof. destruct o; simpl; [rewrite decide_True by reflexivity|]; reflexivity. Qed.

Lemma assoc_field_last_ne {A} k key (enc : A -> json) o :
  k <> key -> assoc key (field k enc o) = None.
Proof. intros H. destruct o; simpl; [rewrite decide_False by exact H|]; reflexivity. Qed.

Lemma assoc_type_slot t : assoc "type" (enc_type_slot t) = Some (JStr (item_type_name t)).
Proof. destruct t; reflexivity. Qed.

Lemma assoc_type_slot_ne t key :
  key <> "type" -> key <> "slot" -> assoc key (enc_type_slot t) = None.
Proof.
  intros H1 H2. unfold enc_type_slot. rewrite assoc_ne by congruence.
  destruct t; [rewrite assoc_ne by congruence; reflexivity ..| reflexivity].
Qed.

(** Evaluate a property access on an encoded object. *)
Ltac jlookup :=
  cbn [jget app];
  repeat first
    [ rewrite assoc_eq
    | rewrite assoc_ne by discriminate
    | rewrite assoc_field_ne by discriminate
    | rewrite assoc_field_last
    | rewrite assoc_field_last_ne by discriminate
    | rewrite assoc_type_slot
    | rewrite assoc_type_slot_ne by discriminate
    | rewrite assoc_field_eq by jlookup ];
  reflexivity.

(** Replace the first property access of the goal by its value. *)
Ltac jstep :=
  match goal with |- context [jget (JObj ?o) ?k] =>
    let H := fresh in
    eassert (H : jget (JObj o) k = _) by jlookup; rewrite H; clear H
  end.

Lemma optional_round {A} (enc : A -> json) dec (o : option A) :
  (forall a, dec (enc a) = Some a) -> optional dec (enc <$> o) = Some o.
Proof. intros H. destruct o; simpl; [rewrite H|]; reflexivity. Qed.

Lemma dec_int_round z : dec_int (jint z) = Some z.
Proof. reflexivity. Qed.

Lemma mapM_round {A} (enc : A -> json) dec (l : list A) :
  (forall a, dec (enc a) = Some a) -> mapM dec (enc <$> l) = Some l.
Proof.
  intros H. apply mapM_Some_2, Forall2_fmap_l, Forall_Forall2_diag, Forall_true, H.
Qed.

Lemma dec_affix_round a : dec_affix (enc_affix a) = Some a.
Proof. destruct a as [[] v]; reflexivity. Qed.

Lemma dec_rarity_round r : dec_rarity (enc_rarity r) = Some r.
Proof. destruct r; reflexivity. Qed.

Lemma dec_archetype_round a : dec_archetype (enc_archetype a) = Some a.
Proof. destruct a; reflexivity. Qed.

Lemma dec_item_type_round t : dec_item_type (JStr (item_type_name t)) = Some t.
Proof. destruct t; reflexivity. Qed.

Lemma dec_item_round it : dec_item (enc_item it) = Some it.
Proof.
  unfold dec_item, enc_item. repeat jstep. cbn [mbind option_bind dec_str dec_num].
  rewrite dec_rarity_round, dec_int_round. cbn [mbind option_bind].
  rewrite !optional_round by (intros; apply dec_int_round || apply mapM_round, dec_affix_round).
  cbn [mbind option_bind]. rewrite dec_item_type_round. destruct it; reflexivity.
Qed.

Lemma dec_nullable_item o : dec_nullable dec_item (nullable enc_item o) = Some o.
Proof.
  destruct o as [it|]; [|reflexivity].
  change (Some <$> dec_item (enc_item it) = Some (Some it)).
  rewrite dec_item_round. reflexivity.
Qed.

Lemma dec_equipment_round e : dec_equipment (enc_equipment e) = Some e.
Proof.
  unfold dec_equipment, enc_equipment. repeat jstep. cbn [mbind option_bind].
  repeat (rewrite dec_nullable_item; cbn [mbind option_bind]). destruct e; reflexivity.
Qed.

Lemma dec_player_round d : dec_player (enc_player d) = Some d.
Proof.
  unfold dec_player, enc_player. repeat jstep. cbn [mbind option_bind dec_str dec_num].
  repeat (rewrite dec_int_round; cbn [mbind option_bind]).
  repeat (rewrite dec_equipment_round; cbn [mbind option_bind]).
  rewrite !optional_round by (intros; first
    [ apply dec_int_round | apply dec_archetype_round | apply mapM_round, dec_nullable_item ]).
  cbn [mbind option_bind]. destruct d; reflexivity.
Qed.
