(* ===== verification/CloudSync.v ===== *)
(** * Cloud synchronisation

    [src/services/CloudSyncService.ts].  Firestore and Firebase Auth are outside the
    program.  A write is issued as an effect and settles later, so the service is a
    state machine whose steps are the calls of the program and the settling of
    promises; the outcome of a read is an argument. *)
From stdpp Require Import base decidable strings list relations.
From Stdlib Require Import ZArith QArith Lia.
From S2P Require Import Prelude Player Json.
Local Open Scope Z_scope.

(** A cloud document as read: [playerData] is whatever JSON the cloud holds. *)
Record CloudPlayerRecord := mkCloudRecord { cr_playerData : json; cr_lastSavedAt : Z }.

Inductive CloudLoad := found (record : CloudPlayerRecord) | empty | unavailable.

Record CloudSyncStatus := mkCloudSyncStatus {
  st_lastSuccessfulSyncAt : option Z; st_pendingWrites : Z; st_writesSuspended : bool
}.

(** A [setDoc] in flight: its number, the document it writes and its timestamp. *)
Record Write := mkWrite { wr_id : nat; wr_uid : string; wr_data : PlayerData; wr_timestamp : Z }.

(** The fields of the service.  [pendingWrite] is the promise chain: the writes it
    still waits for. *)
Record CloudSyncService := mkCloudSync {
  lastSyncTimestamp : Z;
  writesSuspended : bool;
  pendingWrite : list nat;
  lastSuccessfulSyncAt : option Z;
  pendingWriteCount : Z
}.

Definition new_CloudSyncService : CloudSyncService := mkCloudSync 0 false [] None 0.

Definition suspendWrites (s : CloudSyncService) : CloudSyncService :=
  mkCloudSync (lastSyncTimestamp s) true (pendingWrite s) (lastSuccessfulSyncAt s)
    (pendingWriteCount s).

Definition resumeWrites (s : CloudSyncService) : CloudSyncService :=
  mkCloudSync (lastSyncTimestamp s) false (pendingWrite s) (lastSuccessfulSyncAt s)
    (pendingWriteCount s).

(** [user] is [getAuth().currentUser]; [id] numbers the [setDoc] this call issues. *)
Definition savePlayerData (s : CloudSyncService) (user : option string) (id : nat)
    (playerData : PlayerData) (lastSavedAt : Z) : CloudSyncService * option Write :=
  if writesSuspended s then (s, None)
  else
    match user with
    | None => (s, None)
    | Some uid =>
        let syncTimestamp := Z.max lastSavedAt (lastSyncTimestamp s + 1) in
        (mkCloudSync syncTimestamp (writesSuspended s) (pendingWrite s ++ [id])
           (lastSuccessfulSyncAt s) (pendingWriteCount s + 1),
         Some (mkWrite id uid playerData syncTimestamp))
    end.

(** The write [id] settles: [ok] tells whether it resolved, at time [now].  The
    [then], [catch] and [finally] handlers run, and the chain stops waiting for it. *)
Definition write_settled (s : CloudSyncService) (id : nat) (ok : bool) (now : Z)
    : CloudSyncService :=
  mkCloudSync (lastSyncTimestamp s) (writesSuspended s)
    (filter (fun n => n <> id) (pendingWrite s))
    (if ok then Some now else lastSuccessfulSyncAt s)
    (Z.max 0 (pendingWriteCount s - 1)).

(** [drainPendingWrites] takes the chain as it is at the call: the writes it will wait for. *)
Definition drainPendingWrites (s : CloudSyncService) : list nat := pendingWrite s.

(** The race of a drain that took the chain [captured]: it is over as soon as all of those
    writes have settled, or its timer fires. *)
Definition drain_over (captured : list nat) (s : CloudSyncService) (timerFired : bool) : bool :=
  forallb (fun id => bool_decide (id ∉ pendingWrite s)) captured || timerFired.

(** What happens first in a race with a timer. *)
Inductive DeleteEvent := DeleteResolved | DeleteRejected | DeleteTimeout.

#[export] Instance DeleteEvent_eq_dec : EqDecision DeleteEvent.
Proof. solve_decision. Defined.

(** [deletePlayerData] asks for the deletion of the user's document and completes or
    throws; [None] is the no-user case, which does nothing. *)
Definition deletePlayerData (user : option string) (event : DeleteEvent)
    : option (string * bool) :=
  match user with
  | None => None
  | Some uid =>
      Some (uid, match event with DeleteResolved => true | _ => false end)
  end.

Definition getSyncStatus (s : CloudSyncService) : CloudSyncStatus :=
  mkCloudSyncStatus (lastSuccessfulSyncAt s) (pendingWriteCount s) (writesSuspended s).

(** The Firestore read: the document's fields if it exists. *)
Record Snapshot := mkSnapshot { sn_playerData : option json; sn_lastSavedAt : Z }.

Inductive FetchEvent :=
  | FetchResolved (exists_ : bool) (data : option Snapshot)
  | FetchRejected
  | FetchTimeout.

(** JavaScript truthiness of [data?.playerData]. *)
Definition truthy (j : json) : bool :=
  match j with
  | JNull => false
  | JBool b => b
  | JNum q => negb (Qeq_bool q 0)
  | JStr s => bool_decide (s <> "")
  | JArr _ | JObj _ => true
  end.

(** [event] is the first of the read's outcome and the ten-second timer. *)
Definition loadPlayerData (user : option string) (event : FetchEvent) : CloudLoad :=
  match user with
  | None => unavailable
  | Some _ =>
      match event with
      | FetchResolved exists_ data =>
          if negb exists_ then empty
          else
            match data with
            | Some sn =>
                match sn_playerData sn with
                | Some pd =>
                    if truthy pd then found (mkCloudRecord pd (sn_lastSavedAt sn)) else empty
                | None => empty
                end
            | None => empty
            end
      | FetchRejected => unavailable
      | FetchTimeout => unavailable
      end
  end.

(** ** The service over time *)

(** The service, the writes in flight and the writes ever issued, oldest first. *)
Record Sync := mkSync {
  sy_service : CloudSyncService; sy_inflight : list nat; sy_issued : list Write
}.

Inductive sync_step : Sync -> Sync -> Prop :=
  | sync_save y user data at_ :
      sync_step y
        (let (s, w) := savePlayerData (sy_service y) user (length (sy_issued y)) data at_ in
         mkSync s (sy_inflight y ++ option_list (wr_id <$> w)) (sy_issued y ++ option_list w))
  | sync_settle y id ok now : id ∈ sy_inflight y ->
      sync_step y
        (mkSync (write_settled (sy_service y) id ok now)
           (filter (fun n => n <> id) (sy_inflight y)) (sy_issued y))
  | sync_suspend y :
      sync_step y (mkSync (suspendWrites (sy_service y)) (sy_inflight y) (sy_issued y))
  | sync_resume y :
      sync_step y (mkSync (resumeWrites (sy_service y)) (sy_inflight y) (sy_issued y)).

Definition initial_sync : Sync := mkSync new_CloudSyncService [] [].

(** ** Lemmas *)

Fixpoint increasing (l : list Z) : Prop :=
  match l with
  | a :: ((b :: _) as l') => a < b /\ increasing l'
  | _ => True
  end.

Lemma increasing_snoc l x : increasing l -> (forall y, last l = Some y -> y < x) ->
  increasing (l ++ [x]).
Proof.
  induction l as [|a [|b l] IH]; intros H L; [exact I | split; [apply L; reflexivity | exact I]|].
  destruct H as [H1 H2]. split; [exact H1|]. apply IH; [exact H2|]. intros y Hy. apply L. exact Hy.
Qed.

Record sync_ok (y : Sync) : Prop := {
  sk_pending : pendingWrite (sy_service y) = sy_inflight y;
  sk_count : pendingWriteCount (sy_service y) = Z.of_nat (length (sy_inflight y));
  sk_nodup : NoDup (sy_inflight y);
  sk_bound : Forall (fun n => (n < length (sy_issued y))%nat) (sy_inflight y);
  sk_increasing : increasing (wr_timestamp <$> sy_issued y);
  sk_last : forall w, last (sy_issued y) = Some w ->
    wr_timestamp w = lastSyncTimestamp (sy_service y)
}.

Lemma sync_step_ok y y' : sync_step y y' -> sync_ok y -> sync_ok y'.
Proof.
  intros St [P C N B I L]. destruct St as [y user data at_ | y id ok now Hin | y | y];
    [| |constructor; assumption..].
  - unfold savePlayerData. destruct (writesSuspended (sy_service y)).
    { simpl. rewrite !app_nil_r. constructor; assumption. }
    destruct user as [uid|]; [|simpl; rewrite !app_nil_r; constructor; assumption].
    cbn [option_list fmap option_fmap option_map wr_id].
    assert (F : length (sy_issued y) ∉ sy_inflight y)
      by (intros Hin; rewrite Forall_forall in B; specialize (B _ Hin); lia).
    constructor; cbn [sy_service sy_inflight sy_issued pendingWrite pendingWriteCount
      lastSyncTimestamp].
    + rewrite P. reflexivity.
    + rewrite length_app. simpl. lia.
    + apply NoDup_app. split; [exact N|]. split; [|apply NoDup_singleton].
      intros x Hx ->%list_elem_of_singleton. contradiction.
    + rewrite length_app. simpl. apply Forall_app. split; [|repeat constructor; lia].
      eapply Forall_impl; [exact B|]. simpl. intros. lia.
    + rewrite fmap_app. csimpl. apply increasing_snoc; [exact I|].
      intros t Ht. rewrite fmap_last in Ht.
      destruct (last (sy_issued y)) as [w|]; [|discriminate]. injection Ht as <-.
      specialize (L w eq_refl). lia.
    + intros w Hw. cbn in Hw. rewrite last_snoc in Hw. injection Hw as <-. reflexivity.
  - pose proof (filter_remove_length _ _ N Hin) as E.
    constructor; cbn [sy_service sy_inflight sy_issued write_settled pendingWrite
      pendingWriteCount lastSyncTimestamp]; try assumption.
    + rewrite P. reflexivity.
    + lia.
    + apply NoDup_filter, N.
    + rewrite Forall_forall in B |- *. intros x Hx%list_elem_of_filter. apply B, Hx.
Qed.

Lemma initial_sync_ok : sync_ok initial_sync.
Proof. constructor; simpl; auto; [apply NoDup_nil_2 | discriminate]. Qed.

Lemma sync_run_ok y : rtc sync_step initial_sync y -> sync_ok y.
Proof.
  generalize initial_sync_ok. generalize initial_sync. intros y0 Y0 R.
  induction R as [|y1 y2 y3 St _ IH]; [exact Y0|]. apply IH, (sync_step_ok _ _ St Y0).
Qed.

(** A step with writes suspended before and after it. *)
Definition suspended_step (y y' : Sync) : Prop :=
  sync_step y y' /\ writesSuspended (sy_service y) = true /\ writesSuspended (sy_service y') = true.

(** What is in flight was already in flight, or was issued since. *)
Definition since (y y' : Sync) : Prop :=
  (length (sy_issued y) <= length (sy_issued y'))%nat
  /\ Forall (fun id => id ∈ sy_inflight y \/ (length (sy_issued y) <= id)%nat) (sy_inflight y').

#[global] Instance since_preorder : PreOrder since.
Proof.
  split.
  - intros y. split; [reflexivity|]. apply Forall_forall. auto.
  - intros a b c [L F] [L' F']. split; [lia|]. rewrite Forall_forall in F, F'. apply Forall_forall.
    intros id [E|E]%F'; [apply F, E | right; lia].
Qed.

Lemma step_since y y' : sync_step y y' -> since y y'.
Proof.
  intros [z user data at_ | z id ok now Hin | z | z]; [| |split; [reflexivity | apply Forall_forall; auto]..].
  - unfold savePlayerData. destruct (writesSuspended (sy_service z)); [|destruct user as [uid|]];
      split; cbn [sy_issued sy_inflight option_list fmap option_fmap option_map]; rewrite ?app_nil_r;
      rewrite ?length_app; try lia; rewrite ?Forall_app; try (split; [|repeat constructor; right; reflexivity]);
      apply Forall_forall; auto.
  - split; [reflexivity|]. apply Forall_forall. intros n [_ Hn]%list_elem_of_filter. left. exact Hn.
Qed.

Lemma run_since y y' : rtc sync_step y y' -> since y y'.
Proof.
  induction 1 as [y|y1 y2 y3 St _ IH]; [reflexivity|]. transitivity y2; [apply step_since, St | exact IH].
Qed.

Lemma suspended_run y y' : rtc suspended_step y y' -> rtc sync_step y y' /\ sy_issued y' = sy_issued y.
Proof.
  induction 1 as [y|y1 y2 y3 (St & S & _) _ [R E]]; [split; reflexivity|]. split; [apply rtc_l with y2; assumption|].
  rewrite E. destruct St; try reflexivity. unfold savePlayerData. rewrite S. apply app_nil_r.
Qed.

Lemma drain_over_spec captured s :
  drain_over captured s false = true <-> Forall (fun id => id ∉ pendingWrite s) captured.
Proof.
  unfold drain_over. rewrite orb_false_r, forallb_forall, Forall_forall.
  split; intros F id Hid; apply bool_decide_eq_true || apply (bool_decide_eq_true (id ∉ pendingWrite s)); apply F, list_elem_of_In, Hid.
Qed.

(** ** Properties *)

(** C23: the cloud service keeps its books, whenever and however its writes settle.  In
    every state [y'] reached after a state [y]: the writes issued carry strictly increasing
    timestamps, in the order of issue; the promise chain waits for exactly the writes in
    flight and the status reports their number.  A drain called in [y] is over by itself
    in [y'] exactly when every write still in flight was issued after the call; if the
    writes were suspended from the call on, exactly when no write is in flight. *)
Theorem sync_invariant (y y' : Sync) :
  rtc sync_step initial_sync y -> rtc sync_step y y' ->
  let over := drain_over (drainPendingWrites (sy_service y)) (sy_service y') false in
  increasing (wr_timestamp <$> sy_issued y')
  /\ pendingWrite (sy_service y') = sy_inflight y'
  /\ st_pendingWrites (getSyncStatus (sy_service y')) = Z.of_nat (length (sy_inflight y'))
  /\ (over = true <-> Forall (fun id => (length (sy_issued y) <= id)%nat) (sy_inflight y'))
  /\ (rtc suspended_step y y' -> (over = true <-> sy_inflight y' = [])).
Proof.
  intros R R'. cbv zeta. pose proof (sync_run_ok y R) as [P _ _ B _ _].
  pose proof (sync_run_ok y' ltac:(etransitivity; eassumption)) as [P' C' _ B' I' _].
  destruct (run_since y y' R') as [_ S].
  assert (D : drain_over (drainPendingWrites (sy_service y)) (sy_service y') false = true
    <-> Forall (fun id => (length (sy_issued y) <= id)%nat) (sy_inflight y')).
  { rewrite drain_over_spec, !Forall_forall. unfold drainPendingWrites. rewrite P, P'.
    rewrite Forall_forall in S. rewrite Forall_forall in B. split.
    - intros F id Hid. destruct (S id Hid) as [E|E]; [destruct (F id E Hid) | exact E].
    - intros F id Hid Hid'. specialize (F id Hid'). specialize (B id Hid). cbn in *. lia. }
  repeat (split; [assumption|]). intros [_ Q]%suspended_run. rewrite D.
  split; [|intros ->; constructor]. intros F. destruct (sy_inflight y') as [|id l]; [reflexivity|].
  apply Forall_cons in F as [F _]. apply Forall_cons in B' as [B' _]. rewrite Q in B'. lia.
Qed.

Definition sample_data : PlayerData := toJSON sample_player.

(** One save, then a drain with writes suspended, then the save settles. *)
Lemma sync_invariant_witness :
  let y1 := let (s, w) := savePlayerData new_CloudSyncService (Some "u1") 0 sample_data 1000 in
            mkSync s ([] ++ option_list (wr_id <$> w)) ([] ++ option_list w) in
  let y2 := mkSync (suspendWrites (sy_service y1)) (sy_inflight y1) (sy_issued y1) in
  let y3 := mkSync (write_settled (sy_service y2) 0 true 1500)
              (filter (fun n => n <> 0%nat) (sy_inflight y2)) (sy_issued y2) in
  let over := drain_over (drainPendingWrites (sy_service y2)) (sy_service y3) false in
  increasing (wr_timestamp <$> sy_issued y3)
  /\ pendingWrite (sy_service y3) = sy_inflight y3
  /\ st_pendingWrites (getSyncStatus (sy_service y3)) = Z.of_nat (length (sy_inflight y3))
  /\ (over = true <-> Forall (fun id => (1 <= id)%nat) (sy_inflight y3))
  /\ (rtc suspended_step y2 y3 -> (over = true <-> sy_inflight y3 = [])).
Proof.
  intros y1 y2 y3. apply (sync_invariant y2 y3).
  - apply rtc_l with y1; [apply (sync_save initial_sync (Some "u1") sample_data 1000)|].
    apply rtc_once, (sync_suspend y1).
  - apply rtc_once, (sync_settle y2). apply list_elem_of_In. left. reflexivity.
Defined.

(** A save issued after the call is not waited for: without suspension, a drain is over
    while a write is in flight. *)
Theorem drain_ignores_later :
  let y1 := let (s, w) := savePlayerData new_CloudSyncService (Some "u1") 0 sample_data 1000 in
            mkSync s ([] ++ option_list (wr_id <$> w)) ([] ++ option_list w) in
  rtc sync_step initial_sync y1
  /\ drain_over (drainPendingWrites new_CloudSyncService) (sy_service y1) false = true
  /\ sy_inflight y1 = [0%nat].
Proof.
  split; [apply rtc_once, (sync_save initial_sync (Some "u1") sample_data 1000) | split; reflexivity].
Qed.

(** An account being deleted stays deleted.  While writes are suspended no save,
    however often it is called, issues a write or adds to what the drain waits for. *)
Theorem suspended_no_writes (s : CloudSyncService) (user : option string) (id : nat)
    (data : PlayerData) (at_ : Z) :
  savePlayerData (suspendWrites s) user id data at_ = (suspendWrites s, None)
  /\ savePlayerData s None id data at_ = (s, None).
Proof. split; [reflexivity|]. unfold savePlayerData. destruct (writesSuspended s); reflexivity. Qed.

(** The cloud is reported empty only on evidence.  [loadPlayerData] answers
    [empty] exactly when a signed-in user's read completed and found no document or
    no player data in it; a missing session, a failed read and a timeout are
    [unavailable]. *)
Theorem empty_only_when_confirmed (user : option string) (event : FetchEvent) :
  loadPlayerData user event = empty <->
  user <> None
  /\ exists exists_ data, event = FetchResolved exists_ data
      /\ (exists_ = false \/ data = None
          \/ exists sn, data = Some sn /\ (sn_playerData sn = None
               \/ exists pd, sn_playerData sn = Some pd /\ truthy pd = false)).
Proof.
  unfold loadPlayerData. split.
  - destruct user as [u|]; [|discriminate]. intros H. split; [discriminate|].
    destruct event as [e data | |]; [|discriminate..]. exists e, data. split; [reflexivity|].
    destruct e; [|left; reflexivity]. right.
    destruct data as [sn|]; [|left; reflexivity]. right. exists sn. split; [reflexivity|].
    simpl in H. destruct (sn_playerData sn) as [pd|]; [|left; reflexivity].
    right. exists pd. destruct (truthy pd); [discriminate | auto].
  - intros [Hu (e & data & -> & H)]. destruct user as [u|]; [|congruence].
    destruct e; [|reflexivity]. simpl.
    destruct H as [H | [-> | (sn & -> & [-> | (pd & -> & ->)])]]; [discriminate | reflexivity..].
Qed.
