(* ===== verification/Storage.v ===== *)
(** * Local persistence

    [src/utils/storage.ts].  [AsyncStorage] is outside the program: the class
    [AsyncStorage] is what the program uses of it and [AsyncStorageLaws] what its
    documentation promises (a call that succeeds has the stated effect, a call that
    fails leaves the stored values as they were).  Any call may fail at any time.  The
    last section gives an implementation that satisfies the laws.

    A promise that rejects is [None]; [try_catch] is the source's [try]/[catch].  The
    [logger] calls have no effect on the state and are left out. *)
From stdpp Require Import base decidable strings list gmap.
From Stdlib Require Import ZArith QArith Lia Lqa.
From S2P Require Import Prelude JsNumber Creature Item Player Encounter Json CloudSync.
Local Open Scope Z_scope.

(** Stored text: what [JSON.stringify] wrote, or text that does not parse. *)
Inductive Text := TJson (j : json) | TBad.

Class AsyncStorage := {
  disk : Type;
  contents : disk -> string -> option Text;
  multiSet : list (string * Text) -> disk -> bool * disk;
  multiGet : list string -> disk -> option (list (option Text)) * disk;
  multiRemove : list string -> disk -> bool * disk
}.

(** The value a list of writes leaves under a key. *)
Definition written (kvs : list (string * Text)) (k : string) (old : option Text) : option Text :=
  match assoc k (rev kvs) with Some v => Some v | None => old end.

Class AsyncStorageLaws `{AsyncStorage} : Prop := {
  multiSet_ok kvs d k : fst (multiSet kvs d) = true ->
    contents (snd (multiSet kvs d)) k = written kvs k (contents d k);
  multiSet_err kvs d k : fst (multiSet kvs d) = false ->
    contents (snd (multiSet kvs d)) k = contents d k;
  multiGet_ok ks d vs : fst (multiGet ks d) = Some vs -> vs = contents d <$> ks;
  multiGet_pure ks d k : contents (snd (multiGet ks d)) k = contents d k;
  multiRemove_ok ks d k : fst (multiRemove ks d) = true ->
    contents (snd (multiRemove ks d)) k = if decide (k ∈ ks) then None else contents d k;
  multiRemove_err ks d k : fst (multiRemove ks d) = false ->
    contents (snd (multiRemove ks d)) k = contents d k
}.

Module STORAGE_KEYS.
Definition PLAYER_DATA : string := "@walking_rpg:player_data".
Definition PLAYER_SAVED_AT : string := "@walking_rpg:player_saved_at".
Definition SETTINGS : string := "@walking_rpg:settings".
Definition PENDING_ENCOUNTER : string := "@walking_rpg:pending_encounter".
Definition WALK_SUMMARY : string := "@walking_rpg:walk_summary".
Definition TRACKING_STATE : string := "@walking_rpg:tracking_state".
Definition CONFLICT_PENDING : string := "@walking_rpg:conflict_pending".
Definition BATTERY_PROMPT_SHOWN : string := "@walking_rpg:battery_prompt_shown".
Definition AUTO_RESOLVE_BELOW_RARE : string := "@walking_rpg:auto_resolve_below_rare".
End STORAGE_KEYS.

Definition MAX_WALK_SUMMARY_ENTRIES : nat := 100.

(** ** Validators *)

(** [!data || typeof data !== 'object'] *)
Definition not_object (j : json) : bool := negb (is_object (Some j)).

Definition isValidPlayerData (data : json) : bool :=
  if not_object data then false
  else
    is_string (jget data "id") &&
    is_string (jget data "name") &&
    match jget data "level" with Some (JNum q) => js_le 1 q | _ => false end &&
    is_number (jget data "experience") &&
    is_number (jget data "attack") &&
    is_number (jget data "defense") &&
    is_number (jget data "totalDistance") &&
    is_number (jget data "totalEncounters") &&
    is_number (jget data "creaturesDefeated") &&
    is_object (jget data "equipment").

Definition ENCOUNTER_STATUSES : list string := ["active"; "defeated"; "fled"].

Definition isValidEncounterData (data : json) : bool :=
  if not_object data then false
  else
    is_object (jget data "creature") &&
    is_object (jget data "location") &&
    is_number (jget data "timestamp") &&
    is_number (jget data "playerLevel") &&
    match jget data "status" with
    | Some (JStr s) => bool_decide (s ∈ ENCOUNTER_STATUSES)
    | _ => false
    end.

Definition isValidWalkSummaryEntry (data : json) : bool :=
  if not_object data then false
  else
    is_string (jget data "creatureName") &&
    is_string (jget data "rarity") &&
    is_boolean (jget data "won") &&
    is_number (jget data "xpGained") &&
    is_number (jget data "timestamp") &&
    (is_null (jget data "item") || is_object (jget data "item")).

(** ** Persisted records *)

Record EncounterData := mkEncounterData {
  ed_creature : CreatureConstructorParams;
  ed_location : Location;
  ed_timestamp : Z;
  ed_playerLevel : Z;
  ed_status : EncounterStatus;
  ed_daylight : option bool
}.

Definition enc_partial_resistances (p : PartialResistances) : json :=
  JObj (field "physical" JNum (pr_physical p) ++ field "fire" JNum (pr_fire p)
        ++ field "frost" JNum (pr_frost p) ++ field "arcane" JNum (pr_arcane p)).

Definition enc_creature (c : CreatureConstructorParams) : json :=
  JObj ([("id", JStr (cp_id c)); ("name", JStr (cp_name c)); ("type", JStr (cp_type c))]
        ++ field "level" jint (cp_level c)
        ++ field "hp" jint (cp_hp c)
        ++ [("maxHp", jint (cp_maxHp c)); ("attack", jint (cp_attack c));
            ("defense", jint (cp_defense c)); ("speed", jint (cp_speed c))]
        ++ field "rarity" enc_rarity (cp_rarity c)
        ++ field "description" JStr (cp_description c)
        ++ field "encounterRate" JNum (cp_encounterRate c)
        ++ field "resistances" enc_partial_resistances (cp_resistances c)).

Definition enc_status (s : EncounterStatus) : json :=
  JStr (match s with active => "active" | defeated => "defeated" | fled => "fled" end).

Definition enc_encounter (e : EncounterData) : json :=
  JObj ([("creature", enc_creature (ed_creature e));
         ("location", JObj [("latitude", JNum (latitude (ed_location e)));
                            ("longitude", JNum (longitude (ed_location e)))]);
         ("timestamp", jint (ed_timestamp e)); ("playerLevel", jint (ed_playerLevel e));
         ("status", enc_status (ed_status e))]
        ++ field "daylight" JBool (ed_daylight e)).

Record WalkSummaryEntry := mkWalkSummaryEntry {
  ws_creatureName : string;
  ws_rarity : Rarity;
  ws_won : bool;
  ws_xpGained : Z;
  ws_item : option Item;
  ws_timestamp : Z
}.

Definition enc_summary_entry (e : WalkSummaryEntry) : json :=
  JObj [("creatureName", JStr (ws_creatureName e)); ("rarity", enc_rarity (ws_rarity e));
        ("won", JBool (ws_won e)); ("xpGained", jint (ws_xpGained e));
        ("item", nullable enc_item (ws_item e)); ("timestamp", jint (ws_timestamp e))].

(** [localData] and [cloudData] are player records or [null]. *)
Record PendingConflictRecord := mkPendingConflict {
  pc_localData : option json; pc_localSavedAt : Z; pc_cloudData : option json; pc_cloudSavedAt : Z
}.

Definition enc_conflict (r : PendingConflictRecord) : json :=
  JObj [("localData", nullable id (pc_localData r)); ("localSavedAt", jint (pc_localSavedAt r));
        ("cloudData", nullable id (pc_cloudData r)); ("cloudSavedAt", jint (pc_cloudSavedAt r))].

(** ** Operations *)

Section Operations.
Context `{AsyncStorage}.

(** An asynchronous computation: its result, or [None] if it rejects. *)
Definition IO (A : Type) : Type := disk -> option A * disk.

Definition ret {A} (a : A) : IO A := fun d => (Some a, d).
Definition throw {A} : IO A := fun d => (None, d).
Definition bind {A B} (m : IO A) (k : A -> IO B) : IO B :=
  fun d => match m d with (Some a, d') => k a d' | (None, d') => (None, d') end.
Definition try_catch {A} (m h : IO A) : IO A :=
  fun d => match m d with (Some a, d') => (Some a, d') | (None, d') => h d' end.

Notation "'do!' x '<-' m ';' k" := (bind m (fun x => k))
  (at level 10, x name, m at level 100, k at level 200).
Notation "'run!' m ';' k" := (bind m (fun _ => k)) (at level 10, m at level 100, k at level 200).

Definition io_set (kvs : list (string * Text)) : IO unit :=
  fun d => let (ok, d') := multiSet kvs d in (if ok then Some tt else None, d').
Definition io_get (ks : list string) : IO (list (option Text)) := multiGet ks.
Definition io_remove (ks : list string) : IO unit :=
  fun d => let (ok, d') := multiRemove ks d in (if ok then Some tt else None, d').

(** The single-key calls. *)
Definition setItem (k : string) (v : Text) : IO unit := io_set [(k, v)].
Definition getItem (k : string) : IO (option Text) :=
  do! vs <- io_get [k]; ret (mjoin (vs !! 0%nat)).
Definition removeItem (k : string) : IO unit := io_remove [k].

(** Whether a read of [key] succeeds. *)
Definition key_readable (key : string) (d : disk) : bool :=
  match fst (multiGet [key] d) with Some _ => true | None => false end.

(** [JSON.parse]: rejects on text that is not JSON. *)
Definition json_parse (t : Text) : IO json :=
  match t with TJson j => ret j | TBad => throw end.

(** [Number(text ?? 0)]; [None] is [NaN]. *)
Definition to_number (t : option Text) : option Q :=
  match t with
  | None => Some 0%Q
  | Some (TJson (JNum q)) => Some q
  | Some _ => None
  end.

(** The result of [savePlayerData], and the cloud save it starts. *)
Definition savePlayerData (playerData : PlayerData) (now : Z)
    : IO (bool * option (PlayerData * Z)) :=
  try_catch
    (let savedAt := now in
     run! io_set [(STORAGE_KEYS.PLAYER_DATA, TJson (enc_player playerData));
                 (STORAGE_KEYS.PLAYER_SAVED_AT, TJson (jint savedAt))];
     ret (true, Some (playerData, savedAt)))
    (ret (false, None)).

Definition clearLocalPlayerData : IO unit :=
  try_catch
    (io_remove [STORAGE_KEYS.PLAYER_DATA; STORAGE_KEYS.PLAYER_SAVED_AT;
                STORAGE_KEYS.WALK_SUMMARY; STORAGE_KEYS.PENDING_ENCOUNTER])
    (ret tt).

Definition writeLocalPlayerSnapshot (data : json) (savedAt : Z) : IO unit :=
  io_set [(STORAGE_KEYS.PLAYER_DATA, TJson data);
          (STORAGE_KEYS.PLAYER_SAVED_AT, TJson (jint savedAt))].

Definition readLocalPlayerSnapshot : IO (option json * option Q) :=
  try_catch
    (do! result <- io_get [STORAGE_KEYS.PLAYER_DATA; STORAGE_KEYS.PLAYER_SAVED_AT];
     let json := mjoin (result !! 0%nat) in
     let savedAt := to_number (mjoin (result !! 1%nat)) in
     match json with
     | None => ret (None, Some 0%Q)
     | Some text =>
         do! parsed <- json_parse text;
         if isValidPlayerData parsed then ret (Some parsed, savedAt)
         else run! clearLocalPlayerData; ret (None, Some 0%Q)
     end)
    (run! clearLocalPlayerData; ret (None, Some 0%Q)).

Inductive ReconcileResult := adopted (data : json) | noNewerCloud | recUnavailable.

(** [a > b] where [b] may be [NaN]. *)
Definition js_gt_num (a : Q) (b : option Q) : bool :=
  match b with Some b => js_lt b a | None => false end.

Definition reconcileCloudPlayerData (cloud : CloudLoad) : IO ReconcileResult :=
  match cloud with
  | unavailable => ret recUnavailable
  | empty => ret noNewerCloud
  | found record =>
      if negb (isValidPlayerData (cr_playerData record)) then ret recUnavailable
      else
        do! local <- readLocalPlayerSnapshot;
        if js_gt_num (num (cr_lastSavedAt record)) (snd local) then
          run! try_catch (writeLocalPlayerSnapshot (cr_playerData record) (cr_lastSavedAt record))
                (ret tt);
          ret (adopted (cr_playerData record))
        else ret noNewerCloud
  end.

(** A setting written as JSON, with the write's success. *)
Definition save_json (key : string) (j : json) : IO bool :=
  try_catch (run! setItem key (TJson j); ret true) (ret false).

Definition saveSettings (settings : json) : IO bool := save_json STORAGE_KEYS.SETTINGS settings.

Definition loadSettings : IO (option json) :=
  try_catch
    (do! t <- getItem STORAGE_KEYS.SETTINGS;
     match t with
     | Some t => do! j <- json_parse t; ret (Some j)
     | None => ret None
     end)
    (ret None).

Definition savePendingEncounter (encounter : EncounterData) : IO bool :=
  save_json STORAGE_KEYS.PENDING_ENCOUNTER (enc_encounter encounter).

Definition loadPendingEncounter : IO (option json) :=
  try_catch
    (do! t <- getItem STORAGE_KEYS.PENDING_ENCOUNTER;
     match t with
     | Some t =>
         do! parsed <- json_parse t;
         if negb (isValidEncounterData parsed) then
           run! removeItem STORAGE_KEYS.PENDING_ENCOUNTER; ret None
         else ret (Some parsed)
     | None => ret None
     end)
    (ret None).

Definition clearPendingEncounter : IO bool :=
  try_catch (run! removeItem STORAGE_KEYS.PENDING_ENCOUNTER; ret true) (ret false).

Definition loadWalkSummary : IO (list json) :=
  try_catch
    (do! t <- getItem STORAGE_KEYS.WALK_SUMMARY;
     match t with
     | None => ret []
     | Some t =>
         do! parsed <- json_parse t;
         match parsed with
         | JArr l =>
             if forallb isValidWalkSummaryEntry l then ret l
             else run! removeItem STORAGE_KEYS.WALK_SUMMARY; ret []
         | _ => run! removeItem STORAGE_KEYS.WALK_SUMMARY; ret []
         end
     end)
    (ret []).

(** [l.slice(-n)] *)
Definition slice_last {A} (n : nat) (l : list A) : list A := drop (length l - n) l.

(** The task [appendWalkSummaryEntry] puts on the write chain, and the value its
    promise settles with.  The entry is the object itself: a new one, or one that a
    drain returned. *)
Definition append_task (entry : json) : IO unit :=
  do! existing <- loadWalkSummary;
  let next := slice_last MAX_WALK_SUMMARY_ENTRIES (existing ++ [entry]) in
  setItem STORAGE_KEYS.WALK_SUMMARY (TJson (JArr next)).

Definition append_record (entry : json) : IO bool :=
  try_catch (run! append_task entry; ret true) (ret false).

Definition appendWalkSummaryEntry (entry : WalkSummaryEntry) : IO bool :=
  append_record (enc_summary_entry entry).

(** The task [drainWalkSummary] puts on the write chain. *)
Definition drain_task : IO (list json) :=
  do! entries <- loadWalkSummary;
  match entries with
  | [] => ret []
  | _ => run! removeItem STORAGE_KEYS.WALK_SUMMARY; ret entries
  end.

Definition drainWalkSummary : IO (list json) := try_catch drain_task (ret []).

Definition saveTrackingState (isTracking : bool) : IO bool :=
  save_json STORAGE_KEYS.TRACKING_STATE (JBool isTracking).

(** A flag read back as JSON; [false] when absent or unreadable. *)
Definition load_flag (key : string) : IO json :=
  try_catch
    (do! t <- getItem key;
     match t with Some t => json_parse t | None => ret (JBool false) end)
    (ret (JBool false)).

Definition loadTrackingState : IO json := load_flag STORAGE_KEYS.TRACKING_STATE.

Definition saveAutoResolveBelowRare (enabled : bool) : IO bool :=
  save_json STORAGE_KEYS.AUTO_RESOLVE_BELOW_RARE (JBool enabled).

Definition loadAutoResolveBelowRare : IO json := load_flag STORAGE_KEYS.AUTO_RESOLVE_BELOW_RARE.

Definition setBatteryPromptShown : IO bool :=
  save_json STORAGE_KEYS.BATTERY_PROMPT_SHOWN (JBool true).

Definition hasBatteryPromptBeenShown : IO json := load_flag STORAGE_KEYS.BATTERY_PROMPT_SHOWN.

Definition clearAllUserData : IO unit :=
  io_remove [STORAGE_KEYS.PLAYER_DATA; STORAGE_KEYS.PLAYER_SAVED_AT;
             STORAGE_KEYS.PENDING_ENCOUNTER; STORAGE_KEYS.WALK_SUMMARY;
             STORAGE_KEYS.TRACKING_STATE; STORAGE_KEYS.CONFLICT_PENDING].

Definition writePendingConflict (record : PendingConflictRecord) : IO unit :=
  try_catch (setItem STORAGE_KEYS.CONFLICT_PENDING (TJson (enc_conflict record))) (ret tt).

Definition readPendingConflict : IO (option json) :=
  try_catch
    (do! t <- getItem STORAGE_KEYS.CONFLICT_PENDING;
     match t with
     | None => ret None
     | Some t =>
         do! parsed <- json_parse t;
         if not_object parsed
            || bool_decide (jget parsed "localSavedAt" = None)
            || bool_decide (jget parsed "cloudSavedAt" = None)
         then ret None
         else ret (Some parsed)
     end)
    (ret None).

Definition clearPendingConflict : IO unit :=
  try_catch (removeItem STORAGE_KEYS.CONFLICT_PENDING) (ret tt).

Definition clearAllData : IO bool :=
  try_catch
    (run! io_remove [STORAGE_KEYS.PLAYER_DATA; STORAGE_KEYS.PLAYER_SAVED_AT;
                    STORAGE_KEYS.SETTINGS; STORAGE_KEYS.PENDING_ENCOUNTER;
                    STORAGE_KEYS.TRACKING_STATE; STORAGE_KEYS.CONFLICT_PENDING;
                    STORAGE_KEYS.AUTO_RESOLVE_BELOW_RARE];
     ret true)
    (ret false).

End Operations.

(** ** Lemmas *)

(** The program's own records pass its validators. *)
Lemma valid_enc_player d : 1 <= d_level d -> isValidPlayerData (enc_player d) = true.
Proof.
  intros L. unfold isValidPlayerData, enc_player. cbn [not_object is_object negb].
  repeat jstep. cbn. apply andb_true_iff. split; [|reflexivity].
  repeat (apply andb_true_iff; split; [|reflexivity]). apply js_le_iff, (num_le 1), L.
Qed.

Lemma valid_enc_encounter e : isValidEncounterData (enc_encounter e) = true.
Proof.
  unfold isValidEncounterData, enc_encounter. cbn [not_object is_object negb].
  repeat jstep. destruct (ed_status e); reflexivity.
Qed.

Lemma valid_enc_summary e : isValidWalkSummaryEntry (enc_summary_entry e) = true.
Proof.
  unfold isValidWalkSummaryEntry, enc_summary_entry. cbn [not_object is_object negb].
  repeat jstep. destruct (ws_item e); reflexivity.
Qed.

Section Laws.
Context `{AsyncStorageLaws}.

Lemma setItem_cases k v d :
  (fst (setItem k v d) = Some tt
   /\ forall k', contents (snd (setItem k v d)) k' = if decide (k = k') then Some v else contents d k')
  \/ (fst (setItem k v d) = None
      /\ forall k', contents (snd (setItem k v d)) k' = contents d k').
Proof.
  unfold setItem, io_set. pose proof (multiSet_ok [(k, v)] d) as A.
  pose proof (multiSet_err [(k, v)] d) as B.
  destruct (multiSet [(k, v)] d) as [[] d']; simpl in *; [left | right]; split; auto.
  intros k'. rewrite A by reflexivity. unfold written. simpl. destruct (decide _); reflexivity.
Qed.

Lemma removeItem_cases k d :
  (fst (removeItem k d) = Some tt
   /\ forall k', contents (snd (removeItem k d)) k' = if decide (k = k') then None else contents d k')
  \/ (fst (removeItem k d) = None
      /\ forall k', contents (snd (removeItem k d)) k' = contents d k').
Proof.
  unfold removeItem, io_remove. pose proof (multiRemove_ok [k] d) as A.
  pose proof (multiRemove_err [k] d) as B.
  destruct (multiRemove [k] d) as [[] d']; simpl in *; [left | right]; split; auto.
  intros k'. rewrite A by reflexivity.
  destruct (decide (k = k')) as [->|N].
  - rewrite decide_True by (apply list_elem_of_singleton; reflexivity). reflexivity.
  - rewrite decide_False by (rewrite list_elem_of_singleton; congruence). reflexivity.
Qed.

Lemma getItem_cases k d :
  (fst (getItem k d) = Some (contents d k)
   \/ fst (getItem k d) = None)
  /\ forall k', contents (snd (getItem k d)) k' = contents d k'.
Proof.
  unfold getItem, bind, io_get. pose proof (multiGet_ok [k] d) as A.
  pose proof (multiGet_pure [k] d) as B.
  destruct (multiGet [k] d) as [[vs|] d']; simpl in *; [|auto].
  specialize (A vs eq_refl). subst vs. simpl. split; [left; destruct (contents d k); reflexivity | exact B].
Qed.

Definition same_contents (d d' : disk) : Prop := forall k, contents d' k = contents d k.

(** *** Footprints

    [touches ks m]: [m] changes nothing stored under a key outside [ks]. *)
Definition touches {A} (ks : list string) (m : IO A) : Prop :=
  forall d k, k ∉ ks -> contents (snd (m d)) k = contents d k.

Lemma touches_ret {A} ks (a : A) : touches ks (ret a).
Proof. intros d k _. reflexivity. Qed.

Lemma touches_throw {A} ks : touches ks (throw (A := A)).
Proof. intros d k _. reflexivity. Qed.

Lemma touches_bind {A B} ks (m : IO A) (f : A -> IO B) :
  touches ks m -> (forall a, touches ks (f a)) -> touches ks (bind m f).
Proof.
  intros M F d k N. unfold bind. specialize (M d k N). destruct (m d) as [[a|] d']; [|exact M].
  rewrite F by exact N. exact M.
Qed.

Lemma touches_try {A} ks (m h : IO A) : touches ks m -> touches ks h -> touches ks (try_catch m h).
Proof.
  intros M F d k N. unfold try_catch. specialize (M d k N). destruct (m d) as [[a|] d']; [exact M|].
  rewrite F by exact N. exact M.
Qed.

Lemma touches_set ks k v : k ∈ ks -> touches ks (setItem k v).
Proof.
  intros I d k' N. destruct (setItem_cases k v d) as [[_ E]|[_ E]]; rewrite E; [|reflexivity].
  apply decide_False. intros ->. contradiction.
Qed.

Lemma touches_get ks k : touches ks (getItem k).
Proof. intros d k' _. apply getItem_cases. Qed.

Lemma touches_remove ks k : k ∈ ks -> touches ks (removeItem k).
Proof.
  intros I d k' N. destruct (removeItem_cases k d) as [[_ E]|[_ E]]; rewrite E; [|reflexivity].
  apply decide_False. intros ->. contradiction.
Qed.

Lemma touches_parse ks t : touches ks (json_parse t).
Proof. destruct t; [apply touches_ret | apply touches_throw]. Qed.

(** Both outcomes of a save. *)
Lemma savePlayerData_cases (data : PlayerData) (now : Z) (d : disk) :
  let (r, d') := savePlayerData data now d in
  (r = Some (true, Some (data, now))
   /\ (forall k, contents d' k =
         if decide (k = STORAGE_KEYS.PLAYER_DATA) then Some (TJson (enc_player data))
         else if decide (k = STORAGE_KEYS.PLAYER_SAVED_AT) then Some (TJson (jint now))
         else contents d k))
  \/ (r = Some (false, None) /\ same_contents d d').
Proof.
  unfold savePlayerData, try_catch, bind, io_set, ret.
  set (kvs := [_; _]). pose proof (multiSet_ok kvs d) as A. pose proof (multiSet_err kvs d) as B.
  destruct (multiSet kvs d) as [[] d']; simpl in *; [left | right].
  - split; [reflexivity|]. intros k. rewrite A by reflexivity. unfold written, kvs. simpl.
    destruct (decide (STORAGE_KEYS.PLAYER_SAVED_AT = k)) as [<-|N1]; [reflexivity|].
    destruct (decide (STORAGE_KEYS.PLAYER_DATA = k)) as [<-|N2]; [reflexivity|].
    rewrite !decide_False by congruence. reflexivity.
  - split; [reflexivity|]. intros k. apply B. reflexivity.
Qed.

(** Reading after the values under both keys are known. *)
Lemma read_snapshot d j at_ :
  contents d STORAGE_KEYS.PLAYER_DATA = Some (TJson j) -> isValidPlayerData j = true ->
  contents d STORAGE_KEYS.PLAYER_SAVED_AT = at_ ->
  fst (multiGet [STORAGE_KEYS.PLAYER_DATA; STORAGE_KEYS.PLAYER_SAVED_AT] d) <> None ->
  fst (readLocalPlayerSnapshot d) = Some (Some j, to_number at_)
  /\ same_contents d (snd (readLocalPlayerSnapshot d)).
Proof.
  intros Hj Hv Ha Hr. unfold readLocalPlayerSnapshot, try_catch, bind, io_get.
  pose proof (multiGet_ok [STORAGE_KEYS.PLAYER_DATA; STORAGE_KEYS.PLAYER_SAVED_AT] d) as A.
  pose proof (multiGet_pure [STORAGE_KEYS.PLAYER_DATA; STORAGE_KEYS.PLAYER_SAVED_AT] d) as B.
  destruct (multiGet _ d) as [[vs|] d1]; cbn [fst snd] in *; [|congruence].
  specialize (A vs eq_refl). subst vs. csimpl. rewrite Hj, Ha. csimpl. rewrite Hv.
  split; [destruct at_; reflexivity | exact B].
Qed.

(** ** Properties *)

(** Saving is atomic and never throws.  [savePlayerData] reports success exactly
    when both the record and its timestamp are stored, and only then starts a cloud
    save, of the same record and timestamp; when it reports failure every stored
    value is what it was. *)
Theorem savePlayerData_atomic (data : PlayerData) (now : Z) (d : disk) :
  let (r, d') := savePlayerData data now d in
  (r = Some (true, Some (data, now))
   /\ (forall k, contents d' k =
         if decide (k = STORAGE_KEYS.PLAYER_DATA) then Some (TJson (enc_player data))
         else if decide (k = STORAGE_KEYS.PLAYER_SAVED_AT) then Some (TJson (jint now))
         else contents d k))
  \/ (r = Some (false, None) /\ same_contents d d').
Proof. apply savePlayerData_cases. Qed.

(** C37: what was saved is what loads.  After a successful save of a player in a valid
    state, reading the snapshot (when the read itself succeeds) returns a record and
    timestamp from which the very same player is rebuilt, and changes nothing. *)
Theorem save_load_roundtrip (p : Player) (now : Z) (d : disk) :
  wf_player p ->
  let (r, d') := savePlayerData (toJSON p) now d in
  r = Some (true, Some (toJSON p, now)) ->
  fst (multiGet [STORAGE_KEYS.PLAYER_DATA; STORAGE_KEYS.PLAYER_SAVED_AT] d') <> None ->
  exists j, fst (readLocalPlayerSnapshot d') = Some (Some j, Some (num now))
    /\ fromJSON <$> dec_player j = Some p
    /\ same_contents d' (snd (readLocalPlayerSnapshot d')).
Proof.
  intros W. pose proof (savePlayerData_cases (toJSON p) now d) as C.
  destruct (savePlayerData (toJSON p) now d) as [r d']. intros -> Hr.
  destruct C as [[_ C]|[C _]]; [|discriminate]. exists (enc_player (toJSON p)).
  destruct (read_snapshot d' (enc_player (toJSON p)) (Some (TJson (jint now)))) as [E1 E2];
    [rewrite C; reflexivity | apply valid_enc_player; destruct p; apply W
    | rewrite C; reflexivity | exact Hr |].
  split; [exact E1|]. split; [|exact E2]. rewrite dec_player_round. csimpl.
  rewrite from_to_JSON; [reflexivity | apply W | apply W].
Qed.


(** C22: reconciliation never trades progress for an older save.  With a valid local
    save whose read succeeds, the cloud is adopted only if it is valid and strictly
    newer than the local timestamp as read after the fetch; in every other case, and
    whenever the cloud's state is unknown or its record malformed, nothing stored
    changes.  The call never rejects. *)
Theorem reconcile_safe (cloud : CloudLoad) (d : disk) (local : json) (t : Z) :
  contents d STORAGE_KEYS.PLAYER_DATA = Some (TJson local) -> isValidPlayerData local = true ->
  contents d STORAGE_KEYS.PLAYER_SAVED_AT = Some (TJson (jint t)) ->
  fst (multiGet [STORAGE_KEYS.PLAYER_DATA; STORAGE_KEYS.PLAYER_SAVED_AT] d) <> None ->
  let (r, d') := reconcileCloudPlayerData cloud d in
  match r with
  | None => False
  | Some recUnavailable =>
      same_contents d d'
      /\ (cloud = unavailable
          \/ exists c, cloud = found c /\ isValidPlayerData (cr_playerData c) = false)
  | Some noNewerCloud =>
      same_contents d d'
      /\ (cloud = empty \/ exists c, cloud = found c /\ cr_lastSavedAt c <= t)
  | Some (adopted j) =>
      exists c, cloud = found c /\ j = cr_playerData c /\ isValidPlayerData j = true
        /\ t < cr_lastSavedAt c
        /\ (same_contents d d'
            \/ contents d' STORAGE_KEYS.PLAYER_DATA = Some (TJson j)
               /\ contents d' STORAGE_KEYS.PLAYER_SAVED_AT = Some (TJson (jint (cr_lastSavedAt c))))
  end.
Proof.
  intros Hl Hv Ht Hr. unfold reconcileCloudPlayerData.
  destruct cloud as [c| |].
  2: { split; [intros k; reflexivity | left; reflexivity]. }
  2: { split; [intros k; reflexivity | left; reflexivity]. }
  destruct (isValidPlayerData (cr_playerData c)) eqn:V; cbn [negb].
  2: { split; [intros k; reflexivity | right; eauto]. }
  destruct (read_snapshot d local _ Hl Hv Ht Hr) as [E S]. unfold bind at 1.
  destruct (readLocalPlayerSnapshot d) as [o d1]. cbn [fst snd] in E, S. subst o.
  cbn [snd to_number jint js_gt_num]. destruct (js_ltP (num t) (num (cr_lastSavedAt c))) as [L|L].
  - unfold bind, try_catch, writeLocalPlayerSnapshot, io_set, ret. set (kvs := [_; _]).
    pose proof (multiSet_ok kvs d1) as A. pose proof (multiSet_err kvs d1) as B.
    destruct (multiSet kvs d1) as [[] d2]; cbn [fst snd] in *;
      (exists c; split; [reflexivity|]; split; [reflexivity|]; split; [exact V|];
       split; [unfold num in L; rewrite <- Zlt_Qlt in L; exact L|]).
    + right. rewrite !A by reflexivity. split; reflexivity.
    + left. intros k. rewrite B by reflexivity. apply S.
  - split; [exact S|]. right. exists c. split; [reflexivity|].
    apply Qnot_lt_le in L. unfold num in L. rewrite <- Zle_Qle in L. exact L.
Qed.

(** Erasure is complete and honest.  When [clearAllUserData] resolves, no key that
    belongs to the user holds anything and device preferences are untouched; when it
    rejects, nothing has been removed, so the caller can retry. *)
Theorem erasure_complete (d : disk) :
  let (r, d') := clearAllUserData d in
  (r = Some tt ->
   (forall k, k ∈ [STORAGE_KEYS.PLAYER_DATA; STORAGE_KEYS.PLAYER_SAVED_AT;
                   STORAGE_KEYS.PENDING_ENCOUNTER; STORAGE_KEYS.WALK_SUMMARY;
                   STORAGE_KEYS.TRACKING_STATE; STORAGE_KEYS.CONFLICT_PENDING] ->
              contents d' k = None)
   /\ (forall k, k ∈ [STORAGE_KEYS.SETTINGS; STORAGE_KEYS.BATTERY_PROMPT_SHOWN;
                      STORAGE_KEYS.AUTO_RESOLVE_BELOW_RARE] -> contents d' k = contents d k))
  /\ (r = None -> same_contents d d').
Proof.
  unfold clearAllUserData, io_remove. set (ks := [_; _; _; _; _; _]).
  pose proof (multiRemove_ok ks d) as A. pose proof (multiRemove_err ks d) as B.
  destruct (multiRemove ks d) as [[] d']; cbn [fst snd] in *; split; intros; try discriminate.
  - split; intros k Hk; rewrite A by reflexivity.
    + rewrite decide_True by exact Hk. reflexivity.
    + rewrite decide_False; [reflexivity|]. intros Hin. unfold ks in Hin.
      in_cases Hk; in_cases Hin; discriminate.
  - intros k. apply B. reflexivity.
Qed.

(** *** The walk-summary log *)

(** The log holds exactly these entries. *)
Definition log_is (d : disk) (entries : list json) : Prop :=
  contents d STORAGE_KEYS.WALK_SUMMARY
  = match entries with [] => None | _ => Some (TJson (JArr entries)) end
  \/ contents d STORAGE_KEYS.WALK_SUMMARY = Some (TJson (JArr entries)).

Lemma loadWalkSummary_log d entries :
  log_is d entries -> forallb isValidWalkSummaryEntry entries = true ->
  loadWalkSummary d
  = (Some (from_option (fun _ => entries) [] (fst (getItem STORAGE_KEYS.WALK_SUMMARY d))),
     snd (getItem STORAGE_KEYS.WALK_SUMMARY d)).
Proof.
  intros L V. unfold loadWalkSummary, try_catch, bind at 1.
  destruct (getItem_cases STORAGE_KEYS.WALK_SUMMARY d) as [G _].
  destruct (getItem STORAGE_KEYS.WALK_SUMMARY d) as [o d1]. cbn [fst snd] in *.
  destruct G as [-> | ->]; [|reflexivity].
  destruct L as [L|L]; rewrite L; destruct entries as [|e l];
    unfold bind, json_parse, ret; try rewrite V; reflexivity.
Qed.

Lemma getItem_same k d : same_contents d (snd (getItem k d)).
Proof. intros k'. apply getItem_cases. Qed.

Lemma log_is_same d d' entries : same_contents d d' -> log_is d entries -> log_is d' entries.
Proof. intros S. unfold log_is. rewrite (S STORAGE_KEYS.WALK_SUMMARY). auto. Qed.

Lemma key_readable_item k d : key_readable k d = true <-> fst (getItem k d) <> None.
Proof.
  unfold getItem, bind, io_get, key_readable. destruct (multiGet [k] d) as [[vs|] d1]; cbn;
    split; congruence.
Qed.

Lemma loadWalkSummary_reads d entries :
  log_is d entries -> forallb isValidWalkSummaryEntry entries = true ->
  loadWalkSummary d
  = (Some (if key_readable STORAGE_KEYS.WALK_SUMMARY d then entries else []),
     snd (getItem STORAGE_KEYS.WALK_SUMMARY d)).
Proof.
  intros L V. rewrite (loadWalkSummary_log d entries L V). pose proof (key_readable_item STORAGE_KEYS.WALK_SUMMARY d) as K.
  destruct (fst (getItem _ d)), (key_readable _ d); try reflexivity; exfalso; intuition congruence.
Qed.

Lemma forallb_drop {A} (f : A -> bool) n l : forallb f l = true -> forallb f (drop n l) = true.
Proof.
  revert n. induction l as [|a l IH]; intros [|n] F; simpl in *; auto.
  apply andb_prop in F as [_ F]. apply IH, F.
Qed.

(** The log after an append, given whether its read and its write succeeded: a failed read
    counts as an empty log. *)
Definition relogged (log : list json) (a : json * (bool * bool)) : list json :=
  let '(e, (read, written)) := a in
  if written : bool then slice_last MAX_WALK_SUMMARY_ENTRIES ((if read : bool then log else []) ++ [e]) else log.

(** Whether the read and the write of an append succeed. *)
Definition append_outcome (e : json) (d : disk) : bool * bool :=
  (key_readable STORAGE_KEYS.WALK_SUMMARY d, default false (fst (append_record e d))).

Lemma append_record_log d entries e :
  log_is d entries -> forallb isValidWalkSummaryEntry entries = true ->
  fst (append_record e d) = Some (snd (append_outcome e d))
  /\ log_is (snd (append_record e d)) (relogged entries (e, append_outcome e d)).
Proof.
  intros L V. pose proof (loadWalkSummary_reads d entries L V) as E.
  pose proof (getItem_same STORAGE_KEYS.WALK_SUMMARY d) as S. unfold append_outcome, relogged.
  unfold append_record, try_catch, bind, append_task, bind. rewrite E.
  set (d1 := snd (getItem _ d)) in *. set (next := slice_last _ _).
  destruct (setItem_cases STORAGE_KEYS.WALK_SUMMARY (TJson (JArr next)) d1) as [[E2 C]|[E2 C]];
    destruct (setItem _ _ d1) as [r2 d2]; cbn [fst snd] in *; subst r2; (split; [reflexivity|]); cbn.
  - right. rewrite C, decide_True by reflexivity. reflexivity.
  - apply (log_is_same d); [|exact L]. intros k. rewrite C. apply S.
Qed.

Lemma drain_log d entries :
  log_is d entries -> forallb isValidWalkSummaryEntry entries = true ->
  let (r, d') := drainWalkSummary d in
  (key_readable STORAGE_KEYS.WALK_SUMMARY d = true /\ r = Some entries /\ log_is d' [])
  \/ (r = Some [] /\ log_is d' entries).
Proof.
  intros L V. pose proof (loadWalkSummary_reads d entries L V) as E.
  pose proof (getItem_same STORAGE_KEYS.WALK_SUMMARY d) as S.
  unfold drainWalkSummary, try_catch, drain_task, bind at 1. rewrite E.
  set (d1 := snd (getItem _ d)) in *.
  destruct (key_readable _ d); [|right; split; [reflexivity | exact (log_is_same _ _ _ S L)]].
  destruct entries as [|x l]; [right; split; [reflexivity | exact (log_is_same _ _ _ S L)]|].
  unfold bind.
  destruct (removeItem_cases STORAGE_KEYS.WALK_SUMMARY d1) as [[E2 C]|[E2 C]];
    destruct (removeItem _ d1) as [r2 d2]; cbn [fst snd] in *; subst r2; [left | right].
  - split; [reflexivity|]. split; [reflexivity|]. left. rewrite C, decide_True by reflexivity. reflexivity.
  - split; [reflexivity|]. apply (log_is_same d); [|exact L]. intros k. rewrite C. apply S.
Qed.

(** The walk log is lossless up to its cap.  With a readable log, an append that
    succeeds leaves the last 100 of the old entries and the new one, and an append
    that fails leaves the log as it was; a drain that returns entries returns all of
    them and leaves the log empty, and a drain that cannot clear the log returns
    nothing and leaves every entry for the next one. *)
Theorem walk_log_lossless (d : disk) (entries : list json) (e : WalkSummaryEntry) :
  log_is d entries -> forallb isValidWalkSummaryEntry entries = true ->
  fst (getItem STORAGE_KEYS.WALK_SUMMARY d) <> None ->
  (let (ok, d') := appendWalkSummaryEntry e d in
   (ok = Some true
    /\ log_is d' (slice_last MAX_WALK_SUMMARY_ENTRIES (entries ++ [enc_summary_entry e])))
   \/ (ok = Some false /\ log_is d' entries))
  /\ (let (r, d') := drainWalkSummary d in
      (r = Some entries /\ log_is d' [])
      \/ (r = Some [] /\ log_is d' entries)).
Proof.
  intros L V G%key_readable_item. split.
  - destruct (append_record_log d entries (enc_summary_entry e) L V) as [A B].
    unfold appendWalkSummaryEntry. unfold append_outcome, relogged in *. rewrite G in B. cbn [snd] in *.
    destruct (append_record _ d) as [[[]|] d']; cbn [fst snd default from_option id] in *; auto.
  - pose proof (drain_log d entries L V) as D. destruct (drainWalkSummary d). tauto.
Qed.

(** Text that does not parse is not cleared by [loadWalkSummary]. *)
Theorem unparsable_log_kept (d : disk) :
  contents d STORAGE_KEYS.WALK_SUMMARY = Some TBad ->
  let (r, d') := loadWalkSummary d in r = Some [] /\ same_contents d d'.
Proof.
  intros B. unfold loadWalkSummary, try_catch, bind at 1.
  destruct (getItem_cases STORAGE_KEYS.WALK_SUMMARY d) as [G S].
  destruct (getItem STORAGE_KEYS.WALK_SUMMARY d) as [o d1]. cbn [fst snd] in *.
  destruct G as [-> | ->]; [rewrite B|]; (split; [reflexivity | exact S]).
Qed.

End Laws.

(** ** An implementation of the interface *)

(** A map of stored values and a schedule of failures: each call consumes one entry,
    and fails if it is [true]. *)
Record Memory := mkMemory { mem : gmap string Text; faults : list bool }.

Definition next_fault (m : Memory) : bool * Memory :=
  match faults m with
  | [] => (false, m)
  | f :: fs => (f, mkMemory (mem m) fs)
  end.

#[export] Instance memory_storage : AsyncStorage := {|
  disk := Memory;
  contents m k := mem m !! k;
  multiSet kvs m :=
    let (f, m) := next_fault m in
    if f then (false, m)
    else (true, mkMemory (fold_left (fun x kv => <[fst kv := snd kv]> x) kvs (mem m)) (faults m));
  multiGet ks m :=
    let (f, m) := next_fault m in
    if f then (None, m) else (Some ((fun k => mem m !! k) <$> ks), m);
  multiRemove ks m :=
    let (f, m) := next_fault m in
    if f then (false, m)
    else (true, mkMemory (fold_left (fun x k => delete k x) ks (mem m)) (faults m))
|}.

Lemma fold_insert_lookup (kvs : list (string * Text)) (m : gmap string Text) k :
  fold_left (fun x kv => <[fst kv := snd kv]> x) kvs m !! k = written kvs k (m !! k).
Proof.
  unfold written. induction kvs as [|[k0 v0] kvs IH] using rev_ind; [reflexivity|].
  rewrite fold_left_app, rev_unit. simpl. destruct (decide (k0 = k)) as [->|N].
  - apply lookup_insert_eq.
  - rewrite lookup_insert_ne by exact N. exact IH.
Qed.

Lemma fold_delete_lookup (ks : list string) (m : gmap string Text) k :
  fold_left (fun x k => delete k x) ks m !! k = if decide (k ∈ ks) then None else m !! k.
Proof.
  revert m. induction ks as [|k0 ks IH]; intros m; cbn [fold_left].
  - rewrite decide_False by apply not_elem_of_nil. reflexivity.
  - rewrite IH. destruct (decide (k ∈ ks)) as [Hin|N].
    + rewrite decide_True by (apply elem_of_cons; auto). reflexivity.
    + destruct (decide (k0 = k)) as [->|N'].
      * rewrite decide_True by (apply elem_of_cons; auto). apply lookup_delete_eq.
      * rewrite decide_False by (rewrite elem_of_cons; intros [|]; congruence).
        apply lookup_delete_ne, N'.
Qed.

Lemma next_fault_mem m : mem (snd (next_fault m)) = mem m.
Proof. unfold next_fault. destruct (faults m); reflexivity. Qed.

#[export] Instance memory_laws : AsyncStorageLaws.
Proof.
  constructor; simpl.
  - intros kvs d k. pose proof (next_fault_mem d) as M. destruct (next_fault d) as [[] m];
      [discriminate|]. intros _. simpl in *. rewrite <- M. apply fold_insert_lookup.
  - intros kvs d k. pose proof (next_fault_mem d) as M. destruct (next_fault d) as [[] m];
      [|discriminate]. intros _. simpl in *. rewrite M. reflexivity.
  - intros ks d vs. pose proof (next_fault_mem d) as M. destruct (next_fault d) as [[] m];
      [discriminate|]. simpl in *. rewrite M. intros [= <-]. reflexivity.
  - intros ks d k. pose proof (next_fault_mem d) as M. destruct (next_fault d) as [[] m];
      simpl in *; rewrite M; reflexivity.
  - intros ks d k. pose proof (next_fault_mem d) as M. destruct (next_fault d) as [[] m];
      [discriminate|]. intros _. simpl in *. rewrite <- M. apply fold_delete_lookup.
  - intros ks d k. pose proof (next_fault_mem d) as M. destruct (next_fault d) as [[] m];
      [|discriminate]. intros _. simpl in *. rewrite M. reflexivity.
Qed.

(** ** Concrete inputs *)

Definition fresh_disk (fs : list bool) : @disk memory_storage := mkMemory ∅ fs.

Definition saved_disk (fs : list bool) (now : Z) : @disk memory_storage :=
  mkMemory (mem (snd (savePlayerData sample_data now (fresh_disk [])))) fs.

Lemma save_load_roundtrip_witness :
  let d' := snd (savePlayerData (toJSON sample_player) 5000 (fresh_disk [])) in
  exists j, fst (readLocalPlayerSnapshot d') = Some (Some j, Some (num 5000))
    /\ fromJSON <$> dec_player j = Some sample_player
    /\ same_contents d' (snd (readLocalPlayerSnapshot d')).
Proof.
  pose proof (save_load_roundtrip sample_player 5000 (fresh_disk []) sample_player_wf) as W.
  vm_compute savePlayerData in W |- *. simpl in W |- *. apply W; [reflexivity | discriminate].
Defined.

Definition older_data : PlayerData := toJSON (setLevel sample_player 2).

Lemma reconcile_safe_witness :
  let (r, d') := reconcileCloudPlayerData (found (mkCloudRecord (enc_player older_data) 4000))
                   (saved_disk [] 5000) in
  match r with
  | None => False
  | Some recUnavailable =>
      same_contents (saved_disk [] 5000) d'
      /\ (found (mkCloudRecord (enc_player older_data) 4000) = unavailable
          \/ exists c, found (mkCloudRecord (enc_player older_data) 4000) = found c
                       /\ isValidPlayerData (cr_playerData c) = false)
  | Some noNewerCloud =>
      same_contents (saved_disk [] 5000) d'
      /\ (found (mkCloudRecord (enc_player older_data) 4000) = empty
          \/ exists c, found (mkCloudRecord (enc_player older_data) 4000) = found c
                       /\ cr_lastSavedAt c <= 5000)
  | Some (adopted j) =>
      exists c, found (mkCloudRecord (enc_player older_data) 4000) = found c
        /\ j = cr_playerData c /\ isValidPlayerData j = true /\ 5000 < cr_lastSavedAt c
        /\ (same_contents (saved_disk [] 5000) d'
            \/ contents d' STORAGE_KEYS.PLAYER_DATA = Some (TJson j)
               /\ contents d' STORAGE_KEYS.PLAYER_SAVED_AT = Some (TJson (jint (cr_lastSavedAt c))))
  end.
Proof.
  apply (reconcile_safe (found (mkCloudRecord (enc_player older_data) 4000)) (saved_disk [] 5000)
           (enc_player sample_data) 5000); vm_compute; (reflexivity || discriminate).
Defined.

Definition sample_entry : WalkSummaryEntry :=
  mkWalkSummaryEntry "Alley Cur" common true 12 None 900.

Lemma walk_log_lossless_witness :
  (let (ok, d') := appendWalkSummaryEntry sample_entry (fresh_disk []) in
   (ok = Some true
    /\ log_is d' (slice_last MAX_WALK_SUMMARY_ENTRIES ([] ++ [enc_summary_entry sample_entry])))
   \/ (ok = Some false /\ log_is d' []))
  /\ (let (r, d') := drainWalkSummary (fresh_disk []) in
      (r = Some [] /\ log_is d' []) \/ (r = Some [] /\ log_is d' [])).
Proof.
  apply (walk_log_lossless (fresh_disk []) [] sample_entry);
    [left; reflexivity | reflexivity | vm_compute; discriminate].
Defined.

(** ** Faults the handlers mistake for corruption *)

(** A read that merely fails destroys the save.  [readLocalPlayerSnapshot] treats
    every exception as unparsable data: one failed read of a valid save clears it, and
    a reconciliation during which that read fails adopts a cloud record older than the
    local save it has just erased. *)
Theorem failed_read_erases_save :
  (** a valid save, timestamp 9000, and a single failing read *)
  let d := saved_disk [true] 9000 in
  let cloud := found (mkCloudRecord (enc_player older_data) 1000) in
  contents d STORAGE_KEYS.PLAYER_SAVED_AT = Some (TJson (jint 9000))
  /\ contents (snd (readLocalPlayerSnapshot d)) STORAGE_KEYS.PLAYER_DATA = None
  /\ fst (reconcileCloudPlayerData cloud d) = Some (adopted (enc_player older_data))
  /\ contents (snd (reconcileCloudPlayerData cloud d)) STORAGE_KEYS.PLAYER_SAVED_AT
     = Some (TJson (jint 1000)).
Proof. vm_compute. auto. Qed.

(** A failed read during an append overwrites the log with the one new entry. *)
Theorem failed_read_drops_log :
  let d0 := snd (appendWalkSummaryEntry sample_entry
                   (snd (appendWalkSummaryEntry sample_entry (fresh_disk [])))) in
  let d : @disk memory_storage := mkMemory (mem d0) [true] in
  log_is d [enc_summary_entry sample_entry; enc_summary_entry sample_entry]
  /\ fst (appendWalkSummaryEntry sample_entry d) = Some true
  /\ log_is (snd (appendWalkSummaryEntry sample_entry d)) [enc_summary_entry sample_entry].
Proof. split; [right; reflexivity | split; [reflexivity | right; reflexivity]]. Qed.

(** [clearAllData] leaves the walk log behind. *)
Theorem clearAllData_keeps_walk_log `{AsyncStorageLaws} (d : disk) :
  let (r, d') := clearAllData d in
  contents d' STORAGE_KEYS.WALK_SUMMARY = contents d STORAGE_KEYS.WALK_SUMMARY
  /\ contents d' STORAGE_KEYS.BATTERY_PROMPT_SHOWN = contents d STORAGE_KEYS.BATTERY_PROMPT_SHOWN.
Proof.
  unfold clearAllData, try_catch, bind, io_remove, ret. set (ks := [_; _; _; _; _; _; _]).
  pose proof (multiRemove_ok ks d) as A. pose proof (multiRemove_err ks d) as B.
  destruct (multiRemove ks d) as [[] d']; cbn [fst snd] in *.
  - rewrite !A by reflexivity. split; reflexivity.
  - rewrite !B by reflexivity. split; reflexivity.
Qed.
