(* ===== verification/WalkLog.v ===== *)
(** * The walk-summary write chain

    [src/utils/storage.ts] serialises the read-modify-write of
    [appendWalkSummaryEntry] and the read-and-clear of [drainWalkSummary] through the
    promise chain [walkSummaryWriteChain].  Here the two storage calls of a task are
    separate steps, other storage traffic may happen between them, and any read or write
    may fail; the theorem is that the machine implements a log on which appends and drains
    are atomic, in the order they were called, and on which an append that could not read
    starts a new log, as [loadWalkSummary] answers a failed read with an empty list. *)
From stdpp Require Import base decidable strings list relations.
From Stdlib Require Import ZArith Lia.
From S2P Require Import Prelude Json Storage.

Inductive Task := TAppend (e : WalkSummaryEntry) | TDrain.

Section Chain.
Context `{AsyncStorageLaws}.

(** What became of the storage calls of a task: whether its read and its write succeeded. *)
Record Outcome := mkOutcome { oc_read : bool; oc_write : bool }.

(** The disk; the tasks called and not yet started, oldest first; the task under way
    with the success of its read and the entries it has loaded; the results of the drains;
    and, to state the specification, the tasks called so far and those finished with their
    outcome. *)
Record Chain := mkChain {
  ch_disk : disk;
  ch_queue : list Task;
  ch_running : option (Task * bool * list json);
  ch_results : list (list json);
  ch_called : list Task;
  ch_done : list (Task * Outcome)
}.

(** The second half of a task, with its outcome: whether it succeeded, and what a
    drain returns. *)
Definition finish (t : Task) (existing : list json) (d : disk)
    : bool * list (list json) * disk :=
  match t with
  | TAppend e =>
      let next := slice_last MAX_WALK_SUMMARY_ENTRIES (existing ++ [enc_summary_entry e]) in
      let (r, d') := setItem STORAGE_KEYS.WALK_SUMMARY (TJson (JArr next)) d in
      (bool_decide (r = Some tt), [], d')
  | TDrain =>
      match existing with
      | [] => (true, [[]], d)
      | _ =>
          let (r, d') := removeItem STORAGE_KEYS.WALK_SUMMARY d in
          if bool_decide (r = Some tt) then (true, [existing], d') else (false, [[]], d')
      end
  end.

Inductive chain_step : Chain -> Chain -> Prop :=
  | chain_call c t :
      chain_step c (mkChain (ch_disk c) (ch_queue c ++ [t]) (ch_running c) (ch_results c)
                      (ch_called c ++ [t]) (ch_done c))
  | chain_start c t q existing d' :
      ch_running c = None -> ch_queue c = t :: q ->
      loadWalkSummary (ch_disk c) = (Some existing, d') ->
      chain_step c (mkChain d' q (Some (t, key_readable STORAGE_KEYS.WALK_SUMMARY (ch_disk c), existing))
                      (ch_results c) (ch_called c) (ch_done c))
  | chain_finish c t read existing ok out d' :
      ch_running c = Some (t, read, existing) ->
      finish t existing (ch_disk c) = (ok, out, d') ->
      chain_step c (mkChain d' (ch_queue c) None (ch_results c ++ out) (ch_called c)
                      (ch_done c ++ [(t, mkOutcome read ok)]))
  | chain_other c d' :
      contents d' STORAGE_KEYS.WALK_SUMMARY = contents (ch_disk c) STORAGE_KEYS.WALK_SUMMARY ->
      chain_step c (mkChain d' (ch_queue c) (ch_running c) (ch_results c) (ch_called c) (ch_done c)).

(** ** Specification: an atomic log *)

Definition spec_task (st : list json * list (list json)) (task : Task * Outcome)
    : list json * list (list json) :=
  let (log, results) := st in
  match task with
  | (TAppend e, mkOutcome read true) =>
      (slice_last MAX_WALK_SUMMARY_ENTRIES ((if read then log else []) ++ [enc_summary_entry e]), results)
  | (TAppend _, mkOutcome _ false) => (log, results)
  | (TDrain, mkOutcome true true) => ([], results ++ [log])
  | (TDrain, mkOutcome _ _) => (log, results ++ [[]])
  end.

Definition spec_run (tasks : list (Task * Outcome)) : list json * list (list json) :=
  fold_left spec_task tasks ([], []).

(** ** The simulation *)

Record simulates (c : Chain) (log : list json) : Prop := {
  sim_disk : log_is (ch_disk c) log;
  sim_valid : forallb isValidWalkSummaryEntry log = true;
  sim_spec : spec_run (ch_done c) = (log, ch_results c);
  sim_order : ch_called c
    = (fst <$> ch_done c) ++ option_list (fst <$> (fst <$> ch_running c)) ++ ch_queue c;
  sim_loaded : forall t read existing, ch_running c = Some (t, read, existing) ->
    existing = if read : bool then log else []
}.

Lemma slice_valid log e : forallb isValidWalkSummaryEntry log = true ->
  forallb isValidWalkSummaryEntry
    (slice_last MAX_WALK_SUMMARY_ENTRIES (log ++ [enc_summary_entry e])) = true.
Proof.
  intros V. apply forallb_drop. rewrite forallb_app, V. simpl.
  rewrite valid_enc_summary. reflexivity.
Qed.

Lemma finish_sim t (read : bool) log d ok out d' :
  log_is d log -> forallb isValidWalkSummaryEntry log = true ->
  finish t (if read then log else []) d = (ok, out, d') ->
  forall results, let (log', results') := spec_task (log, results) (t, mkOutcome read ok) in
  log_is d' log' /\ forallb isValidWalkSummaryEntry log' = true /\ results' = results ++ out.
Proof.
  intros L V F results. destruct t as [e|]; cbn [finish] in F.
  - set (next := slice_last _ _) in *.
    destruct (setItem_cases STORAGE_KEYS.WALK_SUMMARY (TJson (JArr next)) d) as [[E C]|[E C]];
      destruct (setItem _ _ d) as [r d1]; cbn [fst snd] in *; subst r;
      injection F as <- <- <-; cbn; rewrite app_nil_r.
    + split; [|split; [apply slice_valid; destruct read; [exact V | reflexivity] | reflexivity]].
      right. rewrite C, decide_True by reflexivity. reflexivity.
    + split; [|auto]. unfold log_is. rewrite C. exact L.
  - destruct read; [|injection F as <- <- <-; cbn; auto]. destruct log as [|x l].
    + injection F as <- <- <-. cbn. auto.
    + destruct (removeItem_cases STORAGE_KEYS.WALK_SUMMARY d) as [[E C]|[E C]];
        destruct (removeItem _ d) as [r d1]; cbn [fst snd] in *; subst r;
        cbn in F; injection F as <- <- <-; cbn.
      * split; [|auto]. left. rewrite C, decide_True by reflexivity. reflexivity.
      * split; [|auto]. unfold log_is. rewrite C. exact L.
Qed.

Lemma chain_step_sim c c' log :
  chain_step c c' -> simulates c log -> exists log', simulates c' log'.
Proof.
  intros St [D V S O R].
  destruct St as [c t | c t q existing d' Hr Hq Hl | c t read existing ok out d' Hr F | c d' Hc].
  - exists log. constructor; cbn; auto. rewrite O, <- !app_assoc. reflexivity.
  - exists log. rewrite (loadWalkSummary_reads _ log D V) in Hl. injection Hl as <- <-.
    constructor; cbn; auto.
    + apply (log_is_same (ch_disk c)); [apply getItem_same | exact D].
    + rewrite O, Hr, Hq. reflexivity.
    + intros ? ? ? [= _ <- <-]. reflexivity.
  - pose proof (R _ _ _ Hr) as ->. pose proof (finish_sim t read log _ ok out d' D V F (ch_results c)) as P.
    destruct (spec_task (log, ch_results c) (t, mkOutcome read ok)) as [log' results'] eqn:E.
    destruct P as (P1 & P2 & ->). exists log'. constructor; cbn; auto.
    + unfold spec_run in *. rewrite fold_left_app, S. exact E.
    + rewrite O, Hr, fmap_app. simpl. rewrite <- app_assoc. reflexivity.
    + discriminate.
  - exists log. constructor; cbn; auto. unfold log_is. rewrite Hc. exact D.
Qed.

Definition initial_chain (d : disk) : Chain := mkChain d [] None [] [] [].

Lemma initial_sim d : contents d STORAGE_KEYS.WALK_SUMMARY = None -> simulates (initial_chain d) [].
Proof.
  intros E. constructor; try reflexivity; [left; exact E | discriminate].
Qed.

(** C13: the write chain makes the log atomic.  From a store without a log on, however
    calls, storage steps, failures of reads and writes and unrelated storage traffic
    interleave, the tasks finish in the order they were called, and the stored log and the
    results of all drains are exactly those of an atomic log ([spec_run]) that executes the
    finished tasks one after the other.  A task whose write failed leaves that log as it
    is; an append whose read failed starts it over with its own entry, and a drain whose
    read failed takes nothing; all others append to it or take all of it, so nothing is
    lost between a drain's read and its clear. *)
Theorem chain_refines_atomic_log (d : disk) (c : Chain) :
  contents d STORAGE_KEYS.WALK_SUMMARY = None ->
  rtc chain_step (initial_chain d) c ->
  exists log, log_is (ch_disk c) log
    /\ spec_run (ch_done c) = (log, ch_results c)
    /\ ch_called c = (fst <$> ch_done c) ++ option_list (fst <$> (fst <$> ch_running c)) ++ ch_queue c.
Proof.
  intros E R. assert (Sim : exists log, simulates c log).
  { revert R. generalize (ex_intro _ [] (initial_sim d E) : exists log, simulates (initial_chain d) log).
    generalize (initial_chain d). intros c0 S0 R.
    induction R as [|c1 c2 c3 St _ IH]; [exact S0|].
    apply IH. destruct S0 as [log S0]. apply (chain_step_sim _ _ _ St S0). }
  destruct Sim as [log []]. eauto.
Qed.

End Chain.

Lemma chain_refines_atomic_log_witness :
  let c := @mkChain memory_storage
    (snd (appendWalkSummaryEntry sample_entry (fresh_disk []))) [TDrain] None []
    [TAppend sample_entry; TDrain] [(TAppend sample_entry, mkOutcome true true)] in
  exists log, log_is (ch_disk c) log
    /\ spec_run (ch_done c) = (log, ch_results c)
    /\ ch_called c = (fst <$> ch_done c) ++ option_list (fst <$> (fst <$> ch_running c)) ++ ch_queue c.
Proof.
  intros c. apply (chain_refines_atomic_log (fresh_disk [])); [reflexivity|].
  eapply rtc_l; [apply (chain_call _ (TAppend sample_entry))|].
  eapply rtc_l; [apply (chain_call _ TDrain)|].
  eapply rtc_l; [eapply chain_start; [reflexivity | reflexivity | reflexivity]|].
  eapply rtc_l; [eapply chain_finish; [reflexivity | reflexivity]|].
  apply rtc_refl.
Defined.
