(* ===== verification/PlayerSession.v ===== *)
(** * The player session

    [src/hooks/usePlayer.ts]: loading the local save, painting it, reconciling it with
    the cloud after the first paint, creating a character, and saving.

    Each [await] ends a step: what the function does next is a [Task] that an event
    resumes, in any order the events choose.  Reconciliations are promises, numbered in
    the order they are started; [EvSettle] settles one with what the cloud answered.  A
    storage call takes effect when it is made, or fails; what follows it is a task of its
    own, so that a save calls the cloud only when it is resumed.  React state is the value
    last set, and [EvRender] runs the effects whose dependencies changed. *)
From stdpp Require Import base decidable strings list gmap.
From Stdlib Require Import ZArith QArith Lia.
From S2P Require Import Prelude JsNumber Archetype Player Json CloudSync Storage.
Local Open Scope Z_scope.

Definition ARCHETYPE_CLOUD_RETRIES : nat := 2.

(** A player object: its identity, which React compares, and its value. *)
Record PlayerObj := mkPlayerObj { po_id : nat; po_player : Player }.

(** What a deferred commit does when it fires. *)
Inductive Commit :=
  | CommitArchetype (generation : Z)
  | CommitLoaded (generation : Z)
  | CommitCreated.

(** The one deferred commit that is armed, and whether its zero timeout is. *)
Record PendingCommit := mkPendingCommit { pc_commit : Commit; pc_timer : bool }.

Record PlayerHook := mkHook {
  h_player : option PlayerObj;
  h_needsArchetypeSelection : bool;
  h_repaintToken : Z;
  h_playerRef : option PlayerObj;
  h_pendingCommit : option PendingCommit;
  h_initGeneration : Z;
  h_cloudCheck : option nat;
  h_provisional : bool;
  h_reconciledGeneration : Z;
  h_needsArchetypeRef : bool;
  h_effectDeps : option (option nat * bool)
}.

#[export] Instance PlayerHook_fields : Fields PlayerHook := fun h =>
  mkHook (h_player h) (h_needsArchetypeSelection h) (h_repaintToken h) (h_playerRef h)
    (h_pendingCommit h) (h_initGeneration h) (h_cloudCheck h) (h_provisional h)
    (h_reconciledGeneration h) (h_needsArchetypeRef h) (h_effectDeps h).

Definition initial_hook : PlayerHook :=
  mkHook None false 0 None None 0 None false (-1) false None.

(** Suspended functions, each with what it captured. *)
Inductive Task :=
  | InitRead (generation : Z) (snapshot : option (option json * option Q))
  | EffectThen (generation : Z) (promise : nat)
  | SelectCheck (generation : Z) (archetype : Archetype) (promise : nat)
  | SelectDelay (generation : Z) (archetype : Archetype) (i : nat)
  | SelectRetry (generation : Z) (archetype : Archetype) (i promise : nat)
  | SelectSaved (up : option (PlayerData * Z))
  | SaveLocal (up : option (PlayerData * Z)).

Section Session.
Context `{AsyncStorage}.

(** The hook, the tasks that wait, the reconciliations started so far with the results
    of the settled ones, the calls of [CloudSyncService.savePlayerData], the players whose
    local write failed (which is only logged), and the world around. *)
Record World := mkWorld {
  hook : PlayerHook;
  tasks : list Task;
  promises : list (option ReconcileResult);
  uploads : list (PlayerData * Z);
  saveErrors : list PlayerData;
  appActive : bool;
  wdisk : disk;
  nextPlayer : nat
}.

#[global] Instance World_fields : Fields World := fun w =>
  mkWorld (hook w) (tasks w) (promises w) (uploads w) (saveErrors w) (appActive w) (wdisk w) (nextPlayer w).

Definition launch (active : bool) (d : disk) : World := mkWorld initial_hook [] [] [] [] active d 0.

(** ** Deferred commits *)

(** [commitWhenActive], after the previous commit is unsubscribed. *)
Definition arm (c : Commit) (h : PlayerHook) : PlayerHook :=
  h <| h_pendingCommit := Some (mkPendingCommit c true) |>.

(** The tail shared by the commits that show the player. *)
Definition show_player (h : PlayerHook) : PlayerHook :=
  match h_playerRef h with
  | Some po => h <| h_player := Some po |> <| h_needsArchetypeSelection := false |>
  | None => h
  end.

Definition fire (c : Commit) (h : PlayerHook) : PlayerHook :=
  let h := h <| h_pendingCommit := None |> in
  match c with
  | CommitArchetype g =>
      if g =? h_initGeneration h then h <| h_needsArchetypeSelection := true |> else h
  | CommitLoaded g => if g =? h_initGeneration h then show_player h else h
  | CommitCreated => show_player h
  end.

(** The zero timeout of the armed commit. *)
Definition commit_timer (active : bool) (h : PlayerHook) : PlayerHook :=
  match h_pendingCommit h with
  | Some (mkPendingCommit c true) =>
      if active then fire c h else h <| h_pendingCommit := Some (mkPendingCommit c false) |>
  | _ => h
  end.

(** The retry made on every transition to the foreground. *)
Definition reassert (h : PlayerHook) : PlayerHook :=
  let h :=
    match h_playerRef h with
    | Some po => h <| h_player := Some po |> <| h_needsArchetypeSelection := false |>
    | None => if h_needsArchetypeRef h then h <| h_needsArchetypeSelection := true |> else h
    end in
  h <| h_repaintToken := h_repaintToken h + 1 |>.

(** The listeners of an [AppState] change, in the order they subscribed. *)
Definition app_state (active : bool) (w : World) : World :=
  let w := w <| appActive := active |> in
  if active then
    let h := reassert (hook w) in
    w <| hook := match h_pendingCommit h with Some pc => fire (pc_commit pc) h | None => h end |>
  else w.

(** ** Saving *)

Definition wait (t : Task) (w : World) : World := w <| tasks := tasks w ++ [t] |>.

(** [savePlayerData(p)] of [storage.ts] up to its [await]: the local write, and what the
    cloud will be given after it; when the write fails, the error is logged and it is given
    nothing. *)
Definition begin_save (now : Z) (p : Player) (w : World) : World * option (PlayerData * Z) :=
  let (r, d) := savePlayerData (toJSON p) now (wdisk w) in
  let up : option (PlayerData * Z) := r ≫= snd in
  (w <| wdisk := d |> <| saveErrors := saveErrors w ++ match up with Some _ => [] | None => [toJSON p] end |>, up).

(** After the [await]: [CloudSyncService.savePlayerData] is called. *)
Definition upload (up : option (PlayerData * Z)) (w : World) : World :=
  w <| uploads := uploads w ++ option_list up |>.

(** A save nobody waits for. *)
Definition save (now : Z) (p : Player) (w : World) : World :=
  let (w, up) := begin_save now p w in wait (SaveLocal up) w.

(** [writeLocalPlayerSnapshot(p.toJSON(), 0)], its rejection caught and logged. *)
Definition save_provisional (p : Player) (w : World) : World :=
  let written := writeLocalPlayerSnapshot (enc_player (toJSON p)) 0 (wdisk w) in
  w <| wdisk := snd written |>
    <| saveErrors := saveErrors w ++ match fst written with Some _ => [] | None => [toJSON p] end |>.

(** A new player object in [playerRef]. *)
Definition put_player (p : Player) (w : World) : World * PlayerObj :=
  let po := mkPlayerObj (nextPlayer w) p in
  (w <| hook := (hook w) <| h_playerRef := Some po |> |> <| nextPlayer := S (nextPlayer w) |>, po).

Definition setPlayerAndSave (now : Z) (updated : Player) (w : World) : World :=
  let (w, po) := put_player updated w in
  let w := w <| hook := (hook w) <| h_player := Some po |> |> in
  if h_provisional (hook w) then save_provisional updated w else save now updated w.

Definition clearPlayer (w : World) : World :=
  let h := hook w in
  w <| hook := h <| h_initGeneration := h_initGeneration h + 1 |> <| h_pendingCommit := None |>
         <| h_playerRef := None |> <| h_cloudCheck := None |> <| h_provisional := false |>
         <| h_player := None |> <| h_needsArchetypeSelection := false |> |>.

(** ** Loading *)

(** Up to the [await]: the read is issued here. *)
Definition initializePlayer (w : World) : World :=
  let h := hook w in
  let myGeneration := h_initGeneration h + 1 in
  let (r, d) := readLocalPlayerSnapshot (wdisk w) in
  wait (InitRead myGeneration r)
    (w <| hook := h <| h_initGeneration := myGeneration |> |> <| wdisk := d |>).

(** [localSavedAt === 0] *)
Definition is_zero (n : option Q) : bool := match n with Some q => Qeq_bool q 0 | None => false end.

(** [Player.fromJSON] of a stored record; [None] when it is not one the app wrote. *)
Definition load_player (j : json) : option Player := fromJSON <$> dec_player j.

(** [initializePlayer] once the snapshot is read ([None]: the read rejected). *)
Definition init_loaded (myGeneration : Z) (r : option (option json * option Q)) (w : World)
    : option World :=
  if negb (myGeneration =? h_initGeneration (hook w)) then Some w
  else
    match r with
    | Some (Some localData, localSavedAt) =>
        playerToSet ← load_player localData;
        let w := w <| hook := (hook w) <| h_provisional := is_zero localSavedAt |> |> in
        let (w, _) := put_player playerToSet w in
        Some (w <| hook := arm (CommitLoaded myGeneration) (hook w) |>)
    | Some (None, _) =>
        Some (w <| hook := arm (CommitArchetype myGeneration)
                             ((hook w) <| h_provisional := false |>) |>)
    | None => Some (w <| hook := arm (CommitArchetype myGeneration) (hook w) |>)
    end.

(** ** Reconciliation *)

(** [reconcileCloudPlayerData()]: the promise it returns. *)
Definition start_reconcile (w : World) : World * nat :=
  (w <| promises := promises w ++ [None] |>, length (promises w)).

(** The cloud read of promise [n] completes; the local half of the reconciliation runs. *)
Definition settle (n : nat) (cloud : CloudLoad) (w : World) : World :=
  match promises w !! n with
  | Some None =>
      let (r, d) := reconcileCloudPlayerData cloud (wdisk w) in
      w <| promises := <[n := Some (default recUnavailable r)]> (promises w) |> <| wdisk := d |>
  | _ => w
  end.

Definition deps (h : PlayerHook) : option nat * bool :=
  (po_id <$> h_player h, h_needsArchetypeSelection h).

(** The post-paint effect. *)
Definition reconcile_effect (w : World) : World :=
  let h := hook w in
  if bool_decide (h_effectDeps h = Some (deps h)) then w
  else
    let w := w <| hook := h <| h_effectDeps := Some (deps h) |> |> in
    if bool_decide (deps h = (None, false)) then w
    else
      let gen := h_initGeneration h in
      if h_reconciledGeneration h =? gen then w
      else
        let (w, n) := start_reconcile w in
        wait (EffectThen gen n)
          (w <| hook := (hook w) <| h_reconciledGeneration := gen |> <| h_cloudCheck := Some n |> |>).

(** The effects of a render, in order. *)
Definition render (w : World) : World :=
  let h := hook w in
  reconcile_effect (w <| hook := h <| h_needsArchetypeRef := h_needsArchetypeSelection h |> |>).

(** A cloud record becomes the live player. *)
Definition adopt (cloudPlayer : Player) (w : World) : World :=
  let (w, po) := put_player cloudPlayer w in
  w <| hook := (hook w) <| h_provisional := false |> <| h_player := Some po |>
                 <| h_needsArchetypeSelection := false |> |>.

Definition effect_then (now : Z) (gen : Z) (result : ReconcileResult) (w : World) : option World :=
  if negb (gen =? h_initGeneration (hook w)) then Some w
  else
    match result with
    | adopted data => cloudPlayer ← load_player data; Some (adopt cloudPlayer w)
    | noNewerCloud =>
        match h_playerRef (hook w) with
        | Some po =>
            if h_provisional (hook w)
            then Some (save now (po_player po) (w <| hook := (hook w) <| h_provisional := false |> |>))
            else Some w
        | None => Some w
        end
    | recUnavailable => Some w
    end.

(** ** Choosing an archetype *)

Definition handleArchetypeSelected (archetype : Archetype) (w : World) : World :=
  let gen := h_initGeneration (hook w) in
  match h_cloudCheck (hook w) with
  | Some n => wait (SelectCheck gen archetype n) w
  | None =>
      let (w, n) := start_reconcile w in
      wait (SelectCheck gen archetype n)
        (w <| hook := (hook w) <| h_reconciledGeneration := gen |> <| h_cloudCheck := Some n |> |>)
  end.

(** [new Player({ archetype })] *)
Definition fresh_player (archetype : Archetype) : Player :=
  new_Player {| pp_id := None; pp_name := None; pp_level := None; pp_experience := None;
    pp_attack := None; pp_defense := None; pp_hp := None; pp_maxHp := None;
    pp_totalDistance := None; pp_totalEncounters := None; pp_creaturesDefeated := None;
    pp_combatTurnsTaken := None; pp_equipment := None; pp_inventory := None;
    pp_archetype := Some archetype; pp_str := None; pp_agi := None; pp_int := None |}.

(** After the retries: adopt, leave, or create. *)
Definition select_finish (now : Z) (archetype : Archetype) (result : ReconcileResult) (w : World)
    : option World :=
  match h_playerRef (hook w), result with
  | Some _, _ => Some w
  | None, adopted data => cloudPlayer ← load_player data; Some (adopt cloudPlayer w)
  | None, _ =>
      let newPlayer := fresh_player archetype in
      let (w, _) := put_player newPlayer w in
      match result with
      | recUnavailable =>
          Some (wait (SelectSaved None)
                  (save_provisional newPlayer (w <| hook := (hook w) <| h_provisional := true |> |>)))
      | _ =>
          let (w, up) := begin_save now newPlayer (w <| hook := (hook w) <| h_provisional := false |> |>) in
          Some (wait (SelectSaved up) w)
      end
  end.

(** The head of the retry loop, with [i] retries made. *)
Definition select_loop (now gen : Z) (archetype : Archetype) (i : nat) (result : ReconcileResult)
    (w : World) : option World :=
  match result with
  | recUnavailable =>
      if (i <? ARCHETYPE_CLOUD_RETRIES)%nat then Some (wait (SelectDelay gen archetype i) w)
      else select_finish now archetype result w
  | _ => select_finish now archetype result w
  end.

(** ** Events *)

(** The result a task waits for, once its promise has settled. *)
Definition result_of (n : nat) (w : World) : option ReconcileResult := mjoin (promises w !! n).

(** What a waiting task does when it resumes; a task whose promise is pending cannot. *)
Definition resume (now : Z) (t : Task) (w : World) : option World :=
  match t with
  | InitRead g r => init_loaded g r w
  | EffectThen g n =>
      match result_of n w with Some r => effect_then now g r w | None => Some (wait t w) end
  | SelectCheck g a n =>
      match result_of n w with
      | Some r => if g =? h_initGeneration (hook w) then select_loop now g a 0 r w else Some w
      | None => Some (wait t w)
      end
  | SelectDelay g a i =>
      if g =? h_initGeneration (hook w)
      then let (w, n) := start_reconcile w in Some (wait (SelectRetry g a i n) w)
      else Some w
  | SelectRetry g a i n =>
      match result_of n w with
      | Some r => if g =? h_initGeneration (hook w) then select_loop now g a (S i) r w else Some w
      | None => Some (wait t w)
      end
  | SelectSaved up => Some (upload up w <| hook := arm CommitCreated (hook w) |>)
  | SaveLocal up => Some (upload up w)
  end.

(** [EvSave f] is a save by another part of the app, which derives the new player from
    [playerRef] and does nothing without one; [EvSwitch] is the account switch of
    [useAuth], which clears the player and the local save and loads again. *)
Inductive PlayerEvent :=
  | EvInitialize
  | EvClear
  | EvSwitch
  | EvSave (f : Player -> Player)
  | EvSelect (archetype : Archetype)
  | EvAppState (active : bool)
  | EvCommitTimer
  | EvRender
  | EvSettle (promise : nat) (cloud : CloudLoad)
  | EvResume (task : nat).

Definition dispatch (now : Z) (ev : PlayerEvent) (w : World) : option World :=
  match ev with
  | EvInitialize => Some (initializePlayer w)
  | EvClear => Some (clearPlayer w)
  | EvSwitch =>
      let w := clearPlayer w in
      Some (initializePlayer (w <| wdisk := snd (clearLocalPlayerData (wdisk w)) |>))
  | EvSave f =>
      Some (match h_playerRef (hook w) with
            | Some po => setPlayerAndSave now (f (po_player po)) w
            | None => w
            end)
  | EvSelect a => Some (handleArchetypeSelected a w)
  | EvAppState active => Some (app_state active w)
  | EvCommitTimer => Some (w <| hook := commit_timer (appActive w) (hook w) |>)
  | EvRender => Some (render w)
  | EvSettle n cloud => Some (settle n cloud w)
  | EvResume k =>
      match tasks w !! k with
      | Some t => resume now t (w <| tasks := delete k (tasks w) |>)
      | None => Some w
      end
  end.

Fixpoint run (evs : list (Z * PlayerEvent)) (w : World) : option World :=
  match evs with
  | [] => Some w
  | (now, ev) :: evs => w ← dispatch now ev w; run evs w
  end.

End Session.

(** ** Lemmas *)

Lemma fresh_player_wf a : wf_player (fresh_player a).
Proof.
  destruct a; (constructor; [vm_compute; repeat split; discriminate .. | reflexivity | constructor
    | intros [] it Hit; discriminate | reflexivity | reflexivity | reflexivity | reflexivity]).
Qed.

Lemma load_saved p : wf_player p -> load_player (enc_player (toJSON p)) = Some p.
Proof.
  intros W. unfold load_player. rewrite dec_player_round. csimpl.
  rewrite from_to_JSON; [reflexivity | apply W | apply W].
Qed.

Section Unread.
Context `{AsyncStorageLaws}.

(** The local snapshot. *)
Definition stored (j : json) (t : Z) (d : disk) : Prop :=
  contents d STORAGE_KEYS.PLAYER_DATA = Some (TJson j)
  /\ contents d STORAGE_KEYS.PLAYER_SAVED_AT = Some (TJson (jint t)).

(** A write of the snapshot stores both values or changes nothing. *)
Lemma write_cases j t d :
  (fst (writeLocalPlayerSnapshot j t d) = Some tt /\ stored j t (snd (writeLocalPlayerSnapshot j t d)))
  \/ (fst (writeLocalPlayerSnapshot j t d) = None /\ same_contents d (snd (writeLocalPlayerSnapshot j t d))).
Proof.
  unfold writeLocalPlayerSnapshot, io_set. set (kvs := [_; _]).
  pose proof (multiSet_ok kvs d) as A. pose proof (multiSet_err kvs d) as B.
  destruct (multiSet kvs d) as [[] d']; cbn [fst snd] in *; [left | right]; (split; [reflexivity|]).
  - split; rewrite A by reflexivity; reflexivity.
  - intros k. apply B. reflexivity.
Qed.

(** The snapshot of a character that was never written to the cloud. *)
Definition unconfirmed (p : Player) (d : disk) : Prop := stored (enc_player (toJSON p)) 0 d.

Definition no_confirmed_save (d : disk) : Prop :=
  contents d STORAGE_KEYS.PLAYER_DATA = None \/ exists p, wf_player p /\ unconfirmed p d.

Lemma same_unconfirmed p d d' : same_contents d d' -> unconfirmed p d -> unconfirmed p d'.
Proof. intros S [A B]. split; rewrite S; assumption. Qed.

Lemma same_no_confirmed d d' : same_contents d d' -> no_confirmed_save d -> no_confirmed_save d'.
Proof.
  intros S [A | (p & W & U)]; [left; rewrite S; exact A | right].
  exists p. split; [exact W | exact (same_unconfirmed p d d' S U)].
Qed.

Lemma clear_no_confirmed d : no_confirmed_save d -> no_confirmed_save (snd (clearLocalPlayerData d)).
Proof.
  intros U. unfold clearLocalPlayerData, try_catch, io_remove, ret. set (ks := [_; _; _; _]).
  pose proof (multiRemove_ok ks d) as A. pose proof (multiRemove_err ks d) as B.
  destruct (multiRemove ks d) as [[] d']; cbn [fst snd] in *.
  - left. rewrite A by reflexivity. reflexivity.
  - apply (same_no_confirmed d); [intros k; apply B; reflexivity | exact U].
Qed.

(** What a read of an unconfirmed store can return: nothing, or the unconfirmed save. *)
Definition read_ok (r : option (option json * option Q)) : Prop :=
  r = Some (None, Some 0%Q) \/ exists p, wf_player p /\ r = Some (Some (enc_player (toJSON p)), Some (num 0)).

Lemma clear_resolves d : fst (clearLocalPlayerData d) = Some tt.
Proof.
  unfold clearLocalPlayerData, try_catch, io_remove, ret. destruct (multiRemove _ d) as [[] d']; reflexivity.
Qed.

(** A read that fails, or finds nothing valid, clears the local save. *)
Lemma read_failed d : fst (multiGet [STORAGE_KEYS.PLAYER_DATA; STORAGE_KEYS.PLAYER_SAVED_AT] d) = None ->
  exists d1, same_contents d d1 /\ readLocalPlayerSnapshot d = (Some (None, Some 0%Q), snd (clearLocalPlayerData d1)).
Proof.
  intros E. unfold readLocalPlayerSnapshot, try_catch, bind at 1 2, io_get.
  pose proof (multiGet_pure [STORAGE_KEYS.PLAYER_DATA; STORAGE_KEYS.PLAYER_SAVED_AT] d) as B.
  destruct (multiGet _ d) as [[vs|] d1]; cbn [fst snd] in *; [discriminate|].
  exists d1. split; [exact B|]. unfold bind, ret. pose proof (clear_resolves d1) as R.
  destruct (clearLocalPlayerData d1) as [o d2]. cbn in *. subst o. reflexivity.
Qed.

Lemma read_absent d : contents d STORAGE_KEYS.PLAYER_DATA = None ->
  fst (multiGet [STORAGE_KEYS.PLAYER_DATA; STORAGE_KEYS.PLAYER_SAVED_AT] d) <> None ->
  fst (readLocalPlayerSnapshot d) = Some (None, Some 0%Q)
  /\ same_contents d (snd (readLocalPlayerSnapshot d)).
Proof.
  intros N C. unfold readLocalPlayerSnapshot, try_catch, bind, io_get.
  set (ks := [_; _]) in *. pose proof (multiGet_ok ks d) as A. pose proof (multiGet_pure ks d) as B.
  destruct (multiGet ks d) as [[vs|] d1]; cbn [fst snd] in *; [|congruence].
  specialize (A vs eq_refl). subst vs. csimpl. rewrite N. csimpl. split; [reflexivity | exact B].
Qed.

Lemma read_unconfirmed d : no_confirmed_save d ->
  read_ok (fst (readLocalPlayerSnapshot d)) /\ no_confirmed_save (snd (readLocalPlayerSnapshot d)).
Proof.
  intros A. destruct (fst (multiGet [STORAGE_KEYS.PLAYER_DATA; STORAGE_KEYS.PLAYER_SAVED_AT] d)) eqn:E.
  - destruct A as [A | (p & W & U)].
    + destruct (read_absent d A) as [-> S]; [congruence|]. split; [left; reflexivity|].
      apply (same_no_confirmed d); [exact S | left; exact A].
    + destruct (read_snapshot d (enc_player (toJSON p)) (Some (TJson (jint 0)))) as [-> S];
        [apply U | apply valid_enc_player; destruct p; apply W | apply U | congruence|].
      split; [right; eauto|]. apply (same_no_confirmed d); [exact S | right; eauto].
  - destruct (read_failed d E) as (d1 & S & ->). split; [left; reflexivity|].
    apply clear_no_confirmed, (same_no_confirmed d); assumption.
Qed.

(** No task has a generation that is yet to come. *)
Definition task_gen_ok (h : PlayerHook) (t : Task) : Prop :=
  match t with
  | InitRead g _ | EffectThen g _ | SelectCheck g _ _ | SelectDelay g _ _ | SelectRetry g _ _ _ =>
      g <= h_initGeneration h
  | SelectSaved _ | SaveLocal _ => True
  end.

(** What the cloud is given when a task resumes. *)
Definition task_upload (t : Task) : option (PlayerData * Z) :=
  match t with SelectSaved up | SaveLocal up => up | _ => None end.

(** A task of a session without a cloud: a load read an unconfirmed store, and nothing
    waits to be uploaded. *)
Definition unread_task (t : Task) : Prop :=
  match t with InitRead _ r => read_ok r | _ => task_upload t = None end.

Definition silent (r : option ReconcileResult) : Prop := r = None \/ r = Some recUnavailable.

Record unread_ok (w : World) : Prop := {
  uo_disk : no_confirmed_save (wdisk w);
  uo_ref : forall po, h_playerRef (hook w) = Some po ->
    wf_player (po_player po) /\ h_provisional (hook w) = true;
  uo_uploads : uploads w = [];
  uo_promises : Forall silent (promises w);
  uo_tasks : Forall unread_task (tasks w)
}.

(** Steps that touch neither the player nor the stores. *)
Lemma unread_frame w w' : unread_ok w ->
  wdisk w' = wdisk w -> uploads w' = uploads w -> promises w' = promises w ->
  tasks w' = tasks w ->
  h_playerRef (hook w') = h_playerRef (hook w) -> h_provisional (hook w') = h_provisional (hook w) ->
  unread_ok w'.
Proof.
  intros [A B C D E] e1 e2 e3 e4 e6 e7. constructor; rewrite ?e1, ?e2, ?e3, ?e4, ?e6, ?e7; assumption.
Qed.

Lemma unread_wait w t : unread_ok w -> unread_task t -> unread_ok (wait t w).
Proof.
  intros [A B C D E] R. constructor; try assumption.
  apply Forall_app. split; [exact E | apply Forall_singleton, R].
Qed.

Lemma unread_start w : unread_ok w -> unread_ok (fst (start_reconcile w)).
Proof.
  intros [A B C D E]. constructor; try assumption.
  apply Forall_app. split; [exact D | apply Forall_singleton; left; reflexivity].
Qed.

Lemma unread_drop w k : unread_ok w -> unread_ok (w <| tasks := delete k (tasks w) |>).
Proof. intros [A B C D E]. constructor; try assumption. apply Forall_delete; assumption. Qed.

Ltac framed W := apply (unread_frame _ _ W); reflexivity.

(** A commit paints; it changes nothing the session is made of. *)
Definition keeps (h h' : PlayerHook) : Prop :=
  h_initGeneration h' = h_initGeneration h /\ h_playerRef h' = h_playerRef h
  /\ h_provisional h' = h_provisional h.

Lemma fire_keeps c h : keeps h (fire c h).
Proof. destruct h as [? ? ? [] ?], c; unfold keeps, fire, show_player; cbn; repeat case_match; auto. Qed.

Lemma commit_timer_keeps b h : keeps h (commit_timer b h).
Proof.
  unfold commit_timer. destruct (h_pendingCommit h) as [[c []]|];
    [destruct b; [apply fire_keeps|] | |]; repeat split.
Qed.

Lemma reassert_keeps h : keeps h (reassert h).
Proof. destruct h as [? ? ? [] ? ? ? ? ? []]; repeat split. Qed.

Lemma unread_keeps w h : unread_ok w -> keeps (hook w) h -> unread_ok (w <| hook := h |>).
Proof. intros W (_ & e2 & e3). apply (unread_frame _ _ W); try reflexivity; assumption. Qed.

Lemma app_state_ok b w : unread_ok w -> unread_ok (app_state b w).
Proof.
  intros W. unfold app_state. assert (W1 : unread_ok (w <| appActive := b |>)) by framed W.
  destruct b; [|exact W1]. apply unread_keeps; [exact W1|].
  destruct (reassert_keeps (hook w)) as (e1 & e2 & e3). cbn [hook assign] in *.
  destruct (h_pendingCommit _) as [pc|]; [|repeat split; assumption].
  destruct (fire_keeps (pc_commit pc) (reassert (hook w))) as (f1 & f2 & f3).
  repeat split; (etransitivity; [eassumption | assumption]).
Qed.

Lemma render_ok w : unread_ok w -> unread_ok (render w).
Proof.
  intros W. unfold render.
  match goal with |- context [reconcile_effect ?w0] =>
    assert (W0 : unread_ok w0) by framed W; generalize dependent w0 end.
  clear W w. intros w W. unfold reconcile_effect.
  case_bool_decide; [exact W|]. case_bool_decide; [framed W|].
  case_match; [framed W|]. apply unread_wait; [|reflexivity].
  assert (W1 := unread_start _ W). framed W1.
Qed.

Lemma clear_ok w : unread_ok w -> unread_ok (clearPlayer w).
Proof. intros [A B C D E]. constructor; try assumption. intros po [=]. Qed.

Lemma unread_store w d : unread_ok w -> no_confirmed_save d -> unread_ok (w <| wdisk := d |>).
Proof. intros [A B C D E] N. constructor; assumption. Qed.

Lemma initialize_ok w : unread_ok w -> unread_ok (initializePlayer w).
Proof.
  intros W. unfold initializePlayer. destruct (read_unconfirmed _ (uo_disk w W)) as [R N].
  destruct (readLocalPlayerSnapshot (wdisk w)) as [r d]. cbn [fst snd] in *.
  apply unread_wait; [|exact R]. apply unread_store; [framed W | exact N].
Qed.

Lemma settle_ok n w : unread_ok w -> unread_ok (settle n unavailable w).
Proof.
  intros W. unfold settle. case_match; [|exact W]. case_match; [exact W|].
  destruct W as [A B C D E]. constructor; try assumption.
  apply Forall_insert; [exact D | right; reflexivity].
Qed.

(** A provisional player goes live. *)
Lemma live_ok w w' po : unread_ok w -> wf_player (po_player po) ->
  h_playerRef (hook w') = Some po -> h_provisional (hook w') = true -> no_confirmed_save (wdisk w') ->
  uploads w' = uploads w -> promises w' = promises w -> tasks w' = tasks w -> unread_ok w'.
Proof.
  intros [A B C D E] W P Pr U e2 e3 e4. constructor; rewrite ?e2, ?e3, ?e4; try assumption.
  intros po' P'. rewrite P in P'. injection P' as <-. auto.
Qed.

Lemma provisional_saved p d : wf_player p -> no_confirmed_save d ->
  no_confirmed_save (snd (writeLocalPlayerSnapshot (enc_player (toJSON p)) 0 d)).
Proof.
  intros W N. destruct (write_cases (enc_player (toJSON p)) 0 d) as [[_ U]|[_ S]]; [right; eauto|].
  exact (same_no_confirmed _ _ S N).
Qed.

Lemma save_ok now f w : unread_ok w -> (forall p, wf_player p -> wf_player (f p)) ->
  forall po, h_playerRef (hook w) = Some po -> unread_ok (setPlayerAndSave now (f (po_player po)) w).
Proof.
  intros W Wf po P. destruct (uo_ref w W po P) as (Wp & Pr).
  unfold setPlayerAndSave, put_player. cbn [hook assign h_provisional]. rewrite Pr.
  apply (live_ok w _ (mkPlayerObj (nextPlayer w) (f (po_player po))) W); try reflexivity;
    [apply Wf, Wp | exact Pr | apply provisional_saved; [apply Wf, Wp | apply W]].
Qed.

(** The verdict of a settled promise. *)
Lemma result_silent n w r : unread_ok w -> result_of n w = Some r -> r = recUnavailable.
Proof.
  intros W. unfold result_of. pose proof (uo_promises w W) as S. rewrite Forall_lookup in S.
  destruct (promises w !! n) as [[r'|]|] eqn:P; simpl; intros [= ->].
  destruct (S _ _ P) as [X|X]; congruence.
Qed.

Lemma select_loop_ok now g a i w : unread_ok w ->
  exists w', select_loop now g a i recUnavailable w = Some w' /\ unread_ok w'.
Proof.
  intros W. unfold select_loop. case_match.
  { eexists. split; [reflexivity|]. apply unread_wait; [exact W | reflexivity]. }
  unfold select_finish. destruct (h_playerRef (hook w)) as [po|] eqn:P; [eauto|].
  eexists. split; [reflexivity|]. apply unread_wait; [|reflexivity].
  apply (live_ok w _ (mkPlayerObj (nextPlayer w) (fresh_player a)) W); try reflexivity;
    [apply fresh_player_wf | apply provisional_saved; [apply fresh_player_wf | apply W]].
Qed.

(** A load that found nothing completes while a character is live: the provisional mark is
    dropped and the character stays. *)
Definition orphans (ev : PlayerEvent) (w : World) : bool :=
  match ev with
  | EvResume k =>
      match tasks w !! k with
      | Some (InitRead g (Some (None, _))) =>
          (g =? h_initGeneration (hook w)) && bool_decide (is_Some (h_playerRef (hook w)))
      | _ => false
      end
  | _ => false
  end.

Fixpoint orphaned (evs : list (Z * PlayerEvent)) (w : World) : bool :=
  match evs with
  | [] => false
  | (now, ev) :: evs => orphans ev w || from_option (orphaned evs) false (dispatch now ev w)
  end.

Lemma init_loaded_ok g r w : unread_ok w -> read_ok r ->
  (r = Some (None, Some 0%Q) -> g = h_initGeneration (hook w) -> h_playerRef (hook w) = None) ->
  exists w', init_loaded g r w = Some w' /\ unread_ok w'.
Proof.
  intros W R N. unfold init_loaded. destruct (Z.eqb_spec g (h_initGeneration (hook w))) as [G|G];
    cbn [negb]; [|eauto].
  destruct R as [-> | (p & Wp & ->)].
  - eexists. split; [reflexivity|]. specialize (N eq_refl G).
    destruct W as [A B C D E]. constructor; try assumption. intros po Hpo. cbn in Hpo. congruence.
  - rewrite (load_saved p Wp). eexists. split; [reflexivity|].
    apply (live_ok w _ (mkPlayerObj (nextPlayer w) p) W); try reflexivity; try assumption. apply W.
Qed.

Definition unread_event (ev : PlayerEvent) : Prop :=
  match ev with
  | EvSave f => forall p, wf_player p -> wf_player (f p)
  | EvSettle _ cloud => cloud = unavailable
  | _ => True
  end.

Lemma resume_unread now k t w : unread_ok w -> tasks w !! k = Some t -> orphans (EvResume k) w = false ->
  exists w', resume now t (w <| tasks := delete k (tasks w) |>) = Some w' /\ unread_ok w'.
Proof.
  intros W K Q. pose proof (unread_drop w k W) as W0.
  pose proof (uo_tasks w W) as R. rewrite Forall_lookup in R. specialize (R k t K).
  simpl in Q. rewrite K in Q.
  destruct t as [g r | g n | g a n | g a i | g a i n | up | up]; cbn [resume].
  - apply init_loaded_ok; [exact W0 | exact R|]. intros -> ->. cbn in Q |- *. rewrite Z.eqb_refl in Q.
    apply bool_decide_eq_false, eq_None_not_Some in Q. exact Q.
  - destruct (result_of n _) as [r|] eqn:E.
    + rewrite (result_silent n _ r W0 E). unfold effect_then. case_match; eauto.
    + eexists. split; [reflexivity|]. apply unread_wait; [exact W0 | reflexivity].
  - destruct (result_of n _) as [r|] eqn:E.
    + rewrite (result_silent n _ r W0 E). case_match; [apply select_loop_ok, W0 | eauto].
    + eexists. split; [reflexivity|]. apply unread_wait; [exact W0 | reflexivity].
  - case_match; [|eauto]. eexists. split; [reflexivity|].
    apply unread_wait; [apply unread_start, W0 | reflexivity].
  - destruct (result_of n _) as [r|] eqn:E.
    + rewrite (result_silent n _ r W0 E). case_match; [apply select_loop_ok, W0 | eauto].
    + eexists. split; [reflexivity|]. apply unread_wait; [exact W0 | reflexivity].
  - eexists. split; [reflexivity|]. cbn in R. subst up.
    apply (unread_frame _ _ W0); try reflexivity. apply app_nil_r.
  - eexists. split; [reflexivity|]. cbn in R. subst up.
    apply (unread_frame _ _ W0); try reflexivity. apply app_nil_r.
Qed.

Lemma dispatch_unread now ev w : unread_ok w -> unread_event ev -> orphans ev w = false ->
  exists w', dispatch now ev w = Some w' /\ unread_ok w'.
Proof.
  intros W V Q. destruct ev as [| | |f|a|b| | |n c|k]; cbn [dispatch].
  10: { destruct (tasks w !! k) as [t|] eqn:K; [apply resume_unread; assumption | eauto]. }
  all: eexists; (split; [reflexivity|]).
  - apply initialize_ok, W.
  - apply clear_ok, W.
  - apply initialize_ok, unread_store; [apply clear_ok, W | apply clear_no_confirmed, W].
  - destruct (h_playerRef (hook w)) as [po|] eqn:P; [apply save_ok; assumption | exact W].
  - unfold handleArchetypeSelected. destruct (h_cloudCheck (hook w)) as [n|].
    + apply unread_wait; [exact W | reflexivity].
    + apply unread_wait; [|reflexivity]. assert (W1 := unread_start _ W). framed W1.
  - apply app_state_ok, W.
  - apply unread_keeps; [exact W | apply commit_timer_keeps].
  - apply render_ok, W.
  - cbn in V. subst c. apply settle_ok, W.
Qed.

Lemma launch_unread active d : no_confirmed_save d -> unread_ok (launch active d).
Proof.
  intros U. constructor; cbn; [exact U | intros po [=] | reflexivity | apply Forall_nil_2 ..].
Qed.

(** ** Properties *)

(** C14: an unread cloud save is never overwritten, with one gap that is named.  Start the
    app with no local save that was ever confirmed with the cloud.  As long as no cloud
    read gets through, no sequence of loads, selections, saves, account switches, renders
    and app-state changes, interleaved with the pending reads, writes and retries in any
    order and with any storage call failing at any time, makes a single call to upload;
    the run never gets stuck, and whatever character exists is marked provisional and
    what is stored, if anything, has the timestamp zero, which every cloud save outranks.
    The gap is a load that found nothing in the store, because its read or an earlier
    write failed or because the character was created meanwhile, and that completes while
    a character is live ([orphans]): from there on the statement says nothing, and
    [failed_reload_uploads_provisional] shows why. *)
Theorem unread_cloud_untouched (active : bool) (d : disk) (evs : list (Z * PlayerEvent)) :
  no_confirmed_save d -> Forall (fun e => unread_event (snd e)) evs ->
  orphaned evs (launch active d) = false ->
  exists w, run evs (launch active d) = Some w /\ uploads w = [] /\ no_confirmed_save (wdisk w)
    /\ Forall (fun t => task_upload t = None) (tasks w)
    /\ (h_playerRef (hook w) <> None -> h_provisional (hook w) = true).
Proof.
  intros U V Q. pose proof (launch_unread active d U) as W. revert W Q.
  generalize (launch active d). induction evs as [|[now ev] evs IH]; intros w W Q.
  - exists w. destruct W as [A B C D E]. split; [reflexivity|]. split; [exact C|]. split; [exact A|].
    split; [eapply Forall_impl; [exact E|]; intros [] X; try exact X; reflexivity|].
    destruct (h_playerRef (hook w)) as [po|]; [intros _; apply (B po eq_refl) | congruence].
  - apply Forall_cons in V as [V1 V2]. cbn [orphaned] in Q. apply orb_false_iff in Q as [Q1 Q2].
    destruct (dispatch_unread now ev w W V1 Q1) as (w1 & E & W1). rewrite E in Q2. cbn [run].
    rewrite E. exact (IH V2 w1 W1 Q2).
Qed.

End Unread.

(** ** Storage that never fails *)

Definition durable_storage : AsyncStorage := {|
  disk := gmap string Text;
  contents m k := m !! k;
  multiSet kvs m := (true, fold_left (fun x kv => <[fst kv := snd kv]> x) kvs m);
  multiGet ks m := (Some ((fun k => m !! k) <$> ks), m);
  multiRemove ks m := (true, fold_left (fun x k => delete k x) ks m)
|}.

#[export] Instance durable_laws : @AsyncStorageLaws durable_storage.
Proof.
  constructor; cbn; intros; try discriminate.
  - apply fold_insert_lookup.
  - match goal with E : Some _ = Some _ |- _ => injection E as <- end. reflexivity.
  - reflexivity.
  - apply fold_delete_lookup.
Qed.

(** A fresh install with the cloud unreachable: paint, choose, both retries fail, walk,
    reload after a late sign-in, walk on. *)
Definition offline_start : list (Z * PlayerEvent) :=
  (fun e => (5000, e)) <$>
  [EvInitialize; EvResume 0; EvCommitTimer; EvRender; EvSelect Martial; EvSettle 0 unavailable;
   EvResume 1; EvResume 1; EvSettle 1 unavailable; EvResume 1; EvResume 1; EvSettle 2 unavailable;
   EvResume 1; EvSave (fun p => addDistance p 10); EvInitialize; EvResume 2; EvCommitTimer;
   EvRender; EvSave (fun p => addDistance p 10)].

Lemma unread_cloud_untouched_witness :
  exists w, @run durable_storage offline_start (@launch durable_storage true ∅) = Some w
    /\ uploads w = [] /\ no_confirmed_save (wdisk w)
    /\ Forall (fun t => task_upload t = None) (tasks w)
    /\ (h_playerRef (hook w) <> None -> h_provisional (hook w) = true).
Proof.
  apply (@unread_cloud_untouched durable_storage durable_laws true ∅ offline_start).
  - left. reflexivity.
  - apply Forall_fmap. repeat (apply Forall_cons_2; [try exact I; try reflexivity|]);
      [intros p; apply with_counters_wf .. | apply Forall_nil_2].
  - vm_compute. reflexivity.
Defined.

Section Resolved.
Context `{AsyncStorageLaws}.

(** Against a provisional snapshot any valid cloud save with a timestamp wins, whether the
    local read succeeds or not; it is stored unless the write fails. *)
Lemma reconcile_found p d c : wf_player p -> unconfirmed p d ->
  isValidPlayerData (cr_playerData c) = true -> 0 < cr_lastSavedAt c ->
  let (r, d') := reconcileCloudPlayerData (found c) d in
  r = Some (adopted (cr_playerData c))
  /\ (stored (cr_playerData c) (cr_lastSavedAt c) d' \/ no_confirmed_save d').
Proof.
  intros W U V T. unfold reconcileCloudPlayerData. rewrite V. cbn [negb].
  destruct (read_unconfirmed d) as [E N]; [right; eauto|]. unfold bind at 1.
  destruct (readLocalPlayerSnapshot d) as [o d1]. cbn [fst snd] in E, N.
  assert (Z : exists j, o = Some (j, Some 0%Q)).
  { destruct E as [-> | (q & _ & ->)]; eexists; reflexivity. }
  destruct Z as [j ->]. cbn [snd js_gt_num].
  destruct (js_ltP 0 (num (cr_lastSavedAt c))) as [L|L].
  2: { exfalso. apply L. change 0%Q with (num 0). unfold num. rewrite <- Zlt_Qlt. exact T. }
  unfold bind, try_catch, ret.
  destruct (write_cases (cr_playerData c) (cr_lastSavedAt c) d1) as [[A B]|[A B]];
    destruct (writeLocalPlayerSnapshot _ _ d1) as [r d2]; cbn [fst snd] in *; subst r; (split; [reflexivity|]).
  - left. exact B.
  - right. exact (same_no_confirmed _ _ B N).
Qed.

(** A cloud save without a timestamp never outranks the local one. *)
Lemma reconcile_unstamped p d c : wf_player p -> unconfirmed p d ->
  isValidPlayerData (cr_playerData c) = true -> cr_lastSavedAt c <= 0 ->
  let (r, d') := reconcileCloudPlayerData (found c) d in r = Some noNewerCloud /\ no_confirmed_save d'.
Proof.
  intros W U V T. unfold reconcileCloudPlayerData. rewrite V. cbn [negb].
  destruct (read_unconfirmed d) as [E N]; [right; eauto|]. unfold bind at 1.
  destruct (readLocalPlayerSnapshot d) as [o d1]. cbn [fst snd] in E, N.
  assert (Z : exists j, o = Some (j, Some 0%Q)).
  { destruct E as [-> | (q & _ & ->)]; eexists; reflexivity. }
  destruct Z as [j ->]. cbn [snd js_gt_num].
  destruct (js_ltP 0 (num (cr_lastSavedAt c))) as [L|L]; [|split; [reflexivity | exact N]].
  exfalso. change 0%Q with (num 0) in L. unfold num in L. rewrite <- Zlt_Qlt in L. lia.
Qed.

(** A reconciliation settles and the effect that waits for it goes on. *)
Lemma verdict_step w n k g t now cloud : promises w !! n = Some None ->
  tasks w !! k = Some (EffectThen g n) ->
  exists r, run [(t, EvSettle n cloud); (now, EvResume k)] w
    = effect_then now g (default recUnavailable (fst (reconcileCloudPlayerData cloud (wdisk w))))
        (w <| promises := r |> <| wdisk := snd (reconcileCloudPlayerData cloud (wdisk w)) |>
           <| tasks := delete k (tasks w) |>).
Proof.
  intros P T. cbn [run dispatch mbind option_bind]. unfold settle. rewrite P.
  destruct (reconcileCloudPlayerData cloud (wdisk w)) as [r d]. cbn [fst snd].
  exists (<[n := Some (default recUnavailable r)]> (promises w)). cbn [tasks assign]. rewrite T. cbn [resume]. unfold result_of at 1. cbn [promises assign].
  rewrite list_lookup_insert_eq by (eapply lookup_lt_Some, P). cbn [mjoin option_join].
  match goal with |- ?o ≫= _ = _ => destruct o; reflexivity end.
Qed.

(** The state of a session whose provisional character awaits the verdict of promise
    [n] in task [k]. *)
Record awaiting (w : World) (po : PlayerObj) (n k : nat) : Prop := {
  aw_ref : h_playerRef (hook w) = Some po;
  aw_wf : wf_player (po_player po);
  aw_provisional : h_provisional (hook w) = true;
  aw_disk : unconfirmed (po_player po) (wdisk w);
  aw_promise : promises w !! n = Some None;
  aw_task : tasks w !! k = Some (EffectThen (h_initGeneration (hook w)) n)
}.

(** What the answer of the cloud amounts to for a provisional character. *)
Definition verdict (cloud : CloudLoad) : ReconcileResult :=
  match cloud with
  | found c =>
      if isValidPlayerData (cr_playerData c)
      then if 0 <? cr_lastSavedAt c then adopted (cr_playerData c) else noNewerCloud
      else recUnavailable
  | empty => noNewerCloud
  | unavailable => recUnavailable
  end.

Definition stamp_of (cloud : CloudLoad) : Z := match cloud with found c => cr_lastSavedAt c | _ => 0 end.

(** The session once the verdict is in. *)
Definition resolved (w : World) (po : PlayerObj) (k : nat) (now : Z) (cloud : CloudLoad) (w' : World) : Prop :=
  match verdict cloud with
  | adopted data =>
      (exists po', h_playerRef (hook w') = Some po' /\ h_player (hook w') = Some po'
         /\ load_player data = Some (po_player po'))
      /\ h_provisional (hook w') = false /\ uploads w' = uploads w /\ tasks w' = delete k (tasks w)
      /\ (stored data (stamp_of cloud) (wdisk w') \/ no_confirmed_save (wdisk w'))
  | noNewerCloud =>
      h_playerRef (hook w') = Some po /\ h_provisional (hook w') = false /\ uploads w' = uploads w
      /\ exists up, tasks w' = delete k (tasks w) ++ [SaveLocal up]
           /\ (up = Some (toJSON (po_player po), now) /\ stored (enc_player (toJSON (po_player po))) now (wdisk w')
               \/ up = None /\ no_confirmed_save (wdisk w'))
  | recUnavailable =>
      hook w' = hook w /\ uploads w' = uploads w /\ wdisk w' = wdisk w /\ tasks w' = delete k (tasks w)
  end.

Lemma begin_save_cases now p w :
  let (w', up) := begin_save now p w in
  w' = w <| wdisk := wdisk w' |> <| saveErrors := saveErrors w' |>
  /\ (up = Some (toJSON p, now) /\ stored (enc_player (toJSON p)) now (wdisk w') /\ saveErrors w' = saveErrors w
      \/ up = None /\ same_contents (wdisk w) (wdisk w') /\ saveErrors w' = saveErrors w ++ [toJSON p]).
Proof.
  unfold begin_save. pose proof (savePlayerData_cases (toJSON p) now (wdisk w)) as C.
  destruct (savePlayerData (toJSON p) now (wdisk w)) as [r d]. split; [reflexivity|].
  destruct C as [[-> C]|[-> C]]; [left | right]; (split; [reflexivity|]); (split; [|try reflexivity]);
    [split; cbn; rewrite C; reflexivity | apply app_nil_r | exact C].
Qed.

(** The answer, as the reconciliation reports it and as it leaves the store. *)
Lemma reconcile_verdict p d cloud : wf_player p -> unconfirmed p d ->
  let (r, d') := reconcileCloudPlayerData cloud d in
  r = Some (verdict cloud)
  /\ match verdict cloud with
     | adopted data => stored data (stamp_of cloud) d' \/ no_confirmed_save d'
     | noNewerCloud => no_confirmed_save d'
     | recUnavailable => d' = d
     end.
Proof.
  intros W U. assert (N : no_confirmed_save d) by (right; eauto).
  destruct cloud as [c| |]; [|split; [reflexivity | first [exact N | reflexivity]]..].
  cbn [verdict stamp_of]. destruct (isValidPlayerData (cr_playerData c)) eqn:V.
  2: { unfold reconcileCloudPlayerData. rewrite V. split; reflexivity. }
  destruct (Z.ltb_spec 0 (cr_lastSavedAt c)) as [T|T].
  - exact (reconcile_found p d c W U V T).
  - exact (reconcile_unstamped p d c W U V T).
Qed.

(** C15: a provisional character is resolved by the first verdict, whichever storage calls
    fail.  A valid cloud save with a timestamp becomes the live player and nothing is
    uploaded; it becomes the stored one too, unless the local write fails, in which case
    what is stored still yields to it at the next reconciliation.  When the cloud confirms
    that there is none (or has one without a timestamp), the character as it is by then
    stops being provisional and is saved: the upload waits for the local write, and is of
    exactly that character, unless the write fails, in which case there is none.  When the
    cloud does not answer, or with a record that is not valid, nothing changes.  The
    character is stored as it is live at the start, and a record the cloud holds is one
    that loads. *)
Theorem provisional_resolved (w : World) (po : PlayerObj) (n k : nat) (t now : Z) (cloud : CloudLoad) :
  awaiting w po n k ->
  (forall data, verdict cloud = adopted data -> is_Some (load_player data)) ->
  exists w', run [(t, EvSettle n cloud); (now, EvResume k)] w = Some w'
    /\ resolved w po k now cloud w'.
Proof.
  intros [R W Pr U P T] V. destruct (verdict_step w n k _ t now cloud P T) as [ps ->].
  pose proof (reconcile_verdict _ _ cloud W U) as C.
  destruct (reconcileCloudPlayerData cloud (wdisk w)) as [r d]. destruct C as [-> C].
  cbn [fst snd default from_option id]. unfold resolved, effect_then. cbn [hook assign].
  rewrite Z.eqb_refl. cbn [negb].
  destruct (verdict cloud) as [data| |].
  - destruct (V data eq_refl) as [p' V2]. rewrite V2. eexists. split; [reflexivity|].
    split; [|auto]. eexists. split; [reflexivity|]. split; reflexivity.
  - rewrite R, Pr. eexists. split; [reflexivity|]. unfold save.
    match goal with |- context [begin_save now ?p ?w0] => pose proof (begin_save_cases now p w0) as B;
      destruct (begin_save now p w0) as [w1 up] end.
    destruct B as [-> B]. split; [exact R|]. split; [reflexivity|]. split; [reflexivity|].
    exists up. split; [reflexivity|]. destruct B as [(B1 & B2 & _)|(-> & B & _)]; [left; split; assumption | right].
    split; [reflexivity | exact (same_no_confirmed d _ B C)].
  - eexists. split; [reflexivity|]. subst d. repeat split.
Qed.

End Resolved.

(** The world [offline_start] reaches. *)
Definition offline_world : @World durable_storage :=
  default (@launch durable_storage true ∅) (run offline_start (@launch durable_storage true ∅)).

Definition offline_player : PlayerObj :=
  default (mkPlayerObj 0 sample_player) (h_playerRef (hook offline_world)).

Definition cloud_save : CloudPlayerRecord :=
  mkCloudRecord (enc_player (toJSON (setLevel sample_player 7))) 4000.

Lemma provisional_resolved_witness :
  exists w', @run durable_storage [(6000, EvSettle 3 (found cloud_save)); (7000, EvResume 2)]
               offline_world = Some w'
    /\ resolved offline_world offline_player 2 7000 (found cloud_save) w'.
Proof.
  apply (@provisional_resolved durable_storage durable_laws offline_world offline_player 3 2
           6000 7000 (found cloud_save)).
  - constructor; [vm_compute; reflexivity | | vm_compute; reflexivity | vm_compute; auto
      | vm_compute; reflexivity ..].
    replace (po_player offline_player) with
      (addDistance (addDistance (fresh_player Martial) 10) 10) by (vm_compute; reflexivity).
    auto using fresh_player_wf with game.
  - intros data V. replace data with (cr_playerData cloud_save); [vm_compute; eexists; reflexivity|].
    vm_compute in V |- *. congruence.
Defined.

(** ** Superseded work *)

Section Superseded.
Context `{AsyncStorage}.

(** From [w] to [w'] generations only rise and new tasks carry the current one. *)
Definition grows (w w' : World) : Prop :=
  h_initGeneration (hook w) <= h_initGeneration (hook w')
  /\ forall t, t ∈ tasks w' -> t ∈ tasks w \/ task_gen_ok (hook w') t.

Lemma grows_same w w' : h_initGeneration (hook w') = h_initGeneration (hook w) ->
  tasks w' = tasks w -> grows w w'.
Proof. intros E T. split; [lia|]. rewrite T. auto. Qed.

Lemma task_gen_mono h h' t : h_initGeneration h <= h_initGeneration h' ->
  task_gen_ok h t -> task_gen_ok h' t.
Proof. intros L. destruct t; simpl; lia. Qed.

Lemma grows_trans w1 w2 w3 : grows w1 w2 -> grows w2 w3 -> grows w1 w3.
Proof.
  intros [A B] [C D]. split; [lia|]. intros t Ht. destruct (D t Ht) as [X|X]; [|auto].
  destruct (B t X) as [Y|Y]; [auto | right; exact (task_gen_mono _ _ _ C Y)].
Qed.

Lemma grows_wait w w' t : grows w w' -> task_gen_ok (hook w') t -> grows w (wait t w').
Proof.
  intros [A B] G. split; [exact A|]. intros t' [Ht| ->%list_elem_of_singleton]%elem_of_app; [|auto].
  destruct (B t' Ht); auto.
Qed.

Lemma grows_begin now p w : grows w (fst (begin_save now p w)).
Proof. unfold begin_save. destruct (savePlayerData _ _ _). apply grows_same; reflexivity. Qed.

Lemma grows_save now p w : grows w (save now p w).
Proof.
  unfold save. pose proof (grows_begin now p w) as G. destruct (begin_save now p w) as [w' up].
  apply grows_wait; [exact G | exact I].
Qed.

Lemma select_loop_grows now g a i r w w' : g <= h_initGeneration (hook w) ->
  select_loop now g a i r w = Some w' -> grows w w'.
Proof.
  intros G. assert (F : select_finish now a r w = Some w' -> grows w w').
  { unfold select_finish. destruct (h_playerRef (hook w)); [intros [= <-]; apply grows_same; reflexivity|].
    destruct r as [j| |]; cbn [mbind option_bind].
    - destruct (load_player j); [|discriminate]. intros [= <-]. apply grows_same; reflexivity.
    - cbn [put_player]. match goal with |- context [begin_save now ?p ?w0] => pose proof (grows_begin now p w0) as B;
        destruct (begin_save now p w0) as [w1 up] end.
      intros [= <-]. apply grows_wait; [|exact I]. eapply grows_trans; [|exact B].
      apply grows_same; reflexivity.
    - intros [= <-]. apply grows_wait; [|exact I]. apply grows_same; reflexivity. }
  unfold select_loop. destruct r; try exact F. case_match; [|exact F].
  intros [= <-]. apply grows_wait; [apply grows_same; reflexivity | exact G].
Qed.

Lemma init_loaded_grows g r w w' : init_loaded g r w = Some w' -> grows w w'.
Proof.
  unfold init_loaded. case_match; [intros [= <-]; apply grows_same; reflexivity|].
  destruct r as [[[j|] q]|]; cbn [mbind option_bind].
  1: destruct (load_player j); [|discriminate].
  all: intros [= <-]; apply grows_same; reflexivity.
Qed.

Lemma effect_then_grows now g r w w' : effect_then now g r w = Some w' -> grows w w'.
Proof.
  unfold effect_then. case_match; [intros [= <-]; apply grows_same; reflexivity|].
  destruct r as [j| |]; cbn [mbind option_bind].
  - destruct (load_player j); [|discriminate]. intros [= <-]. apply grows_same; reflexivity.
  - repeat case_match; intros [= <-]; try (apply grows_same; reflexivity).
    eapply grows_trans; [|apply grows_save]. apply grows_same; reflexivity.
  - intros [= <-]. apply grows_same; reflexivity.
Qed.

Lemma resume_grows now t w w' : task_gen_ok (hook w) t -> resume now t w = Some w' -> grows w w'.
Proof.
  intros G. destruct t as [g r | g n | g a n | g a i | g a i n | up | up]; cbn [resume].
  - apply init_loaded_grows.
  - case_match; [apply effect_then_grows | intros [= <-]].
    apply grows_wait; [apply grows_same; reflexivity | exact G].
  - case_match; [|intros [= <-]; apply grows_wait; [apply grows_same; reflexivity | exact G]].
    case_match; [apply select_loop_grows, G | intros [= <-]; apply grows_same; reflexivity].
  - case_match; intros [= <-]; [|apply grows_same; reflexivity].
    apply grows_wait; [apply grows_same; reflexivity | exact G].
  - case_match; [|intros [= <-]; apply grows_wait; [apply grows_same; reflexivity | exact G]].
    case_match; [apply select_loop_grows, G | intros [= <-]; apply grows_same; reflexivity].
  - intros [= <-]. apply grows_same; reflexivity.
  - intros [= <-]. apply grows_same; reflexivity.
Qed.

Lemma initialize_grows w : grows w (initializePlayer w).
Proof.
  unfold initializePlayer. destruct (readLocalPlayerSnapshot (wdisk w)) as [r d].
  apply grows_wait; [|cbn; lia]. split; [cbn; lia | auto].
Qed.

Lemma clear_grows w : grows w (clearPlayer w).
Proof. split; [cbn; lia | auto]. Qed.

Lemma app_state_grows b w : grows w (app_state b w).
Proof.
  apply grows_same; unfold app_state; destruct b; try reflexivity.
  destruct (reassert_keeps (hook w)) as (e & _ & _). cbn [hook assign] in *.
  destruct (h_pendingCommit _) as [pc|]; [|exact e].
  destruct (fire_keeps (pc_commit pc) (reassert (hook w))) as (f & _ & _). congruence.
Qed.

Lemma render_grows w : grows w (render w).
Proof.
  unfold render, reconcile_effect, start_reconcile.
  do 2 (case_bool_decide; [apply grows_same; reflexivity|]).
  match goal with |- context [if ?b then _ else _] => destruct b end; [apply grows_same; reflexivity|].
  apply grows_wait; [apply grows_same; reflexivity | cbn; lia].
Qed.

Lemma dispatch_grows now ev w w' : Forall (task_gen_ok (hook w)) (tasks w) ->
  dispatch now ev w = Some w' -> grows w w'.
Proof.
  intros G. destruct ev as [| | |f|a|b| | |n c|k]; cbn [dispatch].
  10: { destruct (tasks w !! k) as [t|] eqn:K; [|intros [= <-]; apply grows_same; reflexivity].
    intros R. rewrite Forall_lookup in G.
    eapply grows_trans; [|eapply resume_grows; [|exact R]; exact (G k t K)].
    split; [cbn; lia|]. intros t' Ht. left. cbn in Ht.
    rewrite (delete_Permutation _ _ _ K). right. exact Ht. }
  all: intros [= <-].
  - apply initialize_grows.
  - apply clear_grows.
  - eapply grows_trans; [|apply initialize_grows]. split; [cbn; lia | auto].
  - case_match; [|apply grows_same; reflexivity]. unfold setPlayerAndSave. cbn [put_player].
    case_match; [apply grows_same; reflexivity|].
    eapply grows_trans; [|apply grows_save]. apply grows_same; reflexivity.
  - unfold handleArchetypeSelected, start_reconcile. case_match; apply grows_wait; try (apply grows_same; reflexivity);
      cbn; lia.
  - apply app_state_grows.
  - destruct (commit_timer_keeps (appActive w) (hook w)) as (e & _ & _).
    apply grows_same; [exact e | reflexivity].
  - apply render_grows.
  - apply grows_same; unfold settle; repeat case_match; reflexivity.
Qed.

Lemma grows_gens w w' : grows w w' -> Forall (task_gen_ok (hook w)) (tasks w) ->
  Forall (task_gen_ok (hook w')) (tasks w').
Proof.
  intros [A B] G. rewrite Forall_forall in *. intros t Ht.
  destruct (B t Ht) as [X|X]; [exact (task_gen_mono _ _ _ A (G t X)) | exact X].
Qed.

Lemma run_gens evs w w' : run evs w = Some w' -> Forall (task_gen_ok (hook w)) (tasks w) ->
  Forall (task_gen_ok (hook w')) (tasks w').
Proof.
  revert w. induction evs as [|[now ev] evs IH]; intros w; cbn [run]; [intros [= <-]; auto|].
  destruct (dispatch now ev w) as [w1|] eqn:E; [|discriminate]. intros R G.
  apply (IH w1 R), (grows_gens w w1); [exact (dispatch_grows now ev w w1 G E) | exact G].
Qed.

(** The saves in flight: their local write is made, the call to upload is still to come. *)
Definition in_flight (w : World) : list (PlayerData * Z) := omap task_upload (tasks w).

(** Nothing of a session is left: every task is superseded or only has its upload to make,
    and the only commit that may be armed shows a player that does not exist.  [ups] and
    [pend] are the uploads and the saves in flight at the start. *)
Record vacant (w : World) (ups pend : list (PlayerData * Z)) : Prop := {
  va_ref : h_playerRef (hook w) = None;
  va_player : h_player (hook w) = None;
  va_needs : h_needsArchetypeSelection (hook w) = false;
  va_needsRef : h_needsArchetypeRef (hook w) = false;
  va_commit : forall pc, h_pendingCommit (hook w) = Some pc -> pc_commit pc = CommitCreated;
  va_tasks : Forall (fun t => task_gen_ok ((hook w) <| h_initGeneration := h_initGeneration (hook w) - 1 |>) t)
               (tasks w);
  va_uploads : exists late, uploads w = ups ++ late /\ late ++ in_flight w ≡ₚ pend
}.

(** Loading and choosing start something new; everything else does not. *)
Definition starts_session (ev : PlayerEvent) : bool :=
  match ev with EvInitialize | EvSwitch | EvSelect _ => true | _ => false end.

Lemma vacant_fire w c ups pend : vacant w ups pend -> c = CommitCreated ->
  vacant (w <| hook := fire c (hook w) |>) ups pend.
Proof.
  intros [A B C D E F G] ->. unfold fire, show_player. cbn [h_playerRef assign]. rewrite A.
  constructor; try assumption. intros pc [=].
Qed.

Lemma vacant_drop w k t ups pend : tasks w !! k = Some t -> vacant w ups pend ->
  exists pend', pend ≡ₚ option_list (task_upload t) ++ pend' /\ vacant (w <| tasks := delete k (tasks w) |>) ups pend'.
Proof.
  intros K [A B C D E F (late & G1 & G2)].
  exists (late ++ in_flight (w <| tasks := delete k (tasks w) |>)). split.
  - assert (I : in_flight w ≡ₚ option_list (task_upload t) ++ in_flight (w <| tasks := delete k (tasks w) |>)).
    { unfold in_flight. cbn [tasks assign]. rewrite (delete_Permutation _ _ _ K) at 1. csimpl.
      destruct (task_upload t); reflexivity. }
    rewrite <- G2, I. apply Permutation_app_swap_app.
  - constructor; try assumption; [apply Forall_delete, F | exists late; auto].
Qed.

(** The upload of a save that was in flight. *)
Lemma vacant_upload w up ups pend pend' : pend ≡ₚ option_list up ++ pend' -> vacant w ups pend' ->
  vacant (upload up w) ups pend.
Proof.
  intros P [A B C D E F (late & G1 & G2)]. constructor; try assumption.
  exists (late ++ option_list up). cbn. rewrite G1, app_assoc. split; [reflexivity|].
  rewrite P, <- G2. unfold in_flight. cbn [tasks upload assign]. rewrite <- app_assoc. apply Permutation_app_swap_app.
Qed.

Lemma vacant_perm w ups pend pend' : pend ≡ₚ pend' -> vacant w ups pend' -> vacant w ups pend.
Proof. intros P [A B C D E F (late & G1 & G2)]. constructor; try assumption. exists late. rewrite P. auto. Qed.

Lemma vacant_wait w t ups pend : task_upload t = None -> vacant w ups pend ->
  task_gen_ok ((hook w) <| h_initGeneration := h_initGeneration (hook w) - 1 |>) t ->
  vacant (wait t w) ups pend.
Proof.
  intros U [A B C D E F (late & G1 & G2)] T. constructor; try assumption.
  - apply Forall_app. split; [exact F | apply Forall_singleton, T].
  - exists late. split; [exact G1|]. unfold in_flight in *. cbn. rewrite omap_app. csimpl. rewrite U, app_nil_r. exact G2.
Qed.

Lemma vacant_render w ups pend : vacant w ups pend -> vacant (render w) ups pend.
Proof.
  intros [A B C D E F G]. unfold render, reconcile_effect, deps. cbn. rewrite B, C. cbn.
  case_bool_decide; (constructor; try assumption; reflexivity).
Qed.

Lemma vacant_app_state b w ups pend : vacant w ups pend -> vacant (app_state b w) ups pend.
Proof.
  intros V. unfold app_state. destruct b; [|destruct V; constructor; assumption].
  assert (V1 : vacant (w <| appActive := true |> <| hook := reassert (hook w) |>) ups pend).
  { destruct V as [A B C D E F G]. unfold reassert. rewrite A, D. constructor; assumption. }
  pose proof (va_commit _ _ _ V1) as X. cbn [hook assign] in X |- *.
  destruct (h_pendingCommit (reassert (hook w))) as [pc|]; [|exact V1].
  exact (vacant_fire _ _ ups pend V1 (X pc eq_refl)).
Qed.

Lemma vacant_timer w ups pend : vacant w ups pend ->
  vacant (w <| hook := commit_timer (appActive w) (hook w) |>) ups pend.
Proof.
  intros V. pose proof (va_commit _ _ _ V) as X. unfold commit_timer.
  assert (V0 : vacant (w <| hook := hook w |>) ups pend) by (destruct V; constructor; assumption).
  destruct (h_pendingCommit (hook w)) as [[c []]|] eqn:P; [|exact V0..].
  destruct (appActive w).
  - exact (vacant_fire _ _ ups pend V (X _ eq_refl)).
  - destruct V as [A B C D E F G]. constructor; try assumption. intros pc [= <-]. exact (X _ eq_refl).
Qed.

Lemma vacant_resume now k t w ups pend : vacant w ups pend -> tasks w !! k = Some t ->
  exists w', resume now t (w <| tasks := delete k (tasks w) |>) = Some w' /\ vacant w' ups pend.
Proof.
  intros V K. pose proof (va_tasks _ _ _ V) as G. rewrite Forall_lookup in G. specialize (G k t K).
  destruct (vacant_drop w k t ups pend K V) as (pend' & P & V').
  assert (N : forall g, g <= h_initGeneration (hook w) - 1 ->
    (g =? h_initGeneration (hook w)) = false) by (intros; apply Z.eqb_neq; lia).
  assert (V0 : task_upload t = None -> vacant (w <| tasks := delete k (tasks w) |>) ups pend).
  { intros U. rewrite U in P. exact (vacant_perm _ _ _ _ P V'). }
  destruct t as [g r | g n | g a n | g a i | g a i n | up | up]; cbn [resume]; cbn in G;
    unfold init_loaded, effect_then; cbn [hook assign]; rewrite ?(N g G); cbn [negb];
    try (case_match; eauto using vacant_wait); try (by eauto).
  - eexists. split; [reflexivity|]. pose proof (vacant_upload _ _ _ _ _ P V') as [A B C D E F X].
    constructor; try assumption. intros pc [= <-]. reflexivity.
  - eexists. split; [reflexivity|]. exact (vacant_upload _ _ _ _ _ P V').
Qed.

Lemma vacant_dispatch now ev w ups pend : vacant w ups pend -> starts_session ev = false ->
  exists w', dispatch now ev w = Some w' /\ vacant w' ups pend.
Proof.
  intros V S. destruct ev as [| | |f|a|b| | |n c|k]; try discriminate; cbn [dispatch].
  - eexists. split; [reflexivity|]. destruct V as [A B C D E F G]. constructor; try assumption;
      try reflexivity; [intros pc [=]|].
    eapply Forall_impl; [exact F|]. intros t. apply task_gen_mono. cbn. lia.
  - rewrite (va_ref _ _ _ V). eauto.
  - eauto using vacant_app_state.
  - eauto using vacant_timer.
  - eauto using vacant_render.
  - eexists. split; [reflexivity|]. unfold settle. repeat case_match; try exact V.
    destruct V as [A B C D E F G]. constructor; assumption.
  - destruct (tasks w !! k) as [t|] eqn:K; [|eauto]. apply vacant_resume; assumption.
Qed.

Lemma vacant_cleared w : Forall (task_gen_ok (hook w)) (tasks w) ->
  vacant (render (clearPlayer w)) (uploads w) (in_flight w).
Proof.
  intros G. unfold render, reconcile_effect, deps. cbn.
  repeat case_bool_decide; try congruence; (constructor; try reflexivity; try (intros pc [=]));
    try (exists []; split; [symmetry; apply app_nil_r | reflexivity]);
    (eapply Forall_impl; [exact G|]; intros t; apply task_gen_mono; cbn; lia).
Qed.

(** C16: leaving an account leaves nothing running but the saves already made.  Whatever
    was in flight when the player was cleared (loads, reconciliations, retries, a
    selection, deferred commits), and in whatever order it completes afterwards, with any
    storage call failing, no player appears, no screen is painted and no save is begun
    until the app loads or the user chooses again; and nothing gets stuck.  What is still
    uploaded is a part of the saves in flight at that moment, each at most once: their
    local write was made before, and the upload follows it without a check
    ([late_save_reaches_next_account]). *)
Theorem cleared_stays_cleared (active : bool) (d : disk) (evs evs' : list (Z * PlayerEvent))
    (w : World) :
  run evs (launch active d) = Some w ->
  Forall (fun e => starts_session (snd e) = false) evs' ->
  exists w' late, run evs' (render (clearPlayer w)) = Some w'
    /\ h_playerRef (hook w') = None /\ h_player (hook w') = None
    /\ h_needsArchetypeSelection (hook w') = false
    /\ uploads w' = uploads w ++ late /\ late ++ in_flight w' ≡ₚ in_flight w.
Proof.
  intros R S. pose proof (run_gens _ _ _ R (Forall_nil_2 _)) as G.
  pose proof (vacant_cleared w G) as V.
  revert V. generalize (render (clearPlayer w)). clear R G.
  induction evs' as [|[now ev] evs' IH]; intros w1 V.
  - destruct V as [A B C D E F (late & X & Y)]. exists w1, late. auto 10.
  - apply Forall_cons in S as [S1 S2]. cbn [run].
    destruct (vacant_dispatch now ev w1 _ _ V S1) as (w2 & -> & V2). exact (IH S2 w2 V2).
Qed.

End Superseded.

Lemma default_run {A} (a : A) (o : option A) :
  match o with Some _ => true | None => false end = true -> o = Some (default a o).
Proof. destruct o; [reflexivity | discriminate]. Qed.

Lemma offline_run :
  @run durable_storage offline_start (@launch durable_storage true ∅) = Some offline_world.
Proof. apply default_run. vm_compute. reflexivity. Qed.

(** ** Where the guards do not reach *)

Definition at_9000 (evs : list PlayerEvent) : list (Z * PlayerEvent) := (fun e => (9000, e)) <$> evs.

(** A fresh install painted: no save, the archetype screen up, promise 0 in flight. *)
Definition painted : list PlayerEvent := [EvInitialize; EvResume 0; EvCommitTimer; EvRender].

Definition other_account : CloudPlayerRecord :=
  mkCloudRecord (enc_player (toJSON (setLevel sample_player 20))) 3000.

(** A confirmed player walks; the save is in flight. *)
Definition walking : list PlayerEvent :=
  painted ++ [EvSettle 0 empty; EvResume 0; EvSelect Martial; EvResume 0; EvResume 0;
              EvSave (fun p => addDistance p 10); EvInitialize].

Definition walking_world : @World durable_storage :=
  default (@launch durable_storage true ∅) (run (at_9000 walking) (@launch durable_storage true ∅)).

Lemma walking_run :
  @run durable_storage (at_9000 walking) (@launch durable_storage true ∅) = Some walking_world.
Proof. apply default_run. vm_compute. reflexivity. Qed.

(** The account is left while a save and a load are in flight. *)
Lemma cleared_stays_cleared_witness :
  exists w' late, @run durable_storage
      (at_9000 [EvResume 1; EvCommitTimer; EvResume 0; EvAppState false; EvAppState true; EvRender])
      (render (clearPlayer walking_world)) = Some w'
    /\ h_playerRef (hook w') = None /\ h_player (hook w') = None
    /\ h_needsArchetypeSelection (hook w') = false
    /\ uploads w' = uploads walking_world ++ late /\ late ++ in_flight w' ≡ₚ in_flight walking_world.
Proof.
  apply (@cleared_stays_cleared durable_storage true ∅ (at_9000 walking)).
  - apply walking_run.
  - apply Forall_fmap. repeat (apply Forall_cons_2; [reflexivity|]). apply Forall_nil_2.
Defined.

(** The upload of a save has no check at all.  A save waits for its local write when the
    account is switched; the write done, [CloudSyncService.savePlayerData] is called, and
    it takes the account that is signed in by then.  The old account's character is
    uploaded although no player is live any more. *)
Theorem late_save_reaches_next_account :
  (fun w => (h_playerRef (hook w), uploads w)) <$> @run durable_storage
      (at_9000 (painted ++
        [EvSettle 0 empty; EvResume 0; EvSelect Martial; EvResume 0; EvResume 0;
         EvSave (fun p => addDistance p 10); EvSwitch; EvRender; EvResume 0]))
      (@launch durable_storage true ∅)
  = Some (None, [(toJSON (fresh_player Martial), 9000); (toJSON (addDistance (fresh_player Martial) 10), 9000)]).
Proof. vm_compute. reflexivity. Qed.

(** The generation guard does not cover the local half of a reconciliation.  The cloud
    read of the account being left completes after the switch has cleared the local
    save and writes that account's character into it.  The next account's own
    reconciliation then finds a local save newer than its cloud save, reports that
    there is no newer one, and the character its user creates is uploaded over the
    level-20 save that exists in the cloud. *)
Theorem late_reconcile_poisons_switch :
  (fun w => (promises w, uploads w)) <$> @run durable_storage
      (at_9000 (painted ++
        [EvSwitch; EvRender;
         EvSettle 0 (found cloud_save);                 (* the old account's answer, late *)
         EvResume 1; EvCommitTimer; EvRender;           (* the new account is painted *)
         EvSettle 1 (found other_account);              (* its cloud save is read *)
         EvResume 1; EvSelect Martial; EvResume 1; EvResume 1]))
      (@launch durable_storage true ∅)
  = Some ([Some (adopted (cr_playerData cloud_save)); Some noNewerCloud],
          [(toJSON (fresh_player Martial), 9000)]).
Proof. vm_compute. reflexivity. Qed.

(** The provisional mark does not survive a failed reload.  A storage read that fails
    during a reload is taken for an empty store: the mark is dropped while the
    provisional character is still live, and its next save is uploaded although the
    cloud was never read. *)
Theorem failed_reload_uploads_provisional :
  (fun w => (promises w, uploads w)) <$> @run memory_storage
      (at_9000 (painted ++
        [EvSelect Martial; EvSettle 0 unavailable; EvResume 1; EvResume 1; EvSettle 1 unavailable;
         EvResume 1; EvResume 1; EvSettle 2 unavailable; EvResume 1;
         EvInitialize; EvResume 2; EvSave id; EvResume 2]))
      (launch true (fresh_disk [false; false; true]))
  = Some ([Some recUnavailable; Some recUnavailable; Some recUnavailable],
          [(toJSON (fresh_player Martial), 9000)]).
Proof. vm_compute. reflexivity. Qed.

(** The commit of a selection has no generation check.  A selection still saving when
    the account is switched disarms the commit of the new account's load and arms its
    own, which has nothing to show: the new account stays on the loading screen, on
    later returns to the foreground too. *)
Theorem stale_selection_strands_load :
  (fun w => (tasks w, h_pendingCommit (hook w), h_player (hook w),
             h_needsArchetypeSelection (hook w))) <$> @run durable_storage
      (at_9000 (painted ++
        [EvSettle 0 empty; EvResume 0; EvSelect Martial; EvResume 0; EvSwitch; EvRender; EvResume 1;
         EvResume 0; EvCommitTimer; EvRender; EvAppState false; EvAppState true]))
      (@launch durable_storage true ∅)
  = Some ([], None, None, false).
Proof. vm_compute. reflexivity. Qed.

(** The reload after a late sign-in does not reach the cloud on a fresh install.  The
    archetype screen is already up, so the commit changes no dependency of the
    reconcile effect: the only reconciliation is the one made without a user. *)
Theorem belated_reload_skips_reconcile :
  (fun w => (promises w, tasks w, h_initGeneration (hook w), h_reconciledGeneration (hook w)))
    <$> @run durable_storage
      (at_9000 (painted ++
        [EvSettle 0 unavailable; EvResume 0; EvInitialize; EvResume 0; EvCommitTimer; EvRender]))
      (@launch durable_storage true ∅)
  = Some ([Some recUnavailable], [], 2, 1).
Proof. vm_compute. reflexivity. Qed.
