(* ===== verification/AuthSession.v ===== *)
(** * The account session

    [src/hooks/useAuth.ts]: the reaction to auth-state changes, start-up, the conflict
    between a guest's save and the save of the account they sign in to, and account
    deletion.  What [AuthService] (a wrapper of Firebase Auth) answers is an argument.

    [handleAccountConflict] is split at its sign-in, because the auth-state change that
    sign-in causes arrives while it waits, and [handleDeleteAccount] at its drain, because
    cloud writes settle while it waits; the other handlers run as one step, and so does
    each of the two halves.  [calls] records, in order, what the handlers ask of the rest
    of the app, [alerts] the titles of the alerts they show.  Any storage call may fail. *)
From stdpp Require Import base decidable strings list gmap.
From Stdlib Require Import ZArith QArith Lia Lqa.
From S2P Require Import Prelude JsNumber Player Json CloudSync Storage PlayerSession.
Local Open Scope Z_scope.

Record AuthUser := mkAuthUser {
  au_uid : string;
  au_displayName : option string;
  au_email : option string;
  au_isAnonymous : bool;
  au_photoURL : option string
}.

(** The fields of [ConflictState] are those of the record that persists it. *)
Record AuthHook := mkAuth {
  a_authUser : option AuthUser;
  a_authLoading : bool;
  a_conflictState : option PendingConflictRecord;
  a_prevUid : option string;
  a_lastNonAnonUid : option string;
  a_conflictResolutionPending : bool;
  a_conflictResolving : bool;
  a_pendingBelatedSignIn : bool
}.

#[export] Instance AuthHook_fields : Fields AuthHook := fun a =>
  mkAuth (a_authUser a) (a_authLoading a) (a_conflictState a) (a_prevUid a) (a_lastNonAnonUid a)
    (a_conflictResolutionPending a) (a_conflictResolving a) (a_pendingBelatedSignIn a).

Definition initial_auth : AuthHook := mkAuth None false None None None false false false.

(** What the handlers ask for.  The deletions carry whether cloud writes were suspended
    when they were asked for, and whether they succeeded. *)
Inductive Call :=
  | OnAccountSwitch
  | OnAccountChange
  | Upload (data : json) (lastSavedAt : Z)
  | DeleteCloud (suspended : bool) (uid : option string) (ok : bool)
  | DeleteAuth (suspended : bool) (ok : bool).

Inductive Choice := choose_local | choose_cloud.

Section Auth.
Context `{AsyncStorage}.

(** [signingIn]: the guest's snapshot, while [handleAccountConflict] waits for its
    sign-in.  [deleting]: the chain of cloud writes, while [handleDeleteAccount] waits for
    its drain. *)
Record AuthWorld := mkAuthWorld {
  auth : AuthHook;
  adisk : disk;
  sync : CloudSyncService;
  calls : list Call;
  alerts : list string;
  signingIn : option (json * Z);
  deleting : option (list nat)
}.

#[global] Instance AuthWorld_fields : Fields AuthWorld := fun w =>
  mkAuthWorld (auth w) (adisk w) (sync w) (calls w) (alerts w) (signingIn w) (deleting w).

Definition auth_launch (d : disk) : AuthWorld :=
  mkAuthWorld initial_auth d new_CloudSyncService [] [] None None.

Definition call (c : Call) (w : AuthWorld) : AuthWorld := w <| calls := calls w ++ [c] |>.

Definition alert (title : string) (w : AuthWorld) : AuthWorld := w <| alerts := alerts w ++ [title] |>.

Definition on_auth (f : AuthHook -> AuthHook) (w : AuthWorld) : AuthWorld :=
  w <| auth := f (auth w) |>.

(** A storage call whose rejection is handled by the callee. *)
Definition on_disk {A} (m : IO A) (w : AuthWorld) : AuthWorld := w <| adisk := snd (m (adisk w)) |>.

(** ** Auth-state changes *)

Definition note_account (user : option AuthUser) (a : AuthHook) : AuthHook :=
  match user with
  | Some u => if au_isAnonymous u then a else a <| a_lastNonAnonUid := Some (au_uid u) |>
  | None => a
  end.

Definition onAuthStateChanged (user : option AuthUser) (w : AuthWorld) : AuthWorld :=
  let prevUid := a_prevUid (auth w) in
  let newUid := au_uid <$> user in
  let w := on_auth (fun a => a <| a_authUser := user |> <| a_prevUid := newUid |>) w in
  let w :=
    match prevUid, newUid with
    | Some prev, Some new =>
        if bool_decide (prev = new) then w
        else if a_conflictResolutionPending (auth w) then w
        else
          let w := call OnAccountSwitch w in
          let isReSignIn := bool_decide (Some new = a_lastNonAnonUid (auth w)) in
          call OnAccountChange (if isReSignIn then w else on_disk clearLocalPlayerData w)
    | None, Some _ =>
        if a_pendingBelatedSignIn (auth w) && negb (a_conflictResolutionPending (auth w))
        then call OnAccountChange (on_auth (fun a => a <| a_pendingBelatedSignIn := false |>) w)
        else w
    | _, None => w
    end in
  on_auth (note_account user) w.

(** ** Start-up *)

(** The stored record read back; [None] when it is not one the app wrote. *)
Definition dec_conflict (j : json) : option PendingConflictRecord :=
  l ← jget j "localData" ≫= dec_nullable Some;
  lt ← jget j "localSavedAt" ≫= dec_int;
  c ← jget j "cloudData" ≫= dec_nullable Some;
  ct ← jget j "cloudSavedAt" ≫= dec_int;
  Some (mkPendingConflict l lt c ct).

Definition is_signed_in (user : option AuthUser) : bool :=
  from_option (fun u => negb (au_isAnonymous u)) false user.

(** [user] is the current user after [AuthService.initialize], [user'] when asked again. *)
Definition initialize (user user' : option AuthUser) (w : AuthWorld) : option AuthWorld :=
  let w := on_auth (fun a => a <| a_authUser := user |>) w in
  let (pending, d) := readPendingConflict (adisk w) in
  let w := w <| adisk := d |> in
  let load w :=
    call OnAccountChange
      (on_auth (fun a => a <| a_pendingBelatedSignIn := bool_decide (user' = None) |>) w) in
  match default None pending with
  | Some j =>
      if is_signed_in user then
        r ← dec_conflict j;
        Some (on_auth (fun a => a <| a_conflictState := Some r |>)
                (call OnAccountSwitch
                   (on_auth (fun a => a <| a_conflictResolutionPending := true |>) w)))
      else Some (load (on_disk clearPendingConflict w))
  | None => Some (load w)
  end.

(** ** Conflicts *)

(** Up to the sign-in: [true] when the guest has a save and a choice will be needed. *)
Definition handleAccountConflict_start (w : AuthWorld) : option (bool * AuthWorld) :=
  let (r, d) := readLocalPlayerSnapshot (adisk w) in
  let w := w <| adisk := d |> in
  match r with
  | Some (Some data, savedAt) =>
      t ← savedAt ≫= (fun q => dec_int (JNum q));
      Some (true, on_auth (fun a => a <| a_conflictResolutionPending := true |>) w
                    <| signingIn := Some (data, t) |>)
  | _ => Some (false, on_disk clearLocalPlayerData w)
  end.

(** From the outcome of the sign-in on; [cloud] is what the cloud load answers. *)
Definition handleAccountConflict_end (ok : bool) (cloud : CloudLoad) (w : AuthWorld) : AuthWorld :=
  match signingIn w with
  | Some (data, t) =>
      let w := w <| signingIn := None |> in
      if ok then
        let w := call OnAccountSwitch w in
        let cloudRecord := match cloud with found r => Some r | _ => None end in
        let pendingRecord :=
          mkPendingConflict (Some data) t (cr_playerData <$> cloudRecord)
            (from_option cr_lastSavedAt 0 cloudRecord) in
        on_auth (fun a => a <| a_conflictState := Some pendingRecord |>)
          (on_disk (writePendingConflict pendingRecord) w)
      else on_auth (fun a => a <| a_conflictResolutionPending := false |>) w
  | None => w
  end.

(** [writeLocalPlayerSnapshot] with a handler for its rejection. *)
Definition write_or (data : json) (savedAt : Z) (handler : AuthWorld -> AuthWorld) (w : AuthWorld) : AuthWorld :=
  let (r, d) := writeLocalPlayerSnapshot data savedAt (adisk w) in
  let w := w <| adisk := d |> in
  match r with Some _ => w | None => handler w end.

(** The guest's choice: the record to keep and the timestamp it gets. *)
Definition local_choice (now : Z) (c : PendingConflictRecord)
    (fresh : option (option json * option Q)) : option (option (json * Z)) :=
  match fresh with
  | Some (Some data, savedAt) =>
      t ← savedAt ≫= (fun q => dec_int (JNum q));
      Some (Some (data, Z.max t now))
  | _ => Some ((fun data => (data, Z.max (pc_localSavedAt c) now)) <$> pc_localData c)
  end.

Definition release (w : AuthWorld) : AuthWorld :=
  on_auth (fun a => a <| a_conflictResolutionPending := false |> <| a_conflictResolving := false |>)
    (on_disk clearPendingConflict w).

Definition resolveConflict (now : Z) (choice : Choice) (w : AuthWorld) : option AuthWorld :=
  match a_conflictState (auth w) with
  | Some c =>
      if a_conflictResolving (auth w) then Some w
      else
        let w := on_auth (fun a => a <| a_conflictResolving := true |> <| a_conflictState := None |>) w in
        match choice with
        | choose_local =>
            let (fresh, d) := readLocalPlayerSnapshot (adisk w) in
            let w := w <| adisk := d |> in
            dataToSave ← local_choice now c fresh;
            let w :=
              match dataToSave with
              | Some (data, freshTimestamp) =>
                  write_or data freshTimestamp (alert "Storage error")
                    (call (Upload data freshTimestamp) w)
              | None => w
              end in
            Some (release (call OnAccountChange w))
        | choose_cloud =>
            let w :=
              match pc_cloudData c with
              | Some cloudData => write_or cloudData (pc_cloudSavedAt c) id w
              | None => on_disk clearLocalPlayerData w
              end in
            Some (release (call OnAccountChange w))
        end
  | None => Some w
  end.

(** ** Deleting the account *)

(** How the attempt to start over after a deletion ends: [AuthService.initialize] rejects,
    the reload does, or neither. *)
Inductive ResetEvent := ResetDone | ResetNoSession | ResetNoReload.

(** What the outside answers: whether the drain's timer fired, the cloud deletion, the
    account deletion, the new session, the current user afterwards. *)
Record DeleteEnv := mkDeleteEnv {
  de_timer : bool; de_uid : option string; de_cloud : DeleteEvent; de_account : bool;
  de_reset : ResetEvent; de_user : option AuthUser
}.

Definition on_sync (f : CloudSyncService -> CloudSyncService) (w : AuthWorld) : AuthWorld :=
  w <| sync := f (sync w) |>.

Definition setAuthLoading (b : bool) : AuthWorld -> AuthWorld := on_auth (fun a => a <| a_authLoading := b |>).

(** Show the current user and reload. *)
Definition reload (user : option AuthUser) (w : AuthWorld) : AuthWorld :=
  call OnAccountChange (on_auth (fun a => a <| a_authUser := user |>) w).

Definition abortDeletion (user : option AuthUser) (w : AuthWorld) : AuthWorld :=
  setAuthLoading false (reload user (alert "Couldn’t delete account" (on_sync resumeWrites w))).

(** [clearAllUserData], retried once. *)
Definition wipe (w : AuthWorld) : AuthWorld :=
  let (r, d) := clearAllUserData (adisk w) in
  let w := w <| adisk := d |> in
  match r with Some _ => w | None => on_disk clearAllUserData w end.

(** The [try] after the deletion, with its [catch] and [finally]. *)
Definition start_over (env : DeleteEnv) (w : AuthWorld) : AuthWorld :=
  let failed w := alert "Account deleted" (on_sync resumeWrites w) in
  setAuthLoading false
    (match de_reset env with
     | ResetDone => reload (de_user env) (on_sync resumeWrites w)
     | ResetNoSession => failed w
     | ResetNoReload => failed (reload (de_user env) (on_sync resumeWrites w))
     end).

(** Up to the drain, which takes the chain of writes as it is now. *)
Definition handleDeleteAccount_start (w : AuthWorld) : AuthWorld :=
  let w := on_sync suspendWrites (call OnAccountSwitch (setAuthLoading true w)) in
  w <| deleting := Some (drainPendingWrites (sync w)) |>.

(** From the end of the drain on. *)
Definition handleDeleteAccount_end (env : DeleteEnv) (w : AuthWorld) : AuthWorld :=
  let w := w <| deleting := None |> in
  let cloudOk := from_option snd true (deletePlayerData (de_uid env) (de_cloud env)) in
  let w := call (DeleteCloud (writesSuspended (sync w)) (de_uid env) cloudOk) w in
  if negb cloudOk then abortDeletion (de_user env) w
  else
    let w := call (DeleteAuth (writesSuspended (sync w)) (de_account env)) w in
    if negb (de_account env) then abortDeletion (de_user env) w
    else
      let w := wipe w in
      let w := on_auth (fun a => a <| a_conflictState := None |>
                 <| a_conflictResolutionPending := false |> <| a_conflictResolving := false |>) w in
      start_over env w.

(** ** Events *)

Inductive AuthEvent :=
  | AuState (user : option AuthUser)
  | AuInitialize (user user' : option AuthUser)
  | AuConflict
  | AuSignedIn (ok : bool) (cloud : CloudLoad)
  | AuResolve (now : Z) (choice : Choice)
  | AuDelete
  | AuDrained (env : DeleteEnv)
  | AuSave (user : option string) (id : nat) (data : PlayerData) (lastSavedAt : Z)
  | AuSettled (id : nat) (ok : bool) (now : Z).

(** What the screens offer: no sign-in or deletion while a sign-in or a deletion runs (a
    spinner replaces the buttons) or the conflict is shown (its modal covers them), and
    start-up happens once, before either.  A deletion goes on when its drain is over. *)
Definition offered (ev : AuthEvent) (w : AuthWorld) : bool :=
  match ev with
  | AuConflict | AuDelete | AuInitialize _ _ =>
      bool_decide (signingIn w = None) && bool_decide (a_conflictState (auth w) = None)
      && bool_decide (deleting w = None)
  | AuDrained env => from_option (fun captured => drain_over captured (sync w) (de_timer env)) false (deleting w)
  | _ => true
  end.

(** [AuSave] is a save the rest of the app uploads, [AuSettled] the end of one. *)
Definition auth_step (ev : AuthEvent) (w : AuthWorld) : option AuthWorld :=
  if offered ev w then
    match ev with
    | AuState user => Some (onAuthStateChanged user w)
    | AuInitialize user user' => initialize user user' w
    | AuConflict => snd <$> handleAccountConflict_start w
    | AuSignedIn ok cloud => Some (handleAccountConflict_end ok cloud w)
    | AuResolve now choice => resolveConflict now choice w
    | AuDelete => Some (handleDeleteAccount_start w)
    | AuDrained env => Some (handleDeleteAccount_end env w)
    | AuSave user id data t => Some (on_sync (fun s => fst (CloudSync.savePlayerData s user id data t)) w)
    | AuSettled id ok now => Some (on_sync (fun s => write_settled s id ok now) w)
    end
  else Some w.

Fixpoint auth_run (evs : list AuthEvent) (w : AuthWorld) : option AuthWorld :=
  match evs with
  | [] => Some w
  | ev :: evs => w ← auth_step ev w; auth_run evs w
  end.

End Auth.

(** ** Lemmas *)

Section AuthLaws.
Context `{AsyncStorageLaws}.

(** Something of the guest's is at stake: a sign-in is in flight or the choice is up. *)
Definition at_stake (w : AuthWorld) : Prop :=
  signingIn w <> None \/ a_conflictState (auth w) <> None.

Definition guarded (w : AuthWorld) : Prop :=
  (at_stake w -> a_conflictResolutionPending (auth w) = true)
  /\ (signingIn w = None \/ a_conflictState (auth w) = None).

Lemma note_account_keeps user a :
  a_conflictState (note_account user a) = a_conflictState a
  /\ a_conflictResolutionPending (note_account user a) = a_conflictResolutionPending a.
Proof. destruct user as [[? ? ? [] ?]|]; split; reflexivity. Qed.

Lemma state_changed_keeps user w :
  signingIn (onAuthStateChanged user w) = signingIn w
  /\ a_conflictState (auth (onAuthStateChanged user w)) = a_conflictState (auth w)
  /\ a_conflictResolutionPending (auth (onAuthStateChanged user w))
     = a_conflictResolutionPending (auth w).
Proof.
  unfold onAuthStateChanged.
  match goal with |- context [on_auth (note_account user) ?x] => set (w1 := x) end.
  assert (K : signingIn w1 = signingIn w /\ a_conflictState (auth w1) = a_conflictState (auth w)
    /\ a_conflictResolutionPending (auth w1) = a_conflictResolutionPending (auth w)).
  { subst w1. destruct (a_prevUid (auth w)), (au_uid <$> user); repeat case_match; repeat split. }
  destruct (note_account_keeps user (auth w1)) as [A B]. unfold on_auth. cbn [signingIn auth assign].
  destruct K as (K1 & K2 & K3). split; [exact K1|]. split; congruence.
Qed.

(** While the guard is up an auth-state change reloads and clears nothing. *)
Lemma guard_holds user w : a_conflictResolutionPending (auth w) = true ->
  adisk (onAuthStateChanged user w) = adisk w /\ calls (onAuthStateChanged user w) = calls w.
Proof.
  intros G. unfold onAuthStateChanged, on_auth. cbn [auth assign a_conflictResolutionPending].
  rewrite G. destruct (a_prevUid (auth w)), (au_uid <$> user); try (split; reflexivity).
  - case_bool_decide; split; reflexivity.
  - rewrite andb_false_r. split; reflexivity.
Qed.

Lemma unstaked w : signingIn w = None -> a_conflictState (auth w) = None -> guarded w.
Proof. intros A B. split; [intros [X|X]; congruence | auto]. Qed.

Lemma offered_idle w : bool_decide (signingIn w = None) && bool_decide (a_conflictState (auth w) = None)
    && bool_decide (deleting w = None) = true ->
  signingIn w = None /\ a_conflictState (auth w) = None /\ deleting w = None.
Proof. rewrite !andb_true_iff, !bool_decide_eq_true. tauto. Qed.

Lemma initialize_guarded user user' w w' : signingIn w = None -> a_conflictState (auth w) = None ->
  initialize user user' w = Some w' -> guarded w'.
Proof.
  intros A B. unfold initialize. destruct (readPendingConflict _) as [p d].
  destruct (default None p) as [j|]; [destruct (is_signed_in user)|];
    try (intros [= <-]; apply unstaked; [exact A | exact B]).
  destruct (dec_conflict j); [|discriminate]. intros [= <-].
  split; [reflexivity | left; exact A].
Qed.

Lemma start_guarded w r : signingIn w = None -> a_conflictState (auth w) = None ->
  handleAccountConflict_start w = Some r -> guarded (snd r).
Proof.
  intros A B. unfold handleAccountConflict_start. destruct (readLocalPlayerSnapshot _) as [s d].
  destruct s as [[[data|] savedAt]|]; cbn [mbind option_bind];
    try (intros [= <-]; apply unstaked; [exact A | exact B]).
  destruct savedAt as [q|]; cbn [mbind option_bind]; [|discriminate].
  destruct (dec_int (JNum q)); [|discriminate]. intros [= <-].
  split; [reflexivity | right; exact B].
Qed.

Lemma end_guarded ok cloud w : guarded w -> guarded (handleAccountConflict_end ok cloud w).
Proof.
  intros [G K]. unfold handleAccountConflict_end. destruct (signingIn w) as [[data t]|] eqn:S;
    [|split; [intros [X|X]; [congruence | apply G; right; exact X] | left; exact S]].
  destruct K as [K|K]; [discriminate|]. destruct ok.
  - split; [intros _; apply G; left; congruence | left; reflexivity].
  - apply unstaked; [reflexivity | exact K].
Qed.

Lemma resolve_guarded now choice w w' : guarded w -> resolveConflict now choice w = Some w' ->
  guarded w'.
Proof.
  intros [G K]. unfold resolveConflict. destruct (a_conflictState (auth w)) as [c|] eqn:C;
    [|intros [= <-]; split; [exact G | right; exact C]].
  destruct K as [K|K]; [|discriminate].
  destruct (a_conflictResolving (auth w)); [intros [= <-]; split; [exact G | left; exact K]|].
  destruct choice; [destruct (readLocalPlayerSnapshot _) as [r d]; destruct (local_choice now c r) as [o|];
    [destruct o as [[data t]|] | discriminate] | destruct (pc_cloudData c)];
    cbn [mbind option_bind]; unfold write_or; try destruct (writeLocalPlayerSnapshot _ _ _) as [[[]|] d']; (intros [= <-]; apply unstaked; [exact K | reflexivity]).
Qed.

(** A deletion waits for its drain: nothing else is going on, writes are suspended and
    only writes the drain waits for are pending. *)
Record waiting (captured : list nat) (w : AuthWorld) : Prop := {
  wa_deleting : deleting w = Some captured;
  wa_signingIn : signingIn w = None;
  wa_closed : a_conflictState (auth w) = None;
  wa_suspended : writesSuspended (sync w) = true;
  wa_pending : pendingWrite (sync w) ⊆ captured
}.

Lemma delete_start_waiting w : offered AuDelete w = true ->
  waiting (drainPendingWrites (sync w)) (handleDeleteAccount_start w).
Proof. intros (A & B & _)%offered_idle. constructor; try assumption; reflexivity. Qed.

Definition is_drained (ev : AuthEvent) : bool := match ev with AuDrained _ => true | _ => false end.

Lemma state_changed_frame user w :
  deleting (onAuthStateChanged user w) = deleting w /\ sync (onAuthStateChanged user w) = sync w
  /\ calls w `prefix_of` calls (onAuthStateChanged user w).
Proof.
  unfold onAuthStateChanged.
  match goal with |- context [on_auth (note_account user) ?x] => set (w1 := x) end.
  cut (deleting w1 = deleting w /\ sync w1 = sync w /\ calls w `prefix_of` calls w1); [auto|].
  subst w1. destruct (a_prevUid (auth w)), (au_uid <$> user); repeat case_match; repeat split;
    cbn [call on_disk on_auth calls assign]; rewrite <- ?app_assoc; first [reflexivity | eexists; reflexivity].
Qed.

Lemma waiting_step captured ev w w' : waiting captured w -> is_drained ev = false ->
  auth_step ev w = Some w' -> waiting captured w' /\ calls w `prefix_of` calls w'.
Proof.
  intros [D A B S P] N. unfold auth_step.
  destruct ev as [user | user user' | | ok cloud | now choice | | env | user id data t | id ok now];
    try discriminate; cbn [offered]; rewrite ?D, ?(bool_decide_false (Some _ = None)), ?andb_false_r by discriminate.
  - intros [= <-]. destruct (state_changed_keeps user w) as (K1 & K2 & _).
    destruct (state_changed_frame user w) as (F1 & F2 & F3).
    split; [constructor; rewrite ?F1, ?F2, ?K1, ?K2; assumption | exact F3].
  - intros [= <-]. split; [constructor; assumption | reflexivity].
  - intros [= <-]. split; [constructor; assumption | reflexivity].
  - intros [= <-]. unfold handleAccountConflict_end. rewrite A. split; [constructor; assumption | reflexivity].
  - unfold resolveConflict. rewrite B. intros [= <-]. split; [constructor; assumption | reflexivity].
  - intros [= <-]. split; [constructor; assumption | reflexivity].
  - intros [= <-]. split; [|reflexivity].
    constructor; try assumption; cbn [on_sync sync assign]; unfold CloudSync.savePlayerData; rewrite S; assumption.
  - intros [= <-]. split; [|reflexivity]. constructor; try assumption.
    intros n [_ Hn]%list_elem_of_filter. apply P, Hn.
Qed.

Lemma waiting_run captured evs w w' : waiting captured w -> Forall (fun ev => is_drained ev = false) evs ->
  auth_run evs w = Some w' -> waiting captured w' /\ calls w `prefix_of` calls w'.
Proof.
  intros W F. revert w W. induction F as [|ev evs N _ IH]; intros w W; cbn [auth_run];
    [intros [= <-]; split; [exact W | reflexivity]|].
  destruct (auth_step ev w) as [w1|] eqn:E; [|discriminate]. intros R.
  destruct (waiting_step captured ev w w1 W N E) as [W1 C1]. destruct (IH w1 W1 R) as [W2 C2].
  split; [exact W2 | etransitivity; eassumption].
Qed.

Lemma delete_end_closed env w :
  signingIn (handleDeleteAccount_end env w) = signingIn w /\ deleting (handleDeleteAccount_end env w) = None
  /\ (a_conflictState (auth w) = None -> a_conflictState (auth (handleDeleteAccount_end env w)) = None).
Proof.
  unfold handleDeleteAccount_end, start_over, wipe, on_disk. repeat case_match; repeat split; auto.
Qed.

(** Between events: guarded, and a deletion that is going on is waiting for its drain. *)
Definition auth_ok (w : AuthWorld) : Prop :=
  guarded w /\ forall captured, deleting w = Some captured -> waiting captured w.

Lemma auth_ok_idle w : deleting w = None -> guarded w -> auth_ok w.
Proof. intros D G. split; [exact G | congruence]. Qed.

Lemma initialize_deleting user user' w w' : initialize user user' w = Some w' -> deleting w' = deleting w.
Proof.
  unfold initialize. destruct (readPendingConflict _) as [p d].
  destruct (default None p) as [j|]; [destruct (is_signed_in user); [destruct (dec_conflict j)|]|];
    try discriminate; intros [= <-]; reflexivity.
Qed.

Lemma start_deleting w r : handleAccountConflict_start w = Some r -> deleting (snd r) = deleting w.
Proof.
  unfold handleAccountConflict_start. destruct (readLocalPlayerSnapshot _) as [[[[data|] savedAt]|] d];
    cbn [mbind option_bind]; try (intros [= <-]; reflexivity).
  destruct savedAt as [q|]; cbn [mbind option_bind]; [|discriminate].
  destruct (dec_int (JNum q)); [|discriminate]. intros [= <-]. reflexivity.
Qed.

Lemma end_deleting ok cloud w : deleting (handleAccountConflict_end ok cloud w) = deleting w.
Proof. unfold handleAccountConflict_end. destruct (signingIn w) as [[]|], ok; reflexivity. Qed.

Lemma resolve_deleting now choice w w' : resolveConflict now choice w = Some w' -> deleting w' = deleting w.
Proof.
  unfold resolveConflict. destruct (a_conflictState (auth w)) as [c|]; [|intros [= <-]; reflexivity].
  destruct (a_conflictResolving (auth w)); [intros [= <-]; reflexivity|].
  destruct choice; [destruct (readLocalPlayerSnapshot _) as [r d]; destruct (local_choice now c r) as [o|];
    [destruct o as [[data t]|] | discriminate] | destruct (pc_cloudData c)];
    cbn [mbind option_bind]; unfold write_or; try destruct (writeLocalPlayerSnapshot _ _ _) as [[[]|] d']; intros [= <-]; reflexivity.
Qed.

(** A step with no deletion going on. *)
Lemma idle_step_ok ev w w' : deleting w = None -> guarded w -> auth_step ev w = Some w' -> auth_ok w'.
Proof.
  intros D G. unfold auth_step. destruct (offered ev w) eqn:O;
    [|intros [= <-]; apply auth_ok_idle; assumption].
  destruct ev as [user | user user' | | ok cloud | now choice | | env | user id data t | id ok now].
  - intros [= <-]. destruct (state_changed_frame user w) as (F & _ & _). apply auth_ok_idle; [congruence|].
    unfold guarded, at_stake in *. destruct (state_changed_keeps user w) as (-> & -> & ->). exact G.
  - apply offered_idle in O as (A & B & _). intros E.
    apply auth_ok_idle; [rewrite (initialize_deleting _ _ _ _ E); exact D | exact (initialize_guarded _ _ _ _ A B E)].
  - apply offered_idle in O as (A & B & _). intros (r & R & ->)%fmap_Some.
    apply auth_ok_idle; [rewrite (start_deleting _ _ R); exact D | exact (start_guarded w r A B R)].
  - intros [= <-]. apply auth_ok_idle; [rewrite end_deleting; exact D | apply end_guarded, G].
  - intros E. apply auth_ok_idle; [rewrite (resolve_deleting _ _ _ _ E); exact D | exact (resolve_guarded _ _ _ _ G E)].
  - intros [= <-]. pose proof (delete_start_waiting w O) as W. split; [apply unstaked; apply W|].
    intros c E. pose proof (wa_deleting _ _ W) as E'. assert (c = drainPendingWrites (sync w)) as -> by congruence. exact W.
  - cbn [offered] in O. rewrite D in O. discriminate.
  - intros [= <-]. apply auth_ok_idle; [exact D | exact G].
  - intros [= <-]. apply auth_ok_idle; [exact D | exact G].
Qed.

Lemma auth_step_ok ev w w' : auth_ok w -> auth_step ev w = Some w' -> auth_ok w'.
Proof.
  intros [G W] E. destruct (deleting w) as [captured|] eqn:D; [|exact (idle_step_ok ev w w' D G E)].
  specialize (W captured eq_refl). destruct (is_drained ev) eqn:N.
  - destruct ev as [| | | | | | env | |]; try discriminate. unfold auth_step in E.
    destruct (offered (AuDrained env) w); injection E as <-; [|split; [exact G|]].
    + destruct (delete_end_closed env w) as (A & B & C).
      apply auth_ok_idle; [exact B|]. apply unstaked; [rewrite A; apply W | apply C, W].
    + intros c X. assert (c = captured) as -> by congruence. exact W.
  - destruct (waiting_step captured ev w w' W N E) as [W' _]. split; [apply unstaked; apply W'|].
    intros c X. pose proof (wa_deleting _ _ W') as X'. assert (c = captured) as -> by congruence. exact W'.
Qed.

Lemma auth_run_ok evs w w' : auth_ok w -> auth_run evs w = Some w' -> auth_ok w'.
Proof.
  revert w. induction evs as [|ev evs IH]; intros w G; cbn [auth_run]; [intros [= <-]; exact G|].
  destruct (auth_step ev w) as [w1|] eqn:E; [|discriminate].
  apply IH, (auth_step_ok ev w w1 G E).
Qed.

Lemma auth_launch_ok d : auth_ok (auth_launch d).
Proof. apply auth_ok_idle; [reflexivity | apply unstaked; reflexivity]. Qed.

(** ** Properties *)

(** C17: the guest's save is safe while the choice is open.  In every state the app can
    reach, from the moment a conflicting sign-in starts until the user has chosen, an
    auth-state change, whatever user it reports, neither clears nor reloads anything:
    stored values and calls are as they were. *)
Theorem conflict_guarded (d : disk) (evs : list AuthEvent) (w : AuthWorld) (user : option AuthUser) :
  auth_run evs (auth_launch d) = Some w -> at_stake w ->
  adisk (onAuthStateChanged user w) = adisk w /\ calls (onAuthStateChanged user w) = calls w.
Proof.
  intros R S. apply guard_holds. apply (auth_run_ok _ _ _ (auth_launch_ok d) R), S.
Qed.

Definition user_keys : list string :=
  [STORAGE_KEYS.PLAYER_DATA; STORAGE_KEYS.PLAYER_SAVED_AT; STORAGE_KEYS.PENDING_ENCOUNTER;
   STORAGE_KEYS.WALK_SUMMARY; STORAGE_KEYS.TRACKING_STATE; STORAGE_KEYS.CONFLICT_PENDING].

(** Either an attempt succeeded and nothing of the user is stored, or both failed. *)
Definition wiped (d d' : disk) : Prop :=
  (forall k, k ∈ user_keys -> contents d' k = None)
  \/ (fst (clearAllUserData d) = None
      /\ fst (clearAllUserData (snd (clearAllUserData d))) = None /\ same_contents d d').

Lemma clear_user_cases d :
  (fst (clearAllUserData d) = Some tt
   /\ forall k, k ∈ user_keys -> contents (snd (clearAllUserData d)) k = None)
  \/ (fst (clearAllUserData d) = None /\ same_contents d (snd (clearAllUserData d))).
Proof.
  unfold clearAllUserData, io_remove. change [_; _; _; _; _; _] with user_keys.
  pose proof (multiRemove_ok user_keys d) as A. pose proof (multiRemove_err user_keys d) as B.
  destruct (multiRemove user_keys d) as [[] d']; cbn [fst snd] in *; [left | right]; split; auto.
  - intros k Hk. rewrite A by reflexivity. apply decide_True, Hk.
  - intros k. apply B. reflexivity.
Qed.

Lemma wipe_wiped w : wiped (adisk w) (adisk (wipe w)).
Proof.
  unfold wipe, on_disk, wiped. destruct (clear_user_cases (adisk w)) as [[E W]|[E S]].
  - destruct (clearAllUserData (adisk w)) as [r d]. cbn [fst snd] in *. subst r. left. exact W.
  - destruct (clearAllUserData (adisk w)) as [r d]. cbn [fst snd] in *. subst r. cbn [adisk assign].
    destruct (clear_user_cases d) as [[E' W']|[E' S']]; [left; exact W' | right].
    split; [reflexivity|]. split; [exact E'|]. intros k. rewrite S', S. reflexivity.
Qed.

(** Whether the cloud deletion went through. *)
Definition cloud_erased (env : DeleteEnv) : bool :=
  match de_uid env, de_cloud env with
  | None, _ | Some _, DeleteResolved => true
  | Some _, _ => false
  end.

Lemma cloud_erased_eq env :
  from_option snd true (deletePlayerData (de_uid env) (de_cloud env)) = cloud_erased env.
Proof. unfold cloud_erased. destruct (de_uid env), (de_cloud env); reflexivity. Qed.

(** What a deletion leaves on the device. *)
Lemma deletion_disk env w :
  if cloud_erased env && de_account env
  then wiped (adisk w) (adisk (handleDeleteAccount_end env w))
  else adisk (handleDeleteAccount_end env w) = adisk w.
Proof.
  unfold handleDeleteAccount_end. rewrite cloud_erased_eq.
  destruct (cloud_erased env); cbn [negb andb]; [|reflexivity].
  destruct (de_account env); cbn [negb]; [|reflexivity].
  set (w0 := call (DeleteAuth _ _) _). unfold start_over.
  destruct (de_reset env); exact (wipe_wiped w0).
Qed.

Lemma wipe_frame w : calls (wipe w) = calls w /\ alerts (wipe w) = alerts w /\ deleting (wipe w) = deleting w.
Proof. unfold wipe. destruct (clearAllUserData _) as [[] ?]; auto. Qed.

(** The calls and alerts of a deletion, after its drain. *)
Definition deletion_calls (env : DeleteEnv) : list Call :=
  [DeleteCloud true (de_uid env) (cloud_erased env)]
  ++ (if cloud_erased env then [DeleteAuth true (de_account env)] else [])
  ++ (if cloud_erased env && de_account env
         && match de_reset env with ResetNoSession => true | _ => false end
      then [] else [OnAccountChange]).

Definition deletion_alerts (env : DeleteEnv) : list string :=
  if cloud_erased env && de_account env
  then match de_reset env with ResetDone => [] | _ => ["Account deleted"] end
  else ["Couldn’t delete account"].

Lemma deletion_end_effects env w : writesSuspended (sync w) = true ->
  let w' := handleDeleteAccount_end env w in
  calls w' = calls w ++ deletion_calls env /\ alerts w' = alerts w ++ deletion_alerts env
  /\ writesSuspended (sync w') = false /\ a_authLoading (auth w') = false /\ deleting w' = None.
Proof.
  intros S. cbv zeta. unfold handleDeleteAccount_end, deletion_calls, deletion_alerts. rewrite cloud_erased_eq.
  cbn [sync assign call]. rewrite S.
  destruct (cloud_erased env); cbn [negb andb];
    [|repeat split; cbn [calls assign abortDeletion setAuthLoading reload on_auth call alert on_sync];
      rewrite <- ?app_assoc; reflexivity].
  destruct (de_account env); cbn [negb andb];
    [|repeat split; cbn [calls assign abortDeletion setAuthLoading reload on_auth call alert on_sync];
      rewrite <- ?app_assoc; reflexivity].
  set (w0 := call (DeleteAuth _ _) _). destruct (wipe_frame w0) as (K1 & K2 & K4). unfold start_over.
  destruct (de_reset env); cbn [calls alerts assign setAuthLoading reload on_auth call alert on_sync];
    rewrite ?K1, ?K2; subst w0; cbn [calls alerts assign on_auth call]; rewrite <- ?app_assoc, ?app_nil_r;
    repeat split; exact K4.
Qed.

(** C19: deletion erases in the order that can be undone, and never wedges the app.
    A deletion is started while nothing else is going on; then anything may happen (saves,
    writes settling, auth-state changes) until its drain is over, by itself or by its timer.
    When it goes on, the game has been told to stop; if the timer did not fire, no cloud
    write is pending, so none can bring the document back.  Cloud data is deleted first,
    with writes suspended; the account is deleted only if that succeeded.  A failure of
    either shows an alert, leaves everything on the device as it was and reloads.  After
    the account is gone, either nothing of the user is left on the device or both wipes
    failed; the app reloads, unless no new session could be started, and whenever the
    restart fails an alert asks for one.  On every path cloud writes resume and the
    spinner stops. *)
Theorem deletion_ordered (w0 w : AuthWorld) (between : list AuthEvent) (env : DeleteEnv) :
  offered AuDelete w0 = true -> auth_run (AuDelete :: between) w0 = Some w ->
  Forall (fun ev => is_drained ev = false) between ->
  drain_over (drainPendingWrites (sync w0)) (sync w) (de_timer env) = true ->
  (calls w0 ++ [OnAccountSwitch]) `prefix_of` calls w
  /\ (de_timer env = false -> pendingWrite (sync w) = [])
  /\ exists w', auth_step (AuDrained env) w = Some w'
    /\ calls w' = calls w ++ deletion_calls env /\ alerts w' = alerts w ++ deletion_alerts env
    /\ (if cloud_erased env && de_account env
        then wiped (adisk w) (adisk w') else adisk w' = adisk w)
    /\ writesSuspended (sync w') = false /\ a_authLoading (auth w') = false /\ deleting w' = None.
Proof.
  intros O R F D. cbn [auth_run] in R. unfold auth_step at 1 in R. rewrite O in R. cbn [mbind option_bind] in R.
  destruct (waiting_run _ between _ w (delete_start_waiting w0 O) F R) as [W C].
  split; [exact C|]. split.
  - intros T. rewrite T in D. apply drain_over_spec in D. rewrite Forall_forall in D.
    apply list_nil_subseteq. intros n Hn. destruct (D n (wa_pending _ _ W n Hn) Hn).
  - exists (handleDeleteAccount_end env w). unfold auth_step. cbn [offered].
    rewrite (wa_deleting _ _ W). cbn [from_option]. rewrite D. split; [reflexivity|].
    destruct (deletion_end_effects env w (wa_suspended _ _ W)) as (E1 & E2 & E3 & E4 & E5).
    split; [exact E1|]. split; [exact E2|]. split; [apply deletion_disk | auto].
Qed.

(** The snapshot under the save keys can be read. *)
Definition readable (d : disk) : bool :=
  match fst (multiGet [STORAGE_KEYS.PLAYER_DATA; STORAGE_KEYS.PLAYER_SAVED_AT] d) with
  | Some _ => true | None => false
  end.

Lemma read_readable j t d : isValidPlayerData j = true -> stored j t d -> readable d = true ->
  fst (readLocalPlayerSnapshot d) = Some (Some j, Some (num t))
  /\ same_contents d (snd (readLocalPlayerSnapshot d)).
Proof.
  intros V [A B] R. apply (read_snapshot d j (Some (TJson (jint t)))); [assumption..|].
  unfold readable in R. destruct (fst _); [discriminate | discriminate R].
Qed.

Lemma read_unreadable d : readable d = false -> fst (readLocalPlayerSnapshot d) = Some (None, Some 0%Q).
Proof.
  intros R. destruct (read_failed d) as (d1 & _ & ->); [|reflexivity].
  unfold readable in R. destruct (fst _); [discriminate | reflexivity].
Qed.

Lemma stored_same j t d d' : same_contents d d' -> stored j t d -> stored j t d'.
Proof. intros C [A B]. split; rewrite C; assumption. Qed.

(** A stored save outlives a reconciliation that can read it, with a cloud save that is
    not newer. *)
Lemma stored_kept j t d cloud : isValidPlayerData j = true -> stored j t d -> readable d = true ->
  (forall r, cloud = found r -> cr_lastSavedAt r <= t) ->
  stored j t (snd (reconcileCloudPlayerData cloud d)).
Proof.
  intros V S R L. destruct cloud as [r| |]; [|exact S..]. unfold reconcileCloudPlayerData.
  case_match; [exact S|]. destruct (read_readable j t d V S R) as [E C]. unfold bind at 1.
  destruct (readLocalPlayerSnapshot d) as [o d1]. cbn [fst snd] in *. subst o. cbn [snd js_gt_num].
  specialize (L r eq_refl). destruct (js_ltP (num t) (num (cr_lastSavedAt r))) as [X|X].
  - unfold num in X. rewrite <- Zlt_Qlt in X. lia.
  - exact (stored_same _ _ _ _ C S).
Qed.

Lemma clear_conflict_stored j t d : stored j t d -> stored j t (snd (clearPendingConflict d)).
Proof.
  intros [A B]. unfold clearPendingConflict, try_catch.
  destruct (removeItem_cases STORAGE_KEYS.CONFLICT_PENDING d) as [[E C]|[E C]];
    destruct (removeItem _ d) as [r d']; cbn [fst snd] in *; subst r; split; cbn [snd ret];
    rewrite C; assumption.
Qed.

(** What the user chose to keep, and its timestamp: the guest's save as it is stored now,
    or, if it cannot be read, as it was when the conflict arose. *)
Definition chosen (now : Z) (choice : Choice) (c : PendingConflictRecord) (read : bool) (j : json) (t : Z)
    : option (json * Z) :=
  match choice with
  | choose_local =>
      if read then Some (j, Z.max t now)
      else (fun l => (l, Z.max (pc_localSavedAt c) now)) <$> pc_localData c
  | choose_cloud => (fun cd => (cd, pc_cloudSavedAt c)) <$> pc_cloudData c
  end.

(** The conflict is over. *)
Definition closed (a : AuthHook) : Prop :=
  a_conflictState a = None /\ a_conflictResolutionPending a = false
  /\ a_conflictResolving a = false.

(** The alert of a local write that failed. *)
Definition choice_alert (choice : Choice) : list string :=
  match choice with choose_local => ["Storage error"] | choose_cloud => [] end.

(** The chosen save is stored, or the device refused to write it. *)
Definition kept_or_refused (choice : Choice) (kept : json) (stamp : Z) (w w' : AuthWorld) : Prop :=
  stored kept stamp (adisk w') /\ alerts w' = alerts w
  \/ (exists d, fst (writeLocalPlayerSnapshot kept stamp d) = None)
     /\ alerts w' = alerts w ++ choice_alert choice.

Lemma write_or_kept choice kept stamp h w0 w :
  alerts w = alerts w0 ->
  (forall w1, adisk (h w1) = adisk w1 /\ alerts (h w1) = alerts w1 ++ choice_alert choice) ->
  kept_or_refused choice kept stamp w0 (release (call OnAccountChange (write_or kept stamp h w))).
Proof.
  intros A Hh. unfold write_or, kept_or_refused. pose proof (write_cases kept stamp (adisk w)) as K.
  destruct K as [[E S]|[E _]].
  - left. destruct (writeLocalPlayerSnapshot kept stamp (adisk w)) as [r d]. cbn [fst snd] in *. subst r.
    split; [apply clear_conflict_stored, S | exact A].
  - right. split; [eauto|]. destruct (writeLocalPlayerSnapshot kept stamp (adisk w)) as [r d].
    cbn [fst] in E. subst r. etransitivity; [apply Hh|]. cbn. rewrite A. reflexivity.
Qed.

Lemma write_or_calls kept stamp h w : (forall w1, calls (h w1) = calls w1 /\ auth (h w1) = auth w1) ->
  calls (write_or kept stamp h w) = calls w /\ auth (write_or kept stamp h w) = auth w.
Proof.
  intros Hh. unfold write_or. destruct (writeLocalPlayerSnapshot _ _ _) as [[[]|] d]; [split; reflexivity|].
  exact (Hh (w <| adisk := d |>)).
Qed.

(** What a choice does, given what the read of the guest's save answers. *)
Lemma resolve_keeps now choice w c kept stamp :
  a_conflictState (auth w) = Some c -> a_conflictResolving (auth w) = false ->
  match choice with
  | choose_local => local_choice now c (fst (readLocalPlayerSnapshot (adisk w))) = Some (Some (kept, stamp))
  | choose_cloud => pc_cloudData c = Some kept /\ stamp = pc_cloudSavedAt c
  end ->
  exists w', resolveConflict now choice w = Some w' /\ kept_or_refused choice kept stamp w w'
    /\ calls w' = calls w
        ++ (match choice with choose_local => [Upload kept stamp] | choose_cloud => [] end)
        ++ [OnAccountChange]
    /\ closed (auth w').
Proof.
  intros C R E. unfold resolveConflict. rewrite C, R. destruct choice.
  - unfold on_auth. cbn [adisk assign]. destruct (readLocalPlayerSnapshot (adisk w)) as [r d].
    cbn [fst] in E. rewrite E. cbn [mbind option_bind]. eexists. split; [reflexivity|].
    split; [apply write_or_kept; [reflexivity | intros w1; split; reflexivity]|].
    destruct (write_or_calls kept stamp (alert "Storage error")
      (call (Upload kept stamp) (w <| auth := auth w <| a_conflictResolving := true |> <| a_conflictState := None |> |>
         <| adisk := d |>))) as [K1 K2]; [intros w1; split; reflexivity|].
    split; [|repeat split; exact (f_equal a_conflictState K2)].
    etransitivity; [exact (f_equal (fun l => l ++ [OnAccountChange]) K1)|]. cbn. rewrite <- app_assoc. reflexivity.
  - destruct E as [-> ->]. eexists. split; [reflexivity|].
    split; [apply write_or_kept; [reflexivity | intros w1; split; [|symmetry; apply app_nil_r]; reflexivity]|].
    destruct (write_or_calls kept (pc_cloudSavedAt c) id
      (w <| auth := auth w <| a_conflictResolving := true |> <| a_conflictState := None |> |>)) as [K1 K2];
      [intros w1; split; reflexivity|].
    split; [exact (f_equal (fun l => l ++ [OnAccountChange]) K1) | repeat split; exact (f_equal a_conflictState K2)].
Qed.


End AuthLaws.

(** ** Concrete inputs *)

Definition guest : AuthUser := mkAuthUser "guest" None None true None.
Definition owner : AuthUser := mkAuthUser "owner" (Some "Ada") None false None.

Definition guest_data : json := enc_player sample_data.

Definition guest_disk : @disk durable_storage :=
  snd (@writeLocalPlayerSnapshot durable_storage guest_data 2000 ∅).

(** A guest with a save signs in to an account that has one too. *)
Definition conflict_start : list AuthEvent :=
  [AuInitialize (Some guest) (Some guest); AuState (Some guest); AuConflict; AuState (Some owner);
   AuSignedIn true (found cloud_save)].

Definition conflict_world : @AuthWorld durable_storage :=
  default (@auth_launch durable_storage ∅) (auth_run conflict_start (@auth_launch durable_storage guest_disk)).

Lemma conflict_world_run :
  @auth_run durable_storage conflict_start (@auth_launch durable_storage guest_disk)
  = Some conflict_world.
Proof. apply default_run. vm_compute. reflexivity. Qed.

Lemma conflict_guarded_witness :
  @adisk durable_storage (onAuthStateChanged (Some guest) conflict_world) = adisk conflict_world
  /\ calls (onAuthStateChanged (Some guest) conflict_world) = calls conflict_world.
Proof.
  apply (@conflict_guarded durable_storage guest_disk conflict_start conflict_world
           (Some guest) conflict_world_run).
  right. vm_compute. discriminate.
Defined.


(** A cloud save from a device whose clock is ahead undoes the choice.  The chosen
    guest save is stamped with the present time, not past the cloud save shown in the
    conflict, so the reconciliation of the reload adopts the save the user declined. *)
Theorem future_cloud_undoes_choice :
  let ahead := mkCloudRecord (cr_playerData cloud_save) 9000 in
  (w ← @auth_run durable_storage
         [AuInitialize (Some guest) (Some guest); AuState (Some guest); AuConflict;
          AuState (Some owner); AuSignedIn true (found ahead); AuResolve 5000 choose_local]
         (@auth_launch durable_storage guest_disk);
   Some (calls w, fst (reconcileCloudPlayerData (found ahead) (adisk w))))
  = Some ([OnAccountChange; OnAccountSwitch; Upload guest_data 5000; OnAccountChange],
          Some (adopted (cr_playerData cloud_save))).
Proof. vm_compute. reflexivity. Qed.

Definition delete_env : DeleteEnv :=
  mkDeleteEnv false (Some "owner") DeleteResolved true ResetNoSession (Some guest).

(** A save is in flight when the deletion starts and settles while it waits. *)
Definition owner_world : @AuthWorld durable_storage :=
  default (@auth_launch durable_storage ∅)
    (auth_run [AuInitialize (Some owner) (Some owner); AuSave (Some "owner") 0 sample_data 3000]
       (@auth_launch durable_storage guest_disk)).

Definition draining_world : @AuthWorld durable_storage :=
  default (@auth_launch durable_storage ∅)
    (auth_run [AuDelete; AuSave (Some "owner") 1 sample_data 3500; AuSettled 0 true 4000] owner_world).

Lemma draining_run :
  @auth_run durable_storage [AuDelete; AuSave (Some "owner") 1 sample_data 3500; AuSettled 0 true 4000] owner_world
  = Some draining_world.
Proof. apply default_run. vm_compute. reflexivity. Qed.

(** The save has settled, nothing is pending; the account is deleted, but no new session
    can be started. *)
Lemma deletion_ordered_witness :
  pendingWrite (sync draining_world) = []
  /\ exists w', @auth_step durable_storage (AuDrained delete_env) draining_world = Some w'
    /\ calls w' = [OnAccountChange; OnAccountSwitch; DeleteCloud true (Some "owner") true; DeleteAuth true true]
    /\ alerts w' = ["Account deleted"] /\ wiped (adisk draining_world) (adisk w')
    /\ writesSuspended (sync w') = false /\ a_authLoading (auth w') = false.
Proof.
  destruct (@deletion_ordered durable_storage durable_laws owner_world draining_world
    [AuSave (Some "owner") 1 sample_data 3500; AuSettled 0 true 4000] delete_env)
    as (_ & P & w' & E & C & A & D & S & L & _);
    [vm_compute; reflexivity | exact draining_run | repeat constructor | vm_compute; reflexivity|].
  split; [apply P; reflexivity|]. exists w'. split; [exact E|].
  split; [rewrite C; vm_compute; reflexivity|]. split; [rewrite A; vm_compute; reflexivity|].
  split; [exact D | auto].
Defined.
