(* ===== verification/CombatSession.v ===== *)
(** * The active encounter

    The fight state machine of [src/hooks/useEncounter.ts]: the refs and React state it
    keeps, one definition per handler and per timer callback, and the event loop that
    interleaves them.  The asynchronous half of the hook (held foes, passive
    resolution, the distance gate) is in [EncounterFlow]. *)
From stdpp Require Import base decidable strings list.
From Stdlib Require Import ZArith QArith Lia.
From S2P Require Import Prelude JsNumber Random Combat Archetype Ability CombatFeed Creature.
From S2P Require Import Config Item Player Loot AutoCombat Encounter Json.
Local Open Scope Z_scope.

(** ** State *)

(** An encounter object: its identity (what [!==] compares) and its fields.  The
    creature is shared by the encounter objects of one fight and mutated in place. *)
Record EncounterObj := mkObj { eo_id : nat; eo_enc : Encounter }.

Definition eo_creature (o : EncounterObj) : Creature := e_creature (eo_enc o).

Record RewardReveal := mkReveal {
  rv_creatureName : string;
  rv_xpGained : Z;
  rv_leveledUp : bool;
  rv_newLevel : Z;
  rv_item : option Item;
  rv_isUpgrade : bool;
  rv_inventoryFull : bool
}.

Definition REWARD_REVEAL_DELAY_MS : Z := 380.
Definition KILL_BEAT_MS : Z := 500.
Definition COUNTER_STRIKE_HOLD_MS : Z := 450.

(** The callback an armed counter timer will run, with what its closure captured. *)
Inductive CounterCallback :=
  | CounterStrike (creatureAttack playerDefense : Z) (creature : Creature)
      (scheduledEncounter : option nat)
  | CounterHold.

Record CounterTimer := mkCounterTimer { ct_delay : Z; ct_callback : CounterCallback }.

(** A timer ref is [None] when no timer is armed, and otherwise what its callback
    captured; every overwrite of a timer ref in the source is preceded by
    [clearTimeout] or made by the timer's own callback.  [saves] is the player the session
    started with, if any, and then each player [setPlayerAndSave] was called with. *)
Record Session := mkSession {
  playerRef : option Player;
  encounterRef : option EncounterObj;
  currentEncounter : option EncounterObj;
  showEncounterModal : bool;
  showCombatModal : bool;
  showCombatModalRef : bool;
  isEncounterModalMinimized : bool;
  isMinimizedRef : bool;
  playerCombatStateRef : option CombatantState;
  playerCombatState : option CombatantState;
  creatureCombatStateRef : option CombatantState;
  victoryProcessedRef : bool;
  fleeProcessedRef : bool;
  killBeatTimerRef : option Player;
  killBeatPendingRef : bool;
  counterTimerRef : option CounterTimer;
  counterPendingRef : bool;
  isEnemyTurn : bool;
  playerDodgeStreakRef : Z;
  creatureDodgeStreakRef : Z;
  combatHits : list CombatHitEvent;
  hitIdRef : Z;
  combatLog : list CombatLogEntry;
  logIdRef : Z;
  rewardRevealTimerRef : option RewardReveal;
  rewardReveal : option RewardReveal;
  walkSummary : option (list json);
  heldFoe : option EncounterObj;
  forceItemDrop : bool;
  forcedRarity : option Rarity;
  nextObject : nat;
  saves : list Player
}.

#[export] Instance Session_fields : Fields Session := fun s =>
  mkSession (playerRef s) (encounterRef s) (currentEncounter s) (showEncounterModal s)
    (showCombatModal s) (showCombatModalRef s) (isEncounterModalMinimized s) (isMinimizedRef s)
    (playerCombatStateRef s) (playerCombatState s) (creatureCombatStateRef s)
    (victoryProcessedRef s) (fleeProcessedRef s) (killBeatTimerRef s) (killBeatPendingRef s)
    (counterTimerRef s) (counterPendingRef s) (isEnemyTurn s) (playerDodgeStreakRef s)
    (creatureDodgeStreakRef s) (combatHits s) (hitIdRef s) (combatLog s) (logIdRef s)
    (rewardRevealTimerRef s) (rewardReveal s) (walkSummary s) (heldFoe s) (forceItemDrop s)
    (forcedRarity s) (nextObject s) (saves s).

(** The hook's first render, with the player [usePlayer] holds. *)
Definition initial_session (p : option Player) : Session :=
  mkSession p None None false false false false false None None None false false None false None
    false false 0 0 [] 0 [] 0 None None None None false None 0 (option_list p).

(** ** Shared steps *)

(** [new Player(p.toJSON())] *)
Definition params_of_data (d : PlayerData) : PlayerConstructorParams :=
  {| pp_id := Some (d_id d); pp_name := Some (d_name d); pp_level := Some (d_level d);
     pp_experience := Some (d_experience d); pp_attack := Some (d_attack d);
     pp_defense := Some (d_defense d); pp_hp := d_hp d; pp_maxHp := d_maxHp d;
     pp_totalDistance := Some (d_totalDistance d);
     pp_totalEncounters := Some (d_totalEncounters d);
     pp_creaturesDefeated := Some (d_creaturesDefeated d);
     pp_combatTurnsTaken := d_combatTurnsTaken d; pp_equipment := Some (d_equipment d);
     pp_inventory := d_inventory d; pp_archetype := d_archetype d; pp_str := d_str d;
     pp_agi := d_agi d; pp_int := d_int d |}.

Definition clone (p : Player) : Player := new_Player (params_of_data (toJSON p)).

#[global] Arguments clone : simpl never.

(** [setPlayerAndSave] of [usePlayer], as the handlers see it: the ref they read changes
    and a save is issued.  [Home] hands the issued saves to [PlayerSession]. *)
Definition setPlayerAndSave (p : Player) (s : Session) : Session :=
  s <| playerRef := Some p |> <| saves := saves s ++ [p] |>.

(** [setCurrentEncounter] and the assignment to [encounterRef], always made together. *)
Definition put_encounter (o : option EncounterObj) (s : Session) : Session :=
  s <| encounterRef := o |> <| currentEncounter := o |>.

(** The creature object of the current fight, mutated in place. *)
Definition put_creature (c : Creature) (o : EncounterObj) : EncounterObj :=
  let e := eo_enc o in
  mkObj (eo_id o) (mkEncounter c (e_location e) (e_timestamp e) (e_playerLevel e) (e_status e)
                     (e_daylight e)).

Definition mutate_creature (c : Creature) (s : Session) : Session :=
  s <| encounterRef := put_creature c <$> encounterRef s |>
    <| currentEncounter := put_creature c <$> currentEncounter s |>.

(** [new Encounter({creature, location, ..., daylight})] from the fields of [o]. *)
Definition renew_encounter (now : Z) (c : Creature) (o : EncounterObj) (s : Session) : Session :=
  let e := eo_enc o in
  let e' := new_Encounter now c (e_location e) (Some (e_timestamp e)) (Some (e_playerLevel e))
              (Some (e_status e)) (e_daylight e) in
  put_encounter (Some (mkObj (nextObject s) e')) s <| nextObject := S (nextObject s) |>.

(** The assignments made by every way a fight ends: the encounter and all state that
    belongs to it go. *)
Definition torn_down (s : Session) : Session :=
  put_encounter None s <| isMinimizedRef := false |> <| showCombatModalRef := false |>
    <| playerCombatStateRef := None |> <| creatureCombatStateRef := None |>
    <| isEncounterModalMinimized := false |> <| showCombatModal := false |>
    <| showEncounterModal := false |> <| playerCombatState := None |>.

Definition pushHit (target : Combatant) (amount : Z) (damageType : option DamageType)
    (resist : ResistTier) (kind : HitKind) (targetMaxHp : Z) (label : option string)
    (evade : option EvadeOutcome) (s : Session) : Session :=
  s <| combatHits := combatHits s ++
         [mkHit (hitIdRef s) target amount damageType resist kind targetMaxHp label evade] |>
    <| hitIdRef := hitIdRef s + 1 |>.

Definition pushLog (kind : CombatLogKind) (actor : Combatant) (target : option Combatant)
    (source : option string) (amount : option Z) (damageType : option (option DamageType))
    (label : option string) (tags : option (list CombatLogTag)) (s : Session) : Session :=
  s <| combatLog := combatLog s ++
         [mkLog (logIdRef s) kind actor target source amount damageType label tags] |>
    <| logIdRef := logIdRef s + 1 |>.

Definition cancelCounterBeat (s : Session) : Session :=
  s <| counterTimerRef := None |> <| counterPendingRef := false |> <| isEnemyTurn := false |>.

Definition clearEncounter (s : Session) : Session :=
  let s := put_encounter None s
    <| isMinimizedRef := false |> <| showCombatModalRef := false |>
    <| playerCombatStateRef := None |> <| creatureCombatStateRef := None |>
    <| showEncounterModal := false |> <| showCombatModal := false |>
    <| isEncounterModalMinimized := false |> <| playerCombatState := None |>
    <| combatHits := [] |> <| combatLog := [] |>
    <| killBeatTimerRef := None |> <| killBeatPendingRef := false |> in
  let s := cancelCounterBeat s in
  s <| rewardRevealTimerRef := None |> <| rewardReveal := None |>
    <| walkSummary := None |> <| heldFoe := None |>.

(** The cleanup on unmount: no timer is left to fire. *)
Definition unmount (s : Session) : Session :=
  s <| rewardRevealTimerRef := None |> <| killBeatTimerRef := None |> <| counterTimerRef := None |>.

(** ** Victory *)

(** What a win pays: the updated player and the reveal that announces it. *)
Definition victory_rewards (now : Z) (basePlayer : Player) (creature : Creature)
    (force : bool) (rarity : option Rarity) : Rand (Player * RewardReveal) :=
  let updatedPlayer := incrementEncounters (defeatCreature (clone basePlayer)) in
  let expGain := activeCombatXp (getExperienceReward creature) in
  let (updatedPlayer, levelsGained) := addExperience updatedPlayer expGain in
  let! droppedItem := dropActiveCombatItem now force (p_level updatedPlayer) rarity in
  let '(updatedPlayer, inventoryFull, isUpgrade) :=
    match droppedItem with
    | Some item =>
        let (updatedPlayer, inventoryIndex) := addItemToInventory updatedPlayer item in
        (updatedPlayer, inventoryIndex =? -1, wouldUpgrade updatedPlayer item)
    | None => (updatedPlayer, false, false)
    end in
  let updatedPlayer := fullHeal updatedPlayer in
  rand_ret (updatedPlayer,
    mkReveal (c_name creature) expGain (0 <? levelsGained) (p_level updatedPlayer) droppedItem
      isUpgrade inventoryFull).

(** The session after a win that paid [p] and announces [rv] (the reveal timer is armed
    for [REWARD_REVEAL_DELAY_MS]). *)
Definition won (p : Player) (rv : RewardReveal) (s : Session) : Session :=
  let s := s <| victoryProcessedRef := true |> in
  let s := pushLog l_defeat CPlayer (Some CCreature) None None None None None s in
  let s := s <| killBeatTimerRef := None |> <| killBeatPendingRef := false |> in
  let s := cancelCounterBeat s in
  let s := setPlayerAndSave p s in
  let s := torn_down s <| fleeProcessedRef := false |> in
  s <| rewardRevealTimerRef := Some rv |>.

Definition base_player (playerToUse : option Player) (s : Session) : option Player :=
  match playerToUse with Some p => Some p | None => playerRef s end.

Definition handleVictory (now : Z) (playerToUse : option Player) (s : Session) : Rand Session :=
  match encounterRef s, base_player playerToUse s with
  | Some enc, Some basePlayer =>
      if victoryProcessedRef s then rand_ret s
      else
        let! paid := victory_rewards now basePlayer (eo_creature enc) (forceItemDrop s)
                       (forcedRarity s) in
        let (updatedPlayer, reveal) := paid in
        rand_ret (won updatedPlayer reveal s)
  | _, _ => rand_ret s
  end.

(** The reveal timer's callback. *)
Definition reveal_timer_fires (s : Session) : Session :=
  match rewardRevealTimerRef s with
  | Some reveal => s <| rewardRevealTimerRef := None |> <| rewardReveal := Some reveal |>
  | None => s
  end.

Definition scheduleVictory (playerToUse : Player) (s : Session) : Session :=
  if victoryProcessedRef s || killBeatPendingRef s then s
  else s <| killBeatPendingRef := true |> <| killBeatTimerRef := Some playerToUse |>.

(** The kill-beat timer's callback, [KILL_BEAT_MS] after it was armed. *)
Definition kill_beat_fires (now : Z) (s : Session) : Rand Session :=
  match killBeatTimerRef s with
  | Some playerToUse =>
      handleVictory now (Some playerToUse)
        (s <| killBeatTimerRef := None |> <| showCombatModalRef := false |>)
  | None => rand_ret s
  end.

(** ** Leaving and opening a fight *)

Definition handleFlee (s : Session) : Session :=
  if fleeProcessedRef s || counterPendingRef s then s
  else
    let currentPlayer := playerRef s in
    let currentEncounterState := encounterRef s in
    let s := s <| fleeProcessedRef := true |> in
    let s :=
      match currentEncounterState, currentPlayer with
      | Some _, Some currentPlayer =>
          setPlayerAndSave (fullHeal (incrementEncounters (clone currentPlayer))) s
      | _, _ => s
      end in
    torn_down s <| combatHits := [] |> <| combatLog := [] |>.

Definition handleFight (now : Z) (s : Session) : Rand Session :=
  match encounterRef s, playerRef s with
  | Some enc, Some currentPlayer =>
      if player_isDefeated currentPlayer then rand_ret s
      else if isDefeated (eo_creature enc) then handleVictory now None s
      else
        let s := s <| showCombatModalRef := true |> <| showCombatModal := true |> in
        let s :=
          match playerCombatStateRef s with
          | None =>
              let initialState := initCombatState (p_archetype currentPlayer) in
              s <| playerCombatStateRef := Some initialState |>
                <| playerCombatState := Some initialState |>
                <| combatHits := [] |> <| combatLog := [] |>
                <| playerDodgeStreakRef := 0 |> <| creatureDodgeStreakRef := 0 |>
          | Some _ => s
          end in
        let s :=
          match creatureCombatStateRef s with
          | None => s <| creatureCombatStateRef := Some (mkCombatantState [] 0) |>
          | Some _ => s
          end in
        rand_ret s
  | _, _ => rand_ret s
  end.

Definition handlePlayerDefeat (defeatedPlayer : Player) (s : Session) : Session :=
  let s := pushLog l_defeat CCreature (Some CPlayer) None None None None None s in
  let healedPlayer := incrementEncounters (fullHeal (clone defeatedPlayer)) in
  torn_down (setPlayerAndSave healedPlayer s).

(** ** The counter-attack beat *)

Definition scheduleCounterAttack (creatureAttack playerDefense : Z) (creature : Creature)
    (s : Session) : Session :=
  if counterPendingRef s then s
  else
    let s := s <| counterPendingRef := true |> <| isEnemyTurn := true |> in
    let beatMs := counterBeatMs (from_option p_combatTurnsTaken 0 (playerRef s)) in
    let scheduledEncounter := eo_id <$> encounterRef s in
    let braceMs := Z.max 0 (beatMs - COUNTER_STRIKE_HOLD_MS) in
    s <| counterTimerRef := Some (mkCounterTimer braceMs
           (CounterStrike creatureAttack playerDefense creature scheduledEncounter)) |>.

Definition endEnemyTurn (s : Session) : Session :=
  s <| counterPendingRef := false |> <| isEnemyTurn := false |>.

(** The strike, against the player as it is when the timer fires. *)
Definition counter_strike (creatureAttack playerDefense : Z) (creature : Creature)
    (player : Player) (s : Session) : Rand Session :=
  let counteredPlayer := incrementCombatTurns (clone player) in
  let baseDamage := mitigateDamage creatureAttack playerDefense 1 in
  let! evasion := rollEvasion (c_speed creature) (p_speed counteredPlayer) CPlayer
                    (playerDodgeStreakRef s) in
  let s := s <| playerDodgeStreakRef := nextDodgeStreak evasion |> in
  let creatureDamage := applyEvasionDamage baseDamage (outcome evasion) in
  let counteredPlayer :=
    if 0 <? creatureDamage then player_takeDamage counteredPlayer creatureDamage
    else counteredPlayer in
  let s := pushHit CPlayer creatureDamage (Some physical) neutral h_hit (p_maxHp counteredPlayer)
             None (evadeTag (outcome evasion)) s in
  let s := pushLog l_attack CCreature (Some CPlayer) None (Some creatureDamage)
             (Some (Some physical)) None
             (match evade_log_tag (outcome evasion) with [] => None | tags => Some tags end) s in
  let s := setPlayerAndSave counteredPlayer s in
  rand_ret
    (if player_isDefeated counteredPlayer then handlePlayerDefeat counteredPlayer (endEnemyTurn s)
     else s <| counterTimerRef := Some (mkCounterTimer COUNTER_STRIKE_HOLD_MS CounterHold) |>).

(** The counter timer's callback. *)
Definition counter_timer_fires (s : Session) : Rand Session :=
  match counterTimerRef s with
  | None => rand_ret s
  | Some t =>
      let s := s <| counterTimerRef := None |> in
      match ct_callback t with
      | CounterHold => rand_ret (endEnemyTurn s)
      | CounterStrike creatureAttack playerDefense creature scheduledEncounter =>
          match playerRef s with
          | Some player =>
              if bool_decide (eo_id <$> encounterRef s = scheduledEncounter)
              then counter_strike creatureAttack playerDefense creature player s
              else rand_ret (endEnemyTurn s)
          | None => rand_ret (endEnemyTurn s)
          end
      end
  end.

(** ** The player's turn *)

(** [sourceId ? prettifyId(sourceId) : undefined] *)
Definition source_name (sourceId : option string) : option string :=
  match sourceId with
  | Some i => if decide (i = "") then None else Some (prettifyId i)
  | None => None
  end.

(** One entry of the loop over the ticking effects: the damage so far and the feeds. *)
Definition dot_hit (creature : Creature) (acc : Z * Session) (d : DotEffect) : Z * Session :=
  let '(resistedDot, s) := acc in
  let resistVal := from_option (resistance_of (c_resistances creature)) 0%Q (de_damageType d) in
  let dealt := applyResistance (de_damage d) resistVal in
  let s :=
    if 0 <? dealt then
      let resist := classifyResist resistVal in
      let s := pushHit CCreature dealt (de_damageType d) resist h_dot (c_maxHp creature) None None s in
      pushLog l_dot CPlayer (Some CCreature) (source_name (de_sourceId d)) (Some dealt)
        (Some (de_damageType d)) None (resistTags resist) s
    else s in
  (resistedDot + dealt, s).

(** The creature's turn start: its damage-over-time effects tick. *)
Definition tick_creature (creature : Creature) (s : Session)
    : Creature * option CombatantState * Session :=
  match creatureCombatStateRef s with
  | Some st =>
      if (0 <? length (statusEffects st))%nat then
        let t := tickStatusEffects st in
        let '(resistedDot, s) := fold_left (dot_hit creature) (tr_dotEffects t) (0, s) in
        let creature := if 0 <? resistedDot then takeDamage creature resistedDot else creature in
        (creature, Some (tr_updatedState t), mutate_creature creature s)
      else (creature, Some st, s)
  | None => (creature, None, s)
  end.

(** [state.statusEffects.length > 0 ? tickStatusEffects(state).updatedState : state] *)
Definition tick_player (st : CombatantState) : CombatantState :=
  if (0 <? length (statusEffects st))%nat then tr_updatedState (tickStatusEffects st) else st.

(** The evadable swing of a direct ability. *)
Definition swing (ability : Ability) (damageType : DamageType) (damage : Z)
    (updatedPlayer : Player) (creature : Creature) (s : Session) : Rand (Creature * Session) :=
  let! evasion := rollEvasion (p_speed updatedPlayer) (c_speed creature) CCreature
                    (creatureDodgeStreakRef s) in
  let s := s <| creatureDodgeStreakRef := nextDodgeStreak evasion |> in
  let dealt := applyEvasionDamage damage (outcome evasion) in
  let creature := takeDamage creature dealt in
  let s := mutate_creature creature s in
  let resist := classifyResist (resistance_of (c_resistances creature) damageType) in
  let tags := default [] (resistTags resist) ++ evade_log_tag (outcome evasion) in
  let s := pushHit CCreature dealt (Some damageType) resist h_hit (c_maxHp creature) None
             (evadeTag (outcome evasion)) s in
  let s := pushLog l_attack CPlayer (Some CCreature) (Some (ability_name ability)) (Some dealt)
             (Some (Some damageType)) None (match tags with [] => None | _ => Some tags end) s in
  rand_ret (creature, s).

Definition heal_self (ability : Ability) (heal : Z) (updatedPlayer : Player) (s : Session)
    : Player * Session :=
  if 0 <? heal then
    let updatedPlayer := restoreHp updatedPlayer heal in
    let s := pushHit CPlayer heal None neutral h_heal (p_maxHp updatedPlayer) None None s in
    (updatedPlayer, pushLog l_heal CPlayer (Some CPlayer) (Some (ability_name ability)) (Some heal)
                      None None None s)
  else (updatedPlayer, s).

Definition publish_cast (ability : Ability) (updatedPlayer : Player) (creature : Creature)
    (s : Session) : Session :=
  match ability with
  | BuffDebuffAbility _ _ statModifiers toSelf =>
      let statLabel := formatStatModLabel statModifiers in
      let target := if toSelf then CPlayer else CCreature in
      let s := pushHit target 0 None neutral (if toSelf then h_buff else h_debuff)
                 (if toSelf then p_maxHp updatedPlayer else c_maxHp creature) (Some statLabel) None s in
      pushLog (if toSelf then l_buff else l_debuff) CPlayer (Some target)
        (Some (ability_name ability)) None None (Some statLabel) None s
  | _ => s
  end.

Definition targets_self (ability : Ability) : bool :=
  match ability with BuffDebuffAbility _ _ _ targetSelf => targetSelf | _ => false end.

Definition add_effects (st : CombatantState) (effects : list StatusEffect) : CombatantState :=
  mkCombatantState (statusEffects st ++ effects) (resource st).

(** The player's state after the turn: tick, pay, regenerate, receive own effects. *)
Definition next_player_state (ability : Ability) (archetype : Archetype) (st : CombatantState)
    (selfEffects : list StatusEffect) : CombatantState :=
  let ticked := tick_player st in
  let afterCost :=
    mkCombatantState (statusEffects ticked) (Z.max 0 (resource ticked - resourceCost ability)) in
  add_effects (regenResource afterCost archetype) selfEffects.

(** The rest of an accepted turn, once the creature has survived its ticks:
    [preTickEffects] are the creature's effects before they ticked. *)
Definition perform (now : Z) (ability : Ability) (enc : EncounterObj)
    (currentPlayerState : CombatantState) (updatedPlayer : Player)
    (preTickEffects : list StatusEffect) (creature : Creature)
    (newCreatureState : option CombatantState) (s : Session) : Rand Session :=
  let playerEffective := computeEffectiveStats (p_attack updatedPlayer) (p_defense updatedPlayer)
                           (statusEffects currentPlayerState) in
  let creatureEffectiveDefense :=
    es_defense (computeEffectiveStats 0 (c_defense creature) preTickEffects) in
  let creatureEffectiveAttack :=
    es_attack (computeEffectiveStats (c_attack creature) 0 preTickEffects) in
  let abilityResult := resolveAbility ability (es_attack playerEffective) creatureEffectiveDefense
                         (c_resistances creature) (p_maxHp updatedPlayer) in
  let! hit :=
    match ability with
    | DirectAbility _ _ damageType =>
        if 0 <? ar_damage abilityResult
        then swing ability damageType (ar_damage abilityResult) updatedPlayer creature s
        else rand_ret (creature, s)
    | _ => rand_ret (creature, s)
    end in
  let (creature, s) := hit in
  let (updatedPlayer, s) := heal_self ability (ar_heal abilityResult) updatedPlayer s in
  let applied := ar_appliedEffects abilityResult in
  let selfEffects := if targets_self ability then applied else [] in
  let enemyEffects := if targets_self ability then [] else applied in
  let s := publish_cast ability updatedPlayer creature s in
  let newPlayerState :=
    next_player_state ability (p_archetype updatedPlayer) currentPlayerState selfEffects in
  let s := s <| playerCombatStateRef := Some newPlayerState |>
             <| playerCombatState := Some newPlayerState |> in
  let creatureBase := default (mkCombatantState [] 0) newCreatureState in
  let s := s <| creatureCombatStateRef := Some (add_effects creatureBase enemyEffects) |> in
  let s := setPlayerAndSave updatedPlayer s in
  let s := renew_encounter now creature enc s in
  rand_ret
    (if isDefeated creature then scheduleVictory updatedPlayer s
     else scheduleCounterAttack creatureEffectiveAttack (es_defense playerEffective) creature s).

Definition handleAbility (now : Z) (ability : Ability) (s : Session) : Rand (bool * Session) :=
  match encounterRef s, playerRef s, playerCombatStateRef s with
  | Some enc, Some currentPlayer, Some currentPlayerState =>
      if victoryProcessedRef s || killBeatPendingRef s || counterPendingRef s
      then rand_ret (false, s)
      else if isDefeated (eo_creature enc) then
        let! s := handleVictory now None s in
        rand_ret (false, s <| showCombatModalRef := false |> <| showCombatModal := false |>)
      else if resource currentPlayerState <? resourceCost ability then rand_ret (false, s)
      else
        let updatedPlayer := clone currentPlayer in
        let preTickEffects := from_option statusEffects [] (creatureCombatStateRef s) in
        let '(creature, newCreatureState, s) := tick_creature (eo_creature enc) s in
        if isDefeated creature then
          let tickedPlayer := tick_player currentPlayerState in
          let s := s <| playerCombatStateRef := Some tickedPlayer |>
                     <| playerCombatState := Some tickedPlayer |>
                     <| creatureCombatStateRef := newCreatureState |> in
          rand_ret (false, scheduleVictory updatedPlayer s)
        else
          let! s := perform now ability enc currentPlayerState updatedPlayer preTickEffects
                      creature newCreatureState s in
          rand_ret (true, s)
  | _, _, _ => rand_ret (false, s)
  end.

(** ** The remaining controls *)

Definition handleDebugDefeat (now : Z) (s : Session) : Rand Session :=
  match encounterRef s, playerRef s with
  | Some enc, Some currentPlayer =>
      if victoryProcessedRef s then rand_ret s
      else
        let creature := eo_creature enc in
        if isDefeated creature then rand_ret s
        else
          let creature := takeDamage creature (c_hp creature) in
          let s := renew_encounter now creature enc s in
          let s := s <| showCombatModalRef := false |> <| showCombatModal := false |>
                     <| showEncounterModal := false |> in
          handleVictory now (Some currentPlayer) s
  | _, _ => rand_ret s
  end.

Definition handleMinimize (s : Session) : Session :=
  s <| isMinimizedRef := true |> <| isEncounterModalMinimized := true |>
    <| showEncounterModal := false |>.

Definition handleCloseCombatModal (s : Session) : Session :=
  if counterPendingRef s then s
  else s <| showCombatModalRef := false |> <| showCombatModal := false |>.

Definition handleExpandMinimized (s : Session) : Session :=
  s <| isMinimizedRef := false |> <| isEncounterModalMinimized := false |>
    <| showEncounterModal := true |>.

Definition presentEncounter (encounter : EncounterObj) (s : Session) : Session :=
  let s := s <| encounterRef := Some encounter |> <| isMinimizedRef := false |>
             <| showCombatModalRef := false |> <| victoryProcessedRef := false |>
             <| fleeProcessedRef := false |> in
  let s := cancelCounterBeat s in
  s <| playerCombatStateRef := None |> <| creatureCombatStateRef := None |>
    <| playerCombatState := None |> <| currentEncounter := Some encounter |>
    <| showEncounterModal := true |> <| isEncounterModalMinimized := false |>.

(** [setHeldFoe(encounter)] for a newly made encounter object, or [setHeldFoe(null)]. *)
Definition hold_foe (e : option Encounter) (s : Session) : Session :=
  match e with
  | Some e => s <| heldFoe := Some (mkObj (nextObject s) e) |> <| nextObject := S (nextObject s) |>
  | None => s <| heldFoe := None |>
  end.

(** The held foe a tap on its card will engage: none while an encounter is active. *)
Definition engageable (s : Session) : option EncounterObj :=
  match encounterRef s with Some _ => None | None => heldFoe s end.

(** What [engageHeldFoe] does once the persisted hold has been cleared. *)
Definition engage (encounter : EncounterObj) (s : Session) : Session :=
  s <| encounterRef := Some encounter |> <| isMinimizedRef := false |>
    <| showCombatModalRef := false |> <| victoryProcessedRef := false |>
    <| fleeProcessedRef := false |> <| heldFoe := None |>
    <| currentEncounter := Some encounter |> <| showEncounterModal := true |>
    <| isEncounterModalMinimized := false |>.

Definition handleAutoResolve (now : Z) (s : Session) : Rand Session :=
  match playerRef s, encounterRef s with
  | Some currentPlayer, Some enc =>
      if isEliteCreature (c_rarity (eo_creature enc)) then rand_ret s
      else handleVictory now (Some currentPlayer)
             (s <| showCombatModalRef := false |> <| showCombatModal := false |>
                <| showEncounterModal := false |> <| isEncounterModalMinimized := false |>)
  | _, _ => rand_ret s
  end.

Definition dismissReward (s : Session) : Session := s <| rewardReveal := None |>.

Definition debugPreviewReveal (now : Z) (rarity : option Rarity) (s : Session) : Rand Session :=
  let s := s <| rewardRevealTimerRef := None |> in
  let level := from_option p_level 1 (playerRef s) in
  let! item := generateItem now level rarity 1 in
  rand_ret (s <| rewardReveal := Some (mkReveal "Preview" 0 false level (Some item)
    (from_option (fun p => wouldUpgrade p item) false (playerRef s)) false) |>).

(** ** The event loop *)

(** What can happen between two renders.  [EvPlayer] is a save made elsewhere in the
    app (a distance update, an item equipped); [EvPresent] a new encounter from the
    distance gate, which presents one only when none is active; [EvHold] a foe held or
    re-read from storage, and [EvEngage] a tap on its card. *)
Inductive Event :=
  | EvPresent (e : Encounter)
  | EvHold (e : option Encounter)
  | EvEngage
  | EvFight
  | EvAbility (a : Ability)
  | EvFlee
  | EvMinimize
  | EvExpand
  | EvCloseCombat
  | EvAutoResolve
  | EvDebugDefeat
  | EvKillBeat
  | EvCounter
  | EvReveal
  | EvDismissReward
  | EvPreview (r : option Rarity)
  | EvClear
  | EvPlayer (f : Player -> Player).

Definition dispatch (now : Z) (ev : Event) (s : Session) : Rand Session :=
  match ev with
  | EvPresent e =>
      rand_ret
        (match encounterRef s with
         | Some _ => s
         | None =>
             presentEncounter (mkObj (nextObject s) e) (s <| nextObject := S (nextObject s) |>)
         end)
  | EvHold e => rand_ret (hold_foe e s)
  | EvEngage => rand_ret (from_option (fun o => engage o s) s (engageable s))
  | EvFight => handleFight now s
  | EvAbility a => let! r := handleAbility now a s in rand_ret (snd r)
  | EvFlee => rand_ret (handleFlee s)
  | EvMinimize => rand_ret (handleMinimize s)
  | EvExpand => rand_ret (handleExpandMinimized s)
  | EvCloseCombat => rand_ret (handleCloseCombatModal s)
  | EvAutoResolve => handleAutoResolve now s
  | EvDebugDefeat => handleDebugDefeat now s
  | EvKillBeat => kill_beat_fires now s
  | EvCounter => counter_timer_fires s
  | EvReveal => rand_ret (reveal_timer_fires s)
  | EvDismissReward => rand_ret (dismissReward s)
  | EvPreview r => debugPreviewReveal now r s
  | EvClear => rand_ret (clearEncounter s)
  | EvPlayer f =>
      rand_ret (match playerRef s with Some p => setPlayerAndSave (f (clone p)) s | None => s end)
  end.

(** Each event with the clock when it happens. *)
Fixpoint run (evs : list (Z * Event)) (s : Session) : Rand Session :=
  match evs with
  | [] => rand_ret s
  | (now, ev) :: evs => let! s := dispatch now ev s in run evs s
  end.
