(* ===== verification/SessionInvariant.v ===== *)
(** * The fight state machine: invariant and properties

    Lemmas and theorems about the handlers of [CombatSession]: what a win pays, the
    invariant every event preserves, the exact effect of a turn, and the properties of
    whole fights. *)
From stdpp Require Import base decidable strings list.
From Stdlib Require Import ZArith QArith Lia.
From S2P Require Import Prelude JsNumber Random Combat Archetype Ability CombatFeed Creature.
From S2P Require Import Config Item Player Loot AutoCombat Encounter Json CombatSession.
Local Open Scope Z_scope.

(** ** Lemmas: what a win pays *)

Lemma clone_eq p : wf_player p -> clone p = p.
Proof.
  intros [_ _ Hh Hi _ _ _ _ _ _]. unfold clone, new_Player, params_of_data, toJSON.
  destruct p. simpl in *. destruct (Z.ltb_spec p_maxHp p_hp); [lia|].
  rewrite Hi, Nat.eqb_refl. reflexivity.
Qed.

Lemma fullHeal_wf p : wf_player p -> wf_player (fullHeal p).
Proof. intros W. apply with_hp_wf; [|exact W]. destruct W. lia. Qed.

#[export] Hint Resolve fullHeal_wf : game.

Definition creature_ok (c : Creature) : Prop :=
  0 <= c_hp c <= c_maxHp c /\ 1 <= c_level c <= 2 ^ 40.

Lemma activeCombatXp_nonneg c : creature_ok c -> 0 <= activeCombatXp (getExperienceReward c).
Proof.
  intros [_ H]. pose proof (reward_ge c H) as R. unfold activeCombatXp.
  apply math_floor_ge, fl_ge_Z; [lia|]. change (inject_Z 0) with 0%Q.
  apply Qmult_le_0_compat; [apply num_nonneg; lia | q_compute].
Qed.

Lemma dropActive_ok now force lvl ov :
  rand_post (dropActiveCombatItem now force lvl ov) (fun o => forall it, o = Some it -> item_ok it).
Proof.
  unfold dropActiveCombatItem. eapply rand_post_bind with (P := fun _ => True).
  { apply rand_post_true. destruct force; intros r Hr; exact Hr. }
  intros [] _; [|apply rand_post_ret; discriminate].
  rand_step generateItem_generated it Hit; [q_compute|]. apply rand_post_ret.
  intros ? [= <-]. apply Hit.
Qed.

(** The inventory after a drop: kept unless full. *)
Definition received (before after : list (option Item)) (item : option Item) (full : bool) : Prop :=
  match item with
  | None => after = before /\ full = false
  | Some it => if full then after = before /\ find_empty before = None
               else present after ≡ₚ it :: present before
  end.

(** What the win owes: [p] is the player before, [p'] after, [rv] the reveal shown. *)
Record win_paid (p : Player) (c : Creature) (p' : Player) (rv : RewardReveal) : Prop := {
  wp_wf : wf_player p';
  wp_xp : rv_xpGained rv = activeCombatXp (getExperienceReward c);
  wp_levels : p_experience p + rv_xpGained rv
    = p_experience p' + levels_cost (p_level p) (Z.to_nat (p_level p' - p_level p));
  wp_leveled : p_level p <= p_level p' /\ rv_newLevel rv = p_level p'
    /\ rv_leveledUp rv = (p_level p <? p_level p');
  wp_tally : tally p' = (p_totalDistance p, p_totalEncounters p + 1, p_creaturesDefeated p + 1,
                         p_combatTurnsTaken p);
  wp_gear : p_equipment p' = p_equipment p /\ p_archetype p' = p_archetype p;
  wp_loot : received (p_inventory p) (p_inventory p') (rv_item rv) (rv_inventoryFull rv);
  wp_hp : p_hp p' = p_maxHp p'
}.

Lemma addItem_received p it :
  let (p', i) := addItemToInventory p it in
  received (p_inventory p) (p_inventory p') (Some it) (i =? -1)
  /\ p_equipment p' = p_equipment p /\ p_archetype p' = p_archetype p /\ tally p' = tally p
  /\ p_level p' = p_level p /\ p_experience p' = p_experience p.
Proof.
  unfold addItemToInventory. destruct (find_empty (p_inventory p)) as [i|] eqn:E; simpl.
  - destruct (Z.eqb_spec (Z.of_nat i) (-1)); [lia|]. apply find_empty_Some in E as [E _].
    pose proof (present_insert _ _ _ (Some it) E) as P. simpl in P. rewrite app_nil_r in P.
    destruct p; simpl in *. repeat split. rewrite P. symmetry. apply Permutation_cons_append.
  - repeat split. exact E.
Qed.

Lemma win_paid_intro p c p2 p3 gained item full up :
  wf_player p3 ->
  0 <= gained -> p_level p2 = p_level p + gained ->
  p_experience p + activeCombatXp (getExperienceReward c)
    = p_experience p2 + levels_cost (p_level p) (Z.to_nat gained) ->
  kept p2 = kept p ->
  tally p2 = (p_totalDistance p, p_totalEncounters p + 1, p_creaturesDefeated p + 1,
              p_combatTurnsTaken p) ->
  received (p_inventory p2) (p_inventory p3) item full ->
  p_equipment p3 = p_equipment p2 -> p_archetype p3 = p_archetype p2 -> tally p3 = tally p2 ->
  p_level p3 = p_level p2 -> p_experience p3 = p_experience p2 ->
  win_paid p c (fullHeal p3)
    (mkReveal (c_name c) (activeCombatXp (getExperienceReward c)) (0 <? gained)
       (p_level (fullHeal p3)) item up full).
Proof.
  intros W G L X K T R E A T3 L3 X3. injection K as _ _ K1 K2 K3.
  rewrite K2 in R. pose proof (fullHeal_wf p3 W) as W'. rewrite T in T3. clear W T.
  assert (Hl : (p_level p <? p_level p2) = (0 <? gained)).
  { destruct (Z.ltb_spec (p_level p) (p_level p2)), (Z.ltb_spec 0 gained); lia || reflexivity. }
  destruct p3. simpl in *. subst.
  constructor; simpl; auto; try congruence.
  - rewrite L. replace (p_level p + gained - p_level p) with gained by lia. exact X.
  - rewrite Hl. repeat split. lia.
Qed.

(** All that experience does to a well-formed player. *)
Lemma addExperience_step p xp : wf_player p -> 0 <= xp ->
  let (p', gained) := addExperience p xp in
  wf_player p' /\ 0 <= gained /\ p_level p' = p_level p + gained
  /\ p_experience p + xp = p_experience p' + levels_cost (p_level p) (Z.to_nat gained)
  /\ kept p' = kept p /\ tally p' = tally p.
Proof.
  intros W X. pose proof (addExperience_wf p xp X W) as W'.
  pose proof (addExperience_keeps p xp (wf_synced _ W)) as K.
  pose proof (addExperience_account p xp W X) as L.
  destruct (addExperience p xp) as [p' gained]. destruct L as (L0 & L1 & _ & L2 & _).
  destruct K as [K T]; [destruct W; lia|]. auto 10.
Qed.

Lemma victory_rewards_paid now p c force ov : wf_player p -> creature_ok c ->
  rand_post (victory_rewards now p c force ov) (fun r => win_paid p c (fst r) (snd r)).
Proof.
  intros W C. unfold victory_rewards. rewrite clone_eq by exact W.
  set (p1 := incrementEncounters (defeatCreature p)). cbv zeta.
  assert (W1 : wf_player p1) by (unfold p1; auto with game).
  pose proof (addExperience_step p1 _ W1 (activeCombatXp_nonneg c C)) as L.
  assert (E : p_level p1 = p_level p /\ p_experience p1 = p_experience p /\ kept p1 = kept p
    /\ tally p1 = (p_totalDistance p, p_totalEncounters p + 1, p_creaturesDefeated p + 1,
                   p_combatTurnsTaken p)) by (unfold p1; destruct p; repeat split).
  destruct E as (E1 & E2 & E3 & E4). rewrite E1, E2, E3, E4 in L.
  destruct (addExperience p1 _) as [p2 gained]. destruct L as (W2 & L0 & L1 & L2 & K & T).
  rand_step dropActive_ok o Ho. destruct o as [it|].
  - pose proof (addItem_wf p2 it (Ho it eq_refl) W2) as W3.
    pose proof (addItem_received p2 it) as R. destruct (addItemToInventory p2 it) as [p3 i].
    destruct R as (R1 & R2 & R3 & R4 & R5 & R6). apply rand_post_ret.
    eapply win_paid_intro with (p2 := p2); eassumption.
  - apply rand_post_ret. eapply win_paid_intro with (p2 := p2); eauto. split; reflexivity.
Qed.

(** ** The session invariant *)

Definition held_ok (s : Session) : Prop := forall o, heldFoe s = Some o ->
  creature_ok (eo_creature o) /\ (eo_id o < nextObject s)%nat.

Record session_ok (s : Session) : Prop := {
  ok_player : forall p, playerRef s = Some p -> wf_player p;
  ok_captured : forall p, killBeatTimerRef s = Some p -> wf_player p;
  ok_creature : forall o, encounterRef s = Some o -> creature_ok (eo_creature o);
  ok_fresh : forall o, encounterRef s = Some o -> (eo_id o < nextObject s)%nat;
  ok_encounter_sync : currentEncounter s = encounterRef s;
  ok_minimized_sync : isEncounterModalMinimized s = isMinimizedRef s;
  ok_modal_sync : showCombatModal s = showCombatModalRef s;
  ok_state_sync : playerCombatState s = playerCombatStateRef s;
  ok_idle : encounterRef s = None ->
    showCombatModalRef s = false /\ playerCombatStateRef s = None
    /\ creatureCombatStateRef s = None /\ counterPendingRef s = false;
  ok_counter : counterPendingRef s = bool_decide (is_Some (counterTimerRef s));
  ok_turn : isEnemyTurn s = counterPendingRef s;
  ok_pinned : forall t a d c i, counterTimerRef s = Some t ->
    ct_callback t = CounterStrike a d c i -> i = eo_id <$> encounterRef s;
  ok_kill : is_Some (killBeatTimerRef s) ->
    killBeatPendingRef s = true /\ victoryProcessedRef s = false;
  ok_beat : is_Some (killBeatTimerRef s) -> is_Some (playerRef s);
  ok_victory : victoryProcessedRef s = true -> encounterRef s = None;
  ok_resource : forall st, playerCombatStateRef s = Some st -> 0 <= resource st <= 100;
  ok_held : held_ok s;
  ok_saves : Forall wf_player (saves s);
  ok_last : last (saves s) = playerRef s;
  ok_streaks : 0 <= playerDodgeStreakRef s /\ 0 <= creatureDodgeStreakRef s
}.

Lemma initial_session_ok p : (forall q, p = Some q -> wf_player q) -> session_ok (initial_session p).
Proof.
  intros H. constructor; simpl; auto; try discriminate; try lia; try (intros [? [=]]);
    destruct p; constructor; auto.
Qed.

(** The feeds do not take part in the invariant. *)
Definition with_feeds (hits : list CombatHitEvent) (hid : Z) (log : list CombatLogEntry) (lid : Z)
    (s : Session) : Session :=
  s <| combatHits := hits |> <| hitIdRef := hid |> <| combatLog := log |> <| logIdRef := lid |>.

(** A player that is saved joins the list. *)
Lemma saved_wf p l : wf_player p -> Forall wf_player l -> Forall wf_player (l ++ [p]).
Proof. intros W F. apply Forall_app. split; [exact F | apply Forall_singleton, W]. Qed.

Ltac saved := first [apply last_snoc | repeat (apply saved_wf; [assumption|]); assumption].

(** Close the clauses of [session_ok] that an assignment leaves alone. *)
Ltac session_auto :=
  constructor; unfold held_ok in *; simpl; try assumption; try discriminate; try reflexivity;
  try (intros ? [= <-]; assumption); try (intros; discriminate);
  try solve [intros [? [=]]]; try solve [saved]; try lia; auto.

Lemma with_feeds_ok h i l j s : session_ok s -> session_ok (with_feeds h i l j s).
Proof. intros []. session_auto. Qed.

Lemma setPlayer_ok p s : wf_player p -> session_ok s -> session_ok (setPlayerAndSave p s).
Proof. intros W []. session_auto. Qed.

Lemma torn_down_ok s : counterPendingRef s = false -> session_ok s -> session_ok (torn_down s).
Proof.
  intros C []. session_auto.
  intros t ????. rewrite C in ok_counter0. destruct (counterTimerRef s); [|discriminate].
  simpl in ok_counter0. discriminate.
Qed.

Lemma clearEncounter_ok s : session_ok s -> session_ok (clearEncounter s).
Proof. intros []. session_auto. Qed.

Lemma cancelCounterBeat_ok s : session_ok s -> session_ok (cancelCounterBeat s).
Proof. intros []. session_auto. intros H. destruct (ok_idle0 H) as (? & ? & ? & _). auto. Qed.

Lemma handleVictory_cases now pu s :
  (forall p, base_player pu s = Some p -> wf_player p) ->
  (forall o, encounterRef s = Some o -> creature_ok (eo_creature o)) ->
  rand_post (handleVictory now pu s) (fun s' =>
    match encounterRef s, base_player pu s, victoryProcessedRef s with
    | Some enc, Some base, false =>
        exists p' rv, win_paid base (eo_creature enc) p' rv /\ s' = won p' rv s
    | _, _, _ => s' = s
    end).
Proof.
  intros Hp Hc. unfold handleVictory.
  destruct (encounterRef s) as [enc|]; [|apply rand_post_ret; reflexivity].
  destruct (base_player pu s) as [base|]; [|apply rand_post_ret; reflexivity].
  destruct (victoryProcessedRef s); [apply rand_post_ret; reflexivity|].
  rand_step victory_rewards_paid r Hr; [apply Hp; reflexivity | apply Hc; reflexivity |].
  destruct r as [p' rv]. apply rand_post_ret. exists p', rv. split; [exact Hr | reflexivity].
Qed.

Lemma won_ok p rv s : wf_player p -> held_ok s -> Forall wf_player (saves s) ->
  0 <= playerDodgeStreakRef s -> 0 <= creatureDodgeStreakRef s ->
  session_ok (won p rv s).
Proof. intros. session_auto. Qed.

(** [s] may have its modal flags out of step when a win is certain. *)
Lemma handleVictory_ok now pu s :
  (forall p, base_player pu s = Some p -> wf_player p) ->
  (forall o, encounterRef s = Some o -> creature_ok (eo_creature o)) ->
  held_ok s -> Forall wf_player (saves s) ->
  0 <= playerDodgeStreakRef s -> 0 <= creatureDodgeStreakRef s ->
  (encounterRef s = None \/ base_player pu s = None \/ victoryProcessedRef s = true -> session_ok s) ->
  rand_post (handleVictory now pu s) session_ok.
Proof.
  intros Hp Hc H0 F S1 S2 E. eapply rand_post_weaken; [apply handleVictory_cases; assumption|].
  intros s' H. destruct (encounterRef s) eqn:E1; [|subst; auto].
  destruct (base_player pu s) eqn:E2; [|subst; auto].
  destruct (victoryProcessedRef s) eqn:E3; [subst; auto|].
  destruct H as (p' & rv & P & ->). apply won_ok; auto. apply P.
Qed.

Lemma handleVictory_session now pu s :
  (forall p, pu = Some p -> wf_player p) -> session_ok s -> rand_post (handleVictory now pu s) session_ok.
Proof.
  intros Hp K. pose proof K as []. apply handleVictory_ok; try apply ok_streaks0; auto.
  destruct pu; simpl; [intros ? [= <-]|]; auto.
Qed.

Lemma kill_beat_fires_ok now s : session_ok s -> rand_post (kill_beat_fires now s) session_ok.
Proof.
  intros K. pose proof K as []. unfold kill_beat_fires.
  destruct (killBeatTimerRef s) as [p|] eqn:E; [|apply rand_post_ret, K].
  destruct ok_kill0 as [_ V]; [eauto|].
  apply handleVictory_ok; simpl; try apply ok_streaks0; auto.
  - intros [H|[H|H]]; [|discriminate|congruence]. destruct (ok_idle0 H) as (M & I).
    session_auto. congruence.
Qed.

Lemma reset_feeds_ok s : session_ok s -> session_ok (s <| combatHits := [] |> <| combatLog := [] |>).
Proof. intros []. session_auto. Qed.

Lemma handleFlee_ok s : session_ok s -> session_ok (handleFlee s).
Proof.
  intros K. unfold handleFlee. destruct (fleeProcessedRef s); [exact K|].
  destruct (counterPendingRef s) eqn:C; [exact K|]. cbn [orb].
  assert (G : forall s', session_ok s' -> counterPendingRef s' = false ->
    session_ok (torn_down (s' <| fleeProcessedRef := true |>) <| combatHits := [] |> <| combatLog := [] |>)).
  { intros s' K' C'. apply reset_feeds_ok, torn_down_ok; [exact C'|]. destruct K'. session_auto. }
  destruct (encounterRef s) as [enc|] eqn:E; [destruct (playerRef s) as [p|] eqn:P|].
  - change (session_ok (torn_down (setPlayerAndSave (fullHeal (incrementEncounters (clone p))) s
      <| fleeProcessedRef := true |>) <| combatHits := [] |> <| combatLog := [] |>)).
    apply G; [|exact C]. apply setPlayer_ok; [|exact K]. pose proof (ok_player s K p P) as W.
    rewrite clone_eq by exact W. auto with game.
  - apply (G s K C).
  - apply (G s K C).
Qed.

Lemma handleFight_ok now s : session_ok s -> rand_post (handleFight now s) session_ok.
Proof.
  intros K. unfold handleFight.
  destruct (encounterRef s) as [enc|] eqn:E; [|apply rand_post_ret, K].
  destruct (playerRef s) as [p|] eqn:P; [|apply rand_post_ret, K].
  destruct (player_isDefeated p); [apply rand_post_ret, K|].
  destruct (isDefeated (eo_creature enc)); [apply handleVictory_session; [discriminate | exact K]|].
  apply rand_post_ret. destruct K. simpl.
  destruct (playerCombatStateRef s) eqn:S1; simpl; destruct (creatureCombatStateRef s) eqn:S2;
    session_auto; try congruence.
  1, 2: rewrite S1; exact ok_resource0.
  all: intros ? [= <-]; destruct (p_archetype p); simpl; lia.
Qed.

Lemma rollEvasion_streak a d c k : 0 <= k ->
  rand_post (rollEvasion a d c k) (fun e => 0 <= nextDodgeStreak e).
Proof.
  intros H. unfold rollEvasion. rand_step rand_post_random q Hq. apply rand_post_ret.
  destruct (js_lt q _); [simpl; lia|]. destruct (js_lt q _); simpl; lia.
Qed.

Lemma takeDamage_wf p n : 0 <= n -> wf_player p -> wf_player (player_takeDamage p n).
Proof. intros H W. apply with_hp_wf; [|exact W]. destruct W. lia. Qed.

(** The player a strike for [n] points leaves. *)
Definition struck (p : Player) (n : Z) : Player :=
  if 0 <? n then player_takeDamage (incrementCombatTurns p) n else incrementCombatTurns p.

Lemma struck_wf p n : wf_player p -> wf_player (struck p n).
Proof.
  intros W. pose proof (with_counters_wf p (p_totalDistance p) (p_totalEncounters p)
    (p_creaturesDefeated p) (p_combatTurnsTaken p + 1) W) as W'.
  unfold struck. destruct (Z.ltb_spec 0 n); [apply takeDamage_wf; [lia|]|]; exact W'.
Qed.

Lemma counter_strike_ok a d c p s t : session_ok s -> counterTimerRef s = Some t ->
  is_Some (encounterRef s) -> wf_player p ->
  rand_post (counter_strike a d c p (s <| counterTimerRef := None |>)) session_ok.
Proof.
  intros [] T [enc E] W. assert (C : counterPendingRef s = true) by (rewrite ok_counter0, T; reflexivity).
  unfold counter_strike. rewrite clone_eq by exact W.
  rand_step rollEvasion_streak ev Hev; [apply ok_streaks0|]. cbv zeta.
  fold (struck p (applyEvasionDamage (mitigateDamage a d 1) (outcome ev))).
  set (n := applyEvasionDamage _ _). pose proof (struck_wf p n W) as W'.
  apply rand_post_ret. destruct (player_isDefeated (struck p n)).
  - unfold handlePlayerDefeat. rewrite clone_eq by exact W'.
    assert (W2 : wf_player (incrementEncounters (fullHeal (struck p n))))
      by auto with game.
    generalize dependent (incrementEncounters (fullHeal (struck p n))). intros p2 W2. session_auto.
  - session_auto. intros t' ???? [= <-] [=].
Qed.

Lemma endEnemyTurn_ok s : session_ok s -> session_ok (endEnemyTurn (s <| counterTimerRef := None |>)).
Proof. intros []. session_auto. intros H. destruct (ok_idle0 H) as (? & ? & ? & _). auto. Qed.

Lemma counter_timer_fires_ok s : session_ok s -> rand_post (counter_timer_fires s) session_ok.
Proof.
  intros K. unfold counter_timer_fires. destruct (counterTimerRef s) as [t|] eqn:T;
    [|apply rand_post_ret, K].
  destruct (ct_callback t) as [a d c i|] eqn:B; [|apply rand_post_ret, endEnemyTurn_ok, K].
  cbv zeta. change (playerRef (s <| counterTimerRef := None |>)) with (playerRef s).
  change (encounterRef (s <| counterTimerRef := None |>)) with (encounterRef s).
  destruct (playerRef s) as [p|] eqn:P; [|apply rand_post_ret, endEnemyTurn_ok, K].
  destruct (bool_decide _); [|apply rand_post_ret, endEnemyTurn_ok, K].
  eapply counter_strike_ok; eauto; [|eapply ok_player; eauto].
  destruct (encounterRef s) eqn:E; [eauto|]. destruct (ok_idle s K E) as (_ & _ & _ & C).
  rewrite (ok_counter s K), T in C. discriminate.
Qed.

Lemma scheduleVictory_ok p s : wf_player p -> is_Some (playerRef s) -> session_ok s ->
  session_ok (scheduleVictory p s).
Proof.
  intros W L K. unfold scheduleVictory. destruct (victoryProcessedRef s) eqn:V; [exact K|].
  destruct (killBeatPendingRef s); [exact K|]. destruct K. session_auto.
Qed.

Lemma scheduleCounterAttack_ok a d c s : is_Some (encounterRef s) -> session_ok s ->
  session_ok (scheduleCounterAttack a d c s).
Proof.
  intros [enc E] K. unfold scheduleCounterAttack. destruct (counterPendingRef s); [exact K|].
  destruct K. session_auto; try congruence. intros t' ???? [= <-] [= _ _ _ <-]. reflexivity.
Qed.

(** ** One turn, step by step *)

Lemma session_ext (a b : Session) : rebuild a = rebuild b -> a = b.
Proof. destruct a, b. exact id. Qed.

(** Two sessions built by assignments are equal when all their fields compute to the
    same values. *)
Ltac session_eq := apply session_ext; cbv beta delta [rebuild Session_fields]; simpl; reflexivity.

Lemma with_feeds_twice h i l j h' i' l' j' s :
  with_feeds h i l j (with_feeds h' i' l' j' s) = with_feeds h i l j s.
Proof. session_eq. Qed.

(** Damage the feed reports against one side. *)
Definition hit_damage (t : Combatant) (h : CombatHitEvent) : Z :=
  match ch_kind h with
  | h_hit | h_dot => if decide (ch_target h = t) then ch_amount h else 0
  | _ => 0
  end.

Definition damage_to (t : Combatant) (hs : list CombatHitEvent) : Z := sumZ (hit_damage t <$> hs).

Lemma damage_to_app t l l' : damage_to t (l ++ l') = damage_to t l + damage_to t l'.
Proof. unfold damage_to. rewrite fmap_app. apply sumZ_app. Qed.

(** [s'] is [s] with more published: [hs] are the new hits. *)
Definition published (hs : list CombatHitEvent) (s s' : Session) : Prop :=
  exists i l j, s' = with_feeds (combatHits s ++ hs) i l j s.

Lemma published_nil s : published [] s s.
Proof.
  exists (hitIdRef s), (combatLog s), (logIdRef s). rewrite app_nil_r. session_eq.
Qed.

Lemma published_trans hs hs' s s' s'' :
  published hs s s' -> published hs' s' s'' -> published (hs ++ hs') s s''.
Proof.
  intros (i & l & j & ->) (i' & l' & j' & ->). exists i', l', j'.
  rewrite with_feeds_twice, app_assoc. reflexivity.
Qed.

Lemma published_push t n d r k m lab e (lk : CombatLogKind) a lt src am ty ll tg s :
  published [mkHit (hitIdRef s) t n d r k m lab e] s
    (pushLog lk a lt src am ty ll tg (pushHit t n d r k m lab e s)).
Proof. eexists _, _, _. session_eq. Qed.

(** The damage one ticking effect deals to the creature. *)
Definition dot_dealt (c : Creature) (d : DotEffect) : Z :=
  applyResistance (de_damage d)
    (from_option (resistance_of (c_resistances c)) 0%Q (de_damageType d)).

Definition dot_total (c : Creature) (effects : list StatusEffect) : Z :=
  sumZ (dot_dealt c <$> omap dot_of effects).

Lemma dot_dealt_nonneg c d : 0 <= dot_dealt c d.
Proof. unfold dot_dealt, applyResistance. lia. Qed.

Lemma dot_fold c l : forall acc s, exists hs s',
  fold_left (dot_hit c) l (acc, s) = (acc + sumZ (dot_dealt c <$> l), s')
  /\ published hs s s' /\ damage_to CCreature hs = sumZ (dot_dealt c <$> l).
Proof.
  induction l as [|d l IH]; intros acc s.
  - exists [], s. simpl. split; [f_equal; lia|]. split; [apply published_nil | reflexivity].
  - cbn [fold_left fmap list_fmap sumZ fold_right]. unfold dot_hit at 2. fold (dot_dealt c d).
    pose proof (dot_dealt_nonneg c d) as N. destruct (Z.ltb_spec 0 (dot_dealt c d)).
    + match goal with |- context [fold_left _ l (?x, ?y)] =>
        destruct (IH x y) as (hs & s' & -> & P & D) end.
      eexists (_ :: hs), s'. split; [f_equal; unfold sumZ; lia|].
      split; [exact (published_trans [_] hs _ _ _ (published_push _ _ _ _ _ _ _ _ _ _ _ _ _ _ _ _ s) P)|].
      unfold damage_to, sumZ in *. cbn [fmap list_fmap fold_right].
      rewrite D. unfold hit_damage at 1. simpl. lia.
    + destruct (IH (acc + dot_dealt c d) s) as (hs & s' & -> & P & D).
      exists hs, s'. split; [f_equal; unfold sumZ; lia|]. split; [exact P|].
      rewrite D. unfold sumZ. lia.
Qed.

Lemma takeDamage_0 c : 0 <= c_hp c -> takeDamage c 0 = c.
Proof. intros H. unfold takeDamage, set_hp. destruct c; simpl in *. f_equal. lia. Qed.

Lemma takeDamage_ok c n : 0 <= n -> creature_ok c -> creature_ok (takeDamage c n).
Proof. intros H [H1 H2]. unfold creature_ok. simpl. lia. Qed.

Lemma put_creature_same o : put_creature (eo_creature o) o = o.
Proof. destruct o as [i []]. reflexivity. Qed.

Lemma mutate_same s enc : encounterRef s = Some enc -> currentEncounter s = Some enc ->
  mutate_creature (eo_creature enc) s = s.
Proof.
  intros E1 E2. apply session_ext. cbv beta delta [rebuild Session_fields]. simpl.
  rewrite E1, E2. simpl. rewrite put_creature_same. reflexivity.
Qed.

Definition effects_on (o : option CombatantState) : list StatusEffect := from_option statusEffects [] o.

Lemma dot_total_nonneg c l : 0 <= dot_total c l.
Proof. apply sumZ_nonneg, Forall_fmap, Forall_true. intros. apply dot_dealt_nonneg. Qed.

Lemma tick_creature_spec s enc :
  encounterRef s = Some enc -> currentEncounter s = Some enc -> creature_ok (eo_creature enc) ->
  let n := dot_total (eo_creature enc) (effects_on (creatureCombatStateRef s)) in
  exists hs s', tick_creature (eo_creature enc) s
    = (takeDamage (eo_creature enc) n, tick_player <$> creatureCombatStateRef s,
       mutate_creature (takeDamage (eo_creature enc) n) s')
  /\ published hs s s' /\ damage_to CCreature hs = n.
Proof.
  intros E1 E2 C. pose proof (takeDamage_0 _ (proj1 (proj1 C))) as Z0.
  pose proof (mutate_same s enc E1 E2) as M. unfold tick_creature.
  destruct (creatureCombatStateRef s) as [[[|e l] r]|]; simpl effects_on.
  - exists [], s. change (dot_total (eo_creature enc) []) with 0. rewrite Z0, M.
    split; [reflexivity|]. split; [apply published_nil | reflexivity].
  - cbv zeta. cbn [length Nat.ltb Nat.leb statusEffects]. unfold tick_player.
    rewrite tickStatusEffects_eq. cbn [tr_dotEffects tr_updatedState statusEffects].
    pose proof (dot_total_nonneg (eo_creature enc) (e :: l)) as N.
    destruct (dot_fold (eo_creature enc) (omap dot_of (e :: l)) 0 s) as (hs & s' & -> & P & D).
    fold (dot_total (eo_creature enc) (e :: l)) in *. exists hs, s'. rewrite Z.add_0_l.
    split; [|split; assumption]. cbn [length Nat.ltb Nat.leb fmap option_fmap option_map statusEffects].
    destruct (Z.ltb_spec 0 (dot_total (eo_creature enc) (e :: l))) as [L|L].
    + rewrite tickStatusEffects_eq. reflexivity.
    + replace (dot_total (eo_creature enc) (e :: l)) with 0 by lia. rewrite Z0, tickStatusEffects_eq.
      reflexivity.
  - exists [], s. change (dot_total (eo_creature enc) []) with 0. rewrite Z0, M.
    split; [reflexivity|]. split; [apply published_nil | reflexivity].
Qed.

Lemma heal_self_spec ab n p s : exists hs s',
  heal_self ab n p s = (if 0 <? n then restoreHp p n else p, s')
  /\ published hs s s' /\ damage_to CCreature hs = 0.
Proof.
  unfold heal_self. destruct (0 <? n).
  - eexists [_], _. split; [reflexivity|]. split; [apply published_push | reflexivity].
  - exists [], s. split; [reflexivity|]. split; [apply published_nil | reflexivity].
Qed.

Lemma publish_cast_spec ab p c s : exists hs,
  published hs s (publish_cast ab p c s) /\ damage_to CCreature hs = 0.
Proof.
  unfold publish_cast. destruct ab; try (exists []; split; [apply published_nil | reflexivity]).
  eexists [_]. split; [apply published_push|]. unfold damage_to. simpl.
  destruct targetSelf; reflexivity.
Qed.

Lemma applyEvasionDamage_nonneg n o : 0 <= applyEvasionDamage n o.
Proof.
  unfold applyEvasionDamage. destruct (Z.leb_spec n 0); destruct o; simpl; lia.
Qed.

Lemma swing_spec ab t n p c s : 0 <= creatureDodgeStreakRef s ->
  rand_post (swing ab t n p c s) (fun r => exists o k hs s',
    r = (takeDamage c (applyEvasionDamage n o), s') /\ 0 <= k
    /\ published hs (mutate_creature (takeDamage c (applyEvasionDamage n o))
                       (s <| creatureDodgeStreakRef := k |>)) s'
    /\ damage_to CCreature hs = applyEvasionDamage n o).
Proof.
  intros H. unfold swing. rand_step rollEvasion_streak ev Hev; [exact H|]. cbv zeta.
  apply rand_post_ret. exists (outcome ev), (nextDodgeStreak ev).
  eexists [_], _. split; [reflexivity|]. split; [exact Hev|].
  split; [apply published_push|]. unfold damage_to, hit_damage, sumZ.
  cbn [fmap list_fmap fold_right ch_kind ch_target ch_amount]. simpl. lia.
Qed.

(** What an ability does this turn, from the state before the effects ticked. *)
Definition turn_result (ab : Ability) (p : Player) (st : CombatantState) (c : Creature)
    (pre : list StatusEffect) : AbilityResult :=
  resolveAbility ab
    (es_attack (computeEffectiveStats (p_attack p) (p_defense p) (statusEffects st)))
    (es_defense (computeEffectiveStats 0 (c_defense c) pre)) (c_resistances c) (p_maxHp p).

Definition healed (p : Player) (n : Z) : Player := if 0 <? n then restoreHp p n else p.

Definition self_effects (ab : Ability) (r : AbilityResult) : list StatusEffect :=
  if targets_self ab then ar_appliedEffects r else [].

Definition enemy_effects (ab : Ability) (r : AbilityResult) : list StatusEffect :=
  if targets_self ab then [] else ar_appliedEffects r.

(** The session once the turn's effects are in place and before what follows it. *)
Definition after_turn (now : Z) (enc : EncounterObj) (c : Creature) (p : Player)
    (pst cst : CombatantState) (k : Z) (hits : list CombatHitEvent) (i : Z)
    (l : list CombatLogEntry) (j : Z) (s : Session) : Session :=
  renew_encounter now c enc (setPlayerAndSave p
    (with_feeds hits i l j s <| creatureDodgeStreakRef := k |>
       <| playerCombatStateRef := Some pst |> <| playerCombatState := Some pst |>
       <| creatureCombatStateRef := Some cst |>)).

(** [s'] differs from [s] only in what the rest of the turn overwrites, and in the
    creature's streak, now [k]. *)
Definition turn_base (k : Z) (s s' : Session) : Prop :=
  forall now enc c p pst cst h i l j,
    renew_encounter now c enc (setPlayerAndSave p
      (with_feeds h i l j s' <| playerCombatStateRef := Some pst |>
         <| playerCombatState := Some pst |> <| creatureCombatStateRef := Some cst |>))
    = after_turn now enc c p pst cst k h i l j s.

Lemma turn_base_swing c k h i l j s :
  turn_base k s (with_feeds h i l j (mutate_creature c (s <| creatureDodgeStreakRef := k |>))).
Proof. intros now enc c' p pst cst h' i' l' j'. session_eq. Qed.

Lemma turn_base_still s : turn_base (creatureDodgeStreakRef s) s s.
Proof. intros now enc c p pst cst h i l j. session_eq. Qed.

(** What follows a turn: the kill beat, or the creature's counter-attack. *)
Definition turn_end (ab : Ability) (p p' : Player) (st : CombatantState) (c : Creature)
    (pre : list StatusEffect) (s : Session) : Session :=
  if isDefeated c then scheduleVictory p' s
  else scheduleCounterAttack (es_attack (computeEffectiveStats (c_attack c) 0 pre))
         (es_defense (computeEffectiveStats (p_attack p) (p_defense p) (statusEffects st))) c s.

Lemma perform_spec now ab enc st p pre c cst s :
  0 <= c_hp c -> 0 <= creatureDodgeStreakRef s ->
  rand_post (perform now ab enc st p pre c cst s) (fun s' => exists o k hs i l j,
    let r := turn_result ab p st c pre in
    let dealt := applyEvasionDamage (ar_damage r) o in
    let c' := takeDamage c dealt in
    let p' := healed p (ar_heal r) in
    0 <= k /\ damage_to CCreature hs = dealt
    /\ s' = turn_end ab p p' st c' pre
         (after_turn now enc c' p'
            (next_player_state ab (p_archetype p) st (self_effects ab r))
            (add_effects (default (mkCombatantState [] 0) cst) (enemy_effects ab r))
            k (combatHits s ++ hs) i l j s)).
Proof.
  intros Hc Hk. unfold perform. fold (turn_result ab p st c pre).
  set (r := turn_result ab p st c pre). cbv zeta.
  eapply rand_post_bind with (P := fun x => exists o k hs s',
    x = (takeDamage c (applyEvasionDamage (ar_damage r) o), s') /\ 0 <= k
    /\ damage_to CCreature hs = applyEvasionDamage (ar_damage r) o
    /\ combatHits s' = combatHits s ++ hs /\ turn_base k s s').
  - assert (Still : ar_damage r <= 0 -> rand_post (rand_ret (c, s)) (fun x => exists o k hs s',
      x = (takeDamage c (applyEvasionDamage (ar_damage r) o), s') /\ 0 <= k
      /\ damage_to CCreature hs = applyEvasionDamage (ar_damage r) o
      /\ combatHits s' = combatHits s ++ hs /\ turn_base k s s')).
    { intros L. apply rand_post_ret. exists dodged, (creatureDodgeStreakRef s), [], s.
      simpl. rewrite takeDamage_0, app_nil_r by exact Hc. auto using turn_base_still. }
    subst r. destruct ab as [b m t| | |]; try (apply Still; reflexivity).
    destruct (Z.ltb_spec 0 (ar_damage (turn_result (DirectAbility b m t) p st c pre)));
      [|apply Still; lia].
    eapply rand_post_weaken; [apply swing_spec, Hk|].
    intros x (o & k & hs & s' & -> & K & (i & l & j & ->) & D). exists o, k, hs. eexists.
    split; [reflexivity|]. split; [exact K|]. split; [exact D|].
    split; [reflexivity | apply turn_base_swing].
  - intros x (o & k & hs & s1 & -> & K & D & E & B).
    destruct (heal_self_spec ab (ar_heal r) p s1) as (hs2 & s2 & -> & (i2 & l2 & j2 & ->) & D2).
    set (c' := takeDamage c _). fold (healed p (ar_heal r)).
    destruct (publish_cast_spec ab (healed p (ar_heal r)) c'
      (with_feeds (combatHits s1 ++ hs2) i2 l2 j2 s1)) as (hs3 & (i & l & j & ->) & D3).
    apply rand_post_ret. exists o, k, (hs ++ hs2 ++ hs3), i, l, j. split; [exact K|].
    split; [rewrite !damage_to_app, D, D2, D3; lia|].
    rewrite with_feeds_twice, B. cbn [combatHits with_feeds]. unfold turn_end.
    assert (A : p_archetype (healed p (ar_heal r)) = p_archetype p)
      by (unfold healed; destruct (0 <? ar_heal r), p; reflexivity).
    rewrite A. change (combatHits (with_feeds (combatHits s1 ++ hs2) i2 l2 j2 s1))
      with (combatHits s1 ++ hs2). rewrite E, <- !app_assoc. reflexivity.
Qed.

Lemma next_resource ab a st fx :
  resource (next_player_state ab a st fx)
  = Z.min 100 (Z.max 0 (resource st - resourceCost ab) + regenPerTurn (RESOURCE_CONFIGS a)).
Proof.
  unfold next_player_state, add_effects, regenResource, tick_player. simpl.
  destruct (0 <? length (statusEffects st))%nat; [rewrite tickStatusEffects_eq|]; simpl;
    destruct a; simpl; reflexivity.
Qed.

Lemma next_resource_bounds ab a st fx : 0 <= resource (next_player_state ab a st fx) <= 100.
Proof. rewrite next_resource. destruct a; simpl; lia. Qed.

Lemma healed_wf p n : wf_player p -> wf_player (healed p n).
Proof.
  intros W. unfold healed. destruct (Z.ltb_spec 0 n); [|exact W].
  apply with_hp_wf; [|exact W]. destruct W. lia.
Qed.

Lemma mutate_ok c s : creature_ok c -> session_ok s -> session_ok (mutate_creature c s).
Proof.
  intros C []. session_auto.
  - intros o H. destruct (encounterRef s); [|discriminate]. injection H as <-. exact C.
  - intros o H. destruct (encounterRef s); [|discriminate]. injection H as <-. simpl. auto.
  - rewrite ok_encounter_sync0. reflexivity.
  - intros H. apply ok_idle0. destruct (encounterRef s); [discriminate | reflexivity].
  - intros t a d c' i H1 H2. rewrite (ok_pinned0 t a d c' i H1 H2).
    destruct (encounterRef s); reflexivity.
  - intros H. rewrite ok_victory0 by exact H. reflexivity.
Qed.

Lemma published_ok hs s s' : published hs s s' -> session_ok s -> session_ok s'.
Proof. intros (i & l & j & ->). apply with_feeds_ok. Qed.

Lemma after_turn_ok now enc c p pst cst k h i l j s :
  creature_ok c -> wf_player p -> 0 <= resource pst <= 100 -> 0 <= k ->
  counterPendingRef s = false -> victoryProcessedRef s = false -> session_ok s ->
  session_ok (after_turn now enc c p pst cst k h i l j s).
Proof.
  intros C W R K P V []. session_auto.
  - intros o [= <-]. simpl. lia.
  - intros t ????. rewrite P in ok_counter0. destruct (counterTimerRef s); [|discriminate].
    simpl in ok_counter0. discriminate.
  - congruence.
  - intros o H. destruct (ok_held0 o H). split; [assumption | lia].
Qed.

(** The state in which an ability is accepted or refused on its merits. *)
Record fight_ready (s : Session) (enc : EncounterObj) (p : Player) (st : CombatantState) : Prop := {
  fr_enc : encounterRef s = Some enc;
  fr_player : playerRef s = Some p;
  fr_state : playerCombatStateRef s = Some st;
  fr_victory : victoryProcessedRef s = false;
  fr_kill : killBeatPendingRef s = false;
  fr_counter : counterPendingRef s = false;
  fr_alive : 0 < c_hp (eo_creature enc)
}.

(** A turn that is not refused, in full. *)
Record turn_taken (now : Z) (ab : Ability) (enc : EncounterObj) (p : Player) (st : CombatantState)
    (s : Session) (accepted : bool) (s' : Session) : Prop := {
  tt_cases :
    let pre := effects_on (creatureCombatStateRef s) in
    let dots := dot_total (eo_creature enc) pre in
    let c1 := takeDamage (eo_creature enc) dots in
    if isDefeated c1 then
      accepted = false
      /\ exists hs i l j, damage_to CCreature hs = dots
      /\ s' = scheduleVictory p
           (mutate_creature c1 (with_feeds (combatHits s ++ hs) i l j s)
              <| playerCombatStateRef := Some (tick_player st) |>
              <| playerCombatState := Some (tick_player st) |>
              <| creatureCombatStateRef := tick_player <$> creatureCombatStateRef s |>)
    else
      let r := turn_result ab p st c1 pre in
      accepted = true
      /\ exists o k hs i l j,
        let dealt := applyEvasionDamage (ar_damage r) o in
        let c2 := takeDamage c1 dealt in
        let p' := healed p (ar_heal r) in
        0 <= k /\ damage_to CCreature hs = dots + dealt
        /\ s' = turn_end ab p p' st c2 pre
             (after_turn now enc c2 p'
                (next_player_state ab (p_archetype p) st (self_effects ab r))
                (add_effects (default (mkCombatantState [] 0) (tick_player <$> creatureCombatStateRef s))
                   (enemy_effects ab r)) k (combatHits s ++ hs) i l j s)
}.

Lemma after_turn_mutated now enc c p pst cst k h i l j c' h' i' l' j' s :
  after_turn now enc c p pst cst k h i l j (mutate_creature c' (with_feeds h' i' l' j' s))
  = after_turn now enc c p pst cst k h i l j s.
Proof. session_eq. Qed.

Lemma not_defeated c : 0 < c_hp c -> isDefeated c = false.
Proof. intros H. unfold isDefeated. destruct (Z.leb_spec (c_hp c) 0); [lia | reflexivity]. Qed.

Lemma handleAbility_turn now ab s enc p st :
  session_ok s -> fight_ready s enc p st -> resourceCost ab <= resource st ->
  rand_post (handleAbility now ab s) (fun r => turn_taken now ab enc p st s (fst r) (snd r)).
Proof.
  intros K [E P S V B C A] R. pose proof (ok_creature s K enc E) as Ok.
  pose proof (ok_player s K p P) as W.
  destruct (tick_creature_spec s enc E) as (hs & s1 & T & (i & l & j & ->) & D);
    [rewrite (ok_encounter_sync s K); exact E | exact Ok |].
  unfold handleAbility. rewrite E, P, S, V, B, C. cbn [orb].
  rewrite not_defeated by exact A. destruct (Z.ltb_spec (resource st) (resourceCost ab)) as [|_]; [lia|].
  rewrite clone_eq by exact W. cbv zeta. rewrite T. fold (effects_on (creatureCombatStateRef s)).
  set (c1 := takeDamage _ _) in *.
  destruct (isDefeated c1) eqn:X.
  - apply rand_post_ret. constructor. cbv zeta. fold c1. rewrite X. split; [reflexivity|].
    exists hs, i, l, j. split; [exact D | reflexivity].
  - rand_step perform_spec s' H; [subst c1; simpl; lia | apply K |].
    destruct H as (o & k & hs' & i' & l' & j' & K1 & D1 & ->).
    apply rand_post_ret. constructor. cbv zeta. fold c1. rewrite X. split; [reflexivity|].
    exists o, k, (hs ++ hs'), i', l', j'. split; [exact K1|].
    split; [rewrite damage_to_app, D, D1; reflexivity|].
    cbn [snd]. rewrite after_turn_mutated, app_assoc. reflexivity.
Qed.

Lemma close_ok s : session_ok s ->
  session_ok (s <| showCombatModalRef := false |> <| showCombatModal := false |>).
Proof. intros []. session_auto. intros H. destruct (ok_idle0 H) as (_ & I). auto. Qed.

Lemma states_ok st cst s : session_ok s -> is_Some (encounterRef s) -> 0 <= resource st <= 100 ->
  session_ok (s <| playerCombatStateRef := Some st |> <| playerCombatState := Some st |>
                <| creatureCombatStateRef := cst |>).
Proof. intros [] [enc E] R. session_auto. congruence. Qed.

Lemma mutate_some c s : is_Some (encounterRef s) -> is_Some (encounterRef (mutate_creature c s)).
Proof. intros [enc E]. exists (put_creature c enc). simpl. rewrite E. reflexivity. Qed.

Lemma after_turn_some now enc c p pst cst k h i l j s :
  is_Some (encounterRef (after_turn now enc c p pst cst k h i l j s)).
Proof. eexists. reflexivity. Qed.

Lemma tick_player_resource st : resource (tick_player st) = resource st.
Proof.
  unfold tick_player. destruct (0 <? length (statusEffects st))%nat;
    [rewrite tickStatusEffects_eq|]; reflexivity.
Qed.

Lemma turn_taken_ok now ab enc p st s b s' :
  session_ok s -> fight_ready s enc p st -> turn_taken now ab enc p st s b s' -> session_ok s'.
Proof.
  intros K [E P S V B C A] [T]. cbv zeta in T.
  pose proof (ok_creature s K enc E) as Ok. pose proof (ok_player s K p P) as W.
  set (dots := dot_total _ _) in T. pose proof (takeDamage_ok _ dots (dot_total_nonneg _ _) Ok) as Ok1.
  destruct (isDefeated (takeDamage _ dots)) eqn:X.
  - destruct T as (_ & hs & i & l & j & _ & ->). apply scheduleVictory_ok; [exact W | exists p; exact P |].
    apply states_ok.
    + apply mutate_ok, with_feeds_ok, K. exact Ok1.
    + apply mutate_some. exists enc. exact E.
    + rewrite tick_player_resource. exact (ok_resource s K st S).
  - destruct T as (_ & o & k & hs & i & l & j & K1 & _ & ->). unfold turn_end.
    set (c2 := takeDamage (takeDamage _ _) _).
    assert (Ok2 : creature_ok c2) by (apply takeDamage_ok, Ok1; apply applyEvasionDamage_nonneg).
    match goal with |- context [scheduleVictory ?q ?x] => assert (G : session_ok x) end.
    { apply after_turn_ok; auto; [apply healed_wf, W | apply next_resource_bounds]. }
    destruct (isDefeated c2).
    + apply scheduleVictory_ok; [apply healed_wf, W | eexists; reflexivity | exact G].
    + apply scheduleCounterAttack_ok; [apply after_turn_some | exact G].
Qed.

Definition combat_closed (s : Session) : Session :=
  s <| showCombatModalRef := false |> <| showCombatModal := false |>.

(** Every outcome of a tap on an ability: refused with nothing changed, the win of a
    creature found dead, or a turn. *)
Lemma handleAbility_cases now ab s : session_ok s ->
  rand_post (handleAbility now ab s) (fun r =>
    r = (false, s)
    \/ (exists enc p p' rv, encounterRef s = Some enc /\ playerRef s = Some p
         /\ victoryProcessedRef s = false /\ win_paid p (eo_creature enc) p' rv
         /\ r = (false, combat_closed (won p' rv s)))
    \/ (exists enc p st, fight_ready s enc p st /\ resourceCost ab <= resource st
         /\ turn_taken now ab enc p st s (fst r) (snd r))).
Proof.
  intros K.
  destruct (encounterRef s) as [enc|] eqn:E;
    [|unfold handleAbility; rewrite E; apply rand_post_ret; auto].
  destruct (playerRef s) as [p|] eqn:P;
    [|unfold handleAbility; rewrite E, P; apply rand_post_ret; auto].
  destruct (playerCombatStateRef s) as [st|] eqn:S;
    [|unfold handleAbility; rewrite E, P, S; apply rand_post_ret; auto].
  destruct (victoryProcessedRef s || killBeatPendingRef s || counterPendingRef s) eqn:B;
    [unfold handleAbility; rewrite E, P, S, B; apply rand_post_ret; auto|].
  pose proof B as [[B1 B2]%orb_false_iff B3]%orb_false_iff.
  destruct (isDefeated (eo_creature enc)) eqn:D.
  { unfold handleAbility. rewrite E, P, S, B, D.
    rand_step handleVictory_cases s' H; [simpl; rewrite P; intros ? [= <-]; eapply ok_player; eauto
      | apply K |].
    simpl in H. rewrite E, P, B1 in H. destruct H as (p' & rv & H & ->).
    apply rand_post_ret. right. left. exists enc, p, p', rv. auto. }
  destruct (Z.ltb_spec (resource st) (resourceCost ab)) as [L|L].
  { unfold handleAbility. rewrite E, P, S, B, D. apply Z.ltb_lt in L. rewrite L.
    apply rand_post_ret. auto. }
  assert (F : fight_ready s enc p st).
  { constructor; auto. unfold isDefeated in D. destruct (Z.leb_spec (c_hp (eo_creature enc)) 0);
      [discriminate | lia]. }
  eapply rand_post_weaken; [apply (handleAbility_turn now ab s enc p st K F L)|].
  intros r H. right. right. exists enc, p, st. auto.
Qed.

Lemma handleAbility_ok now ab s : session_ok s ->
  rand_post (handleAbility now ab s) (fun r => session_ok (snd r)).
Proof.
  intros K. eapply rand_post_weaken; [apply handleAbility_cases, K|]. intros r.
  intros [-> | [(enc & p & p' & rv & _ & _ & _ & W & ->) | (enc & p & st & F & _ & T)]].
  - exact K.
  - destruct (ok_streaks s K). apply close_ok, won_ok; auto;
      [apply W | apply (ok_held s K) | apply (ok_saves s K)].
  - eapply turn_taken_ok; eassumption.
Qed.

Definition event_ok (ev : Event) : Prop :=
  match ev with
  | EvPresent e => creature_ok (e_creature e)
  | EvHold o => forall e, o = Some e -> creature_ok (e_creature e)
  | EvPlayer f => forall p, wf_player p -> wf_player (f p)
  | _ => True
  end.

Lemma presentEncounter_ok o s : creature_ok (eo_creature o) -> (eo_id o < nextObject s)%nat ->
  encounterRef s = None -> session_ok s -> session_ok (presentEncounter o s).
Proof.
  intros C N E []. destruct (ok_idle0 E) as (M & _). session_auto; [congruence|].
  intros H. split; [apply ok_kill0, H | reflexivity].
Qed.

Lemma engage_ok o s : creature_ok (eo_creature o) -> (eo_id o < nextObject s)%nat ->
  encounterRef s = None -> session_ok s -> session_ok (engage o s).
Proof.
  intros C N E []. destruct (ok_idle0 E) as (M & P & _ & Q).
  rewrite Q in ok_counter0. destruct (counterTimerRef s) eqn:T; [discriminate|].
  session_auto; try congruence.
  - rewrite T. exact Q.
  - intros H. split; [apply ok_kill0, H | reflexivity].
Qed.

Lemma hold_foe_ok e s : (forall x, e = Some x -> creature_ok (e_creature x)) ->
  session_ok s -> session_ok (hold_foe e s).
Proof.
  intros C []. destruct e as [e|]; session_auto.
  - intros o H. specialize (ok_fresh0 o H). lia.
  - intros o [= <-]. simpl. split; [apply C; reflexivity | lia].
Qed.

Lemma fresh_ok s : session_ok s -> session_ok (s <| nextObject := S (nextObject s) |>).
Proof.
  intros []. session_auto.
  - intros o H. specialize (ok_fresh0 o H). lia.
  - intros o H. destruct (ok_held0 o H). split; [assumption | lia].
Qed.

Lemma flags_ok s : session_ok s ->
  session_ok (handleMinimize s) /\ session_ok (handleExpandMinimized s)
  /\ session_ok (reveal_timer_fires s) /\ session_ok (dismissReward s)
  /\ session_ok (handleCloseCombatModal s).
Proof.
  intros K. split; [destruct K; session_auto|]. split; [destruct K; session_auto|].
  split; [unfold reveal_timer_fires; destruct (rewardRevealTimerRef s); destruct K; session_auto|].
  split; [destruct K; session_auto|].
  unfold handleCloseCombatModal. destruct (counterPendingRef s); [exact K | apply close_ok, K].
Qed.

(** A win from a session whose modal flags have just been cleared. *)
Lemma handleAutoResolve_ok now s : session_ok s -> rand_post (handleAutoResolve now s) session_ok.
Proof.
  intros K. unfold handleAutoResolve. destruct (playerRef s) as [p|] eqn:P; [|apply rand_post_ret, K].
  destruct (encounterRef s) as [enc|] eqn:E; [|apply rand_post_ret, K].
  destruct (isEliteCreature _); [apply rand_post_ret, K|].
  apply handleVictory_ok; try apply K.
  - intros ? [= <-]. eapply ok_player; eauto.
  - intros [H|[H|H]]; [simpl in H; congruence | discriminate |].
    pose proof (ok_victory s K H). congruence.
Qed.

Lemma renew_ok now c o s : creature_ok c -> counterPendingRef s = false -> victoryProcessedRef s = false ->
  session_ok s -> session_ok (renew_encounter now c o s).
Proof.
  intros C P V []. session_auto.
  - intros x [= <-]. simpl. lia.
  - intros t ????. rewrite P in ok_counter0. destruct (counterTimerRef s); [|discriminate].
    simpl in ok_counter0. discriminate.
  - congruence.
  - intros x H. destruct (ok_held0 x H). split; [assumption | lia].
Qed.

Lemma handleDebugDefeat_ok now s : session_ok s -> rand_post (handleDebugDefeat now s) session_ok.
Proof.
  intros K. unfold handleDebugDefeat.
  destruct (encounterRef s) as [enc|] eqn:E; [|apply rand_post_ret, K].
  destruct (playerRef s) as [p|] eqn:P; [|apply rand_post_ret, K].
  destruct (victoryProcessedRef s) eqn:V; [apply rand_post_ret, K|].
  destruct (isDefeated _) eqn:D; [apply rand_post_ret, K|]. cbv zeta.
  pose proof (ok_creature s K enc E) as C. apply handleVictory_ok.
  - intros ? [= <-]. eapply ok_player; eauto.
  - intros o [= <-]. apply takeDamage_ok; [apply C | exact C].
  - intros o H. destruct (ok_held s K o H). split; [assumption|]. simpl. lia.
  - apply (ok_saves s K).
  - apply (ok_streaks s K).
  - apply (ok_streaks s K).
  - intros [H|[H|H]]; [discriminate | discriminate |]. simpl in H. congruence.
Qed.

Lemma preview_ok now r s : session_ok s -> rand_post (debugPreviewReveal now r s) session_ok.
Proof.
  intros K. unfold debugPreviewReveal. cbv zeta.
  rand_step generateItem_generated it Hit; [discriminate|]. apply rand_post_ret.
  destruct K. session_auto.
Qed.

Lemma dispatch_ok now ev s : event_ok ev -> session_ok s -> rand_post (dispatch now ev s) session_ok.
Proof.
  intros He K. pose proof (flags_ok s K) as (F1 & F2 & F3 & F4 & F5).
  destruct ev; cbn [dispatch].
  - apply rand_post_ret. destruct (encounterRef s) eqn:E; [exact K|].
    apply presentEncounter_ok; [exact He | simpl; lia | exact E | apply fresh_ok, K].
  - apply rand_post_ret, hold_foe_ok; assumption.
  - apply rand_post_ret. unfold engageable. destruct (encounterRef s) eqn:E; [exact K|].
    destruct (heldFoe s) as [o|] eqn:H; [|exact K].
    destruct (ok_held s K o H). apply engage_ok; assumption.
  - apply handleFight_ok, K.
  - rand_step handleAbility_ok r H; [exact K|]. apply rand_post_ret, H.
  - apply rand_post_ret, handleFlee_ok, K.
  - apply rand_post_ret, F1.
  - apply rand_post_ret, F2.
  - apply rand_post_ret, F5.
  - apply handleAutoResolve_ok, K.
  - apply handleDebugDefeat_ok, K.
  - apply kill_beat_fires_ok, K.
  - apply counter_timer_fires_ok, K.
  - apply rand_post_ret, F3.
  - apply rand_post_ret, F4.
  - apply preview_ok, K.
  - apply rand_post_ret, clearEncounter_ok, K.
  - apply rand_post_ret. destruct (playerRef s) as [p|] eqn:P; [|exact K].
    pose proof (ok_player s K p P) as W. rewrite clone_eq by exact W.
    apply setPlayer_ok; [apply He, W | exact K].
Qed.

Lemma run_ok evs : Forall (fun e => event_ok (snd e)) evs -> forall s, session_ok s ->
  rand_post (run evs s) session_ok.
Proof.
  induction evs as [|[now ev] evs IH]; intros F s K; [apply rand_post_ret, K|].
  apply Forall_cons in F as [F1 F2]. rand_step dispatch_ok s' H; [exact F1 | exact K |].
  apply IH; assumption.
Qed.

(** ** Properties *)

(** C1: the session invariant.  From the first render with a well-formed player, after
    any sequence of taps, timer callbacks, saves made elsewhere and new encounters, the
    player (and the one a pending kill beat captured) is well formed, the creature's hit
    points are in range, every ref agrees with the React state it mirrors, with no
    encounter nothing of a fight is left (no combat state, open combat modal or counter
    beat), input is frozen exactly while a counter timer is armed, a pending strike is
    pinned to the current encounter, and the ability resource stays between 0 and 100. *)
Theorem session_invariant (p : Player) (evs : list (Z * Event)) :
  wf_player p -> Forall (fun e => event_ok (snd e)) evs ->
  rand_post (run evs (initial_session (Some p))) session_ok.
Proof.
  intros W F. apply run_ok; [exact F|]. apply initial_session_ok. intros ? [= <-]. exact W.
Qed.

(** ** Each fight pays at most once *)

Definition wins (s : Session) : Z := from_option p_creaturesDefeated 0 (playerRef s).

(** 1 while a fight that can still be won is on. *)
Definition open_fight (s : Session) : Z :=
  match encounterRef s with Some _ => if victoryProcessedRef s then 0 else 1 | None => 0 end.

Definition captured_now (s : Session) : Prop :=
  is_Some (playerRef s)
  /\ forall q, killBeatTimerRef s = Some q -> p_creaturesDefeated q = wins s.

Definition starts (ev : Event) : Z :=
  match ev with EvPresent _ | EvEngage => 1 | _ => 0 end.

(** Saves made elsewhere do not touch the count of wins. *)
Definition event_neutral (ev : Event) : Prop :=
  match ev with
  | EvPlayer f => forall p, p_creaturesDefeated (f p) = p_creaturesDefeated p
  | _ => True
  end.

(** One event: what it adds to the wins it takes from the open fights. *)
Definition pays (n : Z) (s s' : Session) : Prop :=
  captured_now s' /\ wins s <= wins s' /\ wins s' + open_fight s' <= wins s + open_fight s + n.

Lemma pays_refl n s : 0 <= n -> captured_now s -> pays n s s.
Proof. intros H C. split; [exact C|]. lia. Qed.

Lemma open_fight_bounds s : 0 <= open_fight s <= 1.
Proof. unfold open_fight. destruct (encounterRef s); [destruct (victoryProcessedRef s)|]; lia. Qed.

(** A step that leaves the player, the encounter's presence and the kill beat alone. *)
Lemma pays_same n s s' : 0 <= n -> captured_now s ->
  wins s' = wins s -> is_Some (playerRef s') ->
  (forall q, killBeatTimerRef s' = Some q -> killBeatTimerRef s = Some q) ->
  open_fight s' <= open_fight s + n -> pays n s s'.
Proof.
  intros N [C1 C2] E P K O. split; [|lia]. split; [exact P|]. intros q H. rewrite E. auto.
Qed.

Lemma won_pays base c p' rv s : win_paid base c p' rv -> p_creaturesDefeated base = wins s ->
  is_Some (encounterRef s) -> victoryProcessedRef s = false -> pays 0 s (won p' rv s).
Proof.
  intros W B [enc E] V. pose proof (wp_tally _ _ _ _ W) as T. injection T as _ _ T _.
  unfold pays, captured_now, wins, open_fight in *. simpl. rewrite E, V, T, B.
  split; [split; [eauto | discriminate]|]. lia.
Qed.

Lemma handleVictory_pays now pu s :
  (forall o, encounterRef s = Some o -> creature_ok (eo_creature o)) -> captured_now s ->
  (forall q, base_player pu s = Some q -> wf_player q /\ p_creaturesDefeated q = wins s) ->
  rand_post (handleVictory now pu s) (pays 0 s).
Proof.
  intros K C H. eapply rand_post_weaken; [apply handleVictory_cases; [apply H | exact K]|].
  intros s' R. destruct (encounterRef s) as [enc|] eqn:E; [|subst; apply pays_refl; [lia | exact C]].
  destruct (base_player pu s) as [base|] eqn:B; [|subst; apply pays_refl; [lia | exact C]].
  destruct (victoryProcessedRef s) eqn:V; [subst; apply pays_refl; [lia | exact C]|].
  destruct R as (p' & rv & W & ->). eapply won_pays; eauto. apply (H base eq_refl).
Qed.

Lemma current_base s q : session_ok s -> playerRef s = Some q ->
  wf_player q /\ p_creaturesDefeated q = wins s.
Proof. intros K P. split; [eapply ok_player; eauto|]. unfold wins. rewrite P. reflexivity. Qed.

Lemma kill_beat_pays now s : session_ok s -> captured_now s -> rand_post (kill_beat_fires now s) (pays 0 s).
Proof.
  intros K C. unfold kill_beat_fires. destruct (killBeatTimerRef s) as [q|] eqn:T;
    [|apply rand_post_ret, pays_refl; [lia | exact C]].
  eapply rand_post_weaken; [apply handleVictory_pays | intros s' H; exact H].
  - apply (ok_creature s K).
  - split; [apply C | discriminate].
  - intros ? [= <-]. split; [eapply ok_captured; eauto | apply C, T].
Qed.

Lemma handleFight_pays now s : session_ok s -> captured_now s -> rand_post (handleFight now s) (pays 0 s).
Proof.
  intros K C. pose proof (pays_refl 0 s ltac:(lia) C) as R. unfold handleFight.
  destruct (encounterRef s) as [enc|] eqn:E; [|apply rand_post_ret, R].
  destruct (playerRef s) as [p|] eqn:P; [|apply rand_post_ret, R].
  destruct (player_isDefeated p); [apply rand_post_ret, R|].
  destruct (isDefeated (eo_creature enc)).
  { apply handleVictory_pays; [apply K | exact C |]. intros q H. apply current_base; assumption. }
  apply rand_post_ret. cbv zeta.
  destruct (playerCombatStateRef _); destruct (creatureCombatStateRef _);
    (apply pays_same; [lia | exact C | reflexivity | simpl; eauto | auto |
     unfold open_fight; simpl; lia]).
Qed.

Lemma pays_closed n s s' : pays n s s' -> pays n s (combat_closed s').
Proof. exact id. Qed.

Lemma handleAbility_pays now ab s : session_ok s -> captured_now s ->
  rand_post (handleAbility now ab s) (fun r => pays 0 s (snd r)).
Proof.
  intros K C. eapply rand_post_weaken; [apply handleAbility_cases, K|]. intros r.
  intros [-> | [(enc & p & p' & rv & E & P & V & W & ->) | (enc & p & st & F & _ & T)]].
  - apply pays_refl; [lia | exact C].
  - apply pays_closed, (won_pays p (eo_creature enc) p' rv s W); eauto.
    apply current_base; assumption.
  - destruct F as [E P S V B Q A], T as [T]. cbv zeta in T.
    assert (N : p_creaturesDefeated p = wins s) by (apply current_base; assumption).
    assert (SV : forall q x, p_creaturesDefeated q = wins x -> is_Some (playerRef x) ->
      victoryProcessedRef x = false -> killBeatPendingRef x = false -> killBeatTimerRef x = None ->
      wins x = wins s -> open_fight x <= open_fight s -> pays 0 s (scheduleVictory q x)).
    { intros q x H1 H2 H3 H4 H5 H6 H7. unfold scheduleVictory. rewrite H3, H4. simpl.
      split; [split; [exact H2 | intros ? [= <-]; exact H1]|].
      unfold wins, open_fight in *. simpl. lia. }
    assert (KT : killBeatTimerRef s = None).
    { destruct (killBeatTimerRef s) eqn:KT; [|reflexivity].
      destruct (ok_kill s K) as [X _]; [eauto | congruence]. }
    assert (O : open_fight s = 1) by (unfold open_fight; rewrite E, V; reflexivity).
    destruct (isDefeated (takeDamage _ _)).
    + destruct T as (_ & hs & i & l & j & _ & ->). apply SV; auto.
      rewrite O. apply open_fight_bounds.
    + destruct T as (_ & o & k & hs & i & l & j & _ & _ & ->). unfold turn_end.
      set (q := healed p _).
      assert (Q' : p_creaturesDefeated q = wins s)
        by (rewrite <- N; unfold q, healed; destruct (0 <? _), p; reflexivity).
      destruct (isDefeated _).
      * apply SV; auto. rewrite O. apply open_fight_bounds.
      * unfold scheduleCounterAttack. destruct (counterPendingRef _);
          (apply pays_same; [lia | exact C | exact Q' | eexists; reflexivity | auto |
           rewrite O; apply open_fight_bounds]).
Qed.

Lemma counter_pays s : session_ok s -> captured_now s -> rand_post (counter_timer_fires s) (pays 0 s).
Proof.
  intros K C. unfold counter_timer_fires.
  destruct (counterTimerRef s) as [t|]; [|apply rand_post_ret, pays_refl; [lia | exact C]].
  assert (R : pays 0 s (endEnemyTurn (s <| counterTimerRef := None |>)))
    by exact (pays_refl 0 s ltac:(lia) C).
  cbv zeta. destruct (ct_callback t) as [a d c i|]; [|apply rand_post_ret, R].
  change (playerRef (s <| counterTimerRef := None |>)) with (playerRef s).
  destruct (playerRef s) as [p|] eqn:P; [|apply rand_post_ret, R].
  destruct (bool_decide _); [|apply rand_post_ret, R].
  pose proof (current_base s p K P) as [W N]. unfold counter_strike. rewrite clone_eq by exact W.
  eapply rand_post_bind with (P := fun _ => True);
    [apply rand_post_true; intros r Hr; exact Hr|]. intros ev _. cbv zeta.
  fold (struck p (applyEvasionDamage (mitigateDamage a d 1) (outcome ev))). set (n := applyEvasionDamage _ _).
  assert (N' : p_creaturesDefeated (struck p n) = wins s)
    by (rewrite <- N; unfold struck; destruct (0 <? n), p; reflexivity).
  pose proof (struck_wf p n W) as W'. pose proof (open_fight_bounds s) as O.
  apply rand_post_ret. destruct (player_isDefeated (struck p n)).
  - unfold handlePlayerDefeat. rewrite clone_eq by exact W'.
    set (q := incrementEncounters (fullHeal (struck p n))).
    assert (Nq : p_creaturesDefeated q = wins s)
      by (rewrite <- N'; unfold q; destruct (struck p n); reflexivity).
    clearbody q. apply pays_same; [lia | exact C | exact Nq | eexists; reflexivity | auto |].
    unfold open_fight at 1. simpl. lia.
  - apply pays_same; [lia | exact C | exact N' | eexists; reflexivity | auto |].
    unfold open_fight. simpl. lia.
Qed.

Lemma flee_pays s : session_ok s -> captured_now s -> pays 0 s (handleFlee s).
Proof.
  intros K C. unfold handleFlee. destruct (_ || _); [apply pays_refl; [lia | exact C]|].
  pose proof (open_fight_bounds s) as O. cbv zeta.
  destruct (encounterRef s) as [enc|] eqn:E; [destruct (playerRef s) as [p|] eqn:P|].
  - pose proof (current_base s p K P) as [W N]. rewrite clone_eq by exact W.
    set (q := fullHeal (incrementEncounters p)).
    assert (Nq : p_creaturesDefeated q = wins s) by (rewrite <- N; unfold q; destruct p; reflexivity).
    clearbody q. apply pays_same; [lia | exact C | exact Nq | eexists; reflexivity | auto |].
    unfold open_fight at 1. simpl. lia.
  - destruct C as [[? C] _]. congruence.
  - apply pays_same; [lia | exact C | reflexivity | apply C | auto |].
    unfold open_fight at 1. simpl. lia.
Qed.

Lemma forced_win_pays now s p x : session_ok s -> captured_now s -> playerRef s = Some p ->
  wins x = wins s -> open_fight x = open_fight s -> captured_now x ->
  (forall o, encounterRef x = Some o -> creature_ok (eo_creature o)) ->
  rand_post (handleVictory now (Some p) x) (pays 0 s).
Proof.
  intros K C P E1 E2 Cx Hc. eapply rand_post_weaken; [apply handleVictory_pays; [exact Hc | exact Cx |]|].
  - intros q [= <-]. rewrite E1. apply current_base; assumption.
  - intros s' (H1 & H2 & H3). split; [exact H1|]. lia.
Qed.

Lemma dispatch_pays now ev s : event_neutral ev -> session_ok s -> captured_now s ->
  rand_post (dispatch now ev s) (pays (starts ev) s).
Proof.
  intros He K C. pose proof (pays_refl 0 s ltac:(lia) C) as R.
  destruct ev; cbn [dispatch starts]; try (apply rand_post_ret; exact R).
  - apply rand_post_ret. destruct (encounterRef s) eqn:E; [apply pays_refl; [lia | exact C]|].
    apply pays_same; [lia | exact C | reflexivity | apply C | auto |].
    unfold open_fight. simpl. destruct (encounterRef s); [discriminate | lia].
  - apply rand_post_ret. destruct e; exact R.
  - apply rand_post_ret. unfold engageable.
    destruct (encounterRef s) eqn:E; [apply pays_refl; [lia | exact C]|].
    destruct (heldFoe s) as [o|]; [|apply pays_refl; [lia | exact C]].
    apply pays_same; [lia | exact C | reflexivity | apply C | auto |].
    unfold open_fight. simpl. destruct (encounterRef s); [discriminate | lia].
  - apply handleFight_pays; assumption.
  - rand_step handleAbility_pays r H; [exact K | exact C |]. apply rand_post_ret, H.
  - apply rand_post_ret, flee_pays; assumption.
  - apply rand_post_ret. unfold handleCloseCombatModal. destruct (counterPendingRef s); exact R.
  - unfold handleAutoResolve. destruct (playerRef s) as [p|] eqn:P; [|apply rand_post_ret, R].
    destruct (encounterRef s) as [enc|] eqn:E; [|apply rand_post_ret, R].
    destruct (isEliteCreature _); [apply rand_post_ret, R|].
    eapply forced_win_pays; eauto. apply (ok_creature s K).
  - unfold handleDebugDefeat. destruct (encounterRef s) as [enc|] eqn:E; [|apply rand_post_ret, R].
    destruct (playerRef s) as [p|] eqn:P; [|apply rand_post_ret, R].
    destruct (victoryProcessedRef s) eqn:V; [apply rand_post_ret, R|].
    destruct (isDefeated _); [apply rand_post_ret, R|]. cbv zeta.
    eapply forced_win_pays; eauto.
    + unfold open_fight. simpl. rewrite E. reflexivity.
    + intros o [= <-]. pose proof (ok_creature s K enc E) as Ok.
      apply takeDamage_ok; [apply Ok | exact Ok].
  - apply kill_beat_pays; assumption.
  - apply counter_pays; assumption.
  - apply rand_post_ret. unfold reveal_timer_fires. destruct (rewardRevealTimerRef s); exact R.
  - unfold debugPreviewReveal. cbv zeta. rand_step generateItem_generated it Hit; [discriminate|].
    apply rand_post_ret, R.
  - apply rand_post_ret, pays_same; [lia | exact C | reflexivity | apply C | discriminate |].
    pose proof (open_fight_bounds s). unfold open_fight at 1. simpl. lia.
  - apply rand_post_ret. destruct (playerRef s) as [p|] eqn:P; [|exact R].
    pose proof (current_base s p K P) as [W N]. rewrite clone_eq by exact W.
    assert (N' : p_creaturesDefeated (f p) = wins s) by (rewrite <- N; apply He).
    apply pays_same; [lia | exact C | exact N' | eexists; reflexivity | auto |].
    unfold open_fight. simpl. lia.
Qed.

Definition total_starts (evs : list (Z * Event)) : Z := sumZ ((fun e => starts (snd e)) <$> evs).

Lemma run_pays evs : Forall (fun e => event_ok (snd e) /\ event_neutral (snd e)) evs ->
  forall s, session_ok s -> captured_now s ->
  rand_post (run evs s) (fun s' => wins s <= wins s'
    /\ wins s' + open_fight s' <= wins s + open_fight s + total_starts evs).
Proof.
  induction evs as [|[now ev] evs IH]; intros F s K C.
  { apply rand_post_ret. unfold total_starts. simpl. lia. }
  apply Forall_cons in F as [[F1 F2] F].
  eapply rand_post_bind with (P := fun s' => session_ok s' /\ pays (starts ev) s s').
  { intros r Hr. destruct (dispatch_ok now ev s F1 K r Hr) as [H1 H2].
    destruct (dispatch_pays now ev s F2 K C r Hr) as [H3 _]. auto. }
  intros s1 [K1 (C1 & L1 & L2)]. eapply rand_post_weaken; [apply IH; assumption|].
  intros s2 [M1 M2]. change (total_starts ((now, ev) :: evs)) with (starts ev + total_starts evs). lia.
Qed.

(** C2: a fight pays at most once.  Whatever the interleaving of taps, beats, closes,
    flights and saves, the wins credited to the player never exceed the encounters
    that were presented or engaged, and never decrease. *)
Theorem fight_pays_once (p : Player) (evs : list (Z * Event)) :
  wf_player p -> Forall (fun e => event_ok (snd e) /\ event_neutral (snd e)) evs ->
  rand_post (run evs (initial_session (Some p))) (fun s =>
    p_creaturesDefeated p <= wins s <= p_creaturesDefeated p + total_starts evs).
Proof.
  intros W F. eapply rand_post_weaken.
  - apply run_pays; [exact F | apply initial_session_ok; intros ? [= <-]; exact W |].
    split; [eexists; reflexivity | discriminate].
  - intros s [H1 H2]. pose proof (open_fight_bounds s).
    change (wins (initial_session (Some p))) with (p_creaturesDefeated p) in *.
    change (open_fight (initial_session (Some p))) with 0 in H2. lia.
Qed.

(** *** A concrete fight *)

Definition strike : Ability :=
  DirectAbility (mkAbilityBase "strike" "Strike" 0 "⚔️") (lit 1.1) physical.

Definition foe (hp : Z) : Encounter :=
  mkEncounter (set_hp sample_creature hp) (mkLocation 0 0) 1700000000000 1 active None.

Definition sample_fight : list (Z * Event) :=
  [ (0, EvPresent (foe 20)); (1, EvFight); (2, EvAbility strike); (3, EvFlee); (4, EvCounter);
    (5, EvCounter); (6, EvAbility strike); (7, EvPlayer (fun p => addDistance p 5));
    (8, EvCounter); (9, EvCounter); (10, EvAbility strike); (11, EvKillBeat); (12, EvReveal) ].

Lemma foe_20_ok : creature_ok (e_creature (foe 20)).
Proof. vm_compute. intuition discriminate. Qed.

Lemma sample_fight_ok : Forall (fun e => event_ok (snd e) /\ event_neutral (snd e)) sample_fight.
Proof.
  unfold sample_fight. repeat (apply Forall_cons; split); try apply Forall_nil;
    try (split; exact I); [split; [apply foe_20_ok | exact I]|].
  split; [intros p; apply with_counters_wf | intros []; reflexivity].
Qed.

Lemma session_invariant_witness :
  rand_post (run sample_fight (initial_session (Some sample_player))) session_ok.
Proof.
  apply session_invariant; [apply sample_player_wf|].
  eapply Forall_impl; [apply sample_fight_ok|]. intros ? []. assumption.
Defined.

Lemma fight_pays_once_witness :
  rand_post (run sample_fight (initial_session (Some sample_player))) (fun s =>
    p_creaturesDefeated sample_player <= wins s
    <= p_creaturesDefeated sample_player + total_starts sample_fight).
Proof. apply fight_pays_once; [apply sample_player_wf | apply sample_fight_ok]. Defined.

Example sample_fight_won :
  wins (fst (run sample_fight (initial_session (Some sample_player)) sample_rng)) = 1.
Proof. vm_compute. reflexivity. Qed.

(** ** A turn *)

(** The fields of a session that show the outcome of a turn. *)
Record shows (s : Session) (c : Creature) (p : Player) (st : CombatantState)
    (hits : list CombatHitEvent) (killed : bool) : Prop := {
  sh_creature : eo_creature <$> encounterRef s = Some c;
  sh_player : playerRef s = Some p;
  sh_state : playerCombatStateRef s = Some st;
  sh_hits : combatHits s = hits;
  sh_kill : killBeatPendingRef s = killed;
  sh_counter : counterPendingRef s = negb killed
}.

Lemma scheduleVictory_shows q s c p st hits :
  victoryProcessedRef s = false -> killBeatPendingRef s = false -> counterPendingRef s = false ->
  eo_creature <$> encounterRef s = Some c -> playerRef s = Some p ->
  playerCombatStateRef s = Some st -> combatHits s = hits ->
  shows (scheduleVictory q s) c p st hits true.
Proof. intros V B C E P S H. unfold scheduleVictory. rewrite V, B. constructor; auto. Qed.

Lemma scheduleCounterAttack_shows a d c0 s c p st hits :
  killBeatPendingRef s = false -> counterPendingRef s = false ->
  eo_creature <$> encounterRef s = Some c -> playerRef s = Some p ->
  playerCombatStateRef s = Some st -> combatHits s = hits ->
  shows (scheduleCounterAttack a d c0 s) c p st hits false.
Proof. intros B C E P S H. unfold scheduleCounterAttack. rewrite C. constructor; auto. Qed.

Lemma takeDamage_twice c n m : 0 <= n -> 0 <= m -> takeDamage (takeDamage c n) m = takeDamage c (n + m).
Proof. intros. unfold takeDamage, set_hp. simpl. f_equal. lia. Qed.

Lemma ability_turn_spec (now : Z) (ab : Ability) (s : Session) (enc : EncounterObj) (p : Player)
    (st : CombatantState) :
  session_ok s -> fight_ready s enc p st -> resourceCost ab <= resource st ->
  let c := eo_creature enc in
  let dots := dot_total c (effects_on (creatureCombatStateRef s)) in
  rand_post (handleAbility now ab s) (fun r => exists hs,
    let c' := takeDamage c (damage_to CCreature hs) in
    if c_hp c <=? dots then
      fst r = false /\ damage_to CCreature hs = dots
      /\ shows (snd r) c' p (tick_player st) (combatHits s ++ hs) true
    else
      let res := turn_result ab p st (takeDamage c dots) (effects_on (creatureCombatStateRef s)) in
      let st' := next_player_state ab (p_archetype p) st (self_effects ab res) in
      fst r = true
      /\ (exists o, damage_to CCreature hs = dots + applyEvasionDamage (ar_damage res) o)
      /\ resource st' = Z.min 100 (resource st - resourceCost ab
                                   + regenPerTurn (RESOURCE_CONFIGS (p_archetype p)))
      /\ shows (snd r) c' (healed p (ar_heal res)) st' (combatHits s ++ hs) (isDefeated c')).
Proof.
  intros K F L c dots. pose proof F as [E P S V B C A].
  eapply rand_post_weaken; [apply (handleAbility_turn now ab s enc p st K F L)|].
  intros [b s'] [T]. cbv zeta in T. fold c dots in T. cbn [fst snd] in *.
  pose proof (dot_total_nonneg c (effects_on (creatureCombatStateRef s))) as N. fold dots in N.
  assert (D : isDefeated (takeDamage c dots) = (c_hp c <=? dots)).
  { unfold isDefeated. simpl. destruct (Z.leb_spec (c_hp c) dots); [apply Z.leb_le | apply Z.leb_gt]; lia. }
  rewrite D in T. destruct (c_hp c <=? dots).
  - destruct T as (-> & hs & i & l & j & H & ->). exists hs. rewrite H.
    split; [reflexivity|]. split; [reflexivity|].
    apply scheduleVictory_shows; auto. simpl. rewrite E. reflexivity.
  - destruct T as (-> & o & k & hs & i & l & j & _ & H & ->). exists hs.
    split; [reflexivity|]. split; [exists o; exact H|].
    split; [rewrite next_resource; destruct (ok_resource s K st S); f_equal; lia|].
    rewrite H, <- takeDamage_twice by (exact N || apply applyEvasionDamage_nonneg).
    set (c2 := takeDamage (takeDamage c dots) _). unfold turn_end. destruct (isDefeated c2);
      [apply scheduleVictory_shows | apply scheduleCounterAttack_shows]; auto.
Qed.

Lemma ability_shows now ab s enc p st :
  session_ok s -> fight_ready s enc p st -> resourceCost ab <= resource st ->
  rand_post (handleAbility now ab s) (fun r => exists c q st' h b, shows (snd r) c q st' h b).
Proof.
  intros K F L. eapply rand_post_weaken; [apply (ability_turn_spec now ab s enc p st K F L)|].
  intros r [hs H]. destruct (_ <=? _); [destruct H as (_ & _ & H) | destruct H as (_ & _ & _ & H)]; eauto 6.
Qed.

(** C3: a turn, in full.  In a fight that is waiting for the player, an affordable
    ability either never runs because the damage-over-time effects kill the creature
    first (nothing is spent and only the kill beat follows), or runs: the creature loses
    exactly what the hit feed reports (its ticking effects plus one evadable swing of the
    ability's damage), the player is healed by the ability, the cost is paid and the
    archetype's regeneration added; then either the creature is dead and the kill beat
    is pending, or it is alive and its counter-attack is, never both. *)
Theorem ability_turn (now : Z) (ab : Ability) (s : Session) (enc : EncounterObj) (p : Player)
    (st : CombatantState) :
  session_ok s -> fight_ready s enc p st -> resourceCost ab <= resource st ->
  let c := eo_creature enc in
  let dots := dot_total c (effects_on (creatureCombatStateRef s)) in
  rand_post (handleAbility now ab s) (fun r => exists hs,
    let c' := takeDamage c (damage_to CCreature hs) in
    if c_hp c <=? dots then
      fst r = false /\ damage_to CCreature hs = dots
      /\ shows (snd r) c' p (tick_player st) (combatHits s ++ hs) true
    else
      let res := turn_result ab p st (takeDamage c dots) (effects_on (creatureCombatStateRef s)) in
      let st' := next_player_state ab (p_archetype p) st (self_effects ab res) in
      fst r = true
      /\ (exists o, damage_to CCreature hs = dots + applyEvasionDamage (ar_damage res) o)
      /\ resource st' = Z.min 100 (resource st - resourceCost ab
                                   + regenPerTurn (RESOURCE_CONFIGS (p_archetype p)))
      /\ shows (snd r) c' (healed p (ar_heal res)) st' (combatHits s ++ hs) (isDefeated c')).
Proof. apply ability_turn_spec. Qed.

(** A fight one exchange in. *)
Definition midfight : Session :=
  fst (run [(0, EvPresent (foe 60)); (1, EvFight); (2, EvAbility strike); (3, EvCounter);
            (4, EvCounter)] (initial_session (Some sample_player)) sample_rng).

Lemma midfight_ok : session_ok midfight.
Proof.
  apply (run_ok [(0, EvPresent (foe 60)); (1, EvFight); (2, EvAbility strike); (3, EvCounter);
            (4, EvCounter)]); [|apply initial_session_ok; intros ? [= <-]; apply sample_player_wf
            | apply sample_rng_wf].
  repeat (apply Forall_cons; split); try apply Forall_nil; try exact I.
  vm_compute. intuition discriminate.
Qed.

Lemma ability_turn_witness :
  exists enc p st, fight_ready midfight enc p st
  /\ rand_post (handleAbility 5 strike midfight) (fun r => exists hs,
       if c_hp (eo_creature enc) <=? dot_total (eo_creature enc) [] then True
       else fst r = true /\ exists p' st' c',
         shows (snd r) c' p' st' (combatHits midfight ++ hs) (isDefeated c')).
Proof.
  exists (default (mkObj 0 (foe 0)) (encounterRef midfight)),
    (default sample_player (playerRef midfight)),
    (default (mkCombatantState [] 0) (playerCombatStateRef midfight)).
  assert (F : fight_ready midfight (default (mkObj 0 (foe 0)) (encounterRef midfight))
    (default sample_player (playerRef midfight))
    (default (mkCombatantState [] 0) (playerCombatStateRef midfight)))
    by (constructor; vm_compute; reflexivity).
  split; [exact F|].
  eapply rand_post_weaken; [apply (ability_turn 5 strike midfight _ _ _ midfight_ok F)|].
  - vm_compute. discriminate.
  - intros r [hs H]. exists hs. change (effects_on (creatureCombatStateRef midfight)) with
      (@nil StatusEffect) in H. destruct (_ <=? _); [exact I|].
    destruct H as (H1 & _ & _ & H2). split; [exact H1|]. eauto.
Defined.

(** ** No dead end *)

(** A Mage mid-fight can pay for its cheapest spell; the other archetypes have a free one. *)
Definition castable (s : Session) : Prop := forall p st,
  playerRef s = Some p -> playerCombatStateRef s = Some st -> p_archetype p = Mage ->
  15 <= resource st.

Definition event_same_archetype (ev : Event) : Prop :=
  match ev with
  | EvPlayer f => forall p, p_archetype (f p) = p_archetype p
  | _ => True
  end.

Lemma castable_idle s : playerCombatStateRef s = None -> castable s.
Proof. intros H p st _ S. congruence. Qed.

Lemma castable_same s s' : castable s -> playerCombatStateRef s' = playerCombatStateRef s ->
  p_archetype <$> playerRef s' = p_archetype <$> playerRef s -> castable s'.
Proof.
  intros C E A p st P S M. rewrite P in A. destruct (playerRef s) as [q|] eqn:Q; [|discriminate].
  injection A as A. apply (C q st); congruence.
Qed.

Lemma handleVictory_castable now pu s :
  (forall o, encounterRef s = Some o -> creature_ok (eo_creature o)) ->
  (forall p, base_player pu s = Some p -> wf_player p) -> castable s ->
  rand_post (handleVictory now pu s) castable.
Proof.
  intros Hc Hp C. eapply rand_post_weaken; [apply handleVictory_cases; assumption|].
  intros s' H. destruct (encounterRef s); [|subst; exact C].
  destruct (base_player pu s); [|subst; exact C].
  destruct (victoryProcessedRef s); [subst; exact C|].
  destruct H as (p' & rv & _ & ->). apply castable_idle. reflexivity.
Qed.

Lemma handleFight_castable now s : session_ok s -> castable s -> rand_post (handleFight now s) castable.
Proof.
  intros K C. unfold handleFight.
  destruct (encounterRef s) as [enc|] eqn:E; [|apply rand_post_ret, C].
  destruct (playerRef s) as [p|] eqn:P; [|apply rand_post_ret, C].
  destruct (player_isDefeated p); [apply rand_post_ret, C|].
  destruct (isDefeated (eo_creature enc)).
  { apply handleVictory_castable; [apply K | simpl; apply K | exact C]. }
  apply rand_post_ret. cbv zeta.
  destruct (playerCombatStateRef (_ <| _ := true |>)) eqn:S.
  - destruct (creatureCombatStateRef _);
      (apply (castable_same s); [exact C | reflexivity | reflexivity]).
  - assert (G : castable (s <| playerCombatStateRef := Some (initCombatState (p_archetype p)) |>)).
    { intros q st Q [= <-] M. simpl in Q. rewrite P in Q. injection Q as <-. rewrite M. simpl. lia. }
    destruct (creatureCombatStateRef _); (eapply castable_same; [exact G | reflexivity | reflexivity]).
Qed.

Lemma healed_archetype p n : p_archetype (healed p n) = p_archetype p.
Proof. unfold healed. destruct (0 <? n), p; reflexivity. Qed.

Lemma scheduleVictory_keeps q s :
  playerRef (scheduleVictory q s) = playerRef s
  /\ playerCombatStateRef (scheduleVictory q s) = playerCombatStateRef s.
Proof. unfold scheduleVictory. destruct (_ || _); split; reflexivity. Qed.

Lemma turn_end_keeps ab p p' st c pre s :
  playerRef (turn_end ab p p' st c pre s) = playerRef s
  /\ playerCombatStateRef (turn_end ab p p' st c pre s) = playerCombatStateRef s.
Proof.
  unfold turn_end, scheduleVictory, scheduleCounterAttack.
  destruct (isDefeated c); [destruct (_ || _)|destruct (counterPendingRef s)]; split; reflexivity.
Qed.

Lemma handleAbility_castable now ab s : session_ok s -> castable s ->
  rand_post (handleAbility now ab s) (fun r => castable (snd r)).
Proof.
  intros K C. eapply rand_post_weaken; [apply handleAbility_cases, K|]. intros r.
  intros [-> | [(enc & p & p' & rv & _ & _ & _ & _ & ->) | (enc & p & st & F & _ & [T])]].
  - exact C.
  - apply castable_idle. reflexivity.
  - destruct F as [E P S V B Q A]. cbv zeta in T. destruct (isDefeated (takeDamage _ _)).
    + destruct T as (_ & hs & i & l & j & _ & T). rewrite T. clear T.
      match goal with |- castable (scheduleVictory ?q ?x) =>
        destruct (scheduleVictory_keeps q x) as [H1 H2] end.
      intros q st' Hq Hs M. rewrite H1 in Hq. rewrite H2 in Hs. injection Hs as <-.
      rewrite tick_player_resource. exact (C q st Hq S M).
    + destruct T as (_ & o & k & hs & i & l & j & _ & _ & T). rewrite T. clear T.
      set (q := healed p _). assert (M : p_archetype q = p_archetype p) by apply healed_archetype.
      set (pst := next_player_state _ _ _ _).
      assert (G : forall x, playerRef x = Some q -> playerCombatStateRef x = Some pst -> castable x).
      { intros x X1 X2 q' st' Y1 Y2 Mg. rewrite X1 in Y1. injection Y1 as <-.
        rewrite X2 in Y2. injection Y2 as <-. unfold pst. rewrite next_resource, <- M, Mg. simpl. lia. }
      match goal with |- castable (turn_end ?a ?b ?c ?d ?e ?f ?x) =>
        destruct (turn_end_keeps a b c d e f x) as [H1 H2] end.
      apply G; [exact H1 | exact H2].
Qed.

Lemma struck_archetype p n : p_archetype (struck p n) = p_archetype p.
Proof. unfold struck. destruct (0 <? n), p; reflexivity. Qed.

Lemma counter_castable s : session_ok s -> castable s -> rand_post (counter_timer_fires s) castable.
Proof.
  intros K C. unfold counter_timer_fires. destruct (counterTimerRef s) as [t|]; [|apply rand_post_ret, C].
  assert (R : castable (endEnemyTurn (s <| counterTimerRef := None |>)))
    by (apply (castable_same s); [exact C | reflexivity | reflexivity]).
  cbv zeta. destruct (ct_callback t) as [a d c i|]; [|apply rand_post_ret, R].
  change (playerRef (s <| counterTimerRef := None |>)) with (playerRef s).
  destruct (playerRef s) as [p|] eqn:P; [|apply rand_post_ret, R].
  destruct (bool_decide _); [|apply rand_post_ret, R].
  pose proof (ok_player s K p P) as W. unfold counter_strike. rewrite clone_eq by exact W.
  eapply rand_post_bind with (P := fun _ => True);
    [apply rand_post_true; intros r Hr; exact Hr|]. intros ev _. cbv zeta.
  fold (struck p (applyEvasionDamage (mitigateDamage a d 1) (outcome ev))).
  apply rand_post_ret. destruct (player_isDefeated _); [apply castable_idle; reflexivity|].
  apply (castable_same s); [exact C | reflexivity |].
  etransitivity; [apply (f_equal Some), struck_archetype | rewrite P; reflexivity].
Qed.

Lemma dispatch_castable now ev s : event_same_archetype ev -> session_ok s -> castable s ->
  rand_post (dispatch now ev s) castable.
Proof.
  intros He K C. destruct ev; cbn [dispatch];
    try (apply rand_post_ret; apply (castable_same s); [exact C | reflexivity | reflexivity]).
  - apply rand_post_ret. destruct (encounterRef s); [exact C|]. apply castable_idle. reflexivity.
  - apply rand_post_ret. destruct e; apply (castable_same s); reflexivity || exact C.
  - apply rand_post_ret. unfold engageable. destruct (encounterRef s) eqn:E; [exact C|].
    destruct (heldFoe s); [|exact C]. apply (castable_same s); reflexivity || exact C.
  - apply handleFight_castable; assumption.
  - rand_step handleAbility_castable r H; [exact K | exact C |]. apply rand_post_ret, H.
  - apply rand_post_ret. unfold handleFlee. destruct (_ || _); [exact C|]. cbv zeta.
    destruct (encounterRef s), (playerRef s); apply castable_idle; reflexivity.
  - apply rand_post_ret. unfold handleCloseCombatModal. destruct (counterPendingRef s); [exact C|].
    apply (castable_same s); reflexivity || exact C.
  - unfold handleAutoResolve. destruct (playerRef s) as [p|] eqn:P; [|apply rand_post_ret, C].
    destruct (encounterRef s) eqn:E; [|apply rand_post_ret, C].
    destruct (isEliteCreature _); [apply rand_post_ret, C|].
    apply handleVictory_castable; [apply K | intros ? [= <-]; eapply ok_player; eauto |].
    apply (castable_same s); reflexivity || exact C.
  - unfold handleDebugDefeat. destruct (encounterRef s) as [enc|] eqn:E; [|apply rand_post_ret, C].
    destruct (playerRef s) as [p|] eqn:P; [|apply rand_post_ret, C].
    destruct (victoryProcessedRef s); [apply rand_post_ret, C|].
    destruct (isDefeated _); [apply rand_post_ret, C|]. cbv zeta. apply handleVictory_castable.
    + intros o [= <-]. pose proof (ok_creature s K enc E) as Ok. apply takeDamage_ok; [apply Ok | exact Ok].
    + intros ? [= <-]. eapply ok_player; eauto.
    + apply (castable_same s); reflexivity || exact C.
  - unfold kill_beat_fires. destruct (killBeatTimerRef s) as [q|] eqn:T; [|apply rand_post_ret, C].
    apply handleVictory_castable; [apply K | intros ? [= <-]; eapply ok_captured; eauto |].
    apply (castable_same s); reflexivity || exact C.
  - apply counter_castable; assumption.
  - apply rand_post_ret. unfold reveal_timer_fires.
    destruct (rewardRevealTimerRef s); apply (castable_same s); reflexivity || exact C.
  - unfold debugPreviewReveal. cbv zeta. rand_step generateItem_generated it Hit; [discriminate|].
    apply rand_post_ret, (castable_same s); reflexivity || exact C.
  - apply rand_post_ret, castable_idle. reflexivity.
  - apply rand_post_ret. destruct (playerRef s) as [p|] eqn:P; [|exact C].
    rewrite clone_eq by (eapply ok_player; eauto). apply (castable_same s); [exact C | reflexivity |].
    rewrite P. simpl. f_equal. apply He.
Qed.

Lemma run_castable evs :
  Forall (fun e => event_ok (snd e) /\ event_same_archetype (snd e)) evs ->
  forall s, session_ok s -> castable s ->
  rand_post (run evs s) (fun s' => session_ok s' /\ castable s').
Proof.
  induction evs as [|[now ev] evs IH]; intros F s K C; [apply rand_post_ret; auto|].
  apply Forall_cons in F as [[F1 F2] F].
  eapply rand_post_bind with (P := fun s' => session_ok s' /\ castable s').
  - intros r Hr. destruct (dispatch_ok now ev s F1 K r Hr) as [H1 H2].
    destruct (dispatch_castable now ev s F2 K C r Hr) as [H3 _]. auto.
  - intros s' [K' C']. apply IH; assumption.
Qed.

Lemma roster_affordable a r : 0 <= r -> (a = Mage -> 15 <= r) ->
  exists ab, ab ∈ ARCHETYPE_ABILITIES a /\ resourceCost ab <= r.
Proof.
  intros R M. destruct a; (eexists; split; [left | simpl]); auto.
Qed.

(** *** The kill beat *)

(** The flag of the kill beat is up only while its timer is armed, for the encounter that
    is on, and not during the creature's turn. *)
Definition beating (s : Session) : Prop :=
  killBeatPendingRef s = true ->
  is_Some (killBeatTimerRef s) /\ is_Some (encounterRef s) /\ counterPendingRef s = false.

Lemma beating_off s : killBeatPendingRef s = false -> beating s.
Proof. unfold beating. congruence. Qed.

Lemma beating_same s s' : beating s -> killBeatPendingRef s' = killBeatPendingRef s ->
  killBeatTimerRef s' = killBeatTimerRef s -> (is_Some (encounterRef s) -> is_Some (encounterRef s')) ->
  counterPendingRef s' = counterPendingRef s -> beating s'.
Proof. unfold beating. intros B -> -> E ->. intros K. destruct (B K) as (A1 & A2 & A3). auto. Qed.

Ltac same_beat s C := apply (beating_same s); [exact C | try reflexivity; auto ..].

Lemma scheduleVictory_beating q s : is_Some (encounterRef s) -> counterPendingRef s = false -> beating s ->
  beating (scheduleVictory q s).
Proof.
  intros E C B. unfold scheduleVictory. destruct (_ || _); [exact B|]. intros _. cbn. eauto.
Qed.

Lemma handleVictory_beating now pu s :
  (forall p, base_player pu s = Some p -> wf_player p) ->
  (forall o, encounterRef s = Some o -> creature_ok (eo_creature o)) ->
  beating s -> rand_post (handleVictory now pu s) beating.
Proof.
  intros Hp Hc B. eapply rand_post_weaken; [apply handleVictory_cases; assumption|]. intros s' H.
  destruct (encounterRef s); [|subst; exact B]. destruct (base_player pu s); [|subst; exact B].
  destruct (victoryProcessedRef s); [subst; exact B|].
  destruct H as (p' & rv & _ & ->). apply beating_off. reflexivity.
Qed.

(** The beat resolves the fight it was armed in. *)
Lemma kill_beat_wins now s : session_ok s -> beating s -> is_Some (killBeatTimerRef s) ->
  rand_post (kill_beat_fires now s) (fun s' => encounterRef s' = None /\ victoryProcessedRef s' = true
    /\ killBeatPendingRef s' = false).
Proof.
  intros K B T. destruct (ok_kill s K T) as [Kp V]. destruct (B Kp) as (_ & [enc E] & _). destruct T as [q T].
  unfold kill_beat_fires. rewrite T.
  eapply rand_post_weaken; [apply handleVictory_cases|].
  - intros p [= <-]. exact (ok_captured s K q T).
  - intros o Ho. apply (ok_creature s K), Ho.
  - cbn [base_player]. change (encounterRef (s <| killBeatTimerRef := None |> <| showCombatModalRef := false |>)) with (encounterRef s).
    change (victoryProcessedRef (s <| killBeatTimerRef := None |> <| showCombatModalRef := false |>)) with (victoryProcessedRef s).
    rewrite E, V. intros s' (p' & rv & _ & ->). repeat split.
Qed.

Lemma handleAbility_beating now ab s : session_ok s -> beating s ->
  rand_post (handleAbility now ab s) (fun r => beating (snd r)).
Proof.
  intros K C. eapply rand_post_weaken; [apply handleAbility_cases, K|]. intros r.
  intros [-> | [(enc & p & p' & rv & _ & _ & _ & _ & ->) | (enc & p & st & F & _ & [T])]].
  - exact C.
  - apply beating_off. reflexivity.
  - destruct F as [E P S V B Q A]. cbv zeta in T. destruct (isDefeated (takeDamage _ _)).
    + destruct T as (_ & hs & i & l & j & _ & T). rewrite T. clear T.
      apply scheduleVictory_beating; [cbn; rewrite E; eauto | exact Q | apply beating_off; exact B].
    + destruct T as (_ & o & k & hs & i & l & j & _ & _ & T). rewrite T. clear T. unfold turn_end.
      destruct (isDefeated _).
      * apply scheduleVictory_beating; [cbn; eauto | exact Q | apply beating_off; exact B].
      * apply beating_off. unfold scheduleCounterAttack. destruct (counterPendingRef _); exact B.
Qed.

Lemma counter_beating s : session_ok s -> beating s -> rand_post (counter_timer_fires s) beating.
Proof.
  intros K C. unfold counter_timer_fires. destruct (counterTimerRef s) as [t|] eqn:T; [|apply rand_post_ret, C].
  assert (B : killBeatPendingRef s = false).
  { destruct (killBeatPendingRef s) eqn:B; [|reflexivity]. destruct (C B) as (_ & _ & N).
    rewrite (ok_counter s K), T in N. discriminate. }
  cbv zeta. destruct (ct_callback t) as [a d c i|]; [|apply rand_post_ret, beating_off, B].
  destruct (playerRef _) as [p|]; [|apply rand_post_ret, beating_off, B].
  destruct (bool_decide _); [|apply rand_post_ret, beating_off, B].
  unfold counter_strike. eapply rand_post_bind with (P := fun _ => True);
    [apply rand_post_true; intros r Hr; exact Hr|]. intros ev _. cbv zeta.
  apply rand_post_ret, beating_off. destruct (player_isDefeated _); exact B.
Qed.

(** The creature's turn is over after at most two callbacks: its strike either ends it or
    leaves the hold that does. *)
Definition turn_closing (s : Session) : Prop :=
  (counterTimerRef s = None /\ counterPendingRef s = false)
  \/ exists ms, counterTimerRef s = Some (mkCounterTimer ms CounterHold).

Lemma endEnemyTurn_closing s : turn_closing (endEnemyTurn (s <| counterTimerRef := None |>)).
Proof. left. split; reflexivity. Qed.

Lemma counter_strike_closing a d c p s : counterTimerRef s = None ->
  rand_post (counter_strike a d c p s) turn_closing.
Proof.
  intros T. unfold counter_strike. eapply rand_post_bind with (P := fun _ => True);
    [apply rand_post_true; intros r Hr; exact Hr|]. intros ev _. cbv zeta.
  apply rand_post_ret. destruct (player_isDefeated _); [|right; eexists; reflexivity].
  left. split; [exact T | reflexivity].
Qed.

Lemma counter_closing s t : counterTimerRef s = Some t -> rand_post (counter_timer_fires s) turn_closing.
Proof.
  intros T. unfold counter_timer_fires. rewrite T. cbv zeta.
  destruct (ct_callback t); [|apply rand_post_ret, endEnemyTurn_closing].
  destruct (playerRef _); [|apply rand_post_ret, endEnemyTurn_closing].
  destruct (bool_decide _); [apply counter_strike_closing; reflexivity | apply rand_post_ret, endEnemyTurn_closing].
Qed.

Lemma counter_ends s : is_Some (counterTimerRef s) ->
  rand_post (let! s1 := counter_timer_fires s in counter_timer_fires s1) (fun s' => counterPendingRef s' = false).
Proof.
  intros [t T]. eapply rand_post_bind; [apply (counter_closing s t T)|].
  intros s1 [[N P] | [ms H]]; unfold counter_timer_fires; [rewrite N | rewrite H]; apply rand_post_ret; [exact P | reflexivity].
Qed.

Lemma dispatch_beating now ev s : (ev = EvFlee -> killBeatPendingRef s = false) -> session_ok s -> beating s ->
  rand_post (dispatch now ev s) beating.
Proof.
  intros Fl K C. destruct ev; cbn [dispatch];
    try (apply rand_post_ret; same_beat s C; fail).
  - apply rand_post_ret. destruct (encounterRef s) eqn:E; [exact C|]. apply beating_off. cbn.
    destruct (killBeatPendingRef s) eqn:B; [|reflexivity]. destruct (C B) as (_ & [? N] & _). congruence.
  - apply rand_post_ret. destruct e; same_beat s C.
  - apply rand_post_ret. unfold engageable. destruct (encounterRef s) eqn:E; [exact C|].
    destruct (heldFoe s); [|exact C]. apply beating_off. cbn.
    destruct (killBeatPendingRef s) eqn:B; [|reflexivity]. destruct (C B) as (_ & [? N] & _). congruence.
  - unfold handleFight. destruct (encounterRef s) as [enc|] eqn:E; [|apply rand_post_ret, C].
    destruct (playerRef s) as [p|] eqn:P; [|apply rand_post_ret, C].
    destruct (player_isDefeated p); [apply rand_post_ret, C|].
    destruct (isDefeated (eo_creature enc)).
    { apply handleVictory_beating; [simpl; apply K | apply K | exact C]. }
    apply rand_post_ret. cbv zeta.
    destruct (playerCombatStateRef (_ <| _ := true |>)); destruct (creatureCombatStateRef _); same_beat s C.
  - rand_step handleAbility_beating r H; [exact K | exact C |]. apply rand_post_ret, H.
  - apply rand_post_ret, beating_off. specialize (Fl eq_refl). unfold handleFlee. destruct (_ || _); [exact Fl|].
    cbv zeta. destruct (encounterRef s), (playerRef s); exact Fl.
  - apply rand_post_ret. unfold handleCloseCombatModal. destruct (counterPendingRef s); [exact C|]. same_beat s C.
  - unfold handleAutoResolve. destruct (playerRef s) as [p|] eqn:P; [|apply rand_post_ret, C].
    destruct (encounterRef s) eqn:E; [|apply rand_post_ret, C].
    destruct (isEliteCreature _); [apply rand_post_ret, C|].
    eapply rand_post_weaken; [apply handleVictory_cases; [intros ? [= <-]; eapply ok_player; eauto | apply K]|].
    cbn [base_player]. intros s' H. revert H. cbn [encounterRef victoryProcessedRef assign].
    rewrite E. destruct (victoryProcessedRef s); [intros ->; same_beat s C|].
    intros (p' & rv & _ & ->). apply beating_off. reflexivity.
  - unfold handleDebugDefeat. destruct (encounterRef s) as [enc|] eqn:E; [|apply rand_post_ret, C].
    destruct (playerRef s) as [p|] eqn:P; [|apply rand_post_ret, C].
    destruct (victoryProcessedRef s) eqn:V; [apply rand_post_ret, C|].
    destruct (isDefeated _); [apply rand_post_ret, C|]. cbv zeta.
    eapply rand_post_weaken; [apply handleVictory_cases|].
    + intros ? [= <-]. eapply ok_player; eauto.
    + intros o [= <-]. pose proof (ok_creature s K enc E) as Ok. apply takeDamage_ok; [apply Ok | exact Ok].
    + cbn [base_player]. intros s' H. cbn in H. rewrite V in H. destruct H as (p' & rv & _ & ->).
      apply beating_off. reflexivity.
  - destruct (killBeatTimerRef s) as [q|] eqn:T.
    + eapply rand_post_weaken; [apply kill_beat_wins; [exact K | exact C | rewrite T; eauto]|].
      intros s' (_ & _ & B). apply beating_off, B.
    + unfold kill_beat_fires. rewrite T. apply rand_post_ret, C.
  - apply counter_beating; assumption.
  - apply rand_post_ret. unfold reveal_timer_fires. destruct (rewardRevealTimerRef s); same_beat s C.
  - unfold debugPreviewReveal. cbv zeta. rand_step generateItem_generated it Hit; [discriminate|].
    apply rand_post_ret. same_beat s C.
  - apply rand_post_ret, beating_off. reflexivity.
  - apply rand_post_ret. destruct (playerRef s) as [p|] eqn:P; [|exact C]. same_beat s C.
Qed.

(** No flight while a kill beat is pending. *)
Fixpoint beats_awaited (evs : list (Z * Event)) (s : Session) (r : rng) : bool :=
  match evs with
  | [] => true
  | (now, ev) :: evs =>
      negb (match ev with EvFlee => killBeatPendingRef s | _ => false end)
      && let (s, r) := dispatch now ev s r in beats_awaited evs s r
  end.

Lemma run_beating evs :
  Forall (fun e => event_ok (snd e) /\ event_same_archetype (snd e)) evs ->
  forall s r, session_ok s -> castable s -> beating s -> wf_rng r -> beats_awaited evs s r = true ->
  let s' := fst (run evs s r) in session_ok s' /\ castable s' /\ beating s'.
Proof.
  induction evs as [|[now ev] evs IH]; intros F s r K C B R A; [cbn; auto|].
  apply Forall_cons in F as [[F1 F2] F]. cbn [beats_awaited] in A. apply andb_true_iff in A as [A1 A2].
  cbn [run]. unfold rand_bind.
  destruct (dispatch_ok now ev s F1 K r R) as [K' R'].
  destruct (dispatch_castable now ev s F2 K C r R) as [C' _].
  assert (Fl : ev = EvFlee -> killBeatPendingRef s = false) by (intros ->; apply negb_true_iff, A1).
  destruct (dispatch_beating now ev s Fl K B r R) as [B' _].
  destruct (dispatch now ev s r) as [s1 r1]. exact (IH F s1 r1 K' C' B' R' A2).
Qed.

(** C4: a fight is a dead end only after fleeing from a creature that is falling.  Let
    anything happen (archetype changes aside) in which the player never flees while a kill
    beat is pending, and let a fight be on.  Then either the last blow has landed and the
    timer that wins the fight is armed; or it is the creature's turn, and at most two
    callbacks of its armed timer end it; or it is the player's turn: some ability of their
    archetype's roster is affordable, and using it moves the fight on, to the kill beat, to
    the creature's turn, or, if the creature is found dead, to the end of the fight.
    (Fleeing during the beat leaves its flag up: [flee_freezes_next_fight].) *)
Theorem never_stuck (p0 : Player) (evs : list (Z * Event)) (now : Z) (r : rng) :
  wf_player p0 -> Forall (fun e => event_ok (snd e) /\ event_same_archetype (snd e)) evs ->
  wf_rng r -> beats_awaited evs (initial_session (Some p0)) r = true ->
  let s := fst (run evs (initial_session (Some p0)) r) in
  forall enc p st, encounterRef s = Some enc -> playerRef s = Some p -> playerCombatStateRef s = Some st ->
  (is_Some (killBeatTimerRef s)
   /\ rand_post (kill_beat_fires now s) (fun s' => encounterRef s' = None /\ victoryProcessedRef s' = true
        /\ killBeatPendingRef s' = false))
  \/ (is_Some (counterTimerRef s)
      /\ rand_post (let! s1 := counter_timer_fires s in counter_timer_fires s1)
           (fun s' => counterPendingRef s' = false))
  \/ exists ab, ab ∈ ARCHETYPE_ABILITIES (p_archetype p) /\ resourceCost ab <= resource st
      /\ rand_post (handleAbility now ab s) (fun o =>
           killBeatPendingRef (snd o) || counterPendingRef (snd o) = true \/ encounterRef (snd o) = None).
Proof.
  intros W F R A. destruct (run_beating evs F (initial_session (Some p0)) r) as (K & C & B);
    [apply initial_session_ok; intros ? [= <-]; exact W | apply castable_idle; reflexivity
    | apply beating_off; reflexivity | exact R | exact A|].
  intros s enc p st E P S. fold s in K, C, B.
  destruct (killBeatPendingRef s) eqn:Kp.
  { left. destruct (B Kp) as (T & _ & _). split; [exact T | apply kill_beat_wins; assumption]. }
  destruct (counterPendingRef s) eqn:Q.
  { right. left. rewrite (ok_counter s K), bool_decide_eq_true in Q. split; [exact Q|].
    apply counter_ends, Q. }
  right. right. destruct (roster_affordable (p_archetype p) (resource st)) as (ab & I & L);
    [apply (ok_resource s K st S) | apply (C p st P S)|].
  exists ab. split; [exact I|]. split; [exact L|].
  assert (V : victoryProcessedRef s = false)
    by (destruct (victoryProcessedRef s) eqn:V; [apply (ok_victory s K) in V; congruence | reflexivity]).
  destruct (Z.ltb_spec 0 (c_hp (eo_creature enc))) as [H|H].
  - eapply rand_post_weaken; [apply (ability_shows now ab s enc p st K)|]; [constructor; assumption | exact L|].
    intros o (c & q & st' & h & b & []). left. rewrite sh_kill0, sh_counter0. destruct b; reflexivity.
  - unfold handleAbility. rewrite E, P, S, V, Kp, Q. cbn [orb].
    assert (D : isDefeated (eo_creature enc) = true) by (apply Z.leb_le; lia). rewrite D.
    rand_step handleVictory_cases s' Hs; [intros q Hq; apply (ok_player s K), Hq | apply K|].
    rewrite E in Hs. cbn [base_player] in Hs. rewrite P, V in Hs. destruct Hs as (p' & rv & _ & ->).
    apply rand_post_ret. right. reflexivity.
Qed.

Lemma never_stuck_witness :
  let s := fst (run [(0, EvPresent (foe 20)); (1, EvFight)]
                  (initial_session (Some (setArchetype sample_player Mage))) sample_rng) in
  exists enc p st, encounterRef s = Some enc /\ playerRef s = Some p /\ playerCombatStateRef s = Some st /\
  ((is_Some (killBeatTimerRef s)
   /\ rand_post (kill_beat_fires 2 s) (fun s' => encounterRef s' = None /\ victoryProcessedRef s' = true
        /\ killBeatPendingRef s' = false))
  \/ (is_Some (counterTimerRef s)
      /\ rand_post (let! s1 := counter_timer_fires s in counter_timer_fires s1)
           (fun s' => counterPendingRef s' = false))
  \/ exists ab, ab ∈ ARCHETYPE_ABILITIES (p_archetype p) /\ resourceCost ab <= resource st
      /\ rand_post (handleAbility 2 ab s) (fun o =>
           killBeatPendingRef (snd o) || counterPendingRef (snd o) = true \/ encounterRef (snd o) = None)).
Proof.
  cbv zeta. do 3 eexists. split; [vm_compute; reflexivity|]. split; [vm_compute; reflexivity|].
  split; [vm_compute; reflexivity|].
  eapply (never_stuck (setArchetype sample_player Mage) [(0, EvPresent (foe 20)); (1, EvFight)] 2 sample_rng);
    [apply setArchetype_wf, sample_player_wf | | apply sample_rng_wf | vm_compute; reflexivity ..].
  repeat (apply Forall_cons; split); try apply Forall_nil; split; try exact I. apply foe_20_ok.
Defined.

(** ** The creature's turn *)

Lemma frozen_ability now ab s r :
  victoryProcessedRef s || killBeatPendingRef s || counterPendingRef s = true ->
  handleAbility now ab s r = ((false, s), r).
Proof.
  intros H. unfold handleAbility. destruct (encounterRef s); [|reflexivity].
  destruct (playerRef s); [|reflexivity]. destruct (playerCombatStateRef s); [|reflexivity].
  rewrite H. reflexivity.
Qed.

(** C5: the creature's turn.  While a counter-attack is pending, abilities, fleeing and
    closing the fight do nothing.  When it strikes it hits the player as they are at that
    moment, once, for the mitigated damage after evasion, and counts the turn; a strike
    that would kill ends the fight with the player restored, and otherwise the same
    encounter goes on and the second callback hands control back. *)
Theorem counter_turn (now : Z) (s : Session) (p : Player) (ms a d : Z) (c : Creature)
    (i : option nat) :
  session_ok s -> playerRef s = Some p ->
  counterTimerRef s = Some (mkCounterTimer ms (CounterStrike a d c i)) ->
  (forall ab r, handleAbility now ab s r = ((false, s), r))
  /\ handleFlee s = s /\ handleCloseCombatModal s = s
  /\ rand_post (counter_timer_fires s) (fun s' => exists o,
       let p' := struck p (applyEvasionDamage (mitigateDamage a d 1) o) in
       if player_isDefeated p' then
         playerRef s' = Some (incrementEncounters (fullHeal p'))
         /\ encounterRef s' = None /\ counterPendingRef s' = false
       else
         playerRef s' = Some p' /\ encounterRef s' = encounterRef s
         /\ counterTimerRef s' = Some (mkCounterTimer COUNTER_STRIKE_HOLD_MS CounterHold)
         /\ forall r, let s'' := fst (counter_timer_fires s' r) in
            counterPendingRef s'' = false /\ isEnemyTurn s'' = false /\ playerRef s'' = Some p').
Proof.
  intros K P T. assert (C : counterPendingRef s = true) by (rewrite (ok_counter s K), T; reflexivity).
  split; [intros; apply frozen_ability; rewrite C; apply orb_true_r|].
  split; [unfold handleFlee; rewrite C, orb_true_r; reflexivity|].
  split; [unfold handleCloseCombatModal; rewrite C; reflexivity|].
  pose proof (ok_pinned s K _ _ _ _ _ T eq_refl) as Pin. pose proof (ok_player s K p P) as W.
  unfold counter_timer_fires at 1. rewrite T. cbn [ct_callback]. cbv zeta.
  change (playerRef (s <| counterTimerRef := None |>)) with (playerRef s).
  change (encounterRef (s <| counterTimerRef := None |>)) with (encounterRef s).
  rewrite P, bool_decide_true by congruence. unfold counter_strike. rewrite clone_eq by exact W.
  eapply rand_post_bind with (P := fun _ => True);
    [apply rand_post_true; intros r Hr; exact Hr|]. intros ev _. cbv zeta.
  apply rand_post_ret. exists (outcome ev).
  fold (struck p (applyEvasionDamage (mitigateDamage a d 1) (outcome ev))).
  pose proof (struck_wf p (applyEvasionDamage (mitigateDamage a d 1) (outcome ev)) W) as W'.
  destruct (player_isDefeated _).
  - unfold handlePlayerDefeat. rewrite clone_eq by exact W'. auto.
  - split; [reflexivity|]. split; [reflexivity|]. split; [reflexivity|]. intros r. auto.
Qed.

(** A fight in which the creature is about to strike. *)
Definition enemy_turn : Session :=
  fst (run [(0, EvPresent (foe 60)); (1, EvFight); (2, EvAbility strike)]
         (initial_session (Some sample_player)) sample_rng).

Lemma enemy_turn_ok : session_ok enemy_turn.
Proof.
  apply (run_ok [(0, EvPresent (foe 60)); (1, EvFight); (2, EvAbility strike)]);
    [|apply initial_session_ok; intros ? [= <-]; apply sample_player_wf | apply sample_rng_wf].
  repeat (apply Forall_cons; split); try apply Forall_nil; try exact I.
  vm_compute. intuition discriminate.
Qed.

Lemma counter_turn_witness :
  exists p ms a d c i,
    counterTimerRef enemy_turn = Some (mkCounterTimer ms (CounterStrike a d c i))
    /\ (forall ab r, handleAbility 3 ab enemy_turn r = ((false, enemy_turn), r))
    /\ rand_post (counter_timer_fires enemy_turn) (fun s' => exists o,
         player_isDefeated (struck p (applyEvasionDamage (mitigateDamage a d 1) o)) = true
         \/ encounterRef s' = encounterRef enemy_turn).
Proof.
  destruct (counterTimerRef enemy_turn) as [[ms [a d c i|]]|] eqn:T; [|vm_compute in T; discriminate..].
  destruct (playerRef enemy_turn) as [p|] eqn:P; [|vm_compute in P; discriminate].
  exists p, ms, a, d, c, i. split; [reflexivity|].
  destruct (counter_turn 3 enemy_turn p ms a d c i enemy_turn_ok P T) as (H1 & _ & _ & H2).
  split; [exact H1|]. eapply rand_post_weaken; [exact H2|]. intros s' [o H]. exists o.
  cbv zeta in H. destruct (player_isDefeated _); [left; reflexivity | right; apply H].
Defined.

Lemma won_fields p rv s : let s' := won p rv s in
  playerRef s' = Some p /\ rewardRevealTimerRef s' = Some rv /\ encounterRef s' = None
  /\ playerCombatStateRef s' = None /\ counterPendingRef s' = false
  /\ killBeatPendingRef s' = false /\ killBeatTimerRef s' = None.
Proof. repeat split. Qed.

Lemma handleVictory_done now pu s : encounterRef s = None ->
  forall r, handleVictory now pu s r = (s, r).
Proof. intros E r. unfold handleVictory. rewrite E. reflexivity. Qed.

(** C6: a victory pays in full and closes the fight.  When it resolves, the player it
    is resolved for receives one win, one encounter and exactly the active-combat
    experience (levels accounted for), is healed, and keeps distance, gear and
    archetype; a drop is in the inventory unless the inventory was full, and the reveal
    says which; nothing of the fight remains, and resolving again changes nothing. *)
Theorem victory_pays (now : Z) (pu : option Player) (s : Session) (enc : EncounterObj)
    (base : Player) :
  encounterRef s = Some enc -> base_player pu s = Some base -> victoryProcessedRef s = false ->
  wf_player base -> creature_ok (eo_creature enc) ->
  rand_post (handleVictory now pu s) (fun s' => exists p' rv,
    playerRef s' = Some p' /\ rewardRevealTimerRef s' = Some rv
    /\ win_paid base (eo_creature enc) p' rv
    /\ encounterRef s' = None /\ playerCombatStateRef s' = None /\ counterPendingRef s' = false
    /\ killBeatPendingRef s' = false /\ killBeatTimerRef s' = None
    /\ forall r, handleVictory now pu s' r = (s', r)).
Proof.
  intros E B V W C. eapply rand_post_weaken; [apply handleVictory_cases|].
  - intros q H. congruence.
  - intros o H. congruence.
  - intros s' H. rewrite E, B, V in H. destruct H as (p' & rv & H & ->).
    exists p', rv. destruct (won_fields p' rv s) as (F1 & F2 & F3 & F4 & F5 & F6 & F7).
    auto 15 using handleVictory_done.
Qed.

Lemma victory_pays_witness :
  rand_post (handleVictory 9 (Some sample_player) (presentEncounter (mkObj 0 (foe 0))
    (initial_session (Some sample_player)))) (fun s' => exists p' rv,
    playerRef s' = Some p' /\ rv_xpGained rv = activeCombatXp (getExperienceReward sample_creature)
    /\ tally p' = (0%Q, 1, 1, 0)).
Proof.
  eapply rand_post_weaken; [apply (victory_pays 9 (Some sample_player) (presentEncounter
    (mkObj 0 (foe 0)) (initial_session (Some sample_player))) (mkObj 0 (foe 0)) sample_player)|].
  - reflexivity.
  - reflexivity.
  - reflexivity.
  - apply sample_player_wf.
  - vm_compute. intuition discriminate.
  - intros s' (p' & rv & H1 & _ & H & _). exists p', rv. split; [exact H1|].
    split; [exact (wp_xp _ _ _ _ H) | exact (wp_tally _ _ _ _ H)].
Defined.

(** ** What the kill beat leaves behind *)

(** A fight whose last blow has landed: the kill beat is pending. *)
Definition last_blow : list (Z * Event) :=
  [ (0, EvPresent (foe 15)); (1, EvFight); (2, EvAbility strike); (3, EvCounter); (4, EvCounter);
    (5, EvAbility strike) ].

Definition after_events (evs : list (Z * Event)) : Session :=
  fst (run evs (initial_session (Some sample_player)) sample_rng).

(** Fleeing is not held back by the kill beat: the beat then finds no encounter, its flag
    stays up with no timer left to clear it, and in the next fight every ability is
    refused although the creature is alive and nothing is pending. *)
Theorem flee_freezes_next_fight :
  let s := after_events (last_blow ++ [ (6, EvCloseCombat); (7, EvFlee); (8, EvKillBeat);
                                        (9, EvPresent (foe 60)); (10, EvFight) ]) in
  c_hp <$> (eo_creature <$> encounterRef s) = Some 60
  /\ is_Some (playerCombatStateRef s) /\ killBeatTimerRef s = None /\ counterTimerRef s = None
  /\ forall now ab r, handleAbility now ab s r = ((false, s), r).
Proof.
  cbv zeta. split; [vm_compute; reflexivity|]. split; [vm_compute; eauto|].
  split; [vm_compute; reflexivity|]. split; [vm_compute; reflexivity|].
  intros now ab r. apply frozen_ability. vm_compute. reflexivity.
Qed.

(** If the next encounter is presented before the beat fires, the beat wins it outright. *)
Theorem flee_beat_wins_next_fight :
  let s := after_events (last_blow ++ [ (6, EvCloseCombat); (7, EvFlee); (8, EvPresent (foe 60)) ]) in
  let s' := after_events (last_blow ++ [ (6, EvCloseCombat); (7, EvFlee); (8, EvPresent (foe 60));
                                         (9, EvKillBeat) ]) in
  c_hp <$> (eo_creature <$> encounterRef s) = Some 60 /\ wins s = 0
  /\ encounterRef s' = None /\ wins s' = 1.
Proof. vm_compute. repeat split. Qed.

(** The beat resolves the victory for the player captured at the last blow: the distance
    walked during the beat is lost when the reward is saved. *)
Theorem kill_beat_drops_distance :
  let s := after_events (last_blow ++ [ (6, EvPlayer (fun p => addDistance p 25)) ]) in
  let s' := after_events (last_blow ++ [ (6, EvPlayer (fun p => addDistance p 25)); (7, EvKillBeat) ]) in
  p_totalDistance <$> playerRef s = Some 25%Q /\ p_totalDistance <$> playerRef s' = Some 0%Q
  /\ wins s' = 1.
Proof. vm_compute. repeat split. Qed.
