(* ===== verification/EncounterFlow.v ===== *)
(** * Encounters while walking

    The asynchronous half of [src/hooks/useEncounter.ts] and the distance handler of
    [src/screens/HomeScreen.tsx]: the gate that routes each rolled encounter, passive
    resolution, the held "worthy foe" and the walk summary, composed from the fight
    state machine, the encounter service and the persisted stores.

    A handler runs to its end as one step, except [checkWalkSummary], whose two halves
    are separate definitions because it re-checks the session after its storage call.
    Notifications and analytics do not feed back into the state and are left out; the
    displayed chance and countdown are in [Readout]. *)
From stdpp Require Import base decidable strings list gmap.
From Stdlib Require Import ZArith QArith Lia.
From S2P Require Import Prelude JsNumber Random Combat Archetype Ability CombatFeed Creature.
From S2P Require Import Config Item Player Loot AutoCombat Encounter Location Json CloudSync.
From S2P Require Import Storage CombatSession SessionInvariant.
Local Open Scope Z_scope.

(** ** Reading a persisted encounter back *)

Definition dec_partial_resistances (j : json) : option PartialResistances :=
  p ← optional dec_num (jget j "physical");
  f ← optional dec_num (jget j "fire");
  r ← optional dec_num (jget j "frost");
  a ← optional dec_num (jget j "arcane");
  Some (mkPartialResistances p f r a).

Definition dec_creature (j : json) : option CreatureConstructorParams :=
  id ← jget j "id" ≫= dec_str;
  name ← jget j "name" ≫= dec_str;
  type ← jget j "type" ≫= dec_str;
  level ← optional dec_int (jget j "level");
  hp ← optional dec_int (jget j "hp");
  maxHp ← jget j "maxHp" ≫= dec_int;
  attack ← jget j "attack" ≫= dec_int;
  defense ← jget j "defense" ≫= dec_int;
  speed ← jget j "speed" ≫= dec_int;
  rarity ← optional dec_rarity (jget j "rarity");
  description ← optional dec_str (jget j "description");
  encounterRate ← optional dec_num (jget j "encounterRate");
  resistances ← optional dec_partial_resistances (jget j "resistances");
  Some (mkCreatureParams id name type level hp maxHp attack defense speed rarity description
    encounterRate resistances).

Definition dec_status (j : json) : option EncounterStatus :=
  match j with
  | JStr "active" => Some active
  | JStr "defeated" => Some defeated
  | JStr "fled" => Some fled
  | _ => None
  end.

Definition dec_location (j : json) : option Location :=
  lat ← jget j "latitude" ≫= dec_num;
  lon ← jget j "longitude" ≫= dec_num;
  Some (mkLocation lat lon).

Definition dec_encounter (j : json) : option EncounterData :=
  creature ← jget j "creature" ≫= dec_creature;
  location ← jget j "location" ≫= dec_location;
  timestamp ← jget j "timestamp" ≫= dec_int;
  playerLevel ← jget j "playerLevel" ≫= dec_int;
  status ← jget j "status" ≫= dec_status;
  daylight ← optional dec_bool (jget j "daylight");
  Some (mkEncounterData creature location timestamp playerLevel status daylight).

(** ** State *)

Section Flow.
Context `{Trig} `{AsyncStorage}.

Record App := mkApp {
  session : Session;
  service : EncounterService;
  store : disk;
  currentLocationRef : option LocationData
}.

#[global] Instance App_fields : Fields App := fun a =>
  mkApp (session a) (service a) (store a) (currentLocationRef a).

(** ** The held foe *)

(** The record [holdEliteEncounter] persists. *)
Definition hold_data (e : Encounter) : EncounterData :=
  let c := e_creature e in
  {| ed_creature :=
       {| cp_id := c_id c; cp_name := c_name c; cp_type := c_type c; cp_level := Some (c_level c);
          cp_hp := Some (c_hp c); cp_maxHp := c_maxHp c; cp_attack := c_attack c;
          cp_defense := c_defense c; cp_speed := c_speed c; cp_rarity := Some (c_rarity c);
          cp_description := Some (c_description c);
          cp_encounterRate := Some (c_encounterRate c); cp_resistances := None |};
     ed_location := e_location e;
     ed_timestamp := e_timestamp e;
     ed_playerLevel := e_playerLevel e;
     ed_status := e_status e;
     ed_daylight := e_daylight e |}.

Definition holdEliteEncounter (encounter : Encounter) (a : App) : bool * App :=
  let (existing, d) := loadPendingEncounter (store a) in
  match existing with
  | Some None =>
      let (saved, d) := savePendingEncounter (hold_data encounter) d in
      match saved with
      | Some true =>
          (true, a <| store := d |> <| session := hold_foe (Some encounter) (session a) |>)
      | _ => (false, a <| store := d |>)
      end
  | _ => (false, a <| store := d |>)
  end.

(** The encounter rebuilt from a persisted record. *)
Definition rebuild_encounter (now : Z) (d : EncounterData) : Encounter :=
  new_Encounter now (new_Creature (ed_creature d)) (ed_location d) (Some (ed_timestamp d))
    (Some (ed_playerLevel d)) (Some (ed_status d)) (ed_daylight d).

(** [None] when the stored record passes validation but is not one the app wrote. *)
Definition refreshHeldFoe (now : Z) (a : App) : option App :=
  match encounterRef (session a) with
  | Some _ => Some a
  | None =>
      let (pending, d) := loadPendingEncounter (store a) in
      let a := a <| store := d |> in
      match pending with
      | Some (Some j) =>
          data ← dec_encounter j;
          Some (a <| session := hold_foe (Some (rebuild_encounter now data)) (session a) |>)
      | Some None => Some (a <| session := hold_foe None (session a) |>)
      | None => Some a
      end
  end.

Definition engageHeldFoe (a : App) : App :=
  match engageable (session a) with
  | Some encounter =>
      let (cleared, d) := clearPendingEncounter (store a) in
      let a := a <| store := d |> in
      match cleared with
      | Some true => a <| session := engage encounter (session a) |>
      | _ => a
      end
  | None => a
  end.

(** ** Passive resolution *)

Inductive RewardTier := idle_tier | active_tier.

(** The outcome before the player is touched: won, experience, item (the active tier
    rolls its item later). *)
Definition passive_outcome (now : Z) (rewardTier : RewardTier) (level : Z) (creature : Creature)
    : Rand (bool * Z * option Item) :=
  match rewardTier with
  | active_tier => rand_ret (true, activeCombatXp (getExperienceReward creature), None)
  | idle_tier =>
      let! outcome := resolveAutoCombat now level creature in
      rand_ret (aco_won outcome, aco_xpGained outcome, aco_item outcome)
  end.

(** [item = null] when the inventory has no room for it. *)
Definition keep_item (p : Player) (item : option Item) : Player * option Item :=
  match item with
  | Some it =>
      let (p, inventoryIndex) := addItemToInventory p it in
      (p, if inventoryIndex =? -1 then None else Some it)
  | None => (p, None)
  end.

Definition passive_rewards (now : Z) (rewardTier : RewardTier) (basePlayer : Player)
    (creature : Creature) : Rand (Player * WalkSummaryEntry) :=
  let! outcome := passive_outcome now rewardTier (p_level basePlayer) creature in
  let '(wonFight, xpGained, item) := outcome in
  let updatedPlayer := incrementEncounters (clone basePlayer) in
  let updatedPlayer := if wonFight then defeatCreature updatedPlayer else updatedPlayer in
  let (updatedPlayer, levelsGained) := addExperience updatedPlayer xpGained in
  let! item :=
    match rewardTier with
    | active_tier => dropActiveCombatItem now false (p_level updatedPlayer) None
    | idle_tier => rand_ret item
    end in
  let (updatedPlayer, item) := keep_item updatedPlayer item in
  let updatedPlayer := fullHeal updatedPlayer in
  rand_ret (updatedPlayer,
    mkWalkSummaryEntry (c_name creature) (c_rarity creature) wonFight xpGained item now).

Definition resolvePassiveEncounter (now : Z) (encounter : Encounter) (rewardTier : RewardTier)
    (a : App) : Rand App :=
  match playerRef (session a) with
  | None => rand_ret a
  | Some basePlayer =>
      let! paid := passive_rewards now rewardTier basePlayer (e_creature encounter) in
      let (updatedPlayer, entry) := paid in
      let a := a <| session := setPlayerAndSave updatedPlayer (session a) |> in
      rand_ret (a <| store := snd (appendWalkSummaryEntry entry (store a)) |>)
  end.

(** ** The walk summary *)

(** The React state a [checkWalkSummary] call closes over. *)
Record SummaryCheck := mkSummaryCheck { sc_rewardReveal : bool; sc_walkSummary : bool }.

Definition blocked (c : SummaryCheck) (s : Session) : bool :=
  bool_decide (is_Some (encounterRef s)) || sc_rewardReveal c
  || bool_decide (is_Some (rewardRevealTimerRef s)) || sc_walkSummary c.

(** Up to the storage call: what the call captured, if it goes on. *)
Definition checkWalkSummary_start (isChecking : bool) (s : Session) : option SummaryCheck :=
  let c := mkSummaryCheck (bool_decide (is_Some (rewardReveal s)))
             (bool_decide (is_Some (walkSummary s))) in
  if isChecking || blocked c s then None else Some c.

(** The loop that puts drained entries back. *)
Fixpoint append_all (entries : list json) (d : disk) : disk :=
  match entries with
  | [] => d
  | e :: entries => append_all entries (snd (append_record e d))
  end.

(** From the drained entries on; [s] is the session as it is by then. *)
Definition checkWalkSummary_end (c : SummaryCheck) (entries : list json) (s : Session)
    (d : disk) : Session * disk :=
  match entries with
  | [] => (s, d)
  | _ =>
      if blocked c s then (s, append_all entries d)
      else (s <| walkSummary := Some entries |>, d)
  end.

Definition dismissWalkSummary (s : Session) : Session := s <| walkSummary := None |>.

(** ** The distance gate *)

(** What the gate reads from its environment: the clock when the update arrives and
    when an encounter is made, and the live refs of the app state and the setting. *)
Record GateEnv := mkGateEnv {
  ge_now : Z; ge_now' : Z; ge_isBackground : bool; ge_autoResolveBelowRare : bool
}.

(** Whether a minimised encounter has been walked away from. *)
Definition too_far (s : Session) (enc : EncounterObj) (location : LocationData) : bool :=
  isMinimizedRef s && negb (showCombatModalRef s)
  && js_lt ENCOUNTER_CONFIG.AUTO_FLEE_DISTANCE
       (calculateDistance (latitude (e_location (eo_enc enc))) (longitude (e_location (eo_enc enc)))
          (loc_latitude location) (loc_longitude location)).

(** A new encounter object, presented. *)
Definition present_new (encounter : Encounter) (s : Session) : Session :=
  presentEncounter (mkObj (nextObject s) encounter) (s <| nextObject := S (nextObject s) |>).

(** Where a rolled encounter goes. *)
Definition route_encounter (env : GateEnv) (encounter : Encounter) (a : App) : Rand App :=
  match resolveEncounterRoute (ge_isBackground env)
          (isEliteCreature (c_rarity (e_creature encounter))) (ge_autoResolveBelowRare env) with
  | present_ => rand_ret (a <| session := present_new encounter (session a) |>)
  | autoResolve => resolvePassiveEncounter (ge_now' env) encounter active_tier a
  | hold =>
      let (held, a) := holdEliteEncounter encounter a in
      if held then rand_ret a else resolvePassiveEncounter (ge_now' env) encounter idle_tier a
  | passive => resolvePassiveEncounter (ge_now' env) encounter idle_tier a
  end.

Definition onDistanceEncounterUpdate (env : GateEnv) (distanceData : DistanceData)
    (currentPlayer : option Player) (a : App) : Rand App :=
  let location := dd_location distanceData in
  match encounterRef (session a) with
  | Some enc =>
      rand_ret
        (if too_far (session a) enc location
         then a <| session := handleFlee (session a) |>
         else a)
  | None =>
      match currentPlayer with
      | None => rand_ret a
      | Some p =>
          let! r := processDistanceUpdate (service a) (ge_now env) (ge_now' env)
                      (Some (dd_incremental distanceData))
                      (Some (mkLocation (loc_latitude location) (loc_longitude location)))
                      (p_level p) in
          let (svc, result) := r in
          let a := a <| service := svc |> in
          match result with
          | Generated encounter _ => route_encounter env encounter a
          | NoEncounter | Throws => rand_ret a
          end
      end
  end.

(** [handleDistanceUpdate] of [HomeScreen]: credit the distance, then run the gate. *)
Definition handleDistanceUpdate (env : GateEnv) (distanceData : DistanceData) (a : App) : Rand App :=
  let a := a <| currentLocationRef := Some (dd_location distanceData) |> in
  let currentPlayer := playerRef (session a) in
  let a :=
    match currentPlayer with
    | Some p =>
        a <| session := setPlayerAndSave (addDistance (clone p) (dd_incremental distanceData))
               (session a) |>
    | None => a
    end in
  onDistanceEncounterUpdate env distanceData currentPlayer a.

(** ** Forced encounters *)

Definition default_location : Location := mkLocation (lit 37.7749) (lit (-122.4194)).

Definition debugEncounterContext (a : App) : Location * Z :=
  (from_option (fun l => mkLocation (loc_latitude l) (loc_longitude l)) default_location
     (currentLocationRef a),
   from_option p_level 1 (playerRef (session a))).

(** [EncounterService.forceEncounter], then [k] with the encounter it made. *)
Definition with_forced (now : Z) (location : Location) (level : Z) (rarity : option Rarity)
    (k : Encounter -> App -> Rand App) (a : App) : Rand App :=
  let! r := Encounter.forceEncounter (service a) now location level rarity in
  let (svc, made) := r in
  let a := a <| service := svc |> in
  match made with Some encounter => k encounter a | None => rand_ret a end.

(** [currentPlayer?.level || 1] *)
Definition forceEncounter (now : Z) (a : App) : Rand App :=
  let (location, _) := debugEncounterContext a in
  let level := or_number (p_level <$> playerRef (session a)) 1 in
  with_forced now location level None
    (fun encounter a => rand_ret (a <| session := present_new encounter (session a) |>)) a.

Definition debugForceIdleEncounter (now : Z) (rarity : Rarity) (a : App) : Rand App :=
  let (location, level) := debugEncounterContext a in
  with_forced now location level (Some rarity)
    (fun encounter => resolvePassiveEncounter now encounter idle_tier) a.

Definition debugForceEliteEncounter (now : Z) (rarity : Rarity) (a : App) : Rand App :=
  let (location, level) := debugEncounterContext a in
  with_forced now location level (Some rarity)
    (fun encounter a =>
       let (held, a) := holdEliteEncounter encounter a in
       if held then rand_ret a else resolvePassiveEncounter now encounter idle_tier a) a.

Fixpoint debugSimulateWalk (now : Z) (count : nat) (a : App) : Rand App :=
  match count with
  | O => rand_ret a
  | S count =>
      let (location, level) := debugEncounterContext a in
      let! a := with_forced now location level (Some common)
                  (fun encounter => resolvePassiveEncounter now encounter idle_tier) a in
      debugSimulateWalk now count a
  end.

End Flow.

(** ** Round trip of a persisted encounter *)

Lemma dec_partial_round r : dec_partial_resistances (enc_partial_resistances r) = Some r.
Proof.
  unfold dec_partial_resistances, enc_partial_resistances. repeat jstep.
  rewrite !optional_round by reflexivity. destruct r; reflexivity.
Qed.

Lemma dec_creature_round c : dec_creature (enc_creature c) = Some c.
Proof.
  unfold dec_creature, enc_creature. repeat jstep. cbn [mbind option_bind dec_str].
  rewrite !optional_round by (intros; first [apply dec_int_round | apply dec_rarity_round
    | apply dec_partial_round | reflexivity]).
  cbn [mbind option_bind]. repeat (rewrite dec_int_round; cbn [mbind option_bind]).
  destruct c; reflexivity.
Qed.

Lemma dec_encounter_round d : dec_encounter (enc_encounter d) = Some d.
Proof.
  unfold dec_encounter, enc_encounter. repeat jstep. cbn [mbind option_bind].
  rewrite dec_creature_round. cbn [mbind option_bind]. unfold dec_location. repeat jstep.
  cbn [mbind option_bind dec_num]. rewrite !dec_int_round. cbn [mbind option_bind].
  rewrite optional_round by reflexivity. destruct d as [c [lat lon] t l [] dl]; reflexivity.
Qed.

(** ** The held foe *)

Section Held.
Context `{Trig} `{AsyncStorageLaws}.

Definition readable (k : string) (d : disk) : Prop := fst (getItem k d) <> None.

Lemma load_pending d e : contents d STORAGE_KEYS.PENDING_ENCOUNTER = Some (TJson (enc_encounter e)) ->
  readable STORAGE_KEYS.PENDING_ENCOUNTER d ->
  fst (loadPendingEncounter d) = Some (Some (enc_encounter e)).
Proof.
  intros C G. unfold loadPendingEncounter, try_catch, bind at 1.
  destruct (getItem_cases STORAGE_KEYS.PENDING_ENCOUNTER d) as [R _]. unfold readable in G.
  destruct (getItem STORAGE_KEYS.PENDING_ENCOUNTER d) as [o d1]. cbn [fst] in *.
  destruct R as [-> | ->]; [|congruence]. rewrite C. unfold bind, json_parse, ret.
  rewrite valid_enc_encounter. reflexivity.
Qed.

Lemma hold_stores e a : fst (holdEliteEncounter e a) = true ->
  contents (store (snd (holdEliteEncounter e a))) STORAGE_KEYS.PENDING_ENCOUNTER
    = Some (TJson (enc_encounter (hold_data e)))
  /\ session (snd (holdEliteEncounter e a)) = hold_foe (Some e) (session a).
Proof.
  unfold holdEliteEncounter. destruct (loadPendingEncounter (store a)) as [[[j|]|] d]; try discriminate.
  unfold savePendingEncounter, save_json, try_catch, bind, ret.
  destruct (setItem_cases STORAGE_KEYS.PENDING_ENCOUNTER (TJson (enc_encounter (hold_data e))) d)
    as [[E C]|[E C]]; destruct (setItem _ _ d) as [r d']; cbn [fst snd] in *; subst r; simpl;
    [|discriminate].
  intros _. split; [|reflexivity]. rewrite C, decide_True by reflexivity. reflexivity.
Qed.

(** The encounter without the resistances of its creature. *)
Definition without_resistances (e : Encounter) : Encounter :=
  let c := e_creature e in
  mkEncounter
    (mkCreature (c_id c) (c_name c) (c_type c) (c_level c) (c_hp c) (c_maxHp c) (c_attack c)
       (c_defense c) (c_speed c) (c_rarity c) (c_description c) (c_encounterRate c)
       DEFAULT_RESISTANCES)
    (e_location e) (e_timestamp e) (e_playerLevel e) (e_status e) (e_daylight e).

Lemma rebuild_hold now e : e_timestamp e <> 0 -> e_playerLevel e <> 0 ->
  c_description (e_creature e) <> "" ->
  rebuild_encounter now (hold_data e) = without_resistances e.
Proof.
  intros T L D. destruct e as [[] loc t l st dl]. simpl in *.
  unfold rebuild_encounter, hold_data, new_Encounter, new_Creature, or_number, or_string,
    without_resistances. simpl.
  rewrite decide_False by exact D. apply Z.eqb_neq in T, L. rewrite T, L. reflexivity.
Qed.

(** A held foe survives a restart.  Once an elite has been held, as long as its
    record is still stored and can be read, the card rebuilt from storage shows the same
    encounter in every respect but one: the creature's resistances are the defaults. *)
Theorem held_foe_survives (now : Z) (e : Encounter) (a : App) (s : Session)
    (svc : EncounterService) (d : disk) (loc : option LocationData) :
  fst (holdEliteEncounter e a) = true ->
  e_timestamp e <> 0 -> e_playerLevel e <> 0 -> c_description (e_creature e) <> "" ->
  encounterRef s = None ->
  contents d STORAGE_KEYS.PENDING_ENCOUNTER
    = contents (store (snd (holdEliteEncounter e a))) STORAGE_KEYS.PENDING_ENCOUNTER ->
  readable STORAGE_KEYS.PENDING_ENCOUNTER d ->
  (eo_enc <$> heldFoe (session (snd (holdEliteEncounter e a)))) = Some e
  /\ exists a', refreshHeldFoe now (mkApp s svc d loc) = Some a'
     /\ (eo_enc <$> heldFoe (session a')) = Some (without_resistances e).
Proof.
  intros Hh T L D E C G. destruct (hold_stores e a Hh) as [St Se]. rewrite St in C.
  split; [rewrite Se; reflexivity|].
  pose proof (load_pending d _ C G) as Ld. unfold refreshHeldFoe. cbn [session store]. rewrite E.
  destruct (loadPendingEncounter d) as [r d']. cbn [fst] in Ld. subst r.
  rewrite dec_encounter_round. simpl. eexists. split; [reflexivity|]. simpl.
  rewrite rebuild_hold by assumption. reflexivity.
Qed.

End Held.

(** *** A concrete elite *)

Definition elite : Encounter :=
  new_Encounter 1700000000000
    (fst (createCreatureFromTemplate grove_warden 5 (mkRng (fun _ => (1 # 2)%Q) 0)))
    (mkLocation 0 0) None (Some 5) None (Some true).

Definition fresh_app (fs : list bool) : @App memory_storage :=
  @mkApp memory_storage (initial_session (Some sample_player)) new_EncounterService
    (fresh_disk fs) None.

Lemma held_foe_survives_witness :
  (eo_enc <$> heldFoe (session (snd (holdEliteEncounter elite (fresh_app []))))) = Some elite
  /\ exists a', refreshHeldFoe 5 (mkApp (initial_session None) new_EncounterService
       (store (snd (holdEliteEncounter elite (fresh_app [])))) None) = Some a'
     /\ (eo_enc <$> heldFoe (session a')) = Some (without_resistances elite).
Proof.
  apply held_foe_survives; try (vm_compute; (reflexivity || discriminate)).
Defined.

(** The reloaded elite no longer resists what the held one does. *)
Theorem reloaded_elite_weaker :
  let c := e_creature elite in
  let c' := e_creature (without_resistances elite) in
  isEliteCreature (c_rarity c) = true
  /\ applyResistance 40 (resistance_of (c_resistances c) physical) = 32
  /\ applyResistance 40 (resistance_of (c_resistances c') physical) = 40.
Proof. vm_compute. repeat split. Qed.

(** ** Passive resolution *)

Lemma active_tier_spec (now : Z) (p : Player) (c : Creature) (r : rng) :
  let '((p1, entry), r1) := passive_rewards now active_tier p c r in
  let '((p2, reveal), r2) := victory_rewards now p c false None r in
  p1 = p2 /\ r1 = r2 /\ ws_won entry = true /\ ws_xpGained entry = rv_xpGained reveal
  /\ ws_creatureName entry = rv_creatureName reveal
  /\ ws_item entry = (if rv_inventoryFull reveal then None else rv_item reveal).
Proof.
  unfold passive_rewards, passive_outcome, victory_rewards, rand_bind, rand_ret. cbv zeta beta iota.
  assert (E : defeatCreature (incrementEncounters (clone p)) = incrementEncounters (defeatCreature (clone p)))
    by (destruct (clone p); reflexivity).
  rewrite E. destruct (addExperience _ _) as [p2 gained].
  destruct (dropActiveCombatItem now false (p_level p2) None r) as [[it|] r'].
  - unfold keep_item. destruct (addItemToInventory p2 it) as [p3 i]. simpl.
    destruct (i =? -1); repeat split.
  - simpl. repeat split.
Qed.

(** C31: skipping costs nothing.  Auto-resolving an encounter at the active tier leaves
    exactly the player that winning the fight would have left, from the same random
    draws: same experience and levels, same item or none, same counters; and the walk
    summary records the item only if the inventory took it. *)
Theorem auto_resolve_matches_fight (now : Z) (p : Player) (c : Creature) (r : rng) :
  let '((p1, entry), r1) := passive_rewards now active_tier p c r in
  let '((p2, reveal), r2) := victory_rewards now p c false None r in
  p1 = p2 /\ r1 = r2 /\ ws_won entry = true /\ ws_xpGained entry = rv_xpGained reveal
  /\ ws_creatureName entry = rv_creatureName reveal
  /\ ws_item entry = (if rv_inventoryFull reveal then None else rv_item reveal).
Proof. apply active_tier_spec. Qed.

(** What passive resolution owes the player. *)
Record passive_paid (p : Player) (c : Creature) (p' : Player) (e : WalkSummaryEntry) : Prop := {
  pa_wf : wf_player p';
  pa_xp : 1 <= ws_xpGained e <= getExperienceReward c;
  pa_won : ws_won e = true -> ws_xpGained e = getExperienceReward c;
  pa_levels : p_level p <= p_level p'
    /\ p_experience p + ws_xpGained e
       = p_experience p' + levels_cost (p_level p) (Z.to_nat (p_level p' - p_level p));
  pa_tally : tally p' = (p_totalDistance p, p_totalEncounters p + 1,
    p_creaturesDefeated p + (if ws_won e then 1 else 0), p_combatTurnsTaken p);
  pa_gear : p_equipment p' = p_equipment p /\ p_archetype p' = p_archetype p;
  pa_loot : match ws_item e with
            | Some it => ws_won e = true /\ present (p_inventory p') ≡ₚ it :: present (p_inventory p)
            | None => p_inventory p' = p_inventory p
            end;
  pa_hp : p_hp p' = p_maxHp p'
}.

Lemma keep_item_spec p item : wf_player p -> (forall it, item = Some it -> item_ok it) ->
  let (p', kept_item) := keep_item p item in
  wf_player p' /\ p_equipment p' = p_equipment p /\ p_archetype p' = p_archetype p
  /\ tally p' = tally p /\ p_level p' = p_level p /\ p_experience p' = p_experience p
  /\ match kept_item with
     | Some it => item = Some it /\ present (p_inventory p') ≡ₚ it :: present (p_inventory p)
     | None => p_inventory p' = p_inventory p
     end.
Proof.
  intros W H. unfold keep_item. destruct item as [it|]; [|auto 10].
  pose proof (addItem_wf p it (H it eq_refl) W) as W'. pose proof (addItem_received p it) as R.
  destruct (addItemToInventory p it) as [p' i]. destruct R as (R & R2 & R3 & R4 & R5 & R6).
  simpl in R. destruct (i =? -1); [destruct R as [R _]|]; auto 10.
Qed.


Lemma passive_outcome_idle now lvl c : 1 <= lvl -> 1 <= c_level c <= 2 ^ 40 ->
  rand_post (passive_outcome now idle_tier lvl c) (fun x =>
    1 <= snd (fst x) <= getExperienceReward c
    /\ (fst (fst x) = true -> snd (fst x) = getExperienceReward c)
    /\ (fst (fst x) = false -> snd x = None) /\ (forall it, snd x = Some it -> item_ok it)).
Proof.
  intros L C. rand_step resolveAutoCombat_pays o Ho; [exact L | exact C |]. apply rand_post_ret. simpl.
  destruct Ho as (H1 & H2 & H3 & H4). split; [exact H1|]. split; [exact H2|]. split; [exact H3|].
  intros it Hit. apply (H4 it Hit).
Qed.

Lemma fullHeal_fields p :
  p_level (fullHeal p) = p_level p /\ p_experience (fullHeal p) = p_experience p
  /\ tally (fullHeal p) = tally p /\ p_equipment (fullHeal p) = p_equipment p
  /\ p_archetype (fullHeal p) = p_archetype p /\ p_inventory (fullHeal p) = p_inventory p
  /\ p_hp (fullHeal p) = p_maxHp (fullHeal p).
Proof. destruct p. repeat split. Qed.

Lemma passive_rewards_paid (now : Z) (p : Player) (c : Creature) :
  wf_player p -> 1 <= c_level c <= 2 ^ 40 ->
  rand_post (passive_rewards now idle_tier p c) (fun r => passive_paid p c (fst r) (snd r)).
Proof.
  intros W C. unfold passive_rewards. rewrite clone_eq by exact W.
  rand_step passive_outcome_idle x Hx; [destruct W; lia | exact C |].
  destruct x as [[won_ xp] item], Hx as (X & Hw & Hl & Hi). cbn [fst snd] in *.
  set (p1 := if won_ then defeatCreature (incrementEncounters p) else incrementEncounters p).
  assert (W1 : wf_player p1) by (unfold p1; destruct won_; auto with game).
  assert (E : p_level p1 = p_level p /\ p_experience p1 = p_experience p /\ kept p1 = kept p
    /\ tally p1 = (p_totalDistance p, p_totalEncounters p + 1,
         p_creaturesDefeated p + (if won_ then 1 else 0), p_combatTurnsTaken p)).
  { unfold p1, tally. destruct won_, p; simpl; rewrite ?Z.add_0_r; repeat split. }
  destruct E as (E1 & E2 & E3 & E4).
  pose proof (addExperience_step p1 xp W1 ltac:(lia)) as L. rewrite E1, E2, E3, E4 in L.
  fold p1. cbv zeta. destruct (addExperience p1 xp) as [p2 gained].
  destruct L as (W2 & L0 & L1 & L2 & K & T). injection K as _ _ K1 K2 K3.
  eapply rand_post_bind with (P := fun o => o = item); [apply rand_post_ret; reflexivity|].
  intros o ->. pose proof (keep_item_spec p2 item W2 Hi) as S.
  destruct (keep_item p2 item) as [p3 it']. destruct S as (W3 & S1 & S2 & S3 & S4 & S5 & S6).
  apply rand_post_ret. cbn [fst snd].
  pose proof (fullHeal_wf p3 W3) as W4.
  pose proof (fullHeal_fields p3) as F.
  destruct F as (F1 & F2 & F3 & F4 & F5 & F6 & F7).
  constructor; simpl; auto; rewrite ?F1, ?F2, ?F3, ?F4, ?F5, ?F6.
  - rewrite S4, S5, L1. replace (p_level p + gained - p_level p) with gained by lia. lia.
  - rewrite S3. exact T.
  - split; congruence.
  - destruct it' as [it|]; [destruct S6 as [-> S6]|rewrite S6, K2; reflexivity].
    split; [destruct won_; [reflexivity|]; discriminate (Hl eq_refl) | rewrite <- K2; exact S6].
Qed.

(** A passive encounter only ever gives.  Each one resolved while walking counts
    one encounter, and one win if won; pays between one point and the creature's full
    reward, all of it accounted for in level and experience; leaves distance, gear and
    archetype alone and the player at full health; and the summary lists an item exactly
    when the inventory gained it, which only a win can do. *)
Theorem passive_only_gives (now : Z) (p : Player) (c : Creature) :
  wf_player p -> 1 <= c_level c <= 2 ^ 40 ->
  rand_post (passive_rewards now idle_tier p c) (fun r => passive_paid p c (fst r) (snd r)).
Proof. apply passive_rewards_paid. Qed.

Lemma passive_only_gives_witness :
  rand_post (passive_rewards 7 idle_tier sample_player sample_creature)
    (fun r => passive_paid sample_player sample_creature (fst r) (snd r)).
Proof. apply passive_only_gives; [apply sample_player_wf | vm_compute; split; discriminate]. Defined.

(** ** The gate *)

Section Gate.
Context `{Trig} `{AsyncStorageLaws}.

(** An app whose session satisfies the fight invariant and whose player is [p]. *)
Definition app_ok (a : App) (p : Player) : Prop :=
  session_ok (session a) /\ playerRef (session a) = Some p.

Definition encounter_ok (e : Encounter) : Prop :=
  creature_ok (e_creature e).

(** Passive resolution keeps the invariant and the distance walked, and counts the
    encounter. *)
Definition passively_resolved (p : Player) (a a' : App) : Prop :=
  session_ok (session a')
  /\ encounterRef (session a') = encounterRef (session a)
  /\ service a' = service a
  /\ exists p', playerRef (session a') = Some p'
     /\ p_totalDistance p' = p_totalDistance p /\ p_totalEncounters p' = p_totalEncounters p + 1.

Lemma passive_rewards_counts now tier p c : wf_player p -> creature_ok c ->
  rand_post (passive_rewards now tier p c) (fun r => wf_player (fst r)
    /\ p_totalDistance (fst r) = p_totalDistance p
    /\ p_totalEncounters (fst r) = p_totalEncounters p + 1).
Proof.
  intros W C. destruct tier.
  - eapply rand_post_weaken; [apply passive_rewards_paid; [exact W | apply C]|].
    intros r []. injection pa_tally0 as T1 T2 _ _. auto.
  - intros r Hr. pose proof (active_tier_spec now p c r) as E.
    destruct (victory_rewards_paid now p c false None W C r Hr) as [V R].
    destruct (passive_rewards now active_tier p c r) as [[p1 e] r1],
      (victory_rewards now p c false None r) as [[p2 rv] r2].
    destruct E as (-> & -> & _). cbn [fst snd] in *. split; [|exact R].
    pose proof (wp_tally _ _ _ _ V) as T. injection T as T1 T2 _ _.
    split; [apply V | auto].
Qed.

Lemma resolvePassive_ok now e tier a p : app_ok a p -> encounter_ok e ->
  rand_post (resolvePassiveEncounter now e tier a) (passively_resolved p a).
Proof.
  intros [K P] C. unfold resolvePassiveEncounter. rewrite P.
  rand_step passive_rewards_counts r Hr; [apply (ok_player _ K p P) | exact C |].
  destruct r as [p' entry], Hr as (W & D & N). apply rand_post_ret.
  split; [apply setPlayer_ok; assumption|]. split; [reflexivity|]. split; [reflexivity|].
  exists p'. auto.
Qed.

(** Everything that can happen to a rolled encounter. *)
Inductive disposed (e : Encounter) (p : Player) (a : App) : Prop :=
  | presented : eo_enc <$> encounterRef (session a) = Some e -> playerRef (session a) = Some p ->
      disposed e p a
  | put_on_hold : eo_enc <$> heldFoe (session a) = Some e ->
      contents (store a) STORAGE_KEYS.PENDING_ENCOUNTER = Some (TJson (enc_encounter (hold_data e))) ->
      playerRef (session a) = Some p -> disposed e p a
  | resolved p' : playerRef (session a) = Some p' -> p_totalDistance p' = p_totalDistance p ->
      p_totalEncounters p' = p_totalEncounters p + 1 -> disposed e p a.

Lemma passive_disposed e p a a' : passively_resolved p a a' ->
  session_ok (session a') /\ service a' = service a /\ disposed e p a'.
Proof. intros (K & _ & S & p' & P & D & N). eauto using disposed. Qed.

Lemma hold_cases e a : let (held, a') := holdEliteEncounter e a in
  service a' = service a
  /\ if held then session a' = hold_foe (Some e) (session a)
       /\ contents (store a') STORAGE_KEYS.PENDING_ENCOUNTER = Some (TJson (enc_encounter (hold_data e)))
     else session a' = session a.
Proof.
  pose proof (hold_stores e a) as S. revert S. unfold holdEliteEncounter.
  destruct (loadPendingEncounter (store a)) as [[[j|]|] d]; simpl; auto.
  destruct (savePendingEncounter (hold_data e) d) as [[[]|] d']; simpl; auto.
  intros S. destruct (S eq_refl). auto.
Qed.

Lemma route_disposed (env : GateEnv) (e : Encounter) (a : App) (p : Player) :
  session_ok (session a) -> playerRef (session a) = Some p -> encounterRef (session a) = None ->
  creature_ok (e_creature e) ->
  rand_post (route_encounter env e a) (fun a' =>
    session_ok (session a') /\ service a' = service a /\ disposed e p a').
Proof.
  intros K P E C. assert (A : app_ok a p) by (split; assumption). unfold route_encounter.
  destruct (resolveEncounterRoute _ _ _).
  - apply rand_post_ret. split; [|split; [reflexivity | apply presented; [reflexivity | exact P]]].
    apply presentEncounter_ok; [exact C | simpl; lia | exact E | apply fresh_ok, K].
  - eapply rand_post_weaken; [apply (resolvePassive_ok _ e _ a p A C)|].
    intros a'. apply passive_disposed.
  - pose proof (hold_cases e a) as Hc. destruct (holdEliteEncounter e a) as [[] a1].
    + apply rand_post_ret. destruct Hc as (Sv & Se & St). split; [|split; [exact Sv|]].
      * rewrite Se. apply hold_foe_ok; [intros ? [= <-]; exact C | exact K].
      * apply put_on_hold; [rewrite Se; reflexivity | exact St | rewrite Se; exact P].
    + destruct Hc as [Sv Se].
      eapply rand_post_weaken;
        [apply (resolvePassive_ok _ e _ a1 p); [split; rewrite Se; assumption | exact C]|].
      intros a' H'. apply (passive_disposed e) in H' as (D1 & D2 & D3). rewrite D2, Sv. auto.
  - eapply rand_post_weaken; [apply (resolvePassive_ok _ e _ a p A C)|].
    intros a'. apply passive_disposed.
Qed.

(** C10: no rolled encounter is lost.  Whatever the route, the roll ends as the fight
    being presented, as a foe both on its card and stored, or as a passive resolution
    counted for the player (also when holding fails because a foe is already held or the
    write fails); the distance walked is kept, and the session stays well formed. *)
Theorem no_encounter_lost (env : GateEnv) (e : Encounter) (a : App) (p : Player) :
  session_ok (session a) -> playerRef (session a) = Some p -> encounterRef (session a) = None ->
  creature_ok (e_creature e) ->
  rand_post (route_encounter env e a) (fun a' =>
    session_ok (session a') /\ service a' = service a /\ disposed e p a').
Proof. apply route_disposed. Qed.

Lemma disposed_distance e p a : disposed e p a -> exists p', playerRef (session a) = Some p'
  /\ p_totalDistance p' = p_totalDistance p.
Proof. intros [D1 D2|D1 D2 D3|p' D1 D2 D3]; eauto. Qed.

Lemma flee_distance s p : session_ok s -> playerRef s = Some p -> exists p',
  playerRef (handleFlee s) = Some p' /\ p_totalDistance p' = p_totalDistance p.
Proof.
  intros K P. unfold handleFlee. destruct (_ || _); [eauto|]. cbv zeta. rewrite P.
  pose proof (ok_player s K p P) as W. rewrite clone_eq by exact W.
  destruct (encounterRef s); (eexists; split; [first [reflexivity | exact P]|]);
    [destruct p|]; reflexivity.
Qed.

(** C33: every step is credited.  Through the whole of [handleDistanceUpdate], with the
    gate and whatever it routes to, the player ends with exactly the distance walked
    added; the session invariant is kept; and while an encounter is active the encounter
    service is untouched, so neither the roll nor the pacing is consumed. *)
Theorem walking_credits_distance (env : GateEnv) (dd : DistanceData) (a : App) (p : Player) :
  session_ok (session a) -> playerRef (session a) = Some p -> p_level p <= 2 ^ 39 ->
  rand_post (handleDistanceUpdate env dd a) (fun a' =>
    session_ok (session a')
    /\ (exists p', playerRef (session a') = Some p'
         /\ p_totalDistance p' = js_add (p_totalDistance p) (dd_incremental dd))
    /\ (is_Some (encounterRef (session a)) -> service a' = service a)).
Proof.
  intros K P L. pose proof (ok_player _ K p P) as W. unfold handleDistanceUpdate. cbv zeta.
  change (playerRef (session (a <| currentLocationRef := Some (dd_location dd) |>)))
    with (playerRef (session a)). rewrite P.
  rewrite clone_eq by exact W. set (p1 := addDistance p (dd_incremental dd)).
  set (s1 := setPlayerAndSave p1 (session a)).
  assert (K1 : session_ok s1) by (apply setPlayer_ok; [apply with_counters_wf, W | exact K]).
  assert (D1 : p_totalDistance p1 = js_add (p_totalDistance p) (dd_incremental dd))
    by (unfold p1; destruct p; reflexivity).
  match goal with |- rand_post (onDistanceEncounterUpdate _ _ _ ?x) _ => set (a1 := x) end.
  unfold onDistanceEncounterUpdate. change (session a1) with s1.
  change (encounterRef s1) with (encounterRef (session a)).
  destruct (encounterRef (session a)) as [enc|] eqn:E.
  - apply rand_post_ret. destruct (too_far _ _ _).
    + split; [apply handleFlee_ok, K1|]. split; [|reflexivity].
      destruct (flee_distance s1 p1 K1 eq_refl) as (p' & Hp & Hd). exists p'. rewrite Hd. auto.
    + split; [exact K1|]. split; [exists p1; auto | reflexivity].
  - rand_step process_gated_spec r Hr. destruct r as [svc [|e n|]]; try contradiction.
    + apply rand_post_ret. split; [exact K1|]. split; [exists p1; auto | intros [? [=]]].
    + destruct Hr as (_ & _ & _ & _ & F). destruct F as (_ & _ & _ & _ & F1 & F2 & F3).
      eapply rand_post_weaken; [apply (route_disposed env e _ p1)|].
      * exact K1.
      * reflexivity.
      * exact E.
      * unfold creature_ok. destruct W. lia.
      * intros a' (R1 & _ & R3). split; [exact R1|]. split; [|intros [? [=]]].
        apply disposed_distance in R3 as (p' & Hp & Hd). exists p'. rewrite Hd. auto.
Qed.

(** *** The walk summary *)

(** What becomes of the appends of the loop that puts entries back: whether the read and
    the write of each succeed. *)
Fixpoint append_outcomes (entries : list json) (d : disk) : list (bool * bool) :=
  match entries with
  | [] => []
  | e :: entries => append_outcome e d :: append_outcomes entries (snd (append_record e d))
  end.

Lemma slice_last_short {A} n (l : list A) : (length l <= n)%nat -> slice_last n l = l.
Proof. intros L. unfold slice_last. replace (length l - n)%nat with 0%nat by lia. reflexivity. Qed.

Lemma relogged_valid log e o : forallb isValidWalkSummaryEntry log = true -> isValidWalkSummaryEntry e = true ->
  forallb isValidWalkSummaryEntry (relogged log (e, o)) = true.
Proof.
  intros V E. destruct o as [read []]; [|exact V]. cbn. unfold slice_last. apply forallb_drop.
  rewrite forallb_app. cbn. rewrite E. destruct read; [rewrite V|]; reflexivity.
Qed.

(** The log after appends, one after the other. *)
Lemma append_all_log entries : forall d log,
  log_is d log -> forallb isValidWalkSummaryEntry log = true ->
  forallb isValidWalkSummaryEntry entries = true ->
  log_is (append_all entries d) (fold_left relogged (zip entries (append_outcomes entries d)) log).
Proof.
  induction entries as [|e entries IH]; intros d log L V V'; [exact L|].
  cbn [append_all append_outcomes zip zip_with fold_left]. cbn in V'. apply andb_true_iff in V' as [Ve V'].
  apply IH; [apply append_record_log; assumption | apply relogged_valid; assumption | exact V'].
Qed.

Lemma relogged_sublist log done e o : log `sublist_of` done -> relogged log (e, o) `sublist_of` done ++ [e].
Proof.
  intros S. destruct o as [read []]; cbn; [|apply sublist_inserts_r, S].
  etransitivity; [apply sublist_drop|]. destruct read; [apply sublist_app; [exact S | reflexivity]|].
  apply sublist_inserts_l. reflexivity.
Qed.

(** Nothing is made up and nothing changes its place. *)
Lemma relog_sublist entries : forall outcomes log done, log `sublist_of` done ->
  fold_left relogged (zip entries outcomes) log `sublist_of` done ++ entries.
Proof.
  induction entries as [|e entries IH]; intros outcomes log done S; [rewrite app_nil_r; exact S|].
  destruct outcomes as [|o outcomes]; [apply sublist_inserts_r, S|].
  cbn [zip zip_with fold_left]. replace (done ++ e :: entries) with ((done ++ [e]) ++ entries)
    by (rewrite <- app_assoc; reflexivity).
  apply IH, relogged_sublist, S.
Qed.

(** With no failure, what is left is what the cap leaves. *)
Lemma relog_all entries : forall outcomes log, length outcomes = length entries ->
  Forall (eq (true, true)) outcomes -> (length log <= MAX_WALK_SUMMARY_ENTRIES)%nat ->
  fold_left relogged (zip entries outcomes) log = slice_last MAX_WALK_SUMMARY_ENTRIES (log ++ entries).
Proof.
  induction entries as [|e entries IH]; intros [|o outcomes] log Len A N; try discriminate; cbn [zip zip_with fold_left].
  - rewrite app_nil_r. symmetry. apply slice_last_short, N.
  - apply Forall_cons in A as [<- A]. injection Len as Len. rewrite IH; [|exact Len | exact A|].
    + cbn [relogged]. unfold slice_last. set (l := log ++ [e]).
      replace (log ++ e :: entries) with (l ++ entries) by (subst l; rewrite <- app_assoc; reflexivity).
      rewrite <- (drop_app_le l entries) by (rewrite ?length_app; lia). rewrite drop_drop, length_drop.
      f_equal. rewrite !length_app. lia.
    + cbn [relogged]. unfold slice_last. rewrite length_drop. lia.
Qed.

Lemma append_outcomes_length entries : forall d, length (append_outcomes entries d) = length entries.
Proof. induction entries as [|e l IH]; intros d; cbn; [reflexivity | f_equal; apply IH]. Qed.

(** C30: the walk summary loses nothing but what the device refuses to write back.
    Whatever happened to the session while the log was being drained, and whichever
    storage calls fail: all entries are shown, never over an active encounter or a pending
    reveal, and the log is empty; or nothing is shown and the log is as it was (it could
    not be read or cleared, or held nothing); or something came up meanwhile and the
    entries were appended again one by one.  Then the log holds what those appends leave
    ([relogged]: one whose write fails is lost, one whose read fails drops those before
    it), in the old order and with nothing else in it; with no failure, all of them. *)
Theorem summary_conserved (s2 : Session) (c : SummaryCheck) (d : disk) (entries : list json) :
  log_is d entries -> forallb isValidWalkSummaryEntry entries = true ->
  (length entries <= MAX_WALK_SUMMARY_ENTRIES)%nat ->
  let (r, d1) := drainWalkSummary d in
  let (s', d') := checkWalkSummary_end c (default [] r) s2 d1 in
  let outcomes := append_outcomes entries d1 in
  let kept := fold_left relogged (zip entries outcomes) [] in
  (walkSummary s' = Some entries /\ log_is d' []
     /\ encounterRef s2 = None /\ rewardRevealTimerRef s2 = None)
  \/ (s' = s2 /\ log_is d' entries)
  \/ (blocked c s2 = true /\ s' = s2 /\ log_is d' kept /\ kept `sublist_of` entries
      /\ (Forall (eq (true, true)) outcomes -> kept = entries)).
Proof.
  intros L V N. pose proof (drain_log d entries L V) as R.
  destruct (drainWalkSummary d) as [r d1].
  destruct R as [(_ & -> & R)|[-> R]]; simpl; [|right; left; auto].
  unfold checkWalkSummary_end. destruct entries as [|e l]; [right; left; auto|].
  destruct (blocked c s2) eqn:B.
  - right. right. split; [reflexivity|]. split; [reflexivity|].
    split; [apply (append_all_log (e :: l) d1 []); auto|].
    split; [apply (relog_sublist (e :: l) _ [] []); reflexivity|].
    intros A. rewrite relog_all; [apply slice_last_short, N | apply append_outcomes_length | exact A | cbn; lia].
  - left. split; [reflexivity|]. split; [exact R|]. unfold blocked in B.
    apply orb_false_iff in B as [[[B1 _]%orb_false_iff B2]%orb_false_iff _].
    apply bool_decide_eq_false in B1, B2. split; apply eq_None_not_Some; assumption.
Qed.

End Gate.

(** *** Concrete runs *)

Definition env0 (bg auto_ : bool) : GateEnv := mkGateEnv 1700000100000 1700000100001 bg auto_.

Lemma elite_ok : creature_ok (e_creature elite).
Proof. vm_compute. intuition discriminate. Qed.

Lemma app0_ok fs : session_ok (session (fresh_app fs)).
Proof. apply initial_session_ok. intros ? [= <-]. apply sample_player_wf. Qed.

Lemma no_encounter_lost_witness :
  rand_post (route_encounter (env0 true false) elite (fresh_app [false; true])) (fun a' =>
    session_ok (session a') /\ service a' = new_EncounterService /\ disposed elite sample_player a').
Proof. apply no_encounter_lost; [apply app0_ok | reflexivity | reflexivity | apply elite_ok]. Defined.

Definition one_step : DistanceData :=
  mkDistanceData 60 60 (mkLocationData 0 0 5 None None 1 1700000100000).

Lemma walking_credits_distance_witness :
  rand_post (@handleDistanceUpdate sample_trig _ (env0 false true) one_step (fresh_app []))
    (fun a' => session_ok (session a')
      /\ (exists p', playerRef (session a') = Some p'
           /\ p_totalDistance p' = js_add (p_totalDistance sample_player) 60)
      /\ (is_Some (encounterRef (session (fresh_app []))) -> service a' = new_EncounterService)).
Proof.
  apply walking_credits_distance; [apply app0_ok | reflexivity | vm_compute; discriminate].
Defined.

Definition logged : @disk memory_storage := snd (appendWalkSummaryEntry sample_entry (fresh_disk [])).

Lemma summary_conserved_witness :
  let s2 := present_new elite (initial_session (Some sample_player)) in
  let c := mkSummaryCheck false false in
  let entries := [enc_summary_entry sample_entry] in
  let (r, d1) := drainWalkSummary logged in
  let (s', d') := checkWalkSummary_end c (default [] r) s2 d1 in
  let outcomes := append_outcomes entries d1 in
  let kept := fold_left relogged (zip entries outcomes) [] in
  (walkSummary s' = Some entries /\ log_is d' []
     /\ encounterRef s2 = None /\ rewardRevealTimerRef s2 = None)
  \/ (s' = s2 /\ log_is d' entries)
  \/ (blocked c s2 = true /\ s' = s2 /\ log_is d' kept /\ kept `sublist_of` entries
      /\ (Forall (eq (true, true)) outcomes -> kept = entries)).
Proof.
  cbv zeta. apply summary_conserved.
  - right. vm_compute. reflexivity.
  - vm_compute. reflexivity.
  - vm_compute. lia.
Defined.

(** Entries that are put back while the device refuses to write are gone: the log was
    cleared, and the answer of the append is not looked at. *)
Theorem refused_put_back_loses :
  let d := mkMemory (mem logged) [false; false; false; true] in
  let s2 := present_new elite (initial_session (Some sample_player)) in
  let (r, d1) := drainWalkSummary d in
  let (s', d') := checkWalkSummary_end (mkSummaryCheck false false) (default [] r) s2 d1 in
  log_is d [enc_summary_entry sample_entry] /\ walkSummary s' = None /\ log_is d' [].
Proof. vm_compute. auto. Qed.
