(* ===== verification/GameStep.v ===== *)
(** * One handler of the game, from outside

    What every handler of [useEncounter] does to the app it runs in, whatever it is for:
    the session stays well formed, the saves it issues only extend those issued before
    (and none is issued without a live player), and on disk it touches only the keys of
    the encounters.  [Home] joins the game to the player session with these facts. *)
From stdpp Require Import base decidable strings list gmap.
From Stdlib Require Import ZArith QArith Lia.
From S2P Require Import Prelude JsNumber Random Combat Archetype Ability CombatFeed Creature.
From S2P Require Import Config Item Player Loot AutoCombat Encounter Location Json CloudSync.
From S2P Require Import Storage CombatSession SessionInvariant EncounterFlow.
Local Open Scope Z_scope.

(** ** The trail of saves

    A handler only adds to the saves it was given, and adds none without a player. *)

Record advanced (s s' : Session) : Prop := {
  adv_saves : saves s `prefix_of` saves s';
  adv_none : playerRef s = None -> saves s' = saves s
}.

Lemma advanced_same s s' : saves s' = saves s -> advanced s s'.
Proof. intros E. split; [rewrite E; reflexivity | intros _; exact E]. Qed.

Lemma advanced_save s s' p q : playerRef s = Some q -> saves s' = saves s ++ [p] -> advanced s s'.
Proof. intros P E. split; [rewrite E; apply prefix_app_r; reflexivity | congruence]. Qed.

Lemma advanced_more s s' p q r : playerRef s = Some q -> saves s' = (saves s ++ [p]) ++ [r] ->
  advanced s s'.
Proof. intros P E. split; [rewrite E; do 2 apply prefix_app_r; reflexivity | congruence]. Qed.

Ltac adv := first [apply advanced_same; reflexivity | eapply advanced_save; [eassumption | reflexivity]
  | eapply advanced_more; [eassumption | reflexivity]].

Lemma handleVictory_advanced now pu s :
  (forall p, base_player pu s = Some p -> wf_player p /\ is_Some (playerRef s)) ->
  (forall o, encounterRef s = Some o -> creature_ok (eo_creature o)) ->
  rand_post (handleVictory now pu s) (advanced s).
Proof.
  intros Hp Hc. eapply rand_post_weaken; [apply handleVictory_cases; [apply Hp | exact Hc]|].
  intros s' H. destruct (encounterRef s) as [enc|]; [|subst; adv].
  destruct (base_player pu s) as [base|]; [|subst; adv].
  destruct (victoryProcessedRef s); [subst; adv|]. destruct (Hp base eq_refl) as [_ [q Q]].
  destruct H as (p' & rv & _ & ->). adv.
Qed.

Lemma handleFlee_advanced s : advanced s (handleFlee s).
Proof.
  unfold handleFlee. destruct (_ || _); [adv|]. cbv zeta. destruct (encounterRef s); [|adv].
  destruct (playerRef s) eqn:P; adv.
Qed.

Lemma counter_advanced s : session_ok s -> rand_post (counter_timer_fires s) (advanced s).
Proof.
  intros K. unfold counter_timer_fires.
  destruct (counterTimerRef s) as [[dl [a d c i|]]|]; try (apply rand_post_ret; adv).
  cbn. destruct (playerRef s) as [p|] eqn:P; [|apply rand_post_ret; adv].
  case_bool_decide; [|apply rand_post_ret; adv]. unfold counter_strike.
  eapply rand_post_bind; [apply rollEvasion_streak, (ok_streaks s K)|]. intros ev _. cbv zeta.
  match goal with |- context [player_isDefeated ?q] => generalize q end. intros q.
  apply rand_post_ret. destruct (player_isDefeated q); adv.
Qed.

Lemma turn_end_saves ab p p' st c pre s : saves (turn_end ab p p' st c pre s) = saves s.
Proof.
  unfold turn_end, scheduleVictory, scheduleCounterAttack.
  destruct (isDefeated c); [destruct (_ || _) | destruct (counterPendingRef s)]; reflexivity.
Qed.

Lemma handleAbility_advanced now ab s : session_ok s ->
  rand_post (handleAbility now ab s) (fun r => advanced s (snd r)).
Proof.
  intros K. eapply rand_post_weaken; [apply handleAbility_cases, K|]. intros r.
  intros [-> | [(enc & p & p' & rv & _ & P & _ & _ & ->) | (enc & p & st & F & _ & [T])]].
  - adv.
  - adv.
  - pose proof (fr_player _ _ _ _ F) as P. cbv zeta in T. destruct (isDefeated _).
    + destruct T as (_ & hs & i & l & j & _ & ->). unfold scheduleVictory. destruct (_ || _); adv.
    + destruct T as (_ & o & k & hs & i & l & j & _ & _ & ->).
      eapply advanced_save; [exact P | rewrite turn_end_saves; reflexivity].
Qed.

Lemma victory_now now pu s s0 : session_ok s -> (forall p, pu = Some p -> playerRef s = Some p) ->
  playerRef s0 = playerRef s -> saves s0 = saves s ->
  (forall o, encounterRef s0 = Some o -> creature_ok (eo_creature o)) ->
  rand_post (handleVictory now pu s0) (advanced s).
Proof.
  intros K Hp P S C. eapply rand_post_weaken; [apply handleVictory_advanced; [|exact C]|].
  - intros p B. assert (Q : playerRef s = Some p)
      by (destruct pu; [injection B as ->; auto | rewrite <- P; exact B]).
    split; [eapply ok_player; eauto | rewrite P, Q; eauto].
  - intros s' [A N]. split; [rewrite <- S; exact A | rewrite <- P, <- S; exact N].
Qed.

Lemma kill_beat_advanced now s : session_ok s -> rand_post (kill_beat_fires now s) (advanced s).
Proof.
  intros K. unfold kill_beat_fires. destruct (killBeatTimerRef s) as [p|] eqn:B;
    [|apply rand_post_ret; adv].
  eapply rand_post_weaken; [apply handleVictory_advanced; [|exact (ok_creature s K)]|].
  - intros q [= <-]. split; [apply (ok_captured s K p B) | apply (ok_beat s K); eauto].
  - intros s' [A N]. split; [exact A | exact N].
Qed.

(** Every event of the fight state machine. *)
Lemma dispatch_advanced now ev s : event_ok ev -> session_ok s ->
  rand_post (CombatSession.dispatch now ev s) (advanced s).
Proof.
  intros He K. destruct ev; cbn [CombatSession.dispatch];
    try (apply rand_post_ret; adv); try (apply rand_post_ret; case_match; adv).
  - apply rand_post_ret. destruct e; adv.
  - apply rand_post_ret. destruct (engageable s); adv.
  - unfold handleFight. destruct (encounterRef s) as [enc|] eqn:E; [|apply rand_post_ret; adv].
    destruct (playerRef s) eqn:P; [|apply rand_post_ret; adv].
    destruct (player_isDefeated _); [apply rand_post_ret; adv|].
    destruct (isDefeated _); [apply victory_now; try discriminate; auto; apply K|].
    apply rand_post_ret. cbn. destruct (playerCombatStateRef s); cbn;
      destruct (creatureCombatStateRef s); adv.
  - eapply rand_post_bind; [apply handleAbility_advanced, K|]. intros r H. apply rand_post_ret, H.
  - apply rand_post_ret, handleFlee_advanced.
  - apply rand_post_ret. unfold handleCloseCombatModal. case_match; adv.
  - unfold handleAutoResolve. destruct (playerRef s) as [p|] eqn:P; [|apply rand_post_ret; adv].
    destruct (encounterRef s) eqn:E; [|apply rand_post_ret; adv].
    destruct (isEliteCreature _); [apply rand_post_ret; adv|].
    apply (victory_now now _ s); auto; [congruence | apply K].
  - unfold handleDebugDefeat. destruct (encounterRef s) as [enc|] eqn:E; [|apply rand_post_ret; adv].
    destruct (playerRef s) as [p|] eqn:P; [|apply rand_post_ret; adv].
    destruct (victoryProcessedRef s); [apply rand_post_ret; adv|].
    destruct (isDefeated _); [apply rand_post_ret; adv|].
    apply (victory_now now _ s); auto; [congruence|]. intros o [= <-].
    pose proof (ok_creature s K enc E) as C. apply takeDamage_ok; [apply C | exact C].
  - apply kill_beat_advanced, K.
  - apply counter_advanced, K.
  - apply rand_post_ret. unfold reveal_timer_fires. case_match; adv.
  - unfold debugPreviewReveal. cbv zeta. eapply rand_post_bind; [apply generateItem_generated; discriminate|].
    intros it _. apply rand_post_ret. adv.
Qed.

(** ** What the handlers of the game store *)

Ltac footprint :=
  repeat first
    [ apply touches_ret | apply touches_throw | apply touches_get | apply touches_parse
    | apply touches_set; set_solver | apply touches_remove; set_solver
    | apply touches_bind; [|intros ?] | apply touches_try | case_match ].

Section Steps.
Context `{Trig} `{AsyncStorageLaws}.

Definition GAME_KEYS : list string := 
  [STORAGE_KEYS.PENDING_ENCOUNTER; STORAGE_KEYS.WALK_SUMMARY; STORAGE_KEYS.AUTO_RESOLVE_BELOW_RARE].

Lemma touches_load_pending : touches [STORAGE_KEYS.PENDING_ENCOUNTER] loadPendingEncounter.
Proof. unfold loadPendingEncounter. footprint. Qed.

Lemma touches_save_pending e : touches [STORAGE_KEYS.PENDING_ENCOUNTER] (savePendingEncounter e).
Proof. unfold savePendingEncounter, save_json. footprint. Qed.

Lemma touches_clear_pending : touches [STORAGE_KEYS.PENDING_ENCOUNTER] clearPendingEncounter.
Proof. unfold clearPendingEncounter. footprint. Qed.

Lemma touches_append e : touches [STORAGE_KEYS.WALK_SUMMARY] (append_record e).
Proof. unfold append_record, append_task, loadWalkSummary. footprint. Qed.

Lemma touches_drain : touches [STORAGE_KEYS.WALK_SUMMARY] drainWalkSummary.
Proof. unfold drainWalkSummary, drain_task, loadWalkSummary. footprint. Qed.

(** The held foe on disk is one the game stored. *)
Definition pending_ok (d : disk) : Prop :=
  contents d STORAGE_KEYS.PENDING_ENCOUNTER = None
  \/ exists e, creature_ok (e_creature e)
     /\ contents d STORAGE_KEYS.PENDING_ENCOUNTER = Some (TJson (enc_encounter (hold_data e))).

Lemma pending_same d d' :
  contents d' STORAGE_KEYS.PENDING_ENCOUNTER = contents d STORAGE_KEYS.PENDING_ENCOUNTER ->
  pending_ok d -> pending_ok d'.
Proof. intros E [P|(e & C & P)]; [left | right; exists e; split; [exact C|]]; rewrite E; exact P. Qed.

Definition game_keys_only (d d' : disk) : Prop :=
  forall k, k ∉ GAME_KEYS -> contents d' k = contents d k.

Lemma game_keys_only_refl d : game_keys_only d d.
Proof. intros k _. reflexivity. Qed.

Lemma game_keys_only_trans d1 d2 d3 :
  game_keys_only d1 d2 -> game_keys_only d2 d3 -> game_keys_only d1 d3.
Proof. intros A B k N. rewrite (B k N). apply A, N. Qed.

Lemma touches_pending {A} (m : IO A) d :
  touches [STORAGE_KEYS.PENDING_ENCOUNTER] m -> game_keys_only d (snd (m d)).
Proof. intros T k N. apply T. intros ->%list_elem_of_singleton. apply N. left. Qed.

Lemma touches_summary {A} (m : IO A) d : touches [STORAGE_KEYS.WALK_SUMMARY] m ->
  pending_ok d -> pending_ok (snd (m d)) /\ game_keys_only d (snd (m d)).
Proof.
  intros T P. split.
  - apply (pending_same d); [|exact P]. apply T. intros I%list_elem_of_singleton. discriminate.
  - intros k N. apply T. intros ->%list_elem_of_singleton. apply N. right. left.
Qed.

Lemma touches_setting {A} (m : IO A) d : touches [STORAGE_KEYS.AUTO_RESOLVE_BELOW_RARE] m ->
  pending_ok d -> pending_ok (snd (m d)) /\ game_keys_only d (snd (m d)).
Proof.
  intros T P. split.
  - apply (pending_same d); [|exact P]. apply T. intros I%list_elem_of_singleton. discriminate.
  - intros k N. apply T. intros ->%list_elem_of_singleton. apply N. right. right. left.
Qed.

(** A stored foe survives a read that fails, and every read of a readable one. *)
Lemma load_pending_ok d : pending_ok d ->
  pending_ok (snd (loadPendingEncounter d))
  /\ (fst (loadPendingEncounter d) = Some None
      \/ exists e, creature_ok (e_creature e)
         /\ fst (loadPendingEncounter d) = Some (Some (enc_encounter (hold_data e)))).
Proof.
  intros P. unfold loadPendingEncounter, try_catch, bind.
  destruct (getItem_cases STORAGE_KEYS.PENDING_ENCOUNTER d) as [G S].
  destruct (getItem _ d) as [o d1]. cbn [fst snd] in *.
  assert (P1 : pending_ok d1) by (apply (pending_same d); [apply S | exact P]).
  destruct G as [-> | ->]; [|split; [exact P1 | left; reflexivity]].
  destruct P as [-> | (e & C & ->)]; [split; [exact P1 | left; reflexivity]|].
  unfold json_parse, ret. rewrite valid_enc_encounter.
  split; [exact P1 | right; exists e; auto].
Qed.

Lemma clear_pending_ok d : pending_ok d -> pending_ok (snd (clearPendingEncounter d)).
Proof.
  intros P. unfold clearPendingEncounter, try_catch, bind, ret.
  destruct (removeItem_cases STORAGE_KEYS.PENDING_ENCOUNTER d) as [[E C]|[E C]];
    destruct (removeItem _ d) as [o d']; cbn [fst snd] in *; subst o.
  - left. rewrite C, decide_True by reflexivity. reflexivity.
  - apply (pending_same d); [apply C | exact P].
Qed.

(** ** One handler of the game *)

Definition game_ok (a : App) : Prop := session_ok (session a) /\ pending_ok (store a).

(** What a handler does to the app it runs in. *)
Record stepped (a a' : App) : Prop := {
  st_ok : game_ok a';
  st_disk : game_keys_only (store a) (store a');
  st_saves : advanced (session a) (session a')
}.

Lemma rand_post_both {A} (m : Rand A) (P Q : A -> Prop) :
  rand_post m P -> rand_post m Q -> rand_post m (fun a => P a /\ Q a).
Proof. intros A1 A2 r R. destruct (A1 r R), (A2 r R). auto. Qed.

Lemma advanced_trans s1 s2 s3 : session_ok s2 ->
  advanced s1 s2 -> advanced s2 s3 -> last (saves s1) = playerRef s1 -> advanced s1 s3.
Proof.
  intros K [A1 N1] [A2 N2] L. split; [etransitivity; eassumption|]. intros P.
  rewrite N2; [apply N1, P|]. rewrite <- (ok_last _ K), (N1 P), L. exact P.
Qed.

Lemma stepped_trans a1 a2 a3 : game_ok a1 -> stepped a1 a2 -> stepped a2 a3 -> stepped a1 a3.
Proof.
  intros [K _] [A1 A2 A3] [B1 B2 B3]. split; [exact B1 | eapply game_keys_only_trans; eassumption|].
  eapply advanced_trans; [apply A1 | exact A3 | exact B3 | apply (ok_last _ K)].
Qed.

Lemma stepped_same a : game_ok a -> stepped a a.
Proof. intros G. split; [exact G | apply game_keys_only_refl | apply advanced_same; reflexivity]. Qed.

(** A step of the session alone. *)
Lemma stepped_session a s' : game_ok a -> session_ok s' -> advanced (session a) s' ->
  stepped a (a <| session := s' |>).
Proof.
  intros [K P] K' A. split; [split; assumption | apply game_keys_only_refl | exact A].
Qed.

(** A step of the session and then of the store. *)
Lemma stepped_store a d : game_ok a -> pending_ok d -> game_keys_only (store a) d ->
  stepped a (a <| store := d |>).
Proof. intros [K P] P' E. split; [split; assumption | exact E | apply advanced_same; reflexivity]. Qed.

Lemma game_event now ev a : event_ok ev -> game_ok a ->
  rand_post (let! s := CombatSession.dispatch now ev (session a) in rand_ret (a <| session := s |>))
    (stepped a).
Proof.
  intros E [K P]. eapply rand_post_bind;
    [apply rand_post_both; [apply (dispatch_ok now ev _ E K) | apply (dispatch_advanced now ev _ E K)]|].
  intros s [K' A]. apply rand_post_ret, stepped_session; [split|..]; assumption.
Qed.

Lemma resolvePassive_stepped now e tier a : game_ok a -> encounter_ok e ->
  rand_post (resolvePassiveEncounter now e tier a) (stepped a).
Proof.
  intros G C. unfold resolvePassiveEncounter.
  destruct (playerRef (session a)) as [p|] eqn:P; [|apply rand_post_ret, stepped_same, G].
  eapply rand_post_bind; [apply passive_rewards_counts; [apply (ok_player _ (proj1 G) p P) | exact C]|].
  intros [p' entry] (W & _). apply rand_post_ret.
  set (s' := CombatSession.setPlayerAndSave p' (session a)).
  assert (S1 : stepped a (a <| session := s' |>))
    by (apply stepped_session; [exact G | apply setPlayer_ok; [exact W | apply G] | subst s'; adv]).
  destruct (touches_summary _ (store a) (touches_append (enc_summary_entry entry)) (proj2 G)) as [Q D].
  exact (stepped_trans _ _ _ G S1 (stepped_store _ _ (st_ok _ _ S1) Q D)).
Qed.

Lemma hold_stepped e a : game_ok a -> encounter_ok e -> stepped a (snd (holdEliteEncounter e a)).
Proof.
  intros G C. pose proof (hold_cases e a) as Hc. unfold holdEliteEncounter in *.
  pose proof (touches_pending _ (store a) touches_load_pending) as D1.
  destruct (load_pending_ok (store a) (proj2 G)) as [P1 _].
  destruct (loadPendingEncounter (store a)) as [[[j|]|] d]; cbn [fst snd] in *;
    try (apply stepped_store; assumption).
  pose proof (touches_pending _ d (touches_save_pending (hold_data e))) as D2.
  pose proof (setItem_cases STORAGE_KEYS.PENDING_ENCOUNTER (TJson (enc_encounter (hold_data e))) d) as Sc.
  unfold savePendingEncounter, save_json, try_catch, bind, ret in *.
  destruct (setItem _ _ d) as [r d']. cbn [fst snd] in *.
  destruct Sc as [[-> Sc]|[-> Sc]]; cbn [snd] in *.
  - destruct Hc as (_ & _ & St).
    pose proof (hold_foe_ok (Some e) (session a) ltac:(intros ? [= <-]; exact C) (proj1 G)) as K.
    split.
    + split; [exact K | right; exists e; auto].
    + eapply game_keys_only_trans; eassumption.
    + adv.
  - apply stepped_store; [exact G | apply (pending_same d); [apply Sc | exact P1]|].
    eapply game_keys_only_trans; eassumption.
Qed.

Lemma route_stepped env e a : game_ok a -> encounter_ok e -> encounterRef (session a) = None ->
  rand_post (route_encounter env e a) (stepped a).
Proof.
  intros G C E. unfold route_encounter. destruct (resolveEncounterRoute _ _ _).
  - apply rand_post_ret, stepped_session; [exact G | | adv].
    apply presentEncounter_ok; [exact C | simpl; lia | exact E | apply fresh_ok, G].
  - apply resolvePassive_stepped; assumption.
  - pose proof (hold_stepped e a G C) as S. destruct (holdEliteEncounter e a) as [[] a1];
      [apply rand_post_ret; exact S|].
    eapply rand_post_weaken; [apply resolvePassive_stepped; [apply S | exact C]|].
    intros a'. apply (stepped_trans _ _ _ G S).
  - apply resolvePassive_stepped; assumption.
Qed.

(** Creatures are generated near the player's level, which has to be one at which the
    arithmetic of the rewards is exact. *)
Definition level_ok (o : option Player) : Prop := forall p, o = Some p -> p_level p <= 2 ^ 39.

Lemma fresh_creature_ok now loc lvl e : fresh_encounter now loc lvl e -> lvl <= 2 ^ 39 -> encounter_ok e.
Proof. intros (_ & _ & _ & _ & F1 & F2 & F3) L. unfold encounter_ok, creature_ok. lia. Qed.

Lemma distance_stepped env dd a : game_ok a -> level_ok (playerRef (session a)) ->
  rand_post (handleDistanceUpdate env dd a) (stepped a).
Proof.
  intros G L. unfold handleDistanceUpdate. cbv zeta.
  set (a0 := a <| currentLocationRef := _ |>). assert (G0 : game_ok a0) by exact G.
  assert (T : forall a', stepped a0 a' -> stepped a a') by (intros a' [? ? ?]; split; assumption).
  change (playerRef (session a0)) with (playerRef (session a)).
  match goal with |- rand_post (onDistanceEncounterUpdate _ _ _ ?x) _ => set (a1 := x) end.
  assert (S1 : stepped a0 a1).
  { unfold a1. destruct (playerRef (session a)) as [p|] eqn:P; [|apply stepped_same, G0].
    pose proof (ok_player _ (proj1 G) p P) as W. apply stepped_session; [exact G0 | | ].
    - apply setPlayer_ok; [rewrite clone_eq by exact W; apply with_counters_wf, W | apply G].
    - change (session a0) with (session a). adv. }
  eapply rand_post_weaken; [|intros a' S2; apply T, (stepped_trans _ _ _ G0 S1 S2)].
  unfold onDistanceEncounterUpdate. destruct (encounterRef (session a1)) as [enc|] eqn:E.
  - apply rand_post_ret. destruct (too_far _ _ _); [|apply stepped_same, S1].
    apply stepped_session; [apply S1 | apply handleFlee_ok, S1 | apply handleFlee_advanced].
  - destruct (playerRef (session a)) as [p|] eqn:P; [|apply rand_post_ret, stepped_same, S1].
    eapply rand_post_bind; [apply process_gated_spec|]. intros [svc [|e n|]] Hr; try contradiction.
    + apply rand_post_ret. destruct S1 as [X Y Z]. split; [exact X | apply game_keys_only_refl | adv].
    + destruct Hr as (_ & _ & _ & _ & F).
      assert (C : encounter_ok e) by (eapply fresh_creature_ok; [exact F | apply (L p), eq_refl]).
      eapply rand_post_weaken; [apply route_stepped; [exact (st_ok _ _ S1) | exact C | exact E]|].
      intros a' [X Y Z]. split; assumption.
Qed.

Lemma refresh_stepped now a : game_ok a -> exists a', refreshHeldFoe now a = Some a' /\ stepped a a'.
Proof.
  intros G. unfold refreshHeldFoe. destruct (encounterRef (session a)); [eauto using stepped_same|].
  pose proof (touches_pending _ (store a) touches_load_pending) as D.
  destruct (load_pending_ok (store a) (proj2 G)) as [P L].
  destruct (loadPendingEncounter (store a)) as [o d]. cbn [fst snd] in *.
  assert (S1 : stepped a (a <| store := d |>)) by (apply stepped_store; assumption).
  assert (S2 : forall x, (forall y, x = Some y -> creature_ok (e_creature y)) ->
    stepped a (a <| store := d |> <| session := hold_foe x (session (a <| store := d |>)) |>)).
  { intros x Hx. apply (stepped_trans _ _ _ G S1), stepped_session; [apply S1 | |].
    - apply hold_foe_ok; [exact Hx | apply S1].
    - destruct x; adv. }
  destruct L as [-> | (e & C & ->)]; cbv zeta.
  - eexists. split; [reflexivity|]. apply S2. discriminate.
  - rewrite dec_encounter_round. eexists. split; [reflexivity|]. apply S2.
    intros y [= <-]. unfold rebuild_encounter, hold_data, new_Encounter, new_Creature. simpl.
    unfold creature_ok in *. simpl in *. unfold or_number. destruct C as [C1 C2].
    repeat case_match; simpl; lia.
Qed.

Lemma engage_stepped a : game_ok a -> stepped a (engageHeldFoe a).
Proof.
  intros G. unfold engageHeldFoe. destruct (engageable (session a)) as [o|] eqn:E;
    [|apply stepped_same, G].
  pose proof (touches_pending _ (store a) touches_clear_pending) as D.
  pose proof (clear_pending_ok (store a) (proj2 G)) as P.
  destruct (clearPendingEncounter (store a)) as [r d]. cbn [fst snd] in *.
  assert (S1 : stepped a (a <| store := d |>)) by (apply stepped_store; assumption). cbv zeta.
  destruct r as [[]|]; try exact S1. apply (stepped_trans _ _ _ G S1), stepped_session; [apply S1 | | adv].
  unfold engageable in E. destruct (encounterRef (session a)) eqn:N; [discriminate|].
  destruct (ok_held _ (proj1 G) o E). apply engage_ok; auto. apply G.
Qed.

Lemma force_fresh svc now loc lvl r :
  rand_post (Encounter.forceEncounter svc now loc lvl r) (fun x =>
    forall e, snd x = Some e -> fresh_encounter now loc lvl e).
Proof.
  unfold Encounter.forceEncounter, generateEncounter.
  rand_step createRandomEncounter_fresh o Ho. destruct Ho as (e & -> & F).
  apply rand_post_ret. intros e' [= <-]. exact F.
Qed.

Lemma forced_stepped now loc lvl r k a : game_ok a -> lvl <= 2 ^ 39 ->
  (forall e a1, encounter_ok e -> game_ok a1 -> session a1 = session a -> rand_post (k e a1) (stepped a1)) ->
  rand_post (with_forced now loc lvl r k a) (stepped a).
Proof.
  intros G L Hk. unfold with_forced. rand_step force_fresh x Hx. destruct x as [svc [e|]]; cbn [snd] in Hx.
  - eapply rand_post_weaken; [apply (Hk e (a <| service := svc |>))|].
    + eapply fresh_creature_ok; [apply Hx; reflexivity | exact L].
    + exact G.
    + reflexivity.
    + intros a' [X Y Z]. split; assumption.
  - apply rand_post_ret. split; [exact G | apply game_keys_only_refl | adv].
Qed.

Lemma debug_level a : level_ok (playerRef (session a)) -> snd (debugEncounterContext a) <= 2 ^ 39.
Proof. intros L. cbn. destruct (playerRef (session a)) as [p|] eqn:P; cbn; [apply (L p), eq_refl | lia]. Qed.

(** The debug panel's "force encounter", used when no encounter is active. *)
Lemma force_stepped now a : game_ok a -> level_ok (playerRef (session a)) ->
  encounterRef (session a) = None -> rand_post (EncounterFlow.forceEncounter now a) (stepped a).
Proof.
  intros G L E. unfold EncounterFlow.forceEncounter. destruct (debugEncounterContext a) as [loc l].
  apply forced_stepped; [exact G | |].
  - destruct (playerRef (session a)) as [p|] eqn:P; cbn; [|lia]. specialize (L p eq_refl).
    unfold or_number. case_match; lia.
  - intros e a1 C G1 Es. apply rand_post_ret, stepped_session; [exact G1 | | adv].
    apply presentEncounter_ok; [exact C | simpl; lia | cbn; rewrite Es; exact E | apply fresh_ok, G1].
Qed.

Lemma forceIdle_stepped now r a : game_ok a -> level_ok (playerRef (session a)) ->
  rand_post (debugForceIdleEncounter now r a) (stepped a).
Proof.
  intros G L. unfold debugForceIdleEncounter. pose proof (debug_level a L) as Lv.
  destruct (debugEncounterContext a) as [loc l]. apply forced_stepped; [exact G | exact Lv|].
  intros e a1 C G1 _. apply resolvePassive_stepped; assumption.
Qed.

Lemma forceElite_stepped now r a : game_ok a -> level_ok (playerRef (session a)) ->
  rand_post (debugForceEliteEncounter now r a) (stepped a).
Proof.
  intros G L. unfold debugForceEliteEncounter. pose proof (debug_level a L) as Lv.
  destruct (debugEncounterContext a) as [loc l]. apply forced_stepped; [exact G | exact Lv|].
  intros e a1 C G1 _. pose proof (hold_stepped e a1 G1 C) as S.
  destruct (holdEliteEncounter e a1) as [[] a2]; [apply rand_post_ret; exact S|].
  eapply rand_post_weaken; [apply resolvePassive_stepped; [apply S | exact C]|].
  intros a'. apply (stepped_trans _ _ _ G1 S).
Qed.

Lemma append_all_kept entries : forall d, pending_ok d ->
  pending_ok (append_all entries d) /\ game_keys_only d (append_all entries d).
Proof.
  induction entries as [|e l IH]; intros d P; cbn [append_all]; [auto using game_keys_only_refl|].
  destruct (touches_summary _ d (touches_append e) P) as [P1 E1].
  destruct (IH _ P1) as [P2 E2]. eauto using game_keys_only_trans.
Qed.

End Steps.
