(* ===== verification/Home.v ===== *)
(** * Home: the game and the player session together

    [src/screens/HomeScreen.tsx] joins the hooks: [useEncounter] is given [playerRef] and
    [setPlayerAndSave] of [usePlayer], both work on one store, and an account switch
    clears both.  Here the two models are joined the same way.  A handler of the game
    runs with the live player and the shared store ([enter]); the saves it issued are
    then made by the player session, in order ([leave]).  The saves touch the keys of
    the player and the handler those of the encounters, so taking the saves last
    changes nothing that is stored. *)
From stdpp Require Import base decidable strings list gmap.
From Stdlib Require Import ZArith QArith Lia.
From S2P Require Import Prelude JsNumber Random Combat Archetype Ability CombatFeed Creature.
From S2P Require Import Config Item Player Loot AutoCombat Encounter Location Json CloudSync.
From S2P Require Import Storage CombatSession SessionInvariant EncounterFlow PlayerSession GameStep.
Local Open Scope Z_scope.

(** ** The home screen *)

Section Home.
Context `{Trig} `{AsyncStorage}.

(** The player session, the game (whose player and store are those of the session: see
    [enter]), the suspended [checkWalkSummary] with what it captured and drained, the
    app state the foreground effect saw last, and the auto-resolve setting with the
    value its mount effect is still to apply. *)
Record Home := mkHome {
  world : World;
  game : App;
  summaryCheck : option (SummaryCheck * list json);
  prevActive : bool;
  autoResolveBelowRareRef : bool;
  settingLoad : option json
}.

#[global] Instance Home_fields : Fields Home := fun h =>
  mkHome (world h) (game h) (summaryCheck h) (prevActive h) (autoResolveBelowRareRef h)
    (settingLoad h).

(** [playerRef.current] *)
Definition live_player (h : Home) : option Player := po_player <$> h_playerRef (hook (world h)).

Definition with_player (o : option Player) (s : Session) : Session :=
  s <| playerRef := o |> <| saves := option_list o |>.

(** The app a handler of the game finds. *)
Definition enter (h : Home) : App :=
  game h <| session := with_player (live_player h) (session (game h)) |>
         <| store := wdisk (world h) |>.

(** The saves a handler issued. *)
Definition issued (h : Home) (a : App) : list Player :=
  drop (length (option_list (live_player h))) (saves (session a)).

Definition save_all (now : Z) (ps : list Player) (w : World) : World :=
  fold_left (fun w p => PlayerSession.setPlayerAndSave now p w) ps w.

(** The handler is done: its saves are made. *)
Definition leave (now : Z) (h : Home) (a : App) : Home :=
  h <| game := a |>
    <| world := save_all now (issued h a) (world h <| wdisk := store a |>) |>.

Definition play (now : Z) (m : App -> Rand App) (h : Home) : Rand (option Home) :=
  let! a := m (enter h) in rand_ret (Some (leave now h a)).

Definition on_session (f : Session -> Rand Session) (a : App) : Rand App :=
  let! s := f (session a) in rand_ret (a <| session := s |>).

(** The foreground gate's environment is the app state and the setting. *)
Definition gate_env (now now' : Z) (h : Home) : GateEnv :=
  mkGateEnv now now' (negb (appActive (world h))) (autoResolveBelowRareRef h).

(** [onAccountSwitch]: the player and the encounter are cleared together. *)
Definition clear_game (h : Home) : Home :=
  h <| game := game h <| session := CombatSession.clearEncounter (session (game h)) |> |>.

Definition clears (ev : PlayerEvent) : bool :=
  match ev with PlayerSession.EvClear | EvSwitch => true | _ => false end.

Definition on_player (now : Z) (ev : PlayerEvent) (h : Home) : option Home :=
  w ← PlayerSession.dispatch now ev (world h);
  let h := h <| world := w |> in
  Some (if clears ev then clear_game h else h).

(** [checkWalkSummary] up to its storage call, which takes effect when it is made. *)
Definition summary_start (h : Home) : Home :=
  match checkWalkSummary_start (bool_decide (is_Some (summaryCheck h))) (session (game h)) with
  | None => h
  | Some c =>
      let (r, d) := drainWalkSummary (wdisk (world h)) in
      h <| summaryCheck := Some (c, default [] r) |> <| world := world h <| wdisk := d |> |>
  end.

Definition summary_end (h : Home) : Home :=
  match summaryCheck h with
  | None => h
  | Some (c, entries) =>
      let (s, d) := checkWalkSummary_end c entries (session (game h)) (wdisk (world h)) in
      h <| summaryCheck := None |> <| game := game h <| session := s |> |>
        <| world := world h <| wdisk := d |> |>
  end.

Definition refresh_foe (now : Z) (h : Home) : option Home :=
  leave now h <$> refreshHeldFoe now (enter h).

(** The effect on [appState]. *)
Definition foreground_effect (now : Z) (h : Home) : option Home :=
  let active := appActive (world h) in
  h1 ← (if active && negb (prevActive h) then summary_start <$> refresh_foe now h else Some h);
  Some (h1 <| prevActive := active |>).

(** [useAutoResolveSetting]: the mount effect reads the setting and applies it when the
    read is done; a toggle sets the ref and stores the new value. *)
Definition setting_mount (h : Home) : Home :=
  let (r, d) := loadAutoResolveBelowRare (wdisk (world h)) in
  h <| settingLoad := r |> <| world := world h <| wdisk := d |> |>.

Definition setting_loaded (h : Home) : Home :=
  match settingLoad h with
  | Some v => h <| autoResolveBelowRareRef := truthy v |> <| settingLoad := None |>
  | None => h
  end.

Definition setAutoResolveBelowRare (enabled : bool) (h : Home) : Home :=
  let d := snd (saveAutoResolveBelowRare enabled (wdisk (world h))) in
  h <| autoResolveBelowRareRef := enabled |> <| world := world h <| wdisk := d |> |>.

(** The first render; the mount effects are events. *)
Definition open_home (active : bool) (d : disk) : Home :=
  mkHome (launch active d) (mkApp (initial_session None) new_EncounterService d None) None active
    false None.

Inductive HomeEvent :=
  | HPlayer (ev : PlayerEvent)
  | HGame (ev : CombatSession.Event)
  | HDistance (now' : Z) (dd : DistanceData)
  | HRefreshFoe
  | HEngageFoe
  | HSummaryStart
  | HSummaryEnd
  | HSummaryDismiss
  | HForeground
  | HSettingMount
  | HSettingLoaded
  | HToggle (enabled : bool)
  | HForce
  | HForceIdle (rarity : Rarity)
  | HForceElite (rarity : Rarity).

Definition dispatch (now : Z) (ev : HomeEvent) (h : Home) : Rand (option Home) :=
  match ev with
  | HPlayer ev => rand_ret (on_player now ev h)
  | HGame ev => play now (on_session (CombatSession.dispatch now ev)) h
  | HDistance now' dd => play now (handleDistanceUpdate (gate_env now now' h) dd) h
  | HRefreshFoe => rand_ret (refresh_foe now h)
  | HEngageFoe => play now (fun a => rand_ret (engageHeldFoe a)) h
  | HSummaryStart => rand_ret (Some (summary_start h))
  | HSummaryEnd => rand_ret (Some (summary_end h))
  | HSummaryDismiss => play now (on_session (fun s => rand_ret (dismissWalkSummary s))) h
  | HForeground => rand_ret (foreground_effect now h)
  | HSettingMount => rand_ret (Some (setting_mount h))
  | HSettingLoaded => rand_ret (Some (setting_loaded h))
  | HToggle enabled => rand_ret (Some (setAutoResolveBelowRare enabled h))
  | HForce => play now (EncounterFlow.forceEncounter now) h
  | HForceIdle r => play now (debugForceIdleEncounter now r) h
  | HForceElite r => play now (debugForceEliteEncounter now r) h
  end.

Fixpoint run (evs : list (Z * HomeEvent)) (h : Home) : Rand (option Home) :=
  match evs with
  | [] => rand_ret (Some h)
  | (now, ev) :: evs =>
      let! o := dispatch now ev h in
      match o with Some h => run evs h | None => rand_ret None end
  end.

End Home.

(** ** The held foe through the player session *)

Section Spared.
Context `{AsyncStorageLaws}.

(** [m] leaves what is under [k] alone, or removes it. *)
Definition spares {A} (k : string) (m : IO A) : Prop :=
  forall d, contents (snd (m d)) k = contents d k \/ contents (snd (m d)) k = None.

Lemma spares_touches {A} k ks (m : IO A) : touches ks m -> k ∉ ks -> spares k m.
Proof. intros T N d. left. apply T, N. Qed.

Lemma spares_bind {A B} k (m : IO A) (f : A -> IO B) :
  spares k m -> (forall a, spares k (f a)) -> spares k (bind m f).
Proof.
  intros M F d. unfold bind. specialize (M d). destruct (m d) as [[a|] d']; cbn [snd] in *; [|exact M].
  destruct (F a d') as [->|E]; auto.
Qed.

Lemma spares_try {A} k (m h : IO A) : spares k m -> spares k h -> spares k (try_catch m h).
Proof.
  intros M F d. unfold try_catch. specialize (M d). destruct (m d) as [[a|] d']; cbn [snd] in *; [exact M|].
  destruct (F d') as [->|E]; auto.
Qed.

Lemma spares_remove k ks : spares k (io_remove ks).
Proof.
  intros d. unfold io_remove. pose proof (multiRemove_ok ks d k) as A. pose proof (multiRemove_err ks d k) as B.
  destruct (multiRemove ks d) as [[] d']; cbn [fst snd] in *; [rewrite A by reflexivity | left; auto].
  destruct (decide _); auto.
Qed.

Lemma assoc_in {A} k (l : list (string * A)) v : assoc k l = Some v -> (k, v) ∈ l.
Proof.
  induction l as [|[k' v'] l IH]; cbn [assoc]; [discriminate|].
  destruct (decide (k' = k)) as [->|_]; [intros [= ->]; left | intros E; right; auto].
Qed.

Lemma spares_set k kvs : k ∉ kvs.*1 -> spares k (io_set kvs).
Proof.
  intros N d. left. unfold io_set. pose proof (multiSet_ok kvs d k) as A. pose proof (multiSet_err kvs d k) as B.
  destruct (multiSet kvs d) as [[] d']; cbn [fst snd] in *; [rewrite A by reflexivity | auto].
  unfold written. destruct (assoc k (rev kvs)) as [v|] eqn:E; [|reflexivity]. exfalso. apply N.
  apply assoc_in in E. apply list_elem_of_fmap. exists (k, v). split; [reflexivity|].
  apply list_elem_of_In, in_rev, list_elem_of_In, E.
Qed.

Lemma spares_get k ks : spares k (io_get ks).
Proof. intros d. left. unfold io_get. apply multiGet_pure. Qed.

Ltac spare :=
  repeat first
    [ apply (spares_touches _ []); [first [apply touches_ret | apply touches_throw | apply touches_parse]
                                   | apply not_elem_of_nil]
    | apply spares_remove | apply spares_get
    | apply spares_set; cbn; rewrite !not_elem_of_cons; repeat split; try discriminate; apply not_elem_of_nil
    | apply spares_bind; [|intros ?] | apply spares_try | case_match ].

Lemma spares_clear : spares STORAGE_KEYS.PENDING_ENCOUNTER clearLocalPlayerData.
Proof. unfold clearLocalPlayerData. spare. Qed.

Lemma spares_write j t : spares STORAGE_KEYS.PENDING_ENCOUNTER (writeLocalPlayerSnapshot j t).
Proof. unfold writeLocalPlayerSnapshot. spare. Qed.

Lemma spares_read : spares STORAGE_KEYS.PENDING_ENCOUNTER readLocalPlayerSnapshot.
Proof. unfold readLocalPlayerSnapshot, clearLocalPlayerData. spare. Qed.

Lemma spares_savePlayer p now : spares STORAGE_KEYS.PENDING_ENCOUNTER (savePlayerData p now).
Proof. unfold savePlayerData. spare. Qed.

Lemma spares_reconcile c : spares STORAGE_KEYS.PENDING_ENCOUNTER (reconcileCloudPlayerData c).
Proof. unfold reconcileCloudPlayerData, readLocalPlayerSnapshot, clearLocalPlayerData, writeLocalPlayerSnapshot. spare. Qed.
End Spared.

Section Worlds.
Context `{AsyncStorageLaws}.

(** What the player session may do to the rest of the home screen's state: the stored
    foe stays or goes, and a live player is not lost. *)
Record mild (w w' : World) : Prop := {
  mi_pending : contents (wdisk w') STORAGE_KEYS.PENDING_ENCOUNTER
                 = contents (wdisk w) STORAGE_KEYS.PENDING_ENCOUNTER
               \/ contents (wdisk w') STORAGE_KEYS.PENDING_ENCOUNTER = None;
  mi_ref : is_Some (h_playerRef (hook w)) -> is_Some (h_playerRef (hook w'))
}.

Lemma mild_same w w' : wdisk w' = wdisk w -> h_playerRef (hook w') = h_playerRef (hook w) -> mild w w'.
Proof. intros E1 E2. split; rewrite ?E1, ?E2; auto. Qed.

Lemma mild_trans w1 w2 w3 : mild w1 w2 -> mild w2 w3 -> mild w1 w3.
Proof. intros [A1 B1] [A2 B2]. split; [|auto]. destruct A2 as [->|]; auto. Qed.

Lemma mild_io {A} (m : IO A) (w w' : World) : spares STORAGE_KEYS.PENDING_ENCOUNTER m ->
  wdisk w' = snd (m (wdisk w)) ->
  (is_Some (h_playerRef (hook w)) -> is_Some (h_playerRef (hook w'))) -> mild w w'.
Proof. intros S E R. split; [rewrite E; apply S | exact R]. Qed.

Lemma begin_mild now p w : mild w (fst (begin_save now p w)).
Proof.
  apply (mild_io (savePlayerData (toJSON p) now)); [apply spares_savePlayer| |];
    unfold begin_save; destruct (savePlayerData _ _ _) as [r d]; cbn; auto.
Qed.

Lemma save_mild now p w : mild w (save now p w)
  /\ h_playerRef (hook (save now p w)) = h_playerRef (hook w).
Proof.
  unfold save. pose proof (begin_mild now p w) as M. unfold begin_save in *.
  destruct (savePlayerData _ _ _) as [r d]. cbn [fst] in M.
  split; [|reflexivity]. eapply mild_trans; [exact M | apply mild_same; reflexivity].
Qed.

Lemma setPlayer_mild now p w : mild w (PlayerSession.setPlayerAndSave now p w)
  /\ po_player <$> h_playerRef (hook (PlayerSession.setPlayerAndSave now p w)) = Some p.
Proof.
  unfold PlayerSession.setPlayerAndSave, put_player. set (po := mkPlayerObj _ p).
  set (w1 := w <| hook := _ |> <| nextPlayer := _ |> <| hook := _ |>).
  assert (M : mild w w1) by (split; [auto | intros _; eexists; reflexivity]).
  destruct (h_provisional (hook w1)).
  - split; [|reflexivity]. apply (mild_trans _ w1); [exact M|].
    apply (mild_io (writeLocalPlayerSnapshot (enc_player (toJSON p)) 0)); auto. apply spares_write.
  - split; [apply (mild_trans _ w1); [exact M | apply save_mild]|].
    rewrite (proj2 (save_mild now p w1)). reflexivity.
Qed.

Lemma adopt_mild p w : mild w (adopt p w).
Proof. split; [auto | intros _; eexists; reflexivity]. Qed.

Lemma select_mild now g a i r w w' : select_loop now g a i r w = Some w' -> mild w w'.
Proof.
  assert (F : select_finish now a r w = Some w' -> mild w w').
  { unfold select_finish. destruct (h_playerRef (hook w)) eqn:P; [intros [= <-]; apply mild_same; reflexivity|].
    destruct r as [j| |].
    - destruct (load_player j); [|discriminate]. intros [= <-]. apply adopt_mild.
    - cbn [put_player]. match goal with |- context [begin_save now ?p ?w0] =>
        pose proof (begin_mild now p w0) as M; destruct (begin_save now p w0) as [w1 up] end.
      intros [= <-]. apply (mild_trans _ w1); [|apply mild_same; reflexivity].
      eapply mild_trans; [|exact M]. split; [auto | intros _; eexists; reflexivity].
    - intros [= <-]. apply (mild_io (writeLocalPlayerSnapshot (enc_player (toJSON (fresh_player a))) 0));
        [apply spares_write | reflexivity | intros _; eexists; reflexivity]. }
  unfold select_loop. destruct r; try exact F. destruct (_ <? _)%nat; [|exact F].
  intros [= <-]. apply mild_same; reflexivity.
Qed.

Lemma keeps_mild w h : keeps (hook w) h -> mild w (w <| hook := h |>).
Proof. intros (_ & E & _). apply mild_same; [reflexivity | exact E]. Qed.

Lemma resume_mild now t w w' : resume now t w = Some w' -> mild w w'.
Proof.
  destruct t as [g r | g n | g a n | g a i | g a i n | up | up]; cbn [resume].
  - unfold init_loaded. destruct (negb _); [intros [= <-]; apply mild_same; reflexivity|].
    destruct r as [[[j|] q]|]; try (intros [= <-]; apply mild_same; reflexivity).
    destruct (load_player j); [|discriminate]. intros [= <-].
    split; [auto | intros _; eexists; reflexivity].
  - destruct (result_of n w) as [r|]; [|intros [= <-]; apply mild_same; reflexivity].
    unfold effect_then. destruct (negb _); [intros [= <-]; apply mild_same; reflexivity|].
    destruct r as [j| |]; [|..|intros [= <-]; apply mild_same; reflexivity].
    + destruct (load_player j); [|discriminate]. intros [= <-]. apply adopt_mild.
    + destruct (h_playerRef (hook w)) as [po|] eqn:P; [|intros [= <-]; apply mild_same; reflexivity].
      destruct (h_provisional (hook w)); intros [= <-]; [|apply mild_same; reflexivity].
      set (w1 := w <| hook := _ |>). apply (mild_trans _ w1); [apply mild_same; reflexivity | apply save_mild].
  - destruct (result_of n w) as [r|]; [|intros [= <-]; apply mild_same; reflexivity].
    destruct (_ =? _); [apply select_mild | intros [= <-]; apply mild_same; reflexivity].
  - destruct (_ =? _); intros [= <-]; apply mild_same; reflexivity.
  - destruct (result_of n w) as [r|]; [|intros [= <-]; apply mild_same; reflexivity].
    destruct (_ =? _); [apply select_mild | intros [= <-]; apply mild_same; reflexivity].
  - intros [= <-]. apply mild_same; reflexivity.
  - intros [= <-]. apply mild_same; reflexivity.
Qed.

Lemma app_state_mild b w : mild w (app_state b w).
Proof.
  unfold app_state. destruct b; [|apply mild_same; reflexivity].
  destruct (reassert_keeps (hook w)) as (_ & E & _).
  apply mild_same; cbn [hook assign wdisk] in *; [reflexivity|]. destruct (h_pendingCommit _) as [pc|]; [|exact E].
  destruct (fire_keeps (pc_commit pc) (reassert (hook w))) as (_ & E' & _). cbn. congruence.
Qed.

Lemma render_mild w : mild w (render w).
Proof.
  unfold render, reconcile_effect, start_reconcile. repeat case_match; simplify_eq;
    apply mild_same; reflexivity.
Qed.

Lemma initialize_mild w : mild w (initializePlayer w).
Proof.
  apply (mild_io readLocalPlayerSnapshot); [apply spares_read| |];
    unfold initializePlayer; destruct (readLocalPlayerSnapshot (wdisk w)); [reflexivity | auto].
Qed.

(** Clearing apart, every event of the player session is mild. *)
Lemma dispatch_mild now ev w w' : PlayerSession.dispatch now ev w = Some w' -> clears ev = false ->
  mild w w'.
Proof.
  intros D C. destruct ev as [| | |f|a|b| | |n c|k]; try discriminate; cbn [PlayerSession.dispatch] in D;
    try injection D as <-.
  - apply initialize_mild.
  - destruct (h_playerRef (hook w)); [apply setPlayer_mild | apply mild_same; reflexivity].
  - unfold handleArchetypeSelected. destruct (h_cloudCheck _); apply mild_same; reflexivity.
  - apply app_state_mild.
  - apply keeps_mild, commit_timer_keeps.
  - apply render_mild.
  - unfold settle. destruct (promises w !! n) as [[]|]; try (apply mild_same; reflexivity).
    apply (mild_io (reconcileCloudPlayerData c)); [apply spares_reconcile| |];
      destruct (reconcileCloudPlayerData c (wdisk w)); cbn; auto.
  - destruct (tasks w !! k) as [t|]; [|injection D as <-; apply mild_same; reflexivity].
    apply resume_mild in D. eapply mild_trans; [|exact D]. apply mild_same; reflexivity.
Qed.

Lemma player_keys_apart :
  (STORAGE_KEYS.PLAYER_DATA ∉ GAME_KEYS) /\ (STORAGE_KEYS.PLAYER_SAVED_AT ∉ GAME_KEYS).
Proof. split; (apply (bool_decide_unpack _); vm_compute; exact I). Qed.

(** The keys of the encounters are no part of the player session. *)
Lemma unread_disk w d : unread_ok w -> game_keys_only (wdisk w) d -> unread_ok (w <| wdisk := d |>).
Proof.
  intros [A B C D E] S.
  assert (S1 : contents d STORAGE_KEYS.PLAYER_DATA = contents (wdisk w) STORAGE_KEYS.PLAYER_DATA)
    by apply S, player_keys_apart.
  assert (S2 : contents d STORAGE_KEYS.PLAYER_SAVED_AT = contents (wdisk w) STORAGE_KEYS.PLAYER_SAVED_AT)
    by apply S, player_keys_apart.
  constructor; try assumption.
  destruct A as [A|(p & W & U1 & U2)]; [left; cbn; congruence | right; exists p].
  split; [exact W | split; cbn; congruence].
Qed.

(** The saves of a handler. *)
Lemma save_all_unread now ps : forall w, unread_ok w -> Forall wf_player ps ->
  (ps <> [] -> is_Some (h_playerRef (hook w))) -> unread_ok (save_all now ps w).
Proof.
  induction ps as [|p ps IH]; intros w W F N; [exact W|]. apply Forall_cons in F as [F1 F2].
  cbn [save_all fold_left]. destruct (N ltac:(discriminate)) as [po P].
  assert (W1 : unread_ok (PlayerSession.setPlayerAndSave now p w))
    by exact (save_ok now (fun _ => p) w W (fun _ _ => F1) po P).
  apply IH; [exact W1 | exact F2|]. intros _. apply setPlayer_mild. eauto.
Qed.

Lemma save_all_mild now ps : forall w, mild w (save_all now ps w)
  /\ po_player <$> h_playerRef (hook (save_all now ps w))
     = from_option Some (po_player <$> h_playerRef (hook w)) (last ps).
Proof.
  induction ps as [|p ps IH]; intros w; [split; [apply mild_same; reflexivity | reflexivity]|].
  cbn [save_all fold_left]. destruct (setPlayer_mild now p w) as [M E].
  destruct (IH (PlayerSession.setPlayerAndSave now p w)) as [M' E'].
  split; [exact (mild_trans _ _ _ M M')|]. unfold save_all in E'. rewrite E', E, last_cons.
  destruct (last ps); reflexivity.
Qed.

Lemma pending_spared d d' :
  contents d' STORAGE_KEYS.PENDING_ENCOUNTER = contents d STORAGE_KEYS.PENDING_ENCOUNTER
  \/ contents d' STORAGE_KEYS.PENDING_ENCOUNTER = None -> pending_ok d -> pending_ok d'.
Proof. intros [E|E] P; [exact (pending_same d d' E P) | left; exact E]. Qed.

(** Another player in the same session. *)
Lemma with_player_ok o o' s : session_ok (with_player o s) -> (forall p, o' = Some p -> wf_player p) ->
  (is_Some (killBeatTimerRef s) -> is_Some o') -> session_ok (with_player o' s).
Proof.
  intros K W B. destruct K. constructor; cbn in *; try assumption; destruct o'; auto.
  apply Forall_singleton; auto.
Qed.
End Worlds.

Section Joined.
Context `{Trig} `{AsyncStorageLaws}.

(** ** The player the game holds is the player that was saved *)

Lemma issued_last h a : advanced (session (enter h)) (session a) -> session_ok (session a) ->
  from_option Some (live_player h) (last (issued h a)) = playerRef (session a).
Proof.
  intros [[l E] _] K. unfold issued. cbn [enter session assign with_player saves] in E.
  rewrite <- (ok_last _ K), E, drop_app_length.
  destruct (live_player h) as [p|]; cbn [option_list].
  - change (option_list (Some p) ++ l) with (p :: l). rewrite last_cons. destruct (last l); reflexivity.
  - change (option_list None ++ l) with l. destruct (last l); reflexivity.
Qed.

Lemma leave_live now h a : advanced (session (enter h)) (session a) -> session_ok (session a) ->
  live_player (leave now h a) = playerRef (session a).
Proof.
  intros A K. unfold live_player at 1, leave. cbn [world assign].
  destruct (save_all_mild now (issued h a) (world h <| wdisk := store a |>)) as [_ E].
  rewrite E. exact (issued_last h a A K).
Qed.

Lemma leave_game now h a : stepped (enter h) a -> game_ok (enter (leave now h a)).
Proof.
  intros [[K P] D A]. pose proof (leave_live now h a A K) as Lv. split.
  - change (session_ok (with_player (live_player (leave now h a)) (session a))).
    apply (with_player_ok (playerRef (session a))).
    + assert (E : with_player (playerRef (session a)) (session a)
                  = session a <| saves := option_list (playerRef (session a)) |>).
      { destruct (session a); reflexivity. }
      rewrite E. destruct K. constructor; cbn in *; try assumption;
        destruct (playerRef (session a)); auto. apply Forall_singleton; auto.
    + rewrite Lv. apply (ok_player _ K).
    + rewrite Lv. apply (ok_beat _ K).
  - apply (pending_spared (store a)); [|exact P].
    destruct (save_all_mild now (issued h a) (world h <| wdisk := store a |>)) as [[M _] _]. exact M.
Qed.

(** Without a live player nothing is saved. *)
Lemma issued_none h a : advanced (session (enter h)) (session a) -> live_player h = None ->
  issued h a = [].
Proof.
  intros A L. unfold issued. rewrite L. cbn. rewrite (adv_none _ _ A);
    unfold enter, with_player; cbn; rewrite L; reflexivity.
Qed.

(** ** What play does

    Every event that is not one of the player session itself is a handler of the game, a
    change of the store outside the player's keys, or both in sequence. *)
Inductive played : Home -> Home -> Prop :=
  | played_leave now h a : stepped (enter h) a -> played h (leave now h a)
  | played_store h h' : world h' = world h <| wdisk := wdisk (world h') |> ->
      game_keys_only (wdisk (world h)) (wdisk (world h')) -> pending_ok (wdisk (world h')) ->
      session_ok (with_player (live_player h) (session (game h'))) -> played h h'
  | played_trans h1 h2 h3 : played h1 h2 -> played h2 h3 -> played h1 h3.

Lemma store_live h h' : world h' = world h <| wdisk := wdisk (world h') |> ->
  live_player h' = live_player h.
Proof. intros E. unfold live_player. rewrite E. reflexivity. Qed.

Lemma played_game h h' : played h h' -> game_ok (enter h) -> game_ok (enter h').
Proof.
  induction 1 as [now h a S | h h' E D P K | h1 h2 h3 _ IH1 _ IH2]; intros G.
  - apply leave_game, S.
  - split; [|exact P]. change (session_ok (with_player (live_player h') (session (game h')))).
    rewrite (store_live h h' E). exact K.
  - auto.
Qed.

Lemma play_played now m h : rand_post (m (enter h)) (stepped (enter h)) ->
  rand_post (play now m h) (fun o => exists h', o = Some h' /\ played h h').
Proof.
  intros M. unfold play. eapply rand_post_bind; [apply M|]. intros a S. apply rand_post_ret.
  eauto using played_leave.
Qed.

Lemma on_session_ok f h : game_ok (enter h) ->
  rand_post (f (session (enter h))) session_ok ->
  rand_post (f (session (enter h))) (advanced (session (enter h))) ->
  rand_post (on_session f (enter h)) (stepped (enter h)).
Proof.
  intros G A B. unfold on_session. eapply rand_post_bind; [exact (rand_post_both _ _ _ A B)|].
  intros s [K C]. apply rand_post_ret, stepped_session; assumption.
Qed.

Lemma played_frame h h' : game_ok (enter h) -> world h' = world h -> game h' = game h -> played h h'.
Proof.
  intros [K P] E1 E2. apply played_store; rewrite ?E1, ?E2; [destruct (world h); reflexivity | apply game_keys_only_refl | exact P | exact K].
Qed.

Lemma summary_start_played h : game_ok (enter h) -> played h (summary_start h).
Proof.
  intros G. unfold summary_start. destruct (checkWalkSummary_start _ _); [|apply played_frame; auto].
  destruct (touches_summary _ (wdisk (world h)) touches_drain (proj2 G)) as [P D].
  destruct (drainWalkSummary (wdisk (world h))) as [r d].
  apply played_store; [reflexivity | exact D | exact P | apply G].
Qed.

Lemma summary_end_played h : game_ok (enter h) -> played h (summary_end h).
Proof.
  intros G. unfold summary_end. destruct (summaryCheck h) as [[c l]|]; [|apply played_frame; auto].
  assert (K0 : session_ok (with_player (live_player h) (session (game h)))) by apply G.
  unfold checkWalkSummary_end. destruct l as [|e l].
  { apply played_store; [reflexivity | apply game_keys_only_refl | apply G | exact K0]. }
  destruct (blocked c _).
  - destruct (append_all_kept (e :: l) (wdisk (world h)) (proj2 G)) as [P D].
    apply played_store; [reflexivity | exact D | exact P | exact K0].
  - apply played_store; [reflexivity | apply game_keys_only_refl | apply G |].
    cbn [session game assign]. destruct K0. constructor; cbn in *; assumption.
Qed.

Lemma refresh_played now h : game_ok (enter h) -> exists h', refresh_foe now h = Some h' /\ played h h'.
Proof.
  intros G. destruct (refresh_stepped now (enter h) G) as (a & E & S).
  unfold refresh_foe. rewrite E. eauto using played_leave.
Qed.

Lemma foreground_played now h : game_ok (enter h) ->
  exists h', foreground_effect now h = Some h' /\ played h h'.
Proof.
  intros G. unfold foreground_effect. cbv zeta. destruct (_ && _).
  - destruct (refresh_played now h G) as (h1 & -> & P1). cbn. eexists. split; [reflexivity|].
    pose proof (played_game _ _ P1 G) as G1. pose proof (summary_start_played h1 G1) as P2.
    apply (played_trans _ _ _ P1), (played_trans _ _ _ P2), played_frame; [exact (played_game _ _ P2 G1) | reflexivity..].
  - eexists. split; [reflexivity|]. apply played_frame; [exact G | reflexivity..].
Qed.

Lemma setting_mount_played h : game_ok (enter h) -> played h (setting_mount h).
Proof.
  intros G. unfold setting_mount.
  assert (T : touches [STORAGE_KEYS.AUTO_RESOLVE_BELOW_RARE] loadAutoResolveBelowRare)
    by (unfold loadAutoResolveBelowRare, load_flag; footprint).
  destruct (touches_setting _ (wdisk (world h)) T (proj2 G)) as [P D].
  destruct (loadAutoResolveBelowRare (wdisk (world h))) as [r d].
  apply played_store; [reflexivity | exact D | exact P | apply G].
Qed.

Lemma toggle_played b h : game_ok (enter h) -> played h (setAutoResolveBelowRare b h).
Proof.
  intros G. assert (T : touches [STORAGE_KEYS.AUTO_RESOLVE_BELOW_RARE] (saveAutoResolveBelowRare b))
    by (unfold saveAutoResolveBelowRare, save_json; footprint).
  destruct (touches_setting _ (wdisk (world h)) T (proj2 G)) as [P D].
  apply played_store; [reflexivity | exact D | exact P | apply G].
Qed.

(** The handlers of the fight that the screens call. *)
Definition screen_event (ev : CombatSession.Event) : bool :=
  match ev with
  | EvPresent _ | EvHold _ | EvEngage | CombatSession.EvClear | EvPlayer _ => false
  | _ => true
  end.

(** Everything but the player session itself. *)
Definition play_event (ev : HomeEvent) : bool :=
  match ev with
  | HPlayer _ => false
  | HGame ev => screen_event ev
  | _ => true
  end.

(** The monitored conditions: no load that found no save completes over a live character
    ([orphans]), encounters are generated below level 2^39, and the debug panel forces an
    encounter only when none is active. *)
Definition low_level (h : Home) : bool := from_option (fun p => p_level p <=? 2 ^ 39) true (live_player h).

Definition paced_step (ev : HomeEvent) (h : Home) : bool :=
  match ev with
  | HPlayer ev => negb (orphans ev (world h))
  | HDistance _ _ | HForceIdle _ | HForceElite _ => low_level h
  | HForce => low_level h && bool_decide (encounterRef (session (game h)) = None)
  | _ => true
  end.

Fixpoint paced (evs : list (Z * HomeEvent)) (h : Home) (r : rng) : bool :=
  match evs with
  | [] => true
  | (now, ev) :: evs =>
      paced_step ev h
      && let (o, r) := dispatch now ev h r in from_option (fun h => paced evs h r) true o
  end.

Lemma low_level_ok h : low_level h = true -> level_ok (playerRef (session (enter h))).
Proof.
  unfold low_level. intros L p P. change (live_player h = Some p) in P. rewrite P in L.
  apply Z.leb_le, L.
Qed.

Lemma screen_event_ok ev : screen_event ev = true -> event_ok ev.
Proof. destruct ev; try discriminate; exact (fun _ => I). Qed.

Lemma dispatch_played now ev h : game_ok (enter h) -> play_event ev = true -> paced_step ev h = true ->
  rand_post (dispatch now ev h) (fun o => exists h', o = Some h' /\ played h h').
Proof.
  intros G O Q. destruct ev; try discriminate; cbn [dispatch].
  - apply play_played. apply screen_event_ok in O.
    apply on_session_ok; [exact G | apply dispatch_ok; [exact O | apply G]
      | apply dispatch_advanced; [exact O | apply G]].
  - apply play_played, distance_stepped; [exact G | apply low_level_ok, Q].
  - apply rand_post_ret, refresh_played, G.
  - apply play_played, rand_post_ret, engage_stepped, G.
  - apply rand_post_ret. eauto using summary_start_played.
  - apply rand_post_ret. eauto using summary_end_played.
  - apply play_played, on_session_ok; [exact G | |]; apply rand_post_ret; [|adv].
    destruct G as [[] _]. constructor; assumption.
  - apply rand_post_ret, foreground_played, G.
  - apply rand_post_ret. eauto using setting_mount_played.
  - apply rand_post_ret. eexists. split; [reflexivity|]. unfold setting_loaded.
    destruct (settingLoad h); (apply played_frame; [exact G | reflexivity..]).
  - apply rand_post_ret. eauto using toggle_played.
  - apply andb_true_iff in Q as [Q1 Q2]. apply bool_decide_eq_true in Q2.
    apply play_played, force_stepped; [exact G | apply low_level_ok, Q1 | exact Q2].
  - apply play_played, forceIdle_stepped; [exact G | apply low_level_ok, Q].
  - apply play_played, forceElite_stepped; [exact G | apply low_level_ok, Q].
Qed.

(** ** The invariant while the cloud is unread *)

Lemma unread_in_flight w : unread_ok w -> in_flight w = [].
Proof.
  intros W. pose proof (uo_tasks w W) as T. unfold in_flight. induction T as [|t ts X _ IH]; [reflexivity|].
  csimpl. assert (E : task_upload t = None) by (destruct t; try exact X; reflexivity). rewrite E. exact IH.
Qed.

Record home_ok (h : Home) : Prop := {
  ho_world : unread_ok (world h);
  ho_game : game_ok (enter h)
}.

Lemma leave_unread now h a : unread_ok (world h) -> stepped (enter h) a -> unread_ok (world (leave now h a)).
Proof.
  intros W [[K _] D A]. apply (save_all_unread now _ (world h <| wdisk := store a |>)).
  - apply unread_disk; assumption.
  - apply Forall_drop, (ok_saves _ K).
  - intros N. destruct (h_playerRef (hook (world h))) as [po|] eqn:R; [cbn; rewrite R; eauto|].
    exfalso. apply N, issued_none; [exact A|]. unfold live_player. rewrite R. reflexivity.
Qed.

Lemma played_unread h h' : played h h' -> unread_ok (world h) -> unread_ok (world h').
Proof.
  induction 1 as [now h a S | h h' E D P K | h1 h2 h3 _ IH1 _ IH2]; intros W; [apply leave_unread; assumption | | auto].
  rewrite E. apply unread_disk; assumption.
Qed.

(** Events of the player session, with the encounter cleared where the player is. *)
Lemma on_player_ok now ev h : home_ok h -> unread_event ev -> orphans ev (world h) = false ->
  exists h', on_player now ev h = Some h' /\ home_ok h'.
Proof.
  intros [W [K P]] U Q. destruct (dispatch_unread now ev (world h) W U Q) as (w & E & W').
  unfold on_player. rewrite E. cbn. eexists. split; [reflexivity|].
  assert (Wf : forall p, po_player <$> h_playerRef (hook w) = Some p -> wf_player p).
  { intros p F. destruct (h_playerRef (hook w)) as [po|] eqn:R; [|discriminate].
    injection F as <-. apply (uo_ref w W' po R). }
  change (session_ok (with_player (live_player h) (session (game h)))) in K.
  destruct (clears ev) eqn:C.
  - split; [exact W'|]. split.
    + change (session_ok (with_player (po_player <$> h_playerRef (hook w))
                (CombatSession.clearEncounter (session (game h))))).
      apply (with_player_ok (live_player h)); [|exact Wf | intros [? [=]]].
      exact (clearEncounter_ok _ K).
    + apply (pending_spared (wdisk (world h))); [|exact P]. destruct ev; try discriminate.
      * injection E as <-. left. reflexivity.
      * injection E as <-. cbn. unfold initializePlayer.
        match goal with |- context [readLocalPlayerSnapshot ?d] =>
          pose proof (spares_read d) as S; destruct (readLocalPlayerSnapshot d) as [r d'] end.
        cbn in *. destruct (spares_clear (wdisk (world h))) as [S'|S'], S as [S|S]; rewrite ?S; auto.
  - pose proof (dispatch_mild now ev _ _ E C) as [M R]. split; [exact W'|]. split.
    + apply (with_player_ok (live_player h)); [exact K | exact Wf|]. intros B.
      apply fmap_is_Some, R. pose proof (ok_beat _ K B) as [p Hp].
      apply (proj1 (fmap_is_Some po_player _)). exists p. exact Hp.
    + apply (pending_spared (wdisk (world h))); [exact M | exact P].
Qed.

(** Saves from elsewhere in the app keep the player well formed, and no cloud read gets
    through. *)
Definition offline_event (ev : HomeEvent) : Prop :=
  match ev with HPlayer ev => unread_event ev | _ => play_event ev = true end.

Lemma dispatch_home now ev h : home_ok h -> offline_event ev -> paced_step ev h = true ->
  rand_post (dispatch now ev h) (fun o => exists h', o = Some h' /\ home_ok h').
Proof.
  intros K O Q.
  assert (P : play_event ev = true -> rand_post (dispatch now ev h) (fun o => exists h', o = Some h' /\ home_ok h')).
  { intros E. eapply rand_post_weaken; [apply dispatch_played; [apply K | exact E | exact Q]|].
    intros o (h' & -> & P). eexists. split; [reflexivity|].
    split; [apply (played_unread _ _ P), K | apply (played_game _ _ P), K]. }
  destruct ev; try (apply P, O). apply rand_post_ret, on_player_ok; [exact K | exact O | apply negb_true_iff, Q].
Qed.

(** ** What is kept *)

(** The live player is the one stored, or the device refused to write it. *)
Definition kept (h : Home) : Prop :=
  forall p, live_player h = Some p ->
    (exists t, stored (enc_player (toJSON p)) t (wdisk (world h))) \/ last (saveErrors (world h)) = Some (toJSON p).

(** A save stores the player, logging nothing, or logs that the device refused. *)
Definition attempted (p : Player) (w w' : World) : Prop :=
  (exists t, stored (enc_player (toJSON p)) t (wdisk w')) /\ saveErrors w' = saveErrors w
  \/ saveErrors w' = saveErrors w ++ [toJSON p].

Lemma setPlayer_attempted now p w : attempted p w (PlayerSession.setPlayerAndSave now p w).
Proof.
  unfold PlayerSession.setPlayerAndSave, put_player, attempted. destruct (h_provisional _).
  - unfold save_provisional. cbn [wdisk saveErrors assign].
    destruct (write_cases (enc_player (toJSON p)) 0 (wdisk w)) as [[-> S]|[-> _]]; [left | right; reflexivity].
    split; [exists 0; exact S | apply app_nil_r].
  - unfold save. match goal with |- context [begin_save now ?p ?w0] => pose proof (begin_save_cases now p w0) as B;
      destruct (begin_save now p w0) as [w1 up] end.
    destruct B as [_ [(_ & S & E)|(_ & _ & E)]]; [left; split; [exists now; exact S | exact E] | right; exact E].
Qed.

(** A run of saves. *)
Lemma save_all_attempted now ps : forall w,
  saveErrors w `prefix_of` saveErrors (save_all now ps w)
  /\ forall p, last ps = Some p ->
       (exists t, stored (enc_player (toJSON p)) t (wdisk (save_all now ps w)))
       \/ last (saveErrors (save_all now ps w)) = Some (toJSON p)
          /\ saveErrors (save_all now ps w) <> saveErrors w.
Proof.
  induction ps as [|q ps IH]; intros w; [split; [reflexivity | discriminate]|]. cbn [save_all fold_left].
  destruct (IH (PlayerSession.setPlayerAndSave now q w)) as [P L].
  pose proof (setPlayer_attempted now q w) as A.
  assert (G : saveErrors w `prefix_of` saveErrors (PlayerSession.setPlayerAndSave now q w))
    by (destruct A as [[_ ->]|E]; [reflexivity | rewrite E; eexists; reflexivity]).
  split; [etransitivity; eassumption|]. intros p E. rewrite last_cons in E.
  destruct (last ps) as [p'|] eqn:E'.
  - injection E as ->. destruct (L p eq_refl) as [S|[S N]]; [left; exact S | right; split; [exact S|]].
    intros X. apply N. unfold save_all in P, X. apply prefix_length in P as P'. apply prefix_length in G as G'.
    rewrite X in P, P'. apply (anti_symm prefix) in P; [|exact G]. rewrite <- P. exact X.
  - apply last_None in E'. subst ps. injection E as ->. cbn [fold_left].
    destruct A as [[S _]|X]; [left; exact S | right]. rewrite X, last_snoc. split; [reflexivity|].
    intros Y. apply (f_equal length) in Y. rewrite length_app in Y. cbn in Y. lia.
Qed.

Lemma same_stored d d' j t : game_keys_only d d' -> stored j t d -> stored j t d'.
Proof. intros D [A B]. split; rewrite D by apply player_keys_apart; assumption. Qed.

(** What a step may do to the record of failed saves. *)
Record keeping (h h' : Home) : Prop := {
  ke_errors : saveErrors (world h) `prefix_of` saveErrors (world h');
  ke_kept : kept h -> kept h';
  ke_saved : saveErrors (world h') = saveErrors (world h) ->
    (forall p, live_player h = Some p -> exists t, stored (enc_player (toJSON p)) t (wdisk (world h))) ->
    forall p, live_player h' = Some p -> exists t, stored (enc_player (toJSON p)) t (wdisk (world h'))
}.

Lemma keeping_trans h1 h2 h3 : keeping h1 h2 -> keeping h2 h3 -> keeping h1 h3.
Proof.
  intros [A1 B1 C1] [A2 B2 C2]. split; [etransitivity; eassumption | auto|].
  intros E. assert (E1 : saveErrors (world h2) = saveErrors (world h1))
    by (apply (anti_symm prefix); [rewrite <- E; exact A2 | exact A1]).
  assert (E2 : saveErrors (world h3) = saveErrors (world h2)) by congruence. auto.
Qed.

Lemma leave_keeping now h a : stepped (enter h) a -> keeping h (leave now h a).
Proof.
  intros S. destruct (S) as [[K _] D A]. unfold leave.
  destruct (save_all_attempted now (issued h a) (world h <| wdisk := store a |>)) as [P L].
  destruct (save_all_mild now (issued h a) (world h <| wdisk := store a |>)) as [_ R].
  cbn [saveErrors assign] in P, L.
  destruct (last (issued h a)) as [q|] eqn:E; cbn [from_option] in R.
  - specialize (L q eq_refl). split; [exact P| |].
    + intros _ p Lp. unfold live_player in Lp. cbn [world assign] in Lp |- *. rewrite R in Lp. injection Lp as <-.
      destruct L as [L|[L _]]; auto.
    + intros X _ p Lp. unfold live_player in Lp. cbn [world assign] in Lp, X |- *. rewrite R in Lp. injection Lp as <-.
      destruct L as [L|[_ L]]; [exact L | contradiction].
  - apply last_None in E. rewrite E in *. split; [exact P| |].
    + intros Kp p Lp. destruct (Kp p Lp) as [[t T]|T]; [left; exists t; exact (same_stored _ _ _ _ D T) | right; exact T].
    + intros _ St p Lp. destruct (St p Lp) as [t T]. exists t. exact (same_stored _ _ _ _ D T).
Qed.

Lemma played_keeping h h' : played h h' -> keeping h h'.
Proof.
  induction 1 as [now h a S | h h' E D P K | h1 h2 h3 _ IH1 _ IH2];
    [apply leave_keeping, S | | eapply keeping_trans; eassumption].
  assert (Er : saveErrors (world h') = saveErrors (world h)) by (rewrite E; reflexivity).
  split; [rewrite Er; reflexivity| |].
  - intros Kp p L. rewrite (store_live h h' E) in L. rewrite Er.
    destruct (Kp p L) as [[t T]|T]; [left; exists t; exact (same_stored _ _ _ _ D T) | right; exact T].
  - intros _ St p L. rewrite (store_live h h' E) in L. destruct (St p L) as [t T]. exists t.
    exact (same_stored _ _ _ _ D T).
Qed.

(** ** Nothing runs without a player *)

Lemma vacant_disk w d ups pend : vacant w ups pend -> vacant (w <| wdisk := d |>) ups pend.
Proof. intros [A B C D E F X]. constructor; assumption. Qed.

Lemma vacant_live h ups pend : vacant (world h) ups pend -> live_player h = None.
Proof. intros V. unfold live_player. rewrite (va_ref _ _ _ V). reflexivity. Qed.

Lemma played_vacant ups pend h h' : played h h' -> vacant (world h) ups pend -> vacant (world h') ups pend.
Proof.
  induction 1 as [now h a S | h h' E D P K | h1 h2 h3 _ IH1 _ IH2]; intros V; [|rewrite E; apply vacant_disk, V | auto].
  unfold leave. cbn [world assign].
  rewrite (issued_none h a (st_saves _ _ S) (vacant_live h ups pend V)). apply vacant_disk, V.
Qed.

(** ** Properties *)

(** C8: However the game is played, an unread cloud save is not overwritten.  Start the app
    with no save that was ever confirmed with the cloud, and let the whole home screen run:
    fights, timers, walking, passive rewards, held foes, walk summaries, settings, debug
    encounters, loads, selections and account switches, interleaved in any order, with any
    storage call failing.  As long as no cloud read gets through, not one of the saves all
    this makes starts a cloud write or is left waiting to start one; the run never gets
    stuck, the fight invariant holds at the end, and whatever character is live is marked
    provisional.  The run is one in which ([paced]) no load that found no save, because
    there is none or because its read failed, completes while a character is live (from
    there on the statement says nothing; [failed_reload_uploads_provisional] shows why),
    encounters are generated below level 2^39, and the debug panel forces an encounter
    only when none is active. *)
Theorem offline_play_uploads_nothing (active : bool) (d : disk) (evs : list (Z * HomeEvent)) (r : rng) :
  no_confirmed_save d -> pending_ok d -> Forall (fun e => offline_event (snd e)) evs ->
  wf_rng r -> paced evs (open_home active d) r = true ->
  exists h, fst (run evs (open_home active d) r) = Some h
    /\ uploads (world h) = [] /\ in_flight (world h) = [] /\ no_confirmed_save (wdisk (world h))
    /\ session_ok (session (enter h))
    /\ (live_player h <> None -> h_provisional (hook (world h)) = true).
Proof.
  intros U Pn V R Q.
  assert (K : home_ok (open_home active d)).
  { split; [apply launch_unread, U|]. split; [|exact Pn]. apply initial_session_ok. discriminate. }
  revert K Q R. generalize (open_home active d). revert r.
  induction evs as [|[now ev] evs IH]; intros r h K Q R.
  - exists h. destruct (K) as [W [S _]]. split; [reflexivity|]. split; [apply W|].
    split; [apply unread_in_flight, W|]. split; [apply W|]. split; [exact S|]. unfold live_player. destruct (h_playerRef (hook (world h))) as [po|] eqn:P;
      [intros _; apply (uo_ref _ W po P) | intros N; destruct N; reflexivity].
  - apply Forall_cons in V as [V1 V2]. cbn [paced] in Q. apply andb_true_iff in Q as [Q1 Q2].
    destruct (dispatch_home now ev h K V1 Q1 r R) as [(h' & E & K') R'].
    cbn [run]. unfold rand_bind. destruct (dispatch now ev h r) as [o r']. cbn [fst snd] in *. subst o.
    exact (IH V2 r' h' K' Q2 R').
Qed.

(** C7: Nothing earned lives only in memory, unless the device refused to write it.
    Whatever the game does (a fight, a timer, a walk, a reward, a foe engaged), with any
    storage call failing: if before it the live player was the stored one or the last
    whose write was refused, so it is after, field for field, whether it is provisional or
    confirmed; if no write of a player was refused on the way and the live player was the
    stored one before, it is the stored one after.  The session stays well formed.  (A
    write counts from when it is issued; the game does not wait for it.  [paced] asks for
    levels below 2^39 where encounters are generated, and forced encounters only when none
    is active.) *)
Theorem play_is_saved (evs : list (Z * HomeEvent)) (h : Home) (r : rng) :
  game_ok (enter h) -> kept h -> Forall (fun e => play_event (snd e) = true) evs ->
  wf_rng r -> paced evs h r = true ->
  exists h', fst (run evs h r) = Some h' /\ kept h' /\ session_ok (session (enter h'))
    /\ (saveErrors (world h') = saveErrors (world h) ->
        (forall p, live_player h = Some p -> exists t, stored (enc_player (toJSON p)) t (wdisk (world h))) ->
        forall p, live_player h' = Some p -> exists t, stored (enc_player (toJSON p)) t (wdisk (world h'))).
Proof.
  intros G D V R Q.
  cut (exists h', fst (run evs h r) = Some h' /\ keeping h h' /\ game_ok (enter h')).
  { intros (h' & E & [_ K S] & G'). exists h'. split; [exact E|]. split; [apply K, D|]. split; [apply G' | exact S]. }
  clear D. revert h r G R Q. induction evs as [|[now ev] evs IH]; intros h r G R Q.
  - exists h. split; [reflexivity|]. split; [apply played_keeping, played_frame; auto | exact G].
  - apply Forall_cons in V as [V1 V2]. cbn [paced] in Q. apply andb_true_iff in Q as [Q1 Q2].
    destruct (dispatch_played now ev h G V1 Q1 r R) as [(h1 & E & P) R'].
    cbn [run]. unfold rand_bind. destruct (dispatch now ev h r) as [o r']. cbn [fst snd] in *. subst o.
    destruct (IH V2 h1 r' (played_game _ _ P G) R' Q2) as (h' & E' & K & G').
    exists h'. split; [exact E'|]. split; [exact (keeping_trans _ _ _ (played_keeping _ _ P) K) | exact G'].
Qed.

(** The home screen once the player and the encounter are cleared and the screen painted. *)
Definition switched (h : Home) : Home :=
  clear_game (h <| world := render (clearPlayer (world h)) |>).

(** Everything that can still happen before the next load or selection. *)
Definition late_event (ev : HomeEvent) : bool :=
  match ev with
  | HPlayer ev => negb (starts_session ev)
  | HForce => false
  | ev => play_event ev
  end.

Lemma late_step now ev h ups pend : late_event ev = true -> vacant (world h) ups pend -> game_ok (enter h) ->
  rand_post (dispatch now ev h) (fun o => exists h', o = Some h' /\ vacant (world h') ups pend /\ game_ok (enter h')).
Proof.
  intros L V G. assert (Lv : low_level h = true) by (unfold low_level; rewrite (vacant_live h ups pend V); reflexivity).
  assert (P : play_event ev = true -> paced_step ev h = true ->
    rand_post (dispatch now ev h) (fun o => exists h', o = Some h' /\ vacant (world h') ups pend /\ game_ok (enter h'))).
  { intros E Q. eapply rand_post_weaken; [apply dispatch_played; [exact G | exact E | exact Q]|].
    intros o (h' & -> & P). eexists. split; [reflexivity|].
    split; [exact (played_vacant ups pend _ _ P V) | exact (played_game _ _ P G)]. }
  destruct ev as [ev| | | | | | | | | | | | | |]; try discriminate; try (apply P; assumption || reflexivity).
  cbn [dispatch late_event] in *. apply negb_true_iff in L. apply rand_post_ret.
  destruct (vacant_dispatch now ev (world h) ups pend V L) as (w & E & V'). unfold on_player. rewrite E. cbn.
  eexists. split; [reflexivity|]. pose proof (vacant_live h ups pend V) as Ln. destruct G as [K Pn].
  change (session_ok (with_player (live_player h) (session (game h)))) in K. rewrite Ln in K.
  destruct (clears ev) eqn:C; (split; [exact V'|]); split.
  - change (session_ok (with_player (po_player <$> h_playerRef (hook w))
      (CombatSession.clearEncounter (session (game h))))).
    rewrite (va_ref _ _ _ V'). exact (clearEncounter_ok _ K).
  - destruct ev; try discriminate. injection E as <-. exact Pn.
  - change (session_ok (with_player (po_player <$> h_playerRef (hook w)) (session (game h)))).
    rewrite (va_ref _ _ _ V'). exact K.
  - apply (pending_spared (wdisk (world h))); [apply (dispatch_mild now ev _ _ E C) | exact Pn].
Qed.

(** C9: Leaving an account stops the game too.  After [onAccountSwitch], whatever was in
    flight and however it completes (an armed kill beat, a counter-attack, a reveal, a GPS
    update, a suspended walk summary, a held foe read back and tapped, pending loads and
    retries of the player session), with any storage call failing, no player comes to life
    and none is shown until the app loads or the user chooses again, and nothing gets
    stuck.  Nothing is saved any more: what is uploaded in the meantime, and what is still
    waiting to be, are together exactly the saves whose local write was under way at the
    switch (whose uploads nothing checks: see [late_save_reaches_next_account]). *)
Theorem account_switch_quiesces (h : Home) (evs : list (Z * HomeEvent)) (r : rng) :
  game_ok (enter h) -> Forall (task_gen_ok (hook (world h))) (tasks (world h)) ->
  Forall (fun e => late_event (snd e) = true) evs -> wf_rng r ->
  exists h' late, fst (run evs (switched h) r) = Some h'
    /\ live_player h' = None /\ h_player (hook (world h')) = None
    /\ killBeatTimerRef (session (game h')) = None
    /\ uploads (world h') = uploads (world h) ++ late
    /\ late ++ in_flight (world h') ≡ₚ in_flight (world h).
Proof.
  intros [K Pn] Gn L R.
  assert (V : vacant (world (switched h)) (uploads (world h)) (in_flight (world h))) by exact (vacant_cleared _ Gn).
  assert (G : game_ok (enter (switched h))).
  { split.
    - change (session_ok (with_player (live_player (switched h)) (CombatSession.clearEncounter (session (game h))))).
      rewrite (vacant_live _ _ _ V). apply (with_player_ok (live_player h)); [|discriminate | intros [? [=]]].
      exact (clearEncounter_ok _ K).
    - apply (pending_spared (wdisk (world h))); [|exact Pn].
      apply (mi_pending _ _ (render_mild (clearPlayer (world h)))). }
  revert V G R. generalize (uploads (world h)) (in_flight (world h)). generalize (switched h). revert r. clear K Pn Gn h.
  induction evs as [|[now ev] evs IH]; intros r h ups pend V G R.
  - destruct (va_uploads _ _ _ V) as (late & U1 & U2). exists h, late. split; [reflexivity|]. pose proof (vacant_live h ups pend V) as Ln. split; [exact Ln|].
    split; [apply V|]. split; [|auto]. destruct G as [K _].
    destruct (killBeatTimerRef (session (game h))) as [q|] eqn:B; [|reflexivity].
    destruct (ok_beat _ K) as [p Hp]; [exists q; exact B|]. cbn in Hp. rewrite Ln in Hp. discriminate.
  - apply Forall_cons in L as [L1 L2].
    destruct (late_step now ev h ups pend L1 V G r R) as [(h' & E & V' & G') R'].
    cbn [run]. unfold rand_bind. destruct (dispatch now ev h r) as [o r']. cbn [fst snd] in *. subst o.
    exact (IH L2 r' h' ups pend V' G' R').
Qed.

End Joined.

(** *** Concrete runs *)

(** A first offline session: choose an archetype, walk in the background, come back, see
    the summary, and fight a forced encounter to its end. *)
Definition walked (m : Q) : DistanceData :=
  mkDistanceData m m (mkLocationData 0 0 5 None None 1 1700000100000).

Definition hit_it : list HomeEvent :=
  [HGame (EvAbility strike); HGame EvCounter; HGame EvCounter; HGame EvKillBeat].

Definition offline_day : list (Z * HomeEvent) :=
  ((fun e => (fst e, HPlayer (snd e))) <$> offline_start)
  ++ ((fun e => (1700000100000, e)) <$>
      [HSettingMount; HSettingLoaded; HPlayer (EvAppState false); HForeground;
       HDistance 1700000100001 (walked 60); HDistance 1700000200001 (walked 1200); HRefreshFoe;
       HPlayer (EvAppState true); HForeground; HSummaryEnd; HSummaryDismiss; HEngageFoe; HForce;
       HGame EvFight] ++ hit_it ++ hit_it ++ [HToggle true; HForceIdle rare; HForceElite epic]).

Definition empty_disk : @disk durable_storage := ∅.

Definition day_one : option (@Home durable_storage) := fst (@run sample_trig durable_storage offline_day
  (@open_home durable_storage true empty_disk) sample_rng).

Lemma offline_day_events : Forall (fun e => offline_event (snd e)) offline_day.
Proof.
  apply Forall_app. split.
  - apply Forall_fmap, Forall_fmap. repeat (apply Forall_cons_2; [try exact I; try reflexivity|]);
      [intros p; apply with_counters_wf .. | apply Forall_nil_2].
  - apply Forall_fmap. repeat (apply Forall_cons_2; [first [exact I | reflexivity]|]). apply Forall_nil_2.
Qed.

Lemma offline_play_uploads_nothing_witness :
  exists h, day_one = Some h /\ uploads (world h) = [] /\ in_flight (world h) = []
    /\ no_confirmed_save (wdisk (world h))
    /\ session_ok (session (enter h))
    /\ (live_player h <> None -> h_provisional (hook (world h)) = true).
Proof.
  apply (@offline_play_uploads_nothing sample_trig durable_storage durable_laws true empty_disk
           offline_day sample_rng).
  - left. reflexivity.
  - left. reflexivity.
  - apply offline_day_events.
  - apply sample_rng_wf.
  - vm_compute. reflexivity.
Defined.

(** A confirmed player, stored and live, in the middle of a kill beat. *)
Definition saved_world : @World durable_storage :=
  let po := mkPlayerObj 0 sample_player in
  mkWorld (initial_hook <| h_playerRef := Some po |> <| h_player := Some po |>) [] [] [] [] true
    {[STORAGE_KEYS.PLAYER_DATA := TJson (enc_player (toJSON sample_player));
      STORAGE_KEYS.PLAYER_SAVED_AT := TJson (jint 5000)]} 1.

Definition beat_session : Session :=
  scheduleVictory sample_player (initial_session (Some sample_player)).

Definition beat_home : @Home durable_storage :=
  mkHome saved_world (mkApp beat_session new_EncounterService (wdisk saved_world) None) None true false
    None.

Lemma beat_home_ok : game_ok (enter beat_home).
Proof.
  assert (K : session_ok beat_session).
  { apply scheduleVictory_ok; [apply sample_player_wf | eexists; reflexivity|].
    apply initial_session_ok. intros ? [= <-]. apply sample_player_wf. }
  split; [exact K | left; reflexivity].
Qed.

Lemma beat_home_kept : kept beat_home.
Proof. intros p [= <-]. left. exists 5000. split; reflexivity. Qed.

Definition a_walk : list (Z * HomeEvent) :=
  [(6000, HGame EvKillBeat); (1700000100000, HDistance 1700000100001 (walked 60));
   (1700000200000, HDistance 1700000200001 (walked 1200)); (1700000300000, HGame EvFlee)].

Lemma play_is_saved_witness : exists h',
  fst (@run sample_trig durable_storage a_walk beat_home sample_rng) = Some h' /\ kept h'
  /\ session_ok (session (enter h'))
  /\ (saveErrors (world h') = [] ->
      (forall p, live_player beat_home = Some p ->
         exists t, stored (enc_player (toJSON p)) t (wdisk (world beat_home))) ->
      forall p, live_player h' = Some p -> exists t, stored (enc_player (toJSON p)) t (wdisk (world h'))).
Proof.
  apply (@play_is_saved sample_trig durable_storage durable_laws);
    [apply beat_home_ok | apply beat_home_kept
    | repeat (apply Forall_cons_2; [reflexivity|]); apply Forall_nil_2 | apply sample_rng_wf
    | vm_compute; reflexivity].
Defined.

Lemma account_switch_quiesces_witness : exists h' late,
  fst (@run sample_trig durable_storage a_walk (switched beat_home) sample_rng) = Some h'
  /\ live_player h' = None /\ h_player (hook (world h')) = None
  /\ killBeatTimerRef (session (game h')) = None
  /\ uploads (world h') = [] ++ late /\ late ++ in_flight (world h') ≡ₚ [].
Proof.
  apply (@account_switch_quiesces sample_trig durable_storage durable_laws beat_home);
    [apply beat_home_ok | apply Forall_nil_2
    | repeat (apply Forall_cons_2; [reflexivity|]); apply Forall_nil_2 | apply sample_rng_wf].
Defined.

(** A walk summary that was being read when the account was switched is shown to the next
    account: the suspended check is not part of what [clearEncounter] clears. *)
Theorem stale_summary_after_switch `{AsyncStorage} (h : Home) (e : json) (l : list json) :
  summaryCheck h = Some (mkSummaryCheck false false, e :: l) ->
  walkSummary (session (game (summary_end (switched h)))) = Some (e :: l).
Proof. intros E. unfold summary_end, switched, clear_game. cbn. rewrite E. reflexivity. Qed.
