(* ===== verification/Inventory.v ===== *)
(** * The inventory

    [src/components/inventory/InventoryModal.tsx], the button of [ItemDetailsModal.tsx]
    and the callbacks [HomeScreen.tsx] gives them: listing and filtering items, selecting
    one, equipping and deleting it.

    The modal works on [player], the object of the last render, and changes it in place;
    [playerRef.current] may by then be a newer object with a copied inventory, and the
    callbacks of [HomeScreen] merge the two.  A player object is its identity and its
    value, and a change in place reaches every holder of the same object. *)
From stdpp Require Import base decidable strings list.
From Stdlib Require Import ZArith QArith Lia.
From S2P Require Import Prelude JsNumber Archetype Creature Config Item Player CombatSession SessionInvariant.
From S2P Require Import Json CloudSync Storage PlayerSession.
Local Open Scope Z_scope.

(** ** The list *)

(** One entry of [filteredInventoryData]: the slot's item and its original index. *)
Definition Row : Type := option Item * nat.

Definition rows_of (inventory : list (option Item)) : list Row :=
  imap (fun index item => (item, index)) inventory.

Definition fits (slot : EquipmentSlot) (row : Row) : bool :=
  match fst row with Some item => canEquipInSlot item slot | None => false end.

Definition filteredInventoryData (inventory : list (option Item)) (equipmentSlot : option EquipmentSlot)
    : list Row :=
  match equipmentSlot with
  | None => rows_of inventory
  | Some slot => List.filter (fits slot) (rows_of inventory)
  end.

Definition filled (row : Row) : bool := bool_decide (is_Some (fst row)).

Definition itemRows (data : list Row) : list Row := List.filter filled data.

Definition usedSlots (inventory : list (option Item)) : nat :=
  length (List.filter (fun item => bool_decide (is_Some item)) inventory).

Definition filteredUsedSlots (data : list Row) : nat := length (List.filter filled data).

Definition getSlotLabel (slot : EquipmentSlot) : string :=
  match slot with
  | slot_weapon => "Weapon" | slot_offhand => "Offhand" | slot_head => "Head"
  | slot_chest => "Chest" | slot_legs => "Legs" | slot_boots => "Boots"
  | slot_gloves => "Gloves" | slot_accessory1 => "Accessory" | slot_accessory2 => "Accessory"
  end.

(** The item an entry's stats are compared with, and the mark each stat gets. *)
Definition getEquippedFor (player : option Player) (target : Item) : option Item :=
  match player with
  | Some p => equip_get (p_equipment p) (getItemSlot target)
  | None => None
  end.

Inductive StatMark := better | worse | unmarked.

Definition stat_mark (value : Z) (equippedValue : option Z) : StatMark :=
  match equippedValue with
  | Some e => if e <? value then better else if value <? e then worse else unmarked
  | None => unmarked
  end.

Inductive StatKey := key_attack | key_defense | key_maxHp.

Definition STAT_DISPLAY : list StatKey := [key_attack; key_defense; key_maxHp].

Definition item_stat (key : StatKey) (item : Item) : option Z :=
  match key with
  | key_attack => it_attack item
  | key_defense => it_defense item
  | key_maxHp => it_maxHp item
  end.

(** The chips of a row: each stat the item has, its value and its mark. *)
Definition stat_chips (player : option Player) (item : Item) : list (StatKey * Z * StatMark) :=
  let equipped := getEquippedFor player item in
  omap (fun key =>
    value ← item_stat key item;
    Some (key, value, stat_mark value ((fun e => default 0 (item_stat key e)) <$> equipped)))
    STAT_DISPLAY.

(** ** The modal *)

Record InventoryModal := mkModal {
  selectedItem : option Item;
  selectedItemIndex : Z;
  showItemDetails : bool
}.

(** The state all the resets restore. *)
Definition deselected : InventoryModal := mkModal None (-1) false.

(** [inventory[index]]: [undefined] out of range. *)
Definition js_index (inventory : list (option Item)) (index : Z) : option Item :=
  if index <? 0 then None else mjoin (inventory !! Z.to_nat index).

(** [currentItem?.id === item.id] *)
Definition same_item (current : option Item) (item : Item) : bool :=
  match current with Some c => bool_decide (it_id c = it_id item) | None => false end.

(** The effect on [visible]. *)
Definition visible_effect (visible : bool) (m : InventoryModal) : InventoryModal :=
  if visible then m else deselected.

(** The effect that validates the selection. *)
Definition validate_effect (inventory : list (option Item)) (m : InventoryModal) : InventoryModal :=
  match selectedItem m with
  | Some item =>
      if (selectedItemIndex m =? -1) || same_item (js_index inventory (selectedItemIndex m)) item then m
      else deselected
  | None => m
  end.

Definition handleItemPress (row : Row) (m : InventoryModal) : InventoryModal :=
  match fst row with
  | Some item => mkModal (Some item) (Z.of_nat (snd row)) true
  | None => m
  end.

Definition handleCloseItemDetails (m : InventoryModal) : InventoryModal := deselected.

(** What a tap on a button of the details does to the rendered player: nothing, or a
    change in place that [onItemEquipped] or [onItemDeleted] is told of. *)
Inductive Tap := Refused | Equipped (player : Player) | Deleted (player : Player) (item : option Item).

Definition handleEquip (player : option Player) (equipmentSlot : option EquipmentSlot)
    (m : InventoryModal) : InventoryModal * Tap :=
  match player, selectedItem m with
  | Some p, Some item =>
      if selectedItemIndex m =? -1 then (m, Refused)
      else if negb (same_item (js_index (p_inventory p) (selectedItemIndex m)) item)
      then (deselected, Refused)
      else
        let (p', success) := equipItem p (selectedItemIndex m) equipmentSlot in
        if success then (deselected, Equipped p') else (m, Refused)
  | _, _ => (m, Refused)
  end.

Definition handleDelete (player : option Player) (m : InventoryModal) : InventoryModal * Tap :=
  match player, selectedItem m with
  | Some p, Some item =>
      if selectedItemIndex m =? -1 then (m, Refused)
      else if negb (same_item (js_index (p_inventory p) (selectedItemIndex m)) item)
      then (deselected, Refused)
      else
        let (p', removed) := removeItemFromInventory p (selectedItemIndex m) in
        (deselected, Deleted p' removed)
  | _, _ => (m, Refused)
  end.

(** Whether the details offer the equip button ([ItemDetailsModal]). *)
Definition canEquip (player : option Player) (item : Item) : bool :=
  match player with Some p => it_level item <=? p_level p | None => false end.

(** ** The callbacks of the home screen *)

(** [onItemEquipped]: the ref's record with the rendered player's gear and stats. *)
Definition onItemEquipped (player ref : Player) : Player :=
  let d := params_of_data (toJSON ref) in
  new_Player {| pp_id := pp_id d; pp_name := pp_name d; pp_level := pp_level d;
    pp_experience := pp_experience d; pp_attack := Some (p_attack player);
    pp_defense := Some (p_defense player); pp_hp := Some (p_hp player);
    pp_maxHp := Some (p_maxHp player); pp_totalDistance := pp_totalDistance d;
    pp_totalEncounters := pp_totalEncounters d; pp_creaturesDefeated := pp_creaturesDefeated d;
    pp_combatTurnsTaken := pp_combatTurnsTaken d; pp_equipment := Some (p_equipment player);
    pp_inventory := Some (p_inventory player); pp_archetype := pp_archetype d; pp_str := pp_str d;
    pp_agi := pp_agi d; pp_int := pp_int d |}.

(** [onItemDeleted]: the ref's record with the rendered player's inventory. *)
Definition onItemDeleted (player ref : Player) : Player :=
  let d := params_of_data (toJSON ref) in
  new_Player {| pp_id := pp_id d; pp_name := pp_name d; pp_level := pp_level d;
    pp_experience := pp_experience d; pp_attack := pp_attack d; pp_defense := pp_defense d;
    pp_hp := pp_hp d; pp_maxHp := pp_maxHp d; pp_totalDistance := pp_totalDistance d;
    pp_totalEncounters := pp_totalEncounters d; pp_creaturesDefeated := pp_creaturesDefeated d;
    pp_combatTurnsTaken := pp_combatTurnsTaken d; pp_equipment := pp_equipment d;
    pp_inventory := Some (p_inventory player); pp_archetype := pp_archetype d; pp_str := pp_str d;
    pp_agi := pp_agi d; pp_int := pp_int d |}.

(** ** The screen around them *)

(** The rendered player and the rows memoised then, the ref, and what the screen keeps.
    The last four fields only record: what the user deleted, the items the rest of the app
    added, those of them no render has shown yet, and those a tap overwrote. *)
Record Screen := mkScreen {
  modal : InventoryModal;
  visible : bool;
  equipmentSlot : option EquipmentSlot;
  rendered : option PlayerObj;
  rows : list Row;
  ref : option PlayerObj;
  fresh_id : nat;
  deleted : list Item;
  found : list Item;
  unseen : list Item;
  lost : list Item
}.

#[export] Instance Screen_fields : Fields Screen := fun s =>
  mkScreen (modal s) (visible s) (equipmentSlot s) (rendered s) (rows s) (ref s) (fresh_id s) (deleted s)
    (found s) (unseen s) (lost s).

(** A change in place of the object [id]. *)
Definition mutate (id : nat) (p : Player) (o : option PlayerObj) : option PlayerObj :=
  match o with
  | Some po => if bool_decide (po_id po = id) then Some (mkPlayerObj id p) else Some po
  | None => None
  end.

(** [setPlayerAndSave]: a new object in the ref; the screen shows it at its next render. *)
Definition set_ref (p : Player) (s : Screen) : Screen :=
  s <| ref := Some (mkPlayerObj (fresh_id s) p) |> <| fresh_id := S (fresh_id s) |>.

(** A tap that changed the rendered player [po] into [p]: the object is changed wherever it
    is held, and [merge] makes the player that is saved (with the rendered inventory, so
    what was not rendered is gone). *)
Definition apply_tap (po : PlayerObj) (p : Player) (merge : Player -> Player -> Player) (s : Screen)
    : Screen :=
  let s := s <| rendered := mutate (po_id po) p (rendered s) |> <| ref := mutate (po_id po) p (ref s) |> in
  match ref s with
  | Some r => set_ref (merge p (po_player r)) s <| lost := unseen s ++ lost s |> <| unseen := [] |>
  | None => s
  end.

Definition finish_tap (po : option PlayerObj) (r : InventoryModal * Tap) (s : Screen) : Screen :=
  let s := s <| modal := fst r |> in
  match po, snd r with
  | Some po, Equipped p => apply_tap po p onItemEquipped s
  | Some po, Deleted p item => apply_tap po p onItemDeleted s <| deleted := option_list item ++ deleted s |>
  | _, _ => s
  end.

(** Opening from a slot or from the button, and closing. *)
Definition open_inventory (slot : option EquipmentSlot) (s : Screen) : Screen :=
  s <| equipmentSlot := slot |> <| visible := true |>.

Definition close_inventory (s : Screen) : Screen :=
  s <| visible := false |> <| equipmentSlot := None |>.

(** A render: the state last set, the rows, then the effects. *)
Definition render_inventory (s : Screen) : Screen :=
  let inventory := from_option (fun po => p_inventory (po_player po)) [] (ref s) in
  let s := s <| rendered := ref s |> <| rows := itemRows (filteredInventoryData inventory (equipmentSlot s)) |> in
  s <| modal := validate_effect inventory (visible_effect (visible s) (modal s)) |> <| unseen := [] |>.

(** [SSave] is a save made elsewhere in the app: the player it makes of the ref's, and the
    items it put into the inventory. *)
Inductive ScreenEvent :=
  | SOpen (slot : option EquipmentSlot)
  | SClose
  | SPress (row : nat)
  | SCloseDetails
  | SEquip
  | SDelete
  | SRender
  | SSave (f : Player -> Player * list Item).

Definition screen_step (ev : ScreenEvent) (s : Screen) : Screen :=
  let player := po_player <$> rendered s in
  match ev with
  | SOpen slot => open_inventory slot s
  | SClose => close_inventory s
  | SPress k =>
      match rows s !! k with Some row => s <| modal := handleItemPress row (modal s) |> | None => s end
  | SCloseDetails => s <| modal := handleCloseItemDetails (modal s) |>
  | SEquip => finish_tap (rendered s) (handleEquip player (equipmentSlot s) (modal s)) s
  | SDelete => finish_tap (rendered s) (handleDelete player (modal s)) s
  | SRender => render_inventory s
  | SSave f =>
      match ref s with
      | Some r =>
          let (p, items) := f (po_player r) in
          set_ref p s <| found := items ++ found s |> <| unseen := items ++ unseen s |>
      | None => s
      end
  end.

Definition screen_run (evs : list ScreenEvent) (s : Screen) : Screen :=
  fold_left (fun s ev => screen_step ev s) evs s.

Definition open_screen (p : Player) : Screen :=
  render_inventory (mkScreen deselected false None None [] (Some (mkPlayerObj 0 p)) 1 [] [] [] []).

(** ** Lemmas: the rows *)

Lemma rows_lookup inventory i row : rows_of inventory !! i = Some row <->
  snd row = i /\ inventory !! i = Some (fst row).
Proof.
  unfold rows_of. rewrite list_lookup_imap. destruct row as [it j], (inventory !! i); simpl;
    split; [intros [= <- <-] | intros [-> [= <-]] | discriminate | intros [_ [=]]]; auto.
Qed.

Lemma rows_elem inventory row : row ∈ rows_of inventory <-> inventory !! snd row = Some (fst row).
Proof.
  rewrite list_elem_of_lookup. split.
  - intros [i H]. apply rows_lookup in H as [<- H]. exact H.
  - intros H. exists (snd row). apply rows_lookup. auto.
Qed.

(** Each row shows an item at its own index, which fits the slot asked for; and every
    such item has a row. *)
Lemma itemRows_elem inventory slot it i :
  (Some it, i) ∈ itemRows (filteredInventoryData inventory slot)
  <-> inventory !! i = Some (Some it) /\ from_option (canEquipInSlot it) true slot = true.
Proof.
  unfold itemRows. rewrite list_elem_of_In, filter_In, <- list_elem_of_In.
  assert (F : filled (Some it, i) = true) by (apply bool_decide_eq_true; eauto).
  unfold filteredInventoryData. destruct slot as [s|]; simpl.
  - rewrite list_elem_of_In, filter_In, <- list_elem_of_In, rows_elem. cbn. tauto.
  - rewrite rows_elem. cbn. tauto.
Qed.

Lemma itemRows_filled data row : row ∈ itemRows data -> exists it, fst row = Some it.
Proof.
  unfold itemRows. rewrite list_elem_of_In, filter_In. intros [_ H]. apply bool_decide_eq_true in H.
  destruct H as [it H]. eauto.
Qed.

(** ** Lemmas: the merge *)

(** All of a player but the experience and the counters, which GPS updates and fights
    elsewhere move. *)
Definition build (p : Player) :=
  (p_id p, p_name p, p_level p, p_attack p, p_defense p, p_hp p, p_maxHp p, p_equipment p,
   p_inventory p, p_archetype p, (p_str p, p_agi p, p_int p)).

Definition counts (p : Player) :=
  (p_experience p, p_totalDistance p, p_totalEncounters p, p_creaturesDefeated p, p_combatTurnsTaken p).

(** [p] with the counters of [r]. *)
Definition recount (r p : Player) : Player :=
  mkPlayer (p_id p) (p_name p) (p_level p) (p_experience r) (p_attack p) (p_defense p) (p_hp p)
    (p_maxHp p) (p_totalDistance r) (p_totalEncounters r) (p_creaturesDefeated r)
    (p_combatTurnsTaken r) (p_equipment p) (p_inventory p) (p_archetype p) (p_str p) (p_agi p) (p_int p).

Lemma recount_build r p : build p = build r -> recount r p = r.
Proof. destruct p, r. unfold build, recount. cbn. intros [=]. subst. reflexivity. Qed.

Lemma build_recount r p : build (recount r p) = build p.
Proof. reflexivity. Qed.

Lemma recount_equip r p i s :
  equipItem (recount r p) i s = (recount r (fst (equipItem p i s)), snd (equipItem p i s)).
Proof.
  unfold equipItem. change (index_out_of_range (recount r p) i) with (index_out_of_range p i).
  change (p_inventory (recount r p)) with (p_inventory p).
  change (p_level (recount r p)) with (p_level p).
  change (p_equipment (recount r p)) with (p_equipment p).
  destruct (index_out_of_range p i); [reflexivity|]. destruct (mjoin _) as [it|]; [|reflexivity].
  destruct (_ <? _); [reflexivity|].
  change (resolveEquipTargetSlot (recount r p) it s) with (resolveEquipTargetSlot p it s).
  generalize (resolveEquipTargetSlot p it s). intros t. cbv zeta.
  match goal with |- context [match ?d with None => (with_inventory p _, false) | _ => _ end] =>
    destruct d end; rewrite ?recalculateStats_eq; destruct p; reflexivity.
Qed.

Lemma recount_remove r p i :
  removeItemFromInventory (recount r p) i
  = (recount r (fst (removeItemFromInventory p i)), snd (removeItemFromInventory p i)).
Proof. destruct p. unfold removeItemFromInventory, index_out_of_range, recount. cbn. case_match; reflexivity. Qed.

(** What neither change touches. *)
Definition identity (p : Player) :=
  (p_id p, p_name p, p_level p, p_archetype p, (p_str p, p_agi p, p_int p)).

Lemma equip_identity p i s : identity (fst (equipItem p i s)) = identity p.
Proof.
  unfold equipItem. destruct (index_out_of_range p i); [reflexivity|].
  destruct (mjoin _); [|reflexivity]. destruct (_ <? _); [reflexivity|]. cbv zeta.
  match goal with |- context [match ?d with None => (with_inventory p _, false) | _ => _ end] =>
    destruct d end; rewrite ?recalculateStats_eq; destruct p; reflexivity.
Qed.

Lemma remove_stats p i : let p' := fst (removeItemFromInventory p i) in
  identity p' = identity p /\ p_attack p' = p_attack p /\ p_defense p' = p_defense p
  /\ p_hp p' = p_hp p /\ p_maxHp p' = p_maxHp p /\ p_equipment p' = p_equipment p.
Proof. destruct p. unfold removeItemFromInventory, index_out_of_range. cbn. case_match; repeat split. Qed.

Lemma merge_equipped p r : wf_player p -> identity p = identity r -> onItemEquipped p r = recount r p.
Proof.
  intros [_ _ Hh Hi _ _ _ _ _ _] I. destruct p, r. cbn in *. injection I as -> -> -> -> -> -> ->.
  unfold onItemEquipped, new_Player, recount. cbn.
  destruct (Z.ltb_spec p_maxHp p_hp); [lia|]. rewrite Hi, Nat.eqb_refl. reflexivity.
Qed.

Lemma merge_deleted p r : wf_player p -> wf_player r -> identity p = identity r ->
  p_attack p = p_attack r -> p_defense p = p_defense r ->
  p_hp p = p_hp r -> p_maxHp p = p_maxHp r -> p_equipment p = p_equipment r ->
  onItemDeleted p r = recount r p.
Proof.
  intros [_ _ Hh Hi _ _ _ _ _ _] [_ _ Hr _ _ _ _ _ _ _] I. destruct p, r. cbn in *.
  injection I as -> -> -> -> -> -> ->.
  intros -> -> -> -> ->. unfold onItemDeleted, new_Player, recount. cbn.
  destruct (Z.ltb_spec p_maxHp0 p_hp0); [lia|]. rewrite Hi, Nat.eqb_refl. reflexivity.
Qed.

(** The merge is exact when the ref differs from the rendered player only in what it
    counts: the saved player is the live one with the item equipped, or deleted. *)
Lemma equip_merge p r i s : wf_player p -> build p = build r ->
  onItemEquipped (fst (equipItem p i s)) r = fst (equipItem r i s).
Proof.
  intros W B. pose proof (recount_build r p B) as E.
  rewrite <- E at 2. rewrite recount_equip. cbn [fst].
  apply merge_equipped; [apply equipItem_wf, W|]. rewrite equip_identity, <- E. reflexivity.
Qed.

Lemma delete_merge p r i : wf_player p -> wf_player r -> build p = build r ->
  onItemDeleted (fst (removeItemFromInventory p i)) r = fst (removeItemFromInventory r i).
Proof.
  intros W Wr B. pose proof (recount_build r p B) as E.
  rewrite <- E at 2. rewrite recount_remove. cbn [fst].
  destruct (remove_stats p i) as (I & A & D & H & M & Q).
  apply merge_deleted; [apply removeItem_wf, W | exact Wr|..]; rewrite ?I, ?A, ?D, ?H, ?M, ?Q;
    rewrite <- E; reflexivity.
Qed.

(** ** The screen invariant *)

Record pair_ok (po pr : PlayerObj) (n : nat) : Prop := {
  pk_rendered : wf_player (po_player po);
  pk_ref : wf_player (po_player pr);
  pk_build : build (po_player po) = build (po_player pr);
  pk_same : po_id po = po_id pr -> po = pr;
  pk_old : (po_id po < n)%nat /\ (po_id pr < n)%nat
}.

Record screen_ok (s : Screen) (po pr : PlayerObj) : Prop := {
  sk_rendered : rendered s = Some po;
  sk_ref : ref s = Some pr;
  sk_pair : pair_ok po pr (fresh_id s);
  sk_modal : (selectedItem (modal s) = None -> selectedItemIndex (modal s) = -1)
             /\ (is_Some (selectedItem (modal s)) -> 0 <= selectedItemIndex (modal s))
}.

Lemma js_index_lookup inventory i it : js_index inventory i = Some it ->
  0 <= i /\ inventory !! Z.to_nat i = Some (Some it).
Proof.
  unfold js_index. destruct (Z.ltb_spec i 0); [discriminate|]. intros E. split; [assumption|].
  destruct (inventory !! Z.to_nat i) as [[x|]|]; cbn in E; congruence.
Qed.

Lemma remove_items p i it : js_index (p_inventory p) i = Some it ->
  snd (removeItemFromInventory p i) = Some it
  /\ all_items p ≡ₚ it :: all_items (fst (removeItemFromInventory p i)).
Proof.
  intros E. apply js_index_lookup in E as [N L].
  assert (R : index_out_of_range p i = false).
  { unfold index_out_of_range. pose proof (lookup_lt_Some _ _ _ L). lia. }
  unfold removeItemFromInventory. rewrite R. cbn. rewrite L. split; [reflexivity|].
  pose proof (present_insert _ _ _ None L) as P. cbn in P. rewrite app_nil_r in P.
  unfold all_items. destruct p; cbn in *. rewrite <- P. solve_Permutation.
Qed.

(** A tap on a button of the details: what the handlers settle before the callback. *)
Lemma handleEquip_cases p slot m :
  (snd (handleEquip (Some p) slot m) = Refused
   /\ (fst (handleEquip (Some p) slot m) = m \/ fst (handleEquip (Some p) slot m) = deselected))
  \/ (exists it c, selectedItem m = Some it /\ js_index (p_inventory p) (selectedItemIndex m) = Some c
      /\ it_id c = it_id it /\ snd (equipItem p (selectedItemIndex m) slot) = true
      /\ handleEquip (Some p) slot m = (deselected, Equipped (fst (equipItem p (selectedItemIndex m) slot)))).
Proof.
  unfold handleEquip. destruct (selectedItem m) as [it|]; [|auto].
  destruct (selectedItemIndex m =? -1); [auto|]. unfold same_item.
  destruct (js_index _ _) as [c|] eqn:J; [|auto]. case_bool_decide as I; cbn [negb]; [|auto].
  destruct (equipItem p (selectedItemIndex m) slot) as [p' []]; cbn; [|auto].
  right. exists it, c. auto.
Qed.

Lemma handleDelete_cases p m :
  (snd (handleDelete (Some p) m) = Refused
   /\ (fst (handleDelete (Some p) m) = m \/ fst (handleDelete (Some p) m) = deselected))
  \/ (exists it c, selectedItem m = Some it /\ js_index (p_inventory p) (selectedItemIndex m) = Some c
      /\ it_id c = it_id it
      /\ handleDelete (Some p) m
         = (deselected, Deleted (fst (removeItemFromInventory p (selectedItemIndex m))) (Some c))).
Proof.
  unfold handleDelete. destruct (selectedItem m) as [it|]; [|auto].
  destruct (selectedItemIndex m =? -1); [auto|]. unfold same_item.
  destruct (js_index _ _) as [c|] eqn:J; [|auto]. case_bool_decide as I; cbn [negb]; [|auto].
  destruct (remove_items p _ c J) as [R _].
  destruct (removeItemFromInventory p (selectedItemIndex m)) as [p' o]. cbn in *. subst o.
  right. exists it, c. auto.
Qed.

Lemma deselected_ok : (selectedItem deselected = None -> selectedItemIndex deselected = -1)
  /\ (is_Some (selectedItem deselected) -> 0 <= selectedItemIndex deselected).
Proof. split; [reflexivity | intros [? [=]]]. Qed.

(** A tap whose merged player is [p'], the change [p] of the rendered player up to
    counters. *)
Lemma apply_tap_ok s po pr p merge q : screen_ok s po pr ->
  selectedItem (modal s) = None /\ selectedItemIndex (modal s) = -1 -> wf_player p ->
  wf_player q -> build p = build q ->
  merge p (po_player (if bool_decide (po_id po = po_id pr) then mkPlayerObj (po_id po) p else pr)) = q ->
  screen_ok (apply_tap po p merge s) (mkPlayerObj (po_id po) p) (mkPlayerObj (fresh_id s) q).
Proof.
  intros [R F [W1 W2 B Sm [O1 O2]] M] [M1 M2] W Wq Bq E. unfold apply_tap, mutate. cbn. rewrite R, F.
  rewrite (bool_decide_true (po_id po = po_id po)) by reflexivity.
  rewrite (bool_decide_ext (po_id pr = po_id po) (po_id po = po_id pr)) by (split; auto).
  case_bool_decide as I; cbn in *; rewrite E; constructor; cbn; try reflexivity;
    try (constructor; cbn; auto; lia); rewrite M1, M2; split; auto; intros [? [=]].
Qed.

Lemma recount_self p : recount p p = p.
Proof. destruct p; reflexivity. Qed.

(** The saved player, whether or not the ref is still the rendered object. *)
Lemma equip_saved po pr n i slot : pair_ok po pr n ->
  let p := fst (equipItem (po_player po) i slot) in
  let q := fst (equipItem (po_player pr) i slot) in
  wf_player p /\ wf_player q /\ build p = build q
  /\ onItemEquipped p (po_player (if bool_decide (po_id po = po_id pr) then mkPlayerObj (po_id po) p else pr)) = q.
Proof.
  intros [W1 W2 B Sm _] p q. assert (Wp : wf_player p) by apply equipItem_wf, W1.
  split; [exact Wp|]. split; [apply equipItem_wf, W2|]. split.
  - unfold q. rewrite <- (recount_build _ _ B), recount_equip. reflexivity.
  - case_bool_decide as I; cbn.
    + rewrite merge_equipped, recount_self by (exact Wp || reflexivity). unfold p, q. rewrite (Sm I). reflexivity.
    + apply equip_merge; assumption.
Qed.

Lemma delete_saved po pr n i : pair_ok po pr n ->
  let p := fst (removeItemFromInventory (po_player po) i) in
  let q := fst (removeItemFromInventory (po_player pr) i) in
  wf_player p /\ wf_player q /\ build p = build q
  /\ onItemDeleted p (po_player (if bool_decide (po_id po = po_id pr) then mkPlayerObj (po_id po) p else pr)) = q.
Proof.
  intros [W1 W2 B Sm _] p q. assert (Wp : wf_player p) by apply removeItem_wf, W1.
  split; [exact Wp|]. split; [apply removeItem_wf, W2|]. split.
  - unfold q. rewrite <- (recount_build _ _ B), recount_remove. reflexivity.
  - case_bool_decide as I; cbn.
    + rewrite merge_deleted, recount_self by (exact Wp || reflexivity). unfold p, q. rewrite (Sm I). reflexivity.
    + apply delete_merge; assumption.
Qed.

(** Saves that move only what is counted. *)
Definition counting (ev : ScreenEvent) : Prop :=
  match ev with
  | SSave f => forall p, wf_player p -> wf_player (fst (f p)) /\ build (fst (f p)) = build p
  | _ => True
  end.

Definition in_step (s : Screen) : Prop := exists po pr, screen_ok s po pr.

Lemma modal_ok s po pr m : screen_ok s po pr -> m = modal s \/ m = deselected ->
  screen_ok (s <| modal := m |>) po pr.
Proof.
  intros [R F P M] Hm. constructor; try assumption. destruct Hm as [-> | ->]; [exact M | apply deselected_ok].
Qed.

Lemma equip_step s po pr : screen_ok s po pr -> in_step (screen_step SEquip s).
Proof.
  intros K. pose proof K as [R F P M]. cbn [screen_step]. rewrite R. cbn [fmap option_fmap option_map].
  unfold finish_tap. destruct (handleEquip_cases (po_player po) (equipmentSlot s) (modal s))
    as [[-> H] | (it & c & _ & J & _ & _ & ->)].
  - exists po, pr. exact (modal_ok s po pr _ K H).
  - destruct (equip_saved po pr _ (selectedItemIndex (modal s)) (equipmentSlot s) P) as (W & Wq & B & E).
    pose proof (modal_ok s po pr deselected K (or_intror eq_refl)) as K1.
    eexists _, _. exact (apply_tap_ok _ po pr _ onItemEquipped _ K1 (conj eq_refl eq_refl) W Wq B E).
Qed.

Lemma delete_step s po pr : screen_ok s po pr -> in_step (screen_step SDelete s).
Proof.
  intros K. pose proof K as [R F P M]. cbn [screen_step]. rewrite R. cbn [fmap option_fmap option_map].
  unfold finish_tap. destruct (handleDelete_cases (po_player po) (modal s)) as [[-> H] | (it & c & _ & J & _ & ->)].
  - exists po, pr. exact (modal_ok s po pr _ K H).
  - destruct (delete_saved po pr _ (selectedItemIndex (modal s)) P) as (W & Wq & B & E).
    pose proof (modal_ok s po pr deselected K (or_intror eq_refl)) as K1.
    destruct (apply_tap_ok _ po pr _ onItemDeleted _ K1 (conj eq_refl eq_refl) W Wq B E).
    eexists _, _. constructor; eassumption.
Qed.

Lemma render_step s po pr : screen_ok s po pr -> in_step (render_inventory s).
Proof.
  intros [R F P M]. exists pr, pr. unfold render_inventory. rewrite F. cbn.
  constructor; cbn; auto.
  - destruct P as [? ? ? ? []]. constructor; auto.
  - unfold visible_effect. destruct (visible s); [|apply deselected_ok].
    unfold validate_effect. destruct (selectedItem (modal s)) as [it|] eqn:E; [|rewrite E; exact M].
    destruct (_ || _); [rewrite E; exact M | apply deselected_ok].
Qed.

Lemma screen_step_ok ev s : in_step s -> counting ev -> in_step (screen_step ev s).
Proof.
  intros (po & pr & K) C. pose proof K as [R F P M]. destruct ev as [sl| |k| | | | |f].
  - exists po, pr. constructor; assumption.
  - exists po, pr. constructor; assumption.
  - cbn [screen_step]. destruct (rows s !! k) as [[[it|] j]|]; exists po, pr; constructor; try assumption.
    split; [discriminate | intros _; cbn; lia].
  - exists po, pr. exact (modal_ok s po pr _ K (or_intror eq_refl)).
  - exact (equip_step s po pr K).
  - exact (delete_step s po pr K).
  - exact (render_step s po pr K).
  - cbn [screen_step]. rewrite F. destruct P as [W1 W2 B Sm [O1 O2]]. destruct (C _ W2) as [Wf Bf].
    destruct (f (po_player pr)) as [p items]. exists po, (mkPlayerObj (fresh_id s) p).
    constructor; try assumption; [reflexivity|]. constructor; cbn in *; [exact W1 | exact Wf | congruence | lia | lia].
Qed.

Lemma screen_run_ok evs : Forall counting evs -> forall s, in_step s -> in_step (screen_run evs s).
Proof.
  induction evs as [|ev evs IH]; intros C s K; [exact K|].
  apply Forall_cons in C as [C1 C2]. apply (IH C2), screen_step_ok; assumption.
Qed.

(** ** Lemmas: where the items are *)

Definition full_size (p : Player) : Prop := length (p_inventory p) = PLAYER_CONFIG.MAX_INVENTORY_SIZE.

(** Saves that leave the gear on and put into the inventory the items they say: those of
    walking, fighting, looting and levelling. *)
Definition adding (ev : ScreenEvent) : Prop :=
  match ev with
  | SSave f => forall p, full_size p -> full_size (fst (f p))
      /\ p_equipment (fst (f p)) = p_equipment p /\ all_items (fst (f p)) ≡ₚ snd (f p) ++ all_items p
  | _ => True
  end.

(** The ref has the rendered gear, and the rendered items with those not rendered yet. *)
Record pair_items (po pr : PlayerObj) (n : nat) (new : list Item) : Prop := {
  pi_rendered : full_size (po_player po);
  pi_ref : full_size (po_player pr);
  pi_gear : p_equipment (po_player pr) = p_equipment (po_player po);
  pi_items : all_items (po_player pr) ≡ₚ new ++ all_items (po_player po);
  pi_same : po_id po = po_id pr -> po = pr;
  pi_old : (po_id po < n)%nat /\ (po_id pr < n)%nat
}.

(** Every item of the start and every one added is owned, deleted or overwritten, and only
    added items are overwritten. *)
Record ledger (p : Player) (s : Screen) (po pr : PlayerObj) : Prop := {
  lg_rendered : rendered s = Some po;
  lg_ref : ref s = Some pr;
  lg_pair : pair_items po pr (fresh_id s) (unseen s);
  lg_total : all_items (po_player pr) ++ deleted s ++ lost s ≡ₚ all_items p ++ found s;
  lg_lost : lost s ++ unseen s ⊆+ found s
}.

Definition balanced (p : Player) (s : Screen) : Prop := exists po pr, ledger p s po pr.

Lemma equip_size p i slot : full_size p -> full_size (fst (equipItem p i slot)).
Proof.
  intros F. destruct (equipItem_cases p i slot) as [[-> _]|(it & _ & ->)]; [exact F|].
  unfold full_size. cbn [fst]. destruct (equipped_fields p (Z.to_nat i) it (resolveEquipTargetSlot p it slot)) as (_ & -> & _).
  rewrite swap_inventory_length. exact F.
Qed.

Lemma equip_items p i slot : all_items (fst (equipItem p i slot)) ≡ₚ all_items p.
Proof.
  destruct (equipItem_cases p i slot) as [[-> _]|(it & (_ & L & _) & ->)]; [reflexivity|].
  apply equipped_items, L.
Qed.

Lemma remove_size p i : full_size p -> full_size (fst (removeItemFromInventory p i)).
Proof.
  intros F. unfold removeItemFromInventory. destruct (index_out_of_range p i); [exact F|].
  unfold full_size. destruct p; cbn in *. rewrite length_insert. exact F.
Qed.

Lemma remove_gear p i : p_equipment (fst (removeItemFromInventory p i)) = p_equipment p.
Proof. apply remove_stats. Qed.

(** What the callbacks save has the rendered items, the gear being the same. *)
Lemma onItemEquipped_items p r : full_size p ->
  full_size (onItemEquipped p r) /\ p_equipment (onItemEquipped p r) = p_equipment p
  /\ all_items (onItemEquipped p r) = all_items p.
Proof.
  intros F. unfold full_size in *. destruct p, r. unfold onItemEquipped, all_items. cbn in *.
  rewrite F, Nat.eqb_refl. auto.
Qed.

Lemma onItemDeleted_items p r : full_size p -> p_equipment r = p_equipment p ->
  full_size (onItemDeleted p r) /\ p_equipment (onItemDeleted p r) = p_equipment p
  /\ all_items (onItemDeleted p r) = all_items p.
Proof.
  intros F E. unfold full_size in *. destruct p, r. unfold onItemDeleted, all_items. cbn in *.
  rewrite F, Nat.eqb_refl, E. auto.
Qed.

(** A tap that turned the rendered player into [p'], in place, and saved [q], of the same
    gear and items. *)
Lemma apply_tap_items p s po pr p' merge gone : ledger p s po pr ->
  full_size p' -> all_items (po_player po) ≡ₚ gone ++ all_items p' ->
  (forall r, (r = p' \/ r = po_player pr) -> full_size (merge p' r)
     /\ p_equipment (merge p' r) = p_equipment p' /\ all_items (merge p' r) = all_items p') ->
  balanced p (apply_tap po p' merge s <| deleted := gone ++ deleted s |>).
Proof.
  intros [R F [F1 F2 G I Sm [O1 O2]] T L] F' E H. unfold apply_tap, mutate. cbn. rewrite R, F.
  rewrite (bool_decide_true (po_id po = po_id po)) by reflexivity.
  set (r := if bool_decide (po_id pr = po_id po) then _ else _).
  assert (Hr : exists r', r = Some r' /\ (po_player r' = p' \/ r' = pr))
    by (unfold r; case_bool_decide; eexists; split; eauto).
  destruct Hr as (r' & Er & Cr). clearbody r. subst r. cbn.
  destruct (H (po_player r')) as (H1 & H2 & H3); [destruct Cr as [<- | ->]; auto|].
  eexists _, _. constructor; cbn; try reflexivity.
  - constructor; cbn; [exact F' | exact H1 | exact H2 | rewrite H3; reflexivity | lia | lia].
  - cbn [po_player]. rewrite H3, <- T, I, E. solve_Permutation.
  - rewrite app_nil_r. etransitivity; [|exact L]. apply Permutation_submseteq. solve_Permutation.
Qed.

Lemma apply_tap_deleted po p merge s : deleted (apply_tap po p merge s) = deleted s.
Proof. unfold apply_tap. case_match; reflexivity. Qed.

Lemma ledger_modal p s po pr m : ledger p s po pr -> balanced p (s <| modal := m |>).
Proof. intros []. exists po, pr. constructor; assumption. Qed.

Lemma equip_balanced p s po pr : ledger p s po pr -> balanced p (screen_step SEquip s).
Proof.
  intros K. pose proof K as [R F P T L]. cbn [screen_step]. rewrite R. cbn [fmap option_fmap option_map].
  unfold finish_tap. destruct (handleEquip_cases (po_player po) (equipmentSlot s) (modal s))
    as [[-> H] | (it & c & _ & J & _ & _ & ->)]; [apply (ledger_modal p s po pr), K|].
  cbn [fst snd].
  assert (K1 : ledger p (s <| modal := deselected |>) po pr) by (constructor; assumption).
  assert (Fs : full_size (fst (equipItem (po_player po) (selectedItemIndex (modal s)) (equipmentSlot s))))
    by apply equip_size, P.
  destruct (apply_tap_items p _ po pr _ onItemEquipped [] K1 Fs) as (po' & pr' & []);
    [rewrite equip_items; reflexivity | intros r _; apply onItemEquipped_items, Fs|].
  exists po', pr'. constructor; try assumption. rewrite apply_tap_deleted. assumption.
Qed.

Lemma delete_balanced p s po pr : ledger p s po pr -> balanced p (screen_step SDelete s).
Proof.
  intros K. pose proof K as [R F P T L]. cbn [screen_step]. rewrite R. cbn [fmap option_fmap option_map].
  unfold finish_tap. destruct (handleDelete_cases (po_player po) (modal s))
    as [[-> H] | (it & c & _ & J & _ & ->)]; [apply (ledger_modal p s po pr), K|].
  cbn [fst snd option_list].
  assert (K1 : ledger p (s <| modal := deselected |>) po pr) by (constructor; assumption).
  set (i := selectedItemIndex (modal s)) in *.
  assert (Fs : full_size (fst (removeItemFromInventory (po_player po) i))) by apply remove_size, P.
  apply (apply_tap_items p _ po pr _ onItemDeleted [c] K1 Fs); [apply remove_items, J|].
  intros r Hr. apply onItemDeleted_items; [exact Fs|].
  destruct Hr as [-> | ->]; [reflexivity|]. rewrite remove_gear. apply P.
Qed.

Lemma screen_step_balanced p ev s : adding ev -> balanced p s -> balanced p (screen_step ev s).
Proof.
  intros A (po & pr & K). pose proof K as [R F P T L]. destruct ev as [sl| |k| | | | |f].
  - exists po, pr. constructor; assumption.
  - exists po, pr. constructor; assumption.
  - cbn [screen_step]. destruct (rows s !! k); [apply (ledger_modal p s po pr), K | exists po, pr; exact K].
  - apply (ledger_modal p s po pr), K.
  - apply (equip_balanced p s po pr), K.
  - apply (delete_balanced p s po pr), K.
  - exists pr, pr. cbn [screen_step]. unfold render_inventory. rewrite F. constructor; cbn; auto.
    + destruct P as [? ? ? ? ? []]. constructor; auto.
    + rewrite app_nil_r. etransitivity; [|exact L]. apply submseteq_inserts_r. reflexivity.
  - cbn [screen_step]. rewrite F. destruct P as [F1 F2 G I Sm [O1 O2]].
    destruct (A _ F2) as (A1 & A2 & A3). destruct (f (po_player pr)) as [q items]. cbn in A1, A2, A3.
    exists po, (mkPlayerObj (fresh_id s) q). constructor; cbn; try assumption; try reflexivity.
    + constructor; cbn; [exact F1 | exact A1 | congruence | rewrite A3, I; solve_Permutation | lia | lia].
    + rewrite A3. transitivity (items ++ (all_items (po_player pr) ++ deleted s ++ lost s)); [solve_Permutation|].
      rewrite T. solve_Permutation.
    + transitivity (items ++ (lost s ++ unseen s)); [apply Permutation_submseteq; solve_Permutation|].
      apply submseteq_skips_l, L.
Qed.

Lemma screen_run_balanced p evs : Forall adding evs -> forall s, balanced p s -> balanced p (screen_run evs s).
Proof.
  induction evs as [|ev evs IH]; intros C s K; [exact K|].
  apply Forall_cons in C as [C1 C2]. apply (IH C2), screen_step_balanced; assumption.
Qed.

(** No tap lands between an item's arrival and the render that shows it. *)
Fixpoint taps_fresh (evs : list ScreenEvent) (s : Screen) : bool :=
  match evs with
  | [] => true
  | ev :: evs =>
      match ev with SEquip | SDelete => bool_decide (unseen s = []) | _ => true end
      && taps_fresh evs (screen_step ev s)
  end.

Lemma tap_lost po r s : unseen s = [] -> lost (finish_tap po r s) = lost s.
Proof.
  intros U. unfold finish_tap. destruct po as [po|], (snd r); try reflexivity;
    unfold apply_tap; cbn; case_match; cbn; rewrite ?U; reflexivity.
Qed.

Lemma fresh_lost evs : forall s, taps_fresh evs s = true -> lost (screen_run evs s) = lost s.
Proof.
  induction evs as [|ev evs IH]; intros s A; [reflexivity|].
  cbn [taps_fresh] in A. apply andb_true_iff in A as [A1 A2].
  cbn [screen_run fold_left]. change (lost (screen_run evs (screen_step ev s)) = lost s).
  rewrite (IH _ A2). destruct ev as [sl| |k| | | | |f]; cbn [screen_step]; try reflexivity.
  - case_match; reflexivity.
  - apply tap_lost. apply bool_decide_eq_true in A1. exact A1.
  - apply tap_lost. apply bool_decide_eq_true in A1. exact A1.
  - destruct (ref s); [|reflexivity]. destruct (f _); reflexivity.
Qed.

(** ** Properties *)

(** C12: The inventory accounts for every item.  Open and close it, filter it by a slot,
    select, equip and delete, with renders and with the saves of walking, fighting, looting
    and levelling (saves that leave the gear on and add to the inventory) in any order in
    between, also between a tap and the render that would have shown the newer player.
    The items owned at the end, worn or carried, with those the user deleted and those a
    tap overwrote are exactly the items of the start and those added on the way.  Only
    added items are ever overwritten, and none is if no tap lands between an item's arrival
    and the next render ([stale_equip_drops_loot] is such a tap).  If moreover the saves
    move only experience and counters, the saved player stays well formed and differs from
    the one shown at most in those. *)
Theorem inventory_conserves (p : Player) (evs : list ScreenEvent) :
  wf_player p -> Forall adding evs ->
  let s := screen_run evs (open_screen p) in
  exists po pr, rendered s = Some po /\ ref s = Some pr
    /\ all_items (po_player pr) ++ deleted s ++ lost s ≡ₚ all_items p ++ found s
    /\ lost s ⊆+ found s
    /\ (taps_fresh evs (open_screen p) = true -> lost s = [])
    /\ (Forall counting evs -> wf_player (po_player pr) /\ build (po_player po) = build (po_player pr)).
Proof.
  intros W A s. assert (B : balanced p (open_screen p)).
  { exists (mkPlayerObj 0 p), (mkPlayerObj 0 p). constructor; cbn; rewrite ?app_nil_r; try reflexivity.
    constructor; cbn; auto; apply W. }
  destruct (screen_run_balanced p evs A _ B) as (po & pr & [R F _ T L]). fold s in R, F, T, L.
  exists po, pr. do 3 (split; [assumption|]). split; [|split].
  - etransitivity; [|exact L]. apply submseteq_inserts_r. reflexivity.
  - intros Fr. exact (fresh_lost evs (open_screen p) Fr).
  - intros C. assert (K : in_step (open_screen p)).
    { exists (mkPlayerObj 0 p), (mkPlayerObj 0 p). constructor; [reflexivity | reflexivity | | apply deselected_ok].
      constructor; cbn; auto. }
    destruct (screen_run_ok evs C _ K) as (po' & pr' & [R' F' [W1 W2 B' _ _] _]). fold s in R', F'.
    rewrite R in R'. rewrite F in F'. injection R' as <-. injection F' as <-. auto.
Qed.

(** A tap acts on the item that was chosen.  Equipping or deleting changes the player
    only if the slot of the selection still holds the item with the selected id; then it is
    that item which is equipped (in a slot that accepts it) or removed, and the selection is
    closed.  In every other case the player is untouched. *)
Theorem tap_acts_on_selection (p : Player) (slot : option EquipmentSlot) (m : InventoryModal) :
  match handleEquip (Some p) slot m with
  | (m', Equipped p') => exists it c, selectedItem m = Some it /\ it_id c = it_id it
      /\ p_inventory p !! Z.to_nat (selectedItemIndex m) = Some (Some c)
      /\ equip_get (p_equipment p') (resolveEquipTargetSlot p c slot) = Some c /\ m' = deselected
  | (m', t) => t = Refused /\ (m' = m \/ m' = deselected)
  end
  /\ match handleDelete (Some p) m with
     | (m', Deleted p' o) => exists it c, selectedItem m = Some it /\ it_id c = it_id it /\ o = Some c
         /\ p_inventory p !! Z.to_nat (selectedItemIndex m) = Some (Some c)
         /\ all_items p ≡ₚ c :: all_items p' /\ m' = deselected
     | (m', t) => t = Refused /\ (m' = m \/ m' = deselected)
     end.
Proof.
  split.
  - destruct (handleEquip_cases p slot m) as [[A B] | (it & c & S & J & I & Ok & ->)].
    + destruct (handleEquip (Some p) slot m) as [m' t]. cbn in *. subst t. auto.
    + apply js_index_lookup in J as [N L]. exists it, c. repeat split; try assumption.
      destruct (equipItem_cases p (selectedItemIndex m) slot) as [[E _]|(it' & (_ & L' & _) & E)];
        rewrite E in Ok |- *; [discriminate|]. rewrite L in L'. injection L' as <-. cbn [fst].
      destruct (equipped_fields p (Z.to_nat (selectedItemIndex m)) c (resolveEquipTargetSlot p c slot)) as (-> & _).
      rewrite equip_get_set, decide_True by reflexivity. reflexivity.
  - destruct (handleDelete_cases p m) as [[A B] | (it & c & S & J & I & ->)].
    + destruct (handleDelete (Some p) m) as [m' t]. cbn in *. subst t. auto.
    + destruct (remove_items p _ c J) as [_ P]. apply js_index_lookup in J as [_ L].
      exists it, c. repeat split; assumption.
Qed.

(** *** Concrete runs *)

(** An item found while walking. *)
Definition found_ring : Item :=
  mkItem "loot-1" "Band of Vigor" "" rare 1 None (Some 2) None 0 None accessory.

Definition ring_bearer : Player := fst (addItemToInventory sample_player sample_ring).

Lemma ring_bearer_wf : wf_player ring_bearer.
Proof. apply addItem_wf; [vm_compute; repeat split; discriminate | apply sample_player_wf]. Qed.

Definition walk_on (p : Player) : Player * list Item := (addDistance p 25, []).

(** A reward: experience and a drop, kept if there is room. *)
Definition rewarded (amount : Z) (it : Item) (p : Player) : Player * list Item :=
  let (p, i) := addItemToInventory (fst (addExperience p amount)) it in
  (p, if i =? -1 then [] else [it]).

Lemma level_up_gear fuel : forall p n, let q := fst (level_up_loop fuel p n) in
  p_inventory q = p_inventory p /\ p_equipment q = p_equipment p.
Proof.
  induction fuel as [|fuel IH]; intros p n; [auto|]. cbn. destruct (_ <=? _); [|auto].
  destruct (IH (level_up_once p) (n + 1)) as [-> ->]. destruct p; auto.
Qed.

Lemma addExperience_gear p amount : let q := fst (addExperience p amount) in
  p_inventory q = p_inventory p /\ p_equipment q = p_equipment p.
Proof.
  unfold addExperience, checkLevelUp. set (q := with_progress _ _ _ _ _ _).
  pose proof (level_up_gear (level_up_fuel q) q 0) as H.
  destruct (level_up_loop _ q 0) as [q' n]. cbn in *. destruct (0 <? n); [rewrite recalculateStats_eq|]; destruct p, q'; exact H.
Qed.

Lemma rewarded_adds amount it : adding (SSave (rewarded amount it)).
Proof.
  intros p F. unfold rewarded. destruct (addExperience_gear p amount) as [I E].
  set (q := fst (addExperience p amount)) in *. clearbody q. unfold full_size, all_items in *.
  rewrite <- I, <- E in *. unfold addItemToInventory.
  destruct (find_empty (p_inventory q)) as [i|] eqn:N; [|auto].
  apply find_empty_Some in N as [N _].
  pose proof (present_insert _ _ _ (Some it) N) as P. cbn in P. rewrite app_nil_r in P.
  destruct (Z.eqb_spec (Z.of_nat i) (-1)); [lia|].
  destruct q; cbn in *. rewrite length_insert, P. repeat split; [exact F|]. solve_Permutation.
Qed.

Lemma walk_on_adds : adding (SSave walk_on).
Proof. intros p F. destruct p. repeat split; [exact F | reflexivity]. Qed.

(** Equip while a GPS update lands, find a ring and see it, level up and find another,
    then delete. *)
Definition busy_screen : list ScreenEvent :=
  [SOpen (Some slot_accessory1); SRender; SPress 0; SRender; SSave walk_on; SEquip; SRender; SClose;
   SSave (rewarded 5000 found_ring); SRender; SOpen None; SRender; SPress 0; SSave walk_on; SDelete; SRender].

Lemma inventory_conserves_witness :
  let s := screen_run busy_screen (open_screen ring_bearer) in
  exists po pr, rendered s = Some po /\ ref s = Some pr
    /\ all_items (po_player pr) ++ deleted s ++ lost s ≡ₚ all_items ring_bearer ++ found s
    /\ lost s ⊆+ found s
    /\ (taps_fresh busy_screen (open_screen ring_bearer) = true -> lost s = [])
    /\ (Forall counting busy_screen -> wf_player (po_player pr) /\ build (po_player po) = build (po_player pr)).
Proof.
  apply (inventory_conserves ring_bearer busy_screen); [apply ring_bearer_wf|].
  repeat (apply Forall_cons_2; [first [exact I | exact walk_on_adds | apply rewarded_adds]|]). apply Forall_nil_2.
Defined.

Example busy_screen_fresh :
  taps_fresh busy_screen (open_screen ring_bearer) = true
  /\ deleted (screen_run busy_screen (open_screen ring_bearer)) = [found_ring].
Proof. split; vm_compute; reflexivity. Qed.

(** Only what is counted is merged: an item that reached the ref after the last render is
    dropped by the next equip, and a level gained by then keeps the stats of the level
    before. *)
Theorem stale_equip_drops_loot :
  let found p := fst (addItemToInventory p found_ring) in
  let s := screen_run [SOpen None; SRender; SPress 0; SRender; SSave (fun p => (found p, [found_ring])); SEquip] (open_screen ring_bearer) in
  exists pr, ref s = Some pr /\ deleted s = [] /\ lost s = [found_ring]
    /\ (it_id found_ring ∈ it_id <$> all_items (found ring_bearer))
    /\ (it_id found_ring ∉ it_id <$> all_items (po_player pr)).
Proof.
  eexists. do 3 (split; [vm_compute; reflexivity|]).
  split; apply (bool_decide_unpack _); vm_compute; exact I.
Qed.

Theorem stale_equip_reverts_level :
  let trained p := fst (addExperience p 5000) in
  let s := screen_run [SOpen None; SRender; SPress 0; SRender; SSave (fun p => (trained p, [])); SEquip] (open_screen ring_bearer) in
  exists pr, ref s = Some pr /\ p_level ring_bearer < p_level (po_player pr)
    /\ p_attack (po_player pr) < full_attack (po_player pr).
Proof. eexists. split; [vm_compute; reflexivity|]. split; vm_compute; reflexivity. Qed.
