(* ===== verification/CombatView.v ===== *)
(** * What a fight shows

    The presentation logic of combat: [src/utils/combatText.ts] (floating numbers),
    [src/models/CombatLog.ts] (the narration of an entry), [src/hooks/useCombatImpact.ts]
    (turning the hit feed into effects) and the computations of
    [src/components/combat/CombatModal.tsx].

    A timed animation is the cue that starts it; colours are the source's strings, and a
    themed colour is the name of its token. *)
From stdpp Require Import base decidable strings list pretty sorting.
From Stdlib Require Import Ascii ZArith QArith Lia Lqa.
From S2P Require Import Prelude JsNumber Random Combat Archetype Ability CombatFeed Creature.
From S2P Require Import Config Item Player Loot AutoCombat Encounter Json CombatSession.
From S2P Require Import SessionInvariant.
Local Open Scope Z_scope.

(** ** Floating numbers *)

Inductive CombatTextKind := text_damage | text_heal.

Record CombatTextStyle := mkStyle { ts_label : string; ts_color : string; ts_fontSize : Z }.

Definition HEAL_COLOR : string := "#43A047".
Definition HEAL_FONT_SIZE : Z := 22.

Record DamageTier := mkTier { tier_min : Q; tier_color : string; tier_fontSize : Z }.

Definition glancing_tier : DamageTier := mkTier 0 "#FFB300" 20.

Definition DAMAGE_TIERS : list DamageTier :=
  [mkTier (lit 0.25) "#D32F2F" 34; mkTier (lit 0.12) "#FF7043" 26; glancing_tier].

(** [DAMAGE_TIERS.find(t => fraction >= t.min) ?? the last tier] *)
Definition damage_tier (fraction : Q) : DamageTier :=
  default glancing_tier (List.find (fun t => js_le (tier_min t) fraction) DAMAGE_TIERS).

Definition magnitude (amount : Z) : Z := Z.max 0 (math_round (num amount)).

Definition damage_fraction (amount maxHp : Z) : Q :=
  if 0 <? maxHp then js_div (num (magnitude amount)) (num maxHp) else 0%Q.

Definition combatTextStyle (amount maxHp : Z) (kind : CombatTextKind) : CombatTextStyle :=
  match kind with
  | text_heal => mkStyle ("+" +:+ pretty (magnitude amount)) HEAL_COLOR HEAL_FONT_SIZE
  | text_damage =>
      let tier := damage_tier (damage_fraction amount maxHp) in
      mkStyle (pretty (magnitude amount)) (tier_color tier) (tier_fontSize tier)
  end.

Definition DAMAGE_TYPE_COLOR (t : DamageType) : string :=
  match t with
  | physical => "#ECEFF1" | fire => "#FF7043" | frost => "#4FC3F7" | arcane => "#BA68C8"
  end.

Definition RESISTED_COLOR : string := "#90A4AE".
Definition BUFF_COLOR : string := "#FFD54F".
Definition DEBUFF_COLOR : string := "#B39DDB".
Definition STATUS_FONT_SIZE : Z := 18.
Definition DODGE_COLOR : string := "#4FC3F7".
Definition GLANCE_COLOR : string := "#B0BEC5".
Definition EVADE_FONT_SIZE : Z := 18.

(** [Math.round(fontSize * factor)] *)
Definition scaled_size (fontSize : Z) (factor : Q) : Z := math_round (js_mul (num fontSize) factor).

Definition status_style (kind : HitKind) (label : option string) : CombatTextStyle :=
  match kind with
  | h_buff => mkStyle (default "▲" label) BUFF_COLOR STATUS_FONT_SIZE
  | _ => mkStyle (default "▼" label) DEBUFF_COLOR STATUS_FONT_SIZE
  end.

(** The number of a landed hit, with the resistance tell. *)
Definition landed_style (event : CombatHitEvent) : CombatTextStyle :=
  let fontSize := ts_fontSize (combatTextStyle (ch_amount event) (ch_targetMaxHp event) text_damage) in
  let amount := pretty (magnitude (ch_amount event)) in
  let typeColor := DAMAGE_TYPE_COLOR (default physical (ch_damageType event)) in
  match ch_resist event with
  | resisted => mkStyle (amount +:+ " RESIST") RESISTED_COLOR (scaled_size fontSize (lit 0.85))
  | vulnerable => mkStyle (amount +:+ " WEAK") typeColor (scaled_size fontSize (lit 1.15))
  | neutral => mkStyle amount typeColor fontSize
  end.

Definition hitFloaterStyle (event : CombatHitEvent) : CombatTextStyle :=
  match ch_kind event with
  | h_heal => combatTextStyle (ch_amount event) (ch_targetMaxHp event) text_heal
  | h_buff | h_debuff => status_style (ch_kind event) (ch_label event)
  | h_hit | h_dot =>
      let fontSize := ts_fontSize (combatTextStyle (ch_amount event) (ch_targetMaxHp event) text_damage) in
      match ch_evade event with
      | Some dodged =>
          mkStyle (if decide (ch_target event = CPlayer) then "DODGE" else "MISS") DODGE_COLOR EVADE_FONT_SIZE
      | Some glancing =>
          mkStyle (pretty (magnitude (ch_amount event)) +:+ " GLANCING") GLANCE_COLOR
            (scaled_size fontSize (lit 0.85))
      | Some normal | None => landed_style event
      end
  end.

(** ** The narration *)

Record CombatLogNames := mkNames { n_player : string; n_creature : string }.

Definition subj (actor : Combatant) (n : CombatLogNames) : string :=
  match actor with CPlayer => n_player n | CCreature => n_creature n end.

(** [toLowerCase] of ASCII text. *)
Fixpoint lower_string (s : string) : string :=
  match s with
  | EmptyString => EmptyString
  | String c s =>
      let k := nat_of_ascii c in
      String (if ((65 <=? k) && (k <=? 90))%nat then ascii_of_nat (k + 32) else c) (lower_string s)
  end.

Definition obj (actor : Combatant) (n : CombatLogNames) : string :=
  match actor with CPlayer => lower_string (n_player n) | CCreature => n_creature n end.

Definition verb (actor : Combatant) (playerForm creatureForm : string) : string :=
  match actor with CPlayer => playerForm | CCreature => creatureForm end.

#[export] Instance CombatLogTag_eq_dec : EqDecision CombatLogTag.
Proof. solve_decision. Defined.

Definition has_tag (t : CombatLogTag) (tags : option (list CombatLogTag)) : bool :=
  bool_decide (t ∈ default [] tags).

Definition when (b : bool) (s : string) : string := if b then s else "".

Definition tagSuffix (tags : option (list CombatLogTag)) : string :=
  when (has_tag t_crit tags) " — critical!" +:+ when (has_tag t_glancing tags) " — glancing"
  +:+ when (has_tag t_weak tags) " — vulnerable!" +:+ when (has_tag t_resisted tags) " (resisted)".

Definition damage_word (t : DamageType) : string :=
  match t with physical => "physical" | fire => "fire" | frost => "frost" | arcane => "arcane" end.

Definition typeWord (t : option (option DamageType)) : string :=
  match t with Some (Some t) => damage_word t +:+ " " | _ => "" end.

(** [e.source ? pre + e.source + post : ''] *)
Definition with_source (pre post : string) (source : option string) : string :=
  match source with
  | Some s => if decide (s = "") then "" else pre +:+ s +:+ post
  | None => ""
  end.

Definition other (c : Combatant) : Combatant := match c with CPlayer => CCreature | CCreature => CPlayer end.

Definition formatCombatLogEntry (e : CombatLogEntry) (n : CombatLogNames) : string :=
  let amt := pretty (default 0 (cl_amount e)) in
  let actor := cl_actor e in
  match cl_kind e with
  | l_attack =>
      let t := default (other actor) (cl_target e) in
      if has_tag t_dodged (cl_tags e) then
        subj t n +:+ " " +:+ verb t "dodge" "dodges" +:+ " " +:+ subj actor n +:+ "'s attack!"
      else
        subj actor n +:+ " " +:+ verb actor "hit" "hits" +:+ " " +:+ obj t n +:+ " for "
        +:+ amt +:+ " " +:+ typeWord (cl_damageType e) +:+ "damage"
        +:+ with_source " with " "" (cl_source e) +:+ tagSuffix (cl_tags e)
  | l_dot =>
      let t := default CCreature (cl_target e) in
      subj t n +:+ " " +:+ verb t "take" "takes" +:+ " " +:+ amt +:+ " "
      +:+ typeWord (cl_damageType e) +:+ "damage" +:+ with_source " from " "" (cl_source e)
      +:+ tagSuffix (cl_tags e)
  | l_heal =>
      subj actor n +:+ " " +:+ verb actor "heal" "heals" +:+ " " +:+ amt +:+ " HP"
      +:+ with_source " with " "" (cl_source e)
  | l_buff =>
      subj actor n +:+ " " +:+ verb actor "gain" "gains" +:+ " " +:+ default "a boon" (cl_label e)
      +:+ with_source " (" ")" (cl_source e)
  | l_debuff =>
      let t := default CCreature (cl_target e) in
      subj t n +:+ " " +:+ verb t "suffer" "suffers" +:+ " " +:+ default "a hex" (cl_label e)
      +:+ with_source " (" ")" (cl_source e)
  | l_defeat =>
      match default CCreature (cl_target e) with
      | CPlayer => n_player n +:+ " were defeated!"
      | CCreature => upper_first (n_creature n) +:+ " is defeated!"
      end
  end.

(** ** Impact effects *)

Record CombatFloater := mkFloater {
  fl_id : Z; fl_target : Combatant; fl_label : string; fl_color : string; fl_fontSize : Z; fl_dx : Q
}.

Inductive BurstKind := burst_damage | burst_buff | burst_debuff.

Record CombatBurst := mkBurst {
  bu_id : Z; bu_target : Combatant; bu_damageType : option DamageType; bu_resist : ResistTier;
  bu_kind : BurstKind
}.

(** The animations a hit starts. *)
Inductive Cue :=
  | Shake (mag : Q)
  | Flash (target : Combatant)
  | Recoil
  | Empower (target : Combatant).

Definition SHAKE_FULL_AT_FRACTION : Q := lit 0.25.
Definition FLOATER_DX_SPREAD : Q := 18.
Definition SHAKE_BASE : Q := 3.
Definition SHAKE_MAX : Q := 9.

Definition shake_intensity (amount maxHp : Z) : Q :=
  if 0 <? maxHp
  then math_min 1 (js_div (num amount) (js_mul (num maxHp) SHAKE_FULL_AT_FRACTION))
  else lit 0.5.

Definition shake_magnitude (amount maxHp : Z) : Q :=
  js_add SHAKE_BASE (js_mul (js_sub SHAKE_MAX SHAKE_BASE) (shake_intensity amount maxHp)).

Record Impact := mkImpact {
  floaters : list CombatFloater;
  bursts : list CombatBurst;
  nextFloaterIdRef : Z;
  nextBurstIdRef : Z;
  lastSeenHitIdRef : Z;
  fxEncounterRef : option Z;
  cues : list Cue
}.

#[export] Instance Impact_fields : Fields Impact := fun i =>
  mkImpact (floaters i) (bursts i) (nextFloaterIdRef i) (nextBurstIdRef i) (lastSeenHitIdRef i)
    (fxEncounterRef i) (cues i).

Definition initial_impact : Impact := mkImpact [] [] 0 0 (-1) None [].

Definition removeFloater (id : Z) (i : Impact) : Impact :=
  i <| floaters := List.filter (fun f => negb (fl_id f =? id)) (floaters i) |>.

Definition removeBurst (id : Z) (i : Impact) : Impact :=
  i <| bursts := List.filter (fun b => negb (bu_id b =? id)) (bursts i) |>.

(** One floater per hit, with a random horizontal offset. *)
Fixpoint spawn_floaters (fresh : list CombatHitEvent) (i : Impact) : Rand Impact :=
  match fresh with
  | [] => rand_ret i
  | h :: fresh =>
      let style := hitFloaterStyle h in
      let! q := math_random in
      let f := mkFloater (nextFloaterIdRef i) (ch_target h) (ts_label style) (ts_color style)
                 (ts_fontSize style) (js_mul (js_sub (js_mul q 2) 1) FLOATER_DX_SPREAD) in
      spawn_floaters fresh (i <| floaters := floaters i ++ [f] |>
                              <| nextFloaterIdRef := nextFloaterIdRef i + 1 |>)
  end.

Definition add_burst (h : CombatHitEvent) (t : option DamageType) (kind : BurstKind) (i : Impact) : Impact :=
  i <| bursts := bursts i ++ [mkBurst (nextBurstIdRef i) (ch_target h) t (ch_resist h) kind] |>
    <| nextBurstIdRef := nextBurstIdRef i + 1 |>.

Definition cue (c : list Cue) (i : Impact) : Impact := i <| cues := cues i ++ c |>.

(** The impact of one hit. *)
Definition impact_of (i : Impact) (h : CombatHitEvent) : Impact :=
  match ch_kind h with
  | h_heal => i
  | h_buff => add_burst h None burst_buff (cue [Empower (ch_target h)] i)
  | h_debuff => add_burst h None burst_debuff (cue [Empower (ch_target h)] i)
  | h_hit | h_dot =>
      match ch_evade h with
      | Some dodged => i
      | _ =>
          let shake := Shake (shake_magnitude (ch_amount h) (ch_targetMaxHp h)) in
          let i := cue (match ch_target h with
                        | CCreature => [shake; Flash CCreature; Recoil]
                        | CPlayer => [shake; Flash CPlayer]
                        end) i in
          add_burst h (ch_damageType h) burst_damage i
      end
  end.

(** The hits the effect has not seen. *)
Definition fresh_hits (i : Impact) (hits : list CombatHitEvent) : list CombatHitEvent :=
  List.filter (fun h => lastSeenHitIdRef i <? ch_id h) hits.

Definition impact_effect (encounterId : option Z) (hits : list CombatHitEvent) (i : Impact) : Rand Impact :=
  let i :=
    if bool_decide (fxEncounterRef i = encounterId) then i
    else i <| fxEncounterRef := encounterId |> <| floaters := [] |> <| bursts := [] |> in
  let fresh := fresh_hits i hits in
  match last fresh with
  | None => rand_ret i
  | Some l =>
      let! i := spawn_floaters fresh (i <| lastSeenHitIdRef := ch_id l |>) in
      rand_ret (fold_left impact_of fresh i)
  end.

(** ** The combat modal *)

Definition clampPct (n : Q) : Q := math_max 0 (math_min 100 n).

Definition toPct (value max : Z) : Q :=
  if 0 <? max then clampPct (js_mul (js_div (num value) (num max)) 100) else 0%Q.

Definition creatureHpTargetPct (encounter : option EncounterObj) : Q :=
  match encounter with
  | Some o => toPct (c_hp (eo_creature o)) (c_maxHp (eo_creature o))
  | None => 100%Q
  end.

Definition playerHpTargetPct (player : option Player) : Q :=
  match player with Some p => toPct (p_hp p) (p_maxHp p) | None => 100%Q end.

(** [state?.resource ?? resourceCfg.startValue] *)
Definition shown_resource (archetype : Archetype) (state : option CombatantState) : Z :=
  match state with Some st => resource st | None => startValue (RESOURCE_CONFIGS archetype) end.

Definition resourceTargetPct (player : option Player) (state : option CombatantState) : Q :=
  match player with
  | Some p => toPct (shown_resource (p_archetype p) state) (rc_max (RESOURCE_CONFIGS (p_archetype p)))
  | None => 0%Q
  end.

(** Whether an ability's button is disabled. *)
Definition ability_disabled (creature : Creature) (player : Player) (state : option CombatantState)
    (enemyTurn : bool) (ability : Ability) : bool :=
  isDefeated creature || player_isDefeated player
  || (shown_resource (p_archetype player) state <? resourceCost ability) || enemyTurn.

(** [handleAbilityPress]: whether [onAbility] is called; the resource is that of the ref. *)
Definition press_passes (creature : Creature) (player : Player) (ref : option CombatantState)
    (ability : Ability) : bool :=
  negb (isDefeated creature || player_isDefeated player
        || (shown_resource (p_archetype player) ref <? resourceCost ability)).

Definition signed (n : Z) : string := (if 0 <? n then "+" else "") +:+ pretty n.

(** The damage a direct ability's button announces. *)
Definition preview_damage (creature : Creature) (player : Player) (state : option CombatantState)
    (ability : Ability) : Z :=
  let effectiveAttack :=
    es_attack (computeEffectiveStats (p_attack player) (p_defense player)
                 (from_option statusEffects [] state)) in
  ar_damage (resolveAbility ability effectiveAttack (c_defense creature) (c_resistances creature)
               (p_maxHp player)).

Definition getDamagePreview (creature : Creature) (player : Player) (state : option CombatantState)
    (ability : Ability) : string :=
  match ability with
  | DirectAbility _ _ _ => "~" +:+ pretty (preview_damage creature player state ability) +:+ " dmg"
  | DotAbility _ damagePerTick tickCount _ => pretty damagePerTick +:+ "×" +:+ pretty tickCount +:+ " DoT"
  | BuffDebuffAbility _ tickDuration mods _ =>
      let parts := from_option (fun d => [signed d +:+ " ATK"]) [] (sm_attack mods)
                   ++ from_option (fun d => [signed d +:+ " DEF"]) [] (sm_defense mods) in
      String.concat ", " parts +:+ " (" +:+ pretty tickDuration +:+ "t)"
  | DefensiveAbility _ _ _ _ =>
      let result := resolveAbility ability 0 0 (c_resistances creature) (p_maxHp player) in
      if 0 <? ar_heal result then "+" +:+ pretty (ar_heal result) +:+ " HP"
      else if 0 <? ar_shield result then pretty (ar_shield result) +:+ " shield"
      else ""
  end.

(** ** The encounter modal *)

Definition canAutoResolve (creature : Creature) : bool := negb (isEliteCreature (c_rarity creature)).

Definition modal_playerDefeated (playerHp : option Z) : bool :=
  match playerHp with Some hp => hp <=? 0 | None => false end.

(** The bar's colour token ([constants/theme.ts]). *)
Inductive HpTone := tone_success | tone_warning | tone_danger.

Definition hpColor (hp maxHp : Z) : HpTone :=
  let ratio := if 0 <? maxHp then js_div (num hp) (num maxHp) else 0%Q in
  if js_lt (1 # 2) ratio then tone_success
  else if js_lt (1 # 4) ratio then tone_warning
  else tone_danger.

(** The screen of a fight: the session, the effects, and the hits shown so far. *)
Record View := mkView { v_session : Session; v_impact : Impact; v_shown : list Z }.

Definition view_hits (i : Impact) (hits : list CombatHitEvent) : list Z := ch_id <$> fresh_hits i hits.

(** A render of the modal runs the effect on the encounter and the feed of the session. *)
Definition render_fight (v : View) : Rand View :=
  let s := v_session v in
  let encounterId := (fun o => e_timestamp (eo_enc o)) <$> currentEncounter s in
  let! i := impact_effect encounterId (combatHits s) (v_impact v) in
  rand_ret (mkView s i (v_shown v ++ view_hits (v_impact v) (combatHits s))).

Inductive ViewEvent :=
  | VGame (ev : Event)
  | VRender
  | VFloaterDone (id : Z)
  | VBurstDone (id : Z).

Definition view_step (now : Z) (ev : ViewEvent) (v : View) : Rand View :=
  match ev with
  | VGame ev =>
      let! s := dispatch now ev (v_session v) in rand_ret (mkView s (v_impact v) (v_shown v))
  | VRender => render_fight v
  | VFloaterDone id => rand_ret (mkView (v_session v) (removeFloater id (v_impact v)) (v_shown v))
  | VBurstDone id => rand_ret (mkView (v_session v) (removeBurst id (v_impact v)) (v_shown v))
  end.

Fixpoint view_run (evs : list (Z * ViewEvent)) (v : View) : Rand View :=
  match evs with
  | [] => rand_ret v
  | (now, ev) :: evs => let! v := view_step now ev v in view_run evs v
  end.

(** ** The feed

    The fight only appends to the hit feed, each hit with the next id, or empties it. *)

Definition Feed : Type := list CombatHitEvent * Z.

Definition feed (s : Session) : Feed := (combatHits s, hitIdRef s).

Inductive feeds : Feed -> Feed -> Prop :=
  | feeds_refl f : feeds f f
  | feeds_push l n h f : ch_id h = n -> feeds (l ++ [h], n + 1) f -> feeds (l, n) f
  | feeds_reset l n f : feeds ([], n) f -> feeds (l, n) f.

Lemma feeds_trans f g h : feeds f g -> feeds g h -> feeds f h.
Proof. induction 1; intros; auto. - eapply feeds_push; eauto. - apply feeds_reset; auto. Qed.

Lemma feeds_same s s' : combatHits s' = combatHits s -> hitIdRef s' = hitIdRef s -> feeds (feed s) (feed s').
Proof. intros E1 E2. unfold feed. rewrite E1, E2. apply feeds_refl. Qed.

Lemma feeds_empty s s' : combatHits s' = [] -> hitIdRef s' = hitIdRef s -> feeds (feed s) (feed s').
Proof. intros E1 E2. unfold feed. rewrite E1, E2. apply feeds_reset, feeds_refl. Qed.

Ltac fed := first [apply feeds_same; reflexivity | apply feeds_empty; reflexivity].

Lemma pushHit_feeds t n d r k m lab e s : feeds (feed s) (feed (pushHit t n d r k m lab e s)).
Proof. unfold feed. eapply feeds_push; [|apply feeds_refl]. reflexivity. Qed.

(** A push followed by steps that leave the feed alone. *)
Lemma push_then t n d r k m lab e s s' :
  combatHits s' = combatHits (pushHit t n d r k m lab e s) ->
  hitIdRef s' = hitIdRef (pushHit t n d r k m lab e s) -> feeds (feed s) (feed s').
Proof.
  intros E1 E2. eapply feeds_trans; [apply pushHit_feeds|]. apply feeds_same; [exact E1 | exact E2].
Qed.

Lemma won_feeds p rv s : feeds (feed s) (feed (won p rv s)).
Proof. fed. Qed.

Lemma handleVictory_feeds now pu s s0 : feed s0 = feed s ->
  (forall p, base_player pu s0 = Some p -> wf_player p) ->
  (forall o, encounterRef s0 = Some o -> creature_ok (eo_creature o)) ->
  rand_post (handleVictory now pu s0) (fun s' => feeds (feed s) (feed s')).
Proof.
  intros E Hp Hc. eapply rand_post_weaken; [apply handleVictory_cases; [exact Hp | exact Hc]|].
  intros s' H. rewrite <- E. destruct (encounterRef s0); [|subst; apply feeds_refl].
  destruct (base_player pu s0); [|subst; apply feeds_refl].
  destruct (victoryProcessedRef s0); [subst; apply feeds_refl|].
  destruct H as (p' & rv & _ & ->). apply won_feeds.
Qed.

Lemma dot_fold_feeds c l : forall acc s, feeds (feed s) (feed (snd (fold_left (dot_hit c) l (acc, s)))).
Proof.
  induction l as [|d l IH]; intros acc s; [apply feeds_refl|]. cbn [fold_left]. unfold dot_hit at 2.
  destruct (0 <? applyResistance _ _); [|apply IH].
  eapply feeds_trans; [|apply IH]. eapply push_then; reflexivity.
Qed.

Lemma tick_creature_feeds c s : feeds (feed s) (feed (snd (tick_creature c s))).
Proof.
  unfold tick_creature. destruct (creatureCombatStateRef s) as [st|]; [|apply feeds_refl].
  destruct (0 <? _)%nat; [|apply feeds_refl]. cbv zeta.
  pose proof (dot_fold_feeds c (tr_dotEffects (tickStatusEffects st)) 0 s) as D.
  destruct (fold_left _ _ _) as [n s']. cbn [snd] in *. eapply feeds_trans; [exact D | fed].
Qed.

Lemma dot_fold_streak c l : forall acc s,
  creatureDodgeStreakRef (snd (fold_left (dot_hit c) l (acc, s))) = creatureDodgeStreakRef s.
Proof.
  induction l as [|d l IH]; intros acc s; [reflexivity|]. cbn [fold_left]. unfold dot_hit at 2.
  destruct (0 <? applyResistance _ _); rewrite IH; reflexivity.
Qed.

Lemma tick_creature_streak c s :
  creatureDodgeStreakRef (snd (tick_creature c s)) = creatureDodgeStreakRef s.
Proof.
  unfold tick_creature. destruct (creatureCombatStateRef s) as [st|]; [|reflexivity].
  destruct (0 <? _)%nat; [|reflexivity]. cbv zeta.
  pose proof (dot_fold_streak c (tr_dotEffects (tickStatusEffects st)) 0 s) as D.
  destruct (fold_left _ _ _) as [n s']. exact D.
Qed.

Lemma swing_feeds ab t n p c s : 0 <= creatureDodgeStreakRef s ->
  rand_post (swing ab t n p c s) (fun r => feeds (feed s) (feed (snd r))).
Proof.
  intros K. unfold swing. rand_step rollEvasion_streak ev Hev; [exact K|]. apply rand_post_ret.
  cbn [snd]. eapply push_then; reflexivity.
Qed.

Lemma heal_self_feeds ab n p s : feeds (feed s) (feed (snd (heal_self ab n p s))).
Proof. unfold heal_self. destruct (0 <? n); [eapply push_then; reflexivity | apply feeds_refl]. Qed.

Lemma publish_cast_feeds ab p c s : feeds (feed s) (feed (publish_cast ab p c s)).
Proof. destruct ab; try apply feeds_refl. eapply push_then; reflexivity. Qed.

Lemma perform_feeds now ab enc st p pre c cst s : 0 <= creatureDodgeStreakRef s ->
  rand_post (perform now ab enc st p pre c cst s) (fun s' => feeds (feed s) (feed s')).
Proof.
  intros K. unfold perform. cbv zeta.
  eapply rand_post_bind with (P := fun x => feeds (feed s) (feed (snd x))).
  - destruct ab; try (apply rand_post_ret, feeds_refl).
    destruct (0 <? _); [apply swing_feeds, K | apply rand_post_ret, feeds_refl].
  - intros [c1 s1] F. cbn [snd] in F.
    match goal with |- context [heal_self ?a ?n ?q ?x] => pose proof (heal_self_feeds a n q x) as F2;
      destruct (heal_self a n q x) as [p2 s2] end. cbn [snd] in F2.
    pose proof (publish_cast_feeds ab p2 c1 s2) as F3. apply rand_post_ret.
    eapply feeds_trans; [exact F|]. eapply feeds_trans; [exact F2|]. eapply feeds_trans; [exact F3|].
    unfold scheduleVictory, scheduleCounterAttack. destruct (isDefeated c1); [destruct (_ || _) | destruct (counterPendingRef _)]; fed.
Qed.

Lemma handleAbility_feeds now ab s : session_ok s ->
  rand_post (handleAbility now ab s) (fun r => feeds (feed s) (feed (snd r))).
Proof.
  intros K. unfold handleAbility.
  destruct (encounterRef s) as [enc|] eqn:E; [|apply rand_post_ret, feeds_refl].
  destruct (playerRef s) as [p|] eqn:P; [|apply rand_post_ret, feeds_refl].
  destruct (playerCombatStateRef s) as [st|]; [|apply rand_post_ret, feeds_refl].
  destruct (_ || _); [apply rand_post_ret, feeds_refl|].
  destruct (isDefeated _).
  { eapply rand_post_bind; [apply (handleVictory_feeds now None s s eq_refl); [|apply K]|].
    - cbn. rewrite P. intros ? [= <-]. eapply ok_player; eauto.
    - intros s' F. apply rand_post_ret. eapply feeds_trans; [exact F | fed]. }
  destruct (_ <? _); [apply rand_post_ret, feeds_refl|]. cbv zeta.
  pose proof (tick_creature_feeds (eo_creature enc) s) as F.
  pose proof (tick_creature_streak (eo_creature enc) s) as Ks.
  destruct (tick_creature (eo_creature enc) s) as [[c cst] s1]. cbn [snd] in *.
  destruct (isDefeated c).
  - apply rand_post_ret. cbn [snd]. eapply feeds_trans; [exact F|].
    unfold scheduleVictory. destruct (_ || _); fed.
  - eapply rand_post_bind; [apply perform_feeds; rewrite Ks; apply K|].
    intros s2 F2. apply rand_post_ret. exact (feeds_trans _ _ _ F F2).
Qed.

Lemma counter_feeds s : session_ok s ->
  rand_post (counter_timer_fires s) (fun s' => feeds (feed s) (feed s')).
Proof.
  intros K. unfold counter_timer_fires.
  destruct (counterTimerRef s) as [[dl [a d c i|]]|]; try (apply rand_post_ret; fed).
  cbn. destruct (playerRef s) as [p|]; [|apply rand_post_ret; fed].
  case_bool_decide; [|apply rand_post_ret; fed]. unfold counter_strike.
  eapply rand_post_bind; [apply rollEvasion_streak, (ok_streaks s K)|]. intros ev _. cbv zeta.
  match goal with |- context [player_isDefeated ?q] => generalize q end. intros q.
  apply rand_post_ret. destruct (player_isDefeated q); eapply push_then; reflexivity.
Qed.

Lemma dispatch_feeds now ev s : session_ok s ->
  rand_post (dispatch now ev s) (fun s' => feeds (feed s) (feed s')).
Proof.
  intros K. destruct ev; cbn [dispatch]; try (apply rand_post_ret; fed);
    try (apply rand_post_ret; case_match; fed).
  - apply rand_post_ret. destruct e; fed.
  - apply rand_post_ret. destruct (engageable s); fed.
  - unfold handleFight. destruct (encounterRef s) as [enc|] eqn:E; [|apply rand_post_ret; fed].
    destruct (playerRef s) eqn:P; [|apply rand_post_ret; fed].
    destruct (player_isDefeated _); [apply rand_post_ret; fed|].
    destruct (isDefeated _).
    + apply handleVictory_feeds; [reflexivity | | apply K]. cbn. rewrite P. intros ? [= <-].
      eapply ok_player; eauto.
    + apply rand_post_ret. cbn. destruct (playerCombatStateRef s); cbn;
        destruct (creatureCombatStateRef s); fed.
  - eapply rand_post_bind; [apply handleAbility_feeds, K|]. intros r H. apply rand_post_ret, H.
  - apply rand_post_ret. unfold handleFlee. destruct (_ || _); [fed|]. cbv zeta.
    destruct (encounterRef s); [destruct (playerRef s)|]; fed.
  - apply rand_post_ret. unfold handleCloseCombatModal. case_match; fed.
  - unfold handleAutoResolve. destruct (playerRef s) as [p|] eqn:P; [|apply rand_post_ret; fed].
    destruct (encounterRef s) eqn:E; [|apply rand_post_ret; fed].
    destruct (isEliteCreature _); [apply rand_post_ret; fed|].
    apply handleVictory_feeds; [reflexivity | | apply K]. intros ? [= <-]. eapply ok_player; eauto.
  - unfold handleDebugDefeat. destruct (encounterRef s) as [enc|] eqn:E; [|apply rand_post_ret; fed].
    destruct (playerRef s) as [p|] eqn:P; [|apply rand_post_ret; fed].
    destruct (victoryProcessedRef s); [apply rand_post_ret; fed|].
    destruct (isDefeated _); [apply rand_post_ret; fed|].
    apply handleVictory_feeds; [reflexivity | |].
    + intros ? [= <-]. eapply ok_player; eauto.
    + intros o [= <-]. pose proof (ok_creature s K enc E) as C. apply takeDamage_ok; [apply C | exact C].
  - unfold kill_beat_fires. destruct (killBeatTimerRef s) as [p|] eqn:B; [|apply rand_post_ret; fed].
    apply handleVictory_feeds; [reflexivity | | apply K]. intros ? [= <-]. eapply ok_captured; eauto.
  - apply counter_feeds, K.
  - apply rand_post_ret. unfold reveal_timer_fires. case_match; fed.
  - unfold debugPreviewReveal. cbv zeta. eapply rand_post_bind; [apply generateItem_generated; discriminate|].
    intros it _. apply rand_post_ret. fed.
Qed.

(** Ids ascend and stay below the next one. *)
Definition feed_ok (f : Feed) : Prop :=
  StronglySorted Z.lt (ch_id <$> fst f) /\ Forall (fun h => ch_id h < snd f) (fst f).

Lemma sorted_snoc l n : StronglySorted Z.lt l -> Forall (fun x => x < n) l -> StronglySorted Z.lt (l ++ [n]).
Proof.
  induction l as [|x l IH]; intros S F; cbn; [repeat constructor|].
  apply StronglySorted_inv in S as [S1 S2]. apply Forall_cons in F as [F1 F2].
  constructor; [auto|]. apply Forall_app. split; [exact S2 | apply Forall_singleton, F1].
Qed.

(** What a stretch of the fight does to a consumer that has seen ids up to [m], and has
    those of the feed among [shown]. *)
Lemma feeds_keep f g m (shown : list Z) : feeds f g -> feed_ok f -> m < snd f ->
  (forall h, h ∈ fst f -> ch_id h <= m -> ch_id h ∈ shown) ->
  feed_ok g /\ m < snd g /\ (forall h, h ∈ fst g -> ch_id h <= m -> ch_id h ∈ shown).
Proof.
  induction 1 as [f | l n h f E _ IH | l n f _ IH]; intros [S F] M C; cbn [fst snd] in *; [split; [split|]; auto| |].
  - apply IH; [split; cbn | cbn; lia|].
    + rewrite fmap_app. cbn. rewrite E. apply sorted_snoc; [exact S | apply Forall_fmap, F].
    + apply Forall_app. split; [eapply Forall_impl; [exact F|]; intros; cbn in *; lia | apply Forall_singleton; lia].
    + cbn. intros x [Hx | ->%list_elem_of_singleton]%elem_of_app L; [auto | lia].
  - apply IH; [split; constructor | exact M|]. intros x Hx. apply elem_of_nil in Hx. contradiction.
Qed.

(** ** The effect *)

Lemma spawn_spec fresh : forall i, rand_post (spawn_floaters fresh i) (fun i' =>
  lastSeenHitIdRef i' = lastSeenHitIdRef i
  /\ nextFloaterIdRef i' = nextFloaterIdRef i + Z.of_nat (length fresh)).
Proof.
  induction fresh as [|h fresh IH]; intros i; cbn [spawn_floaters].
  - apply rand_post_ret. cbn. split; [reflexivity | lia].
  - rand_step rand_post_random q Hq. eapply rand_post_weaken; [apply IH|].
    intros i' [A B]. cbn [length]. split; [exact A|]. rewrite B. cbn. lia.
Qed.

Lemma impact_of_keeps i h : lastSeenHitIdRef (impact_of i h) = lastSeenHitIdRef i
  /\ nextFloaterIdRef (impact_of i h) = nextFloaterIdRef i.
Proof. unfold impact_of. destruct (ch_kind h), (ch_evade h) as [[]|]; split; reflexivity. Qed.

Lemma impact_fold_keeps l : forall i, lastSeenHitIdRef (fold_left impact_of l i) = lastSeenHitIdRef i
  /\ nextFloaterIdRef (fold_left impact_of l i) = nextFloaterIdRef i.
Proof.
  induction l as [|h l IH]; intros i; [auto|]. cbn [fold_left].
  destruct (IH (impact_of i h)) as [-> ->]. apply impact_of_keeps.
Qed.

Lemma impact_effect_spec e hits i : rand_post (impact_effect e hits i) (fun i' =>
  lastSeenHitIdRef i' = from_option ch_id (lastSeenHitIdRef i) (last (fresh_hits i hits))
  /\ nextFloaterIdRef i' = nextFloaterIdRef i + Z.of_nat (length (fresh_hits i hits))).
Proof.
  unfold impact_effect. set (i0 := if bool_decide _ then i else _).
  assert (A : lastSeenHitIdRef i0 = lastSeenHitIdRef i /\ nextFloaterIdRef i0 = nextFloaterIdRef i)
    by (unfold i0; case_bool_decide; split; reflexivity).
  destruct A as [A1 A2]. cbv zeta.
  assert (F : fresh_hits i0 hits = fresh_hits i hits) by (unfold fresh_hits; rewrite A1; reflexivity).
  rewrite F. destruct (last (fresh_hits i hits)) as [l|] eqn:L.
  - rand_step spawn_spec i1 H1. destruct H1 as [B1 B2]. apply rand_post_ret.
    destruct (impact_fold_keeps (fresh_hits i hits) i1) as [-> ->]. rewrite B1, B2. cbn. rewrite A2. auto.
  - apply rand_post_ret. apply last_None in L. rewrite L. cbn. rewrite A1, A2. split; [reflexivity | lia].
Qed.

Lemma filter_sorted f l : StronglySorted Z.lt (ch_id <$> l) -> StronglySorted Z.lt (ch_id <$> List.filter f l).
Proof.
  induction l as [|h l IH]; intros S; [exact S|]. cbn in *. apply StronglySorted_inv in S as [S1 S2].
  destruct (f h); [|auto]. cbn. constructor; [auto|]. rewrite Forall_forall in S2.
  apply Forall_forall. intros y Hy. apply list_elem_of_fmap in Hy as (x & -> & Hx). apply S2, list_elem_of_fmap.
  apply list_elem_of_In in Hx. apply filter_In in Hx as [Hx _]. exists x. split; [reflexivity | apply list_elem_of_In, Hx].
Qed.

Lemma sorted_app l l' m : StronglySorted Z.lt l -> StronglySorted Z.lt l' ->
  Forall (fun x => x <= m) l -> Forall (fun x => m < x) l' -> StronglySorted Z.lt (l ++ l').
Proof.
  intros S S' F F'. induction S as [|x l S IH X]; [exact S'|]. apply Forall_cons in F as [F1 F2].
  cbn. constructor; [auto|]. apply Forall_app. split; [exact X|]. eapply Forall_impl; [exact F'|].
  intros y Hy. cbn in *. lia.
Qed.

Lemma last_max l m : StronglySorted Z.lt l -> Forall (fun x => x <= default m (last l)) l.
Proof.
  induction 1 as [|x l S IH X]; [constructor|]. rewrite last_cons. destruct (last l) as [y|] eqn:L; cbn in *.
  - constructor; [|exact IH]. rewrite Forall_forall in X. apply Z.lt_le_incl, X.
    apply list_elem_of_lookup. rewrite last_lookup in L. eauto.
  - apply last_None in L. subst l. apply Forall_singleton. lia.
Qed.

(** ** The invariant of the view *)

Record view_ok (v : View) : Prop := {
  vo_session : session_ok (v_session v);
  vo_feed : feed_ok (feed (v_session v));
  vo_seen : lastSeenHitIdRef (v_impact v) < hitIdRef (v_session v);
  vo_sorted : StronglySorted Z.lt (v_shown v);
  vo_below : Forall (fun x => x <= lastSeenHitIdRef (v_impact v)) (v_shown v);
  vo_caught : forall h, h ∈ combatHits (v_session v) -> ch_id h <= lastSeenHitIdRef (v_impact v) ->
                ch_id h ∈ v_shown v;
  vo_floaters : nextFloaterIdRef (v_impact v) = Z.of_nat (length (v_shown v))
}.

Lemma fresh_elem i hits h : h ∈ fresh_hits i hits <-> h ∈ hits /\ lastSeenHitIdRef i < ch_id h.
Proof.
  unfold fresh_hits. rewrite list_elem_of_In, filter_In, <- list_elem_of_In, Z.ltb_lt. reflexivity.
Qed.

Lemma fresh_above i hits : Forall (fun x => lastSeenHitIdRef i < x) (view_hits i hits).
Proof. apply Forall_fmap, Forall_forall. intros h Hh. apply fresh_elem in Hh. apply Hh. Qed.

Lemma from_last i hits : from_option ch_id (lastSeenHitIdRef i) (last (fresh_hits i hits))
  = default (lastSeenHitIdRef i) (last (view_hits i hits)).
Proof. unfold view_hits. rewrite fmap_last. destruct (last _); reflexivity. Qed.

(** After a render nothing of the feed is left to show. *)
Lemma render_view v : view_ok v -> rand_post (render_fight v) (fun v' =>
  view_ok v' /\ v_session v' = v_session v
  /\ forall h, h ∈ combatHits (v_session v) -> ch_id h ∈ v_shown v').
Proof.
  intros [K [Fs Fb] Sn So Be Ca Fl]. unfold render_fight. cbv zeta.
  rand_step impact_effect_spec i' H. destruct H as [L N]. apply rand_post_ret.
  cbn [v_session v_shown]. set (s := v_session v) in *. set (i := v_impact v) in *.
  assert (Sh : StronglySorted Z.lt (view_hits i (combatHits s))) by apply filter_sorted, Fs.
  rewrite from_last in L. set (m := default (lastSeenHitIdRef i) (last (view_hits i (combatHits s)))) in *.
  assert (M : lastSeenHitIdRef i <= m).
  { unfold m. pose proof (fresh_above i (combatHits s)) as F. destruct (last (view_hits _ _)) as [y|] eqn:E; cbn; [|lia].
    rewrite Forall_forall in F. apply Z.lt_le_incl, F, list_elem_of_lookup. rewrite last_lookup in E. eauto. }
  assert (All : forall h, h ∈ combatHits s -> ch_id h ∈ v_shown v ++ view_hits i (combatHits s)).
  { intros h Hh. apply elem_of_app. destruct (Z.le_gt_cases (ch_id h) (lastSeenHitIdRef i)) as [A|A]; [left; auto|].
    right. apply list_elem_of_fmap. exists h. split; [reflexivity|]. apply fresh_elem. auto. }
  split; [|split; [reflexivity | exact All]].
  constructor; cbn [v_session v_impact v_shown]; fold s; fold i.
  - exact K.
  - split; [exact Fs | exact Fb].
  - rewrite L. unfold m. destruct (last (view_hits i (combatHits s))) as [y|] eqn:E; cbn; [|exact Sn].
    rewrite last_lookup in E. apply list_elem_of_lookup_2 in E.
    apply list_elem_of_fmap in E as (h & -> & Hh). apply fresh_elem in Hh as [Hh _].
    rewrite Forall_forall in Fb. exact (Fb h Hh).
  - apply (sorted_app _ _ (lastSeenHitIdRef i)); auto using fresh_above.
  - rewrite L. apply Forall_app. split.
    + eapply Forall_impl; [exact Be|]. intros x Hx. cbn in *. lia.
    + apply last_max, Sh.
  - intros h Hh _. apply All, Hh.
  - rewrite N, length_app. unfold view_hits. rewrite length_fmap. fold i in Fl. rewrite Fl. lia.
Qed.

Lemma view_step_ok now ev v : (forall e, ev = VGame e -> event_ok e) -> view_ok v ->
  rand_post (view_step now ev v) view_ok.
Proof.
  intros E K. pose proof K as [Ks Kf Sn So Be Ca Fl]. destruct ev as [ev| |id|id]; cbn [view_step].
  - eapply rand_post_bind.
    { intros r R. destruct (dispatch_ok now ev _ (E ev eq_refl) Ks r R) as [A _].
      destruct (dispatch_feeds now ev _ Ks r R) as [B C].
      exact (conj (conj A B) C : (fun s' => session_ok s' /\ feeds (feed (v_session v)) (feed s')) _ /\ _). }
    intros s' [K' F]. apply rand_post_ret.
    destruct (feeds_keep _ _ _ _ F Kf Sn Ca) as (F1 & F2 & F3). constructor; assumption.
  - eapply rand_post_weaken; [apply render_view, K|]. intros v' H. apply H.
  - apply rand_post_ret. constructor; assumption.
  - apply rand_post_ret. constructor; assumption.
Qed.

(** ** Properties *)

Lemma view_run_ok evs : Forall (fun e => forall g, snd e = VGame g -> event_ok g) evs ->
  forall v, view_ok v -> rand_post (view_run evs v) view_ok.
Proof.
  induction evs as [|[now ev] evs IH]; intros F v K; [apply rand_post_ret, K|].
  apply Forall_cons in F as [F1 F2]. rand_step view_step_ok v' H; [exact F1 | exact K |]. apply IH; assumption.
Qed.

Definition open_view (p : Player) : View := mkView (initial_session (Some p)) initial_impact [].

(** C34: Every hit is shown exactly once.  Whatever happens in the fights (turns, counters,
    wins, flights, new encounters, cleared feeds) and however renders fall between them,
    the hits the effect has reacted to are in strictly ascending order of id, so none is
    shown twice; after a render every hit in the feed has been shown; and exactly one
    floating number was spawned for each. *)
Theorem hits_shown_once (p : Player) (evs : list (Z * ViewEvent)) :
  wf_player p -> Forall (fun e => forall g, snd e = VGame g -> event_ok g) evs ->
  rand_post (let! v := view_run evs (open_view p) in render_fight v) (fun v =>
    StronglySorted Z.lt (v_shown v)
    /\ (forall h, h ∈ combatHits (v_session v) -> ch_id h ∈ v_shown v)
    /\ nextFloaterIdRef (v_impact v) = Z.of_nat (length (v_shown v))).
Proof.
  intros W F. assert (K : view_ok (open_view p)).
  { constructor; cbn; [| split; constructor | lia | constructor | constructor | | reflexivity].
    - apply initial_session_ok. intros ? [= <-]. exact W.
    - intros h Hh. apply elem_of_nil in Hh. contradiction. }
  rand_step (view_run_ok evs F) v Hv; [exact K|]. eapply rand_post_weaken; [apply render_view, Hv|].
  intros v' (K' & E & A). rewrite E. destruct K'. auto.
Qed.

Lemma damage_tier_mono a b : (a <= b)%Q -> tier_fontSize (damage_tier a) <= tier_fontSize (damage_tier b).
Proof.
  intros L. unfold damage_tier, DAMAGE_TIERS. cbn [List.find].
  repeat match goal with |- context [js_le ?x ?y] => destruct (js_le x y) eqn:? end; cbn; try lia;
    js_reflect; exfalso; lra.
Qed.

Lemma damage_tier_cases q : tier_fontSize (damage_tier q) = 34 \/ tier_fontSize (damage_tier q) = 26
  \/ tier_fontSize (damage_tier q) = 20.
Proof.
  unfold damage_tier, DAMAGE_TIERS. cbn [List.find].
  destruct (js_le (tier_min _) q); [auto|]. destruct (js_le (tier_min _) q); [auto|].
  destruct (js_le (tier_min _) q); auto.
Qed.

Lemma magnitude_mono a b : a <= b -> magnitude a <= magnitude b.
Proof.
  intros L. unfold magnitude, math_round. apply Z.max_le_compat_l, math_floor_mono.
  apply Qplus_le_compat; [apply num_le, L | lra].
Qed.

Lemma scaled_size_mono a b f : (0 <= f)%Q -> a <= b -> scaled_size a f <= scaled_size b f.
Proof.
  intros F L. unfold scaled_size, math_round. apply math_floor_mono, Qplus_le_compat; [|lra].
  apply js_mul_mono_l; [exact F | apply num_le, L].
Qed.

Lemma damage_size_mono a b maxHp : a <= b ->
  ts_fontSize (combatTextStyle a maxHp text_damage) <= ts_fontSize (combatTextStyle b maxHp text_damage).
Proof.
  intros L. apply damage_tier_mono. unfold damage_fraction. destruct (Z.ltb_spec 0 maxHp); [|lra].
  apply js_div_mono; [| | |lra].
  - apply num_nonneg. unfold magnitude. lia.
  - apply num_le, magnitude_mono, L.
  - apply num_pos. assumption.
Qed.

(** The same hit with another amount. *)
Definition with_amount (n : Z) (h : CombatHitEvent) : CombatHitEvent :=
  mkHit (ch_id h) (ch_target h) n (ch_damageType h) (ch_resist h) (ch_kind h) (ch_targetMaxHp h)
    (ch_label h) (ch_evade h).

(** The size of a number tells how hard the hit was.  Of two hits that differ only in
    amount the heavier is never drawn smaller; every floating text is between 17 and 39
    points; and a dodge shows a word, never a number. *)
Theorem floater_reads_magnitude (h : CombatHitEvent) (n : Z) :
  (ch_amount h <= n -> ts_fontSize (hitFloaterStyle h) <= ts_fontSize (hitFloaterStyle (with_amount n h)))
  /\ 17 <= ts_fontSize (hitFloaterStyle h) <= 39
  /\ ((ch_kind h = h_hit \/ ch_kind h = h_dot) -> ch_evade h = Some dodged ->
      ts_label (hitFloaterStyle h) = "DODGE" \/ ts_label (hitFloaterStyle h) = "MISS").
Proof.
  split; [|split].
  - intros L. pose proof (damage_size_mono _ n (ch_targetMaxHp h) L) as M.
    destruct h as [id t a d r k mh lab e]. unfold hitFloaterStyle, landed_style, with_amount.
    cbn [ch_kind ch_amount ch_evade ch_targetMaxHp ch_resist] in *. revert M.
    generalize (ts_fontSize (combatTextStyle a mh text_damage)).
    generalize (ts_fontSize (combatTextStyle n mh text_damage)). intros y x M.
    destruct k; try reflexivity;
      (destruct e as [[]|]; [destruct r | | reflexivity | destruct r]); cbn [ts_fontSize];
      try exact M; (apply scaled_size_mono; [q_compute | exact M]).
  - pose proof (damage_tier_cases (damage_fraction (ch_amount h) (ch_targetMaxHp h))) as E.
    change (tier_fontSize _) with (ts_fontSize (combatTextStyle (ch_amount h) (ch_targetMaxHp h) text_damage)) in E.
    unfold hitFloaterStyle, landed_style. revert E.
    generalize (ts_fontSize (combatTextStyle (ch_amount h) (ch_targetMaxHp h) text_damage)). intros x E.
    assert (B : 20 <= x <= 34 /\ 17 <= scaled_size x (lit 0.85) <= 39 /\ 17 <= scaled_size x (lit 1.15) <= 39)
      by (destruct E as [-> | [-> | ->]]; vm_compute; intuition discriminate).
    destruct B as (B1 & B2 & B3). destruct (ch_kind h); cbn [ts_fontSize combatTextStyle status_style];
      unfold HEAL_FONT_SIZE, STATUS_FONT_SIZE; try lia;
      (destruct (ch_evade h) as [[]|]; [destruct (ch_resist h) | | | destruct (ch_resist h)]);
      cbn [ts_fontSize]; unfold EVADE_FONT_SIZE; lia.
  - intros K E. unfold hitFloaterStyle. rewrite E. destruct K as [-> | ->]; cbn; case_match; auto.
Qed.

(** ** The buttons *)

(** The damage of a direct ability before evasion is what its button announced, unless an
    effect on the creature has changed its defence. *)
Lemma preview_matches c p st b m t pre :
  es_defense (computeEffectiveStats 0 (c_defense c) pre) = c_defense c ->
  preview_damage c p (Some st) (DirectAbility b m t)
  = ar_damage (turn_result (DirectAbility b m t) p st c pre).
Proof. intros E. unfold preview_damage, turn_result. rewrite E. reflexivity. Qed.

(** C35: A button that reacts does what it says.  In a fight, when the modal shows an ability
    enabled and no kill beat is running, a press passes the modal's own check and the game
    takes the turn, for the cost shown; and a direct ability whose creature carries no
    defence effect deals, if it neither misses nor glances, exactly the damage previewed. *)
Theorem enabled_button_acts (now : Z) (ab : Ability) (s : Session) (enc : EncounterObj) (p : Player)
    (st : CombatantState) :
  session_ok s -> encounterRef s = Some enc -> playerRef s = Some p ->
  playerCombatState s = Some st -> victoryProcessedRef s = false -> killBeatPendingRef s = false ->
  ability_disabled (eo_creature enc) p (playerCombatState s) (isEnemyTurn s) ab = false ->
  press_passes (eo_creature enc) p (playerCombatStateRef s) ab = true
  /\ rand_post (handleAbility now ab s) (fun r => turn_taken now ab enc p st s (fst r) (snd r))
  /\ forall b m t pre, ab = DirectAbility b m t ->
       es_defense (computeEffectiveStats 0 (c_defense (eo_creature enc)) pre) = c_defense (eo_creature enc) ->
       preview_damage (eo_creature enc) p (playerCombatState s) ab
       = ar_damage (turn_result ab p st (eo_creature enc) pre).
Proof.
  intros K E P S V B D. unfold ability_disabled in D. rewrite S in D.
  apply orb_false_iff in D as [[[D1 D2]%orb_false_iff D3]%orb_false_iff D4]. cbn [shown_resource] in D3.
  rewrite (ok_state_sync s K) in S. split; [|split].
  - unfold press_passes. rewrite S, D1, D2. cbn [shown_resource]. rewrite D3. reflexivity.
  - apply handleAbility_turn; [exact K | | apply Z.ltb_ge, D3].
    constructor; auto; [rewrite <- (ok_turn s K); exact D4|].
    unfold isDefeated in D1. apply Z.leb_gt in D1. lia.
  - intros b m t pre -> Hd. rewrite (ok_state_sync s K), S. apply preview_matches, Hd.
Qed.

(** *** Concrete runs *)

Definition shown_fight : list (Z * ViewEvent) :=
  (1, VRender) :: ((fun e => (fst e, VGame (snd e))) <$> sample_fight) ++ [(20, VFloaterDone 0); (21, VBurstDone 0)].

Lemma hits_shown_once_witness :
  rand_post (let! v := view_run shown_fight (open_view sample_player) in render_fight v) (fun v =>
    StronglySorted Z.lt (v_shown v)
    /\ (forall h, h ∈ combatHits (v_session v) -> ch_id h ∈ v_shown v)
    /\ nextFloaterIdRef (v_impact v) = Z.of_nat (length (v_shown v))).
Proof.
  apply hits_shown_once; [apply sample_player_wf|].
  unfold shown_fight. apply Forall_cons_2; [intros g [=]|]. apply Forall_app. split.
  - apply Forall_fmap. eapply Forall_impl; [apply sample_fight_ok|]. intros e [E _] g [= <-]. exact E.
  - repeat (apply Forall_cons_2; [intros g [=]|]). apply Forall_nil_2.
Defined.

Lemma enabled_button_acts_witness :
  exists enc p st, encounterRef midfight = Some enc /\ playerRef midfight = Some p
  /\ press_passes (eo_creature enc) p (playerCombatStateRef midfight) strike = true
  /\ rand_post (handleAbility 5 strike midfight)
       (fun r => turn_taken 5 strike enc p st midfight (fst r) (snd r)).
Proof.
  set (enc := default (mkObj 0 (foe 0)) (encounterRef midfight)).
  set (p := default sample_player (playerRef midfight)).
  set (st := default (mkCombatantState [] 0) (playerCombatState midfight)).
  assert (E : encounterRef midfight = Some enc) by (vm_compute; reflexivity).
  assert (P : playerRef midfight = Some p) by (vm_compute; reflexivity).
  exists enc, p, st. split; [exact E|]. split; [exact P|].
  destruct (enabled_button_acts 5 strike midfight enc p st midfight_ok E P) as (A & B & _);
    try (vm_compute; reflexivity). exact (conj A B).
Defined.

(** The numbers on the buttons ignore what the player's own debuffs did to the creature. *)
Theorem preview_ignores_debuff :
  let weakened := [mkStatusEffect "sunder" debuff 3 None None (Some (mkStatModifiers None (Some (-5))))] in
  preview_damage sample_creature sample_player (Some (initCombatState Martial)) strike
  < ar_damage (turn_result strike sample_player (initCombatState Martial) sample_creature weakened).
Proof. vm_compute. reflexivity. Qed.

(** A dodge is narrated with the player's name in the wrong form. *)
Theorem dodge_line :
  formatCombatLogEntry
    (mkLog 0 l_attack CPlayer (Some CCreature) (Some "Strike") (Some 0) (Some (Some physical)) None
       (Some [t_dodged])) (mkNames "You" "Alley Cur")
  = "Alley Cur dodges You's attack!".
Proof. vm_compute. reflexivity. Qed.
