(* ===== verification/DebugActions.v ===== *)
(** * The debug actions

    [src/hooks/useDebugActions.ts]: the actions of the debug panel that change the player
    or simulate movement.  Each is a change of the live player followed by a save; the
    alert it shows is its second result. *)
From stdpp Require Import base decidable strings list pretty.
From Stdlib Require Import ZArith QArith Lia.
From S2P Require Import Prelude JsNumber Random Combat Archetype Ability CombatFeed Creature.
From S2P Require Import Config Item Player Loot AutoCombat Encounter Location Json CloudSync.
From S2P Require Import Storage CombatSession SessionInvariant EncounterFlow.
Local Open Scope Z_scope.

Record Alert := mkAlert { al_title : string; al_message : string }.

(** [const updatedPlayer = new Player(currentPlayer.toJSON()); ...; setPlayerAndSave(...)] *)
Definition with_live (f : Player -> Player) (s : Session) : Session :=
  match playerRef s with Some p => setPlayerAndSave (f (clone p)) s | None => s end.

Definition debug_setLevel (targetLevel : Z) (s : Session) : Session * option Alert :=
  (with_live (fun p => setLevel p targetLevel) s,
   (fun p => mkAlert "Level Set" ("You are now level " +:+ pretty (p_level (setLevel (clone p) targetLevel)) +:+ "."))
     <$> playerRef s).

Definition debug_setArchetype (archetype : Archetype) (s : Session) : Session * option Alert :=
  (with_live (fun p => setArchetype p archetype) s,
   (fun _ => mkAlert "Class Changed"
     ("You are now a " +:+ ac_name (ARCHETYPE_CONFIGS archetype) +:+ ". Start a fight to test its abilities."))
     <$> playerRef s).

Definition xp_alert (amount levelsGained : Z) (p : Player) : Alert :=
  if 0 <? levelsGained
  then mkAlert "XP Added & Level Up!"
         ("Added " +:+ pretty amount +:+ " XP!
Gained " +:+ pretty levelsGained +:+ " level(s)!
You are now level " +:+ pretty (p_level p) +:+ "!")
  else mkAlert "XP Added"
         ("Added " +:+ pretty amount +:+ " XP!
Current XP: " +:+ pretty (p_experience p) +:+ "/" +:+ pretty (getExperienceForNextLevel p)).

Definition debug_addXP (amount : Z) (s : Session) : Session * option Alert :=
  match playerRef s with
  | None => (s, None)
  | Some currentPlayer =>
      let (updatedPlayer, levelsGained) := addExperience (clone currentPlayer) amount in
      (setPlayerAndSave updatedPlayer s, Some (xp_alert amount levelsGained updatedPlayer))
  end.

(** The loop of [fillInventory]: an item is generated before each attempt to add it, and
    the first that finds no room ends the loop.  [None]: out of fuel. *)
Fixpoint fill_loop (fuel : nat) (now : Z) (p : Player) (added : Z) : Rand (option (Player * Z)) :=
  match fuel with
  | O => rand_ret None
  | S fuel =>
      let! item := generateItem now (p_level p) None 1 in
      let (p, index) := addItemToInventory p item in
      if index =? -1 then rand_ret (Some (p, added)) else fill_loop fuel now p (added + 1)
  end.

Definition debug_fillInventory (now : Z) (s : Session) : Rand (option (Session * option Alert)) :=
  match playerRef s with
  | None => rand_ret (Some (s, None))
  | Some currentPlayer =>
      let p := clone currentPlayer in
      let! r := fill_loop (S (length (p_inventory p))) now p 0 in
      rand_ret (match r with
                | Some (p, added) =>
                    Some (setPlayerAndSave p s,
                          Some (mkAlert "Inventory Filled"
                                  ("Added " +:+ pretty added +:+ " item(s); inventory is now full.")))
                | None => None
                end)
  end.

Definition debug_restoreHp (s : Session) : Session := with_live fullHeal s.

Definition debug_clearInventory (s : Session) : Session := with_live clearInventory s.

Section Movement.
Context `{Trig} `{AsyncStorage}.

(** [x || d] on numbers: zero is falsy. *)
Definition or_coordinate (x : option Q) (d : Q) : Q :=
  match x with Some q => if Qeq_bool q 0 then d else q | None => d end.

(** The fix [simulateMovement] makes up: the current one moved north. *)
Definition simulated_location (now : Z) (distanceMeters : Q) (a : App) : LocationData :=
  let baseLat := or_coordinate (loc_latitude <$> currentLocationRef a) (lit 37.7749) in
  let baseLon := or_coordinate (loc_longitude <$> currentLocationRef a) (lit (-122.4194)) in
  mkLocationData (js_add baseLat (js_div distanceMeters 111000)) baseLon 10 (Some 0%Q) (Some 0%Q) 0 now.

Definition simulateMovement (env : GateEnv) (now : Z) (currentDistance distanceMeters : Q) (a : App)
    : Rand App :=
  handleDistanceUpdate env
    (mkDistanceData distanceMeters (js_add currentDistance distanceMeters)
       (simulated_location now distanceMeters a)) a.

End Movement.

(** ** Filling the inventory *)

Lemma empty_insert (l : list (option Item)) i it : l !! i = Some None ->
  S (length (filter (fun slot => slot = None) (<[i := Some it]> l)))
  = length (filter (fun slot => slot = None) l).
Proof.
  revert i. induction l as [|o l IH]; intros [|i] E; cbn in E; try discriminate.
  - injection E as ->. reflexivity.
  - csimpl. pose proof (IH i E) as N. destruct o as [x|]; csimpl; rewrite ?N; reflexivity || exact N.
Qed.

(** One attempt to add an item. *)
Lemma add_one p it :
  let (p', index) := addItemToInventory p it in
  (index = -1 /\ p' = p /\ getEmptyInventorySlots p = 0%nat)
  \/ (0 <= index /\ getEmptyInventorySlots p = S (getEmptyInventorySlots p')
      /\ present (p_inventory p') ≡ₚ it :: present (p_inventory p)
      /\ p' = with_inventory p (p_inventory p')).
Proof.
  unfold addItemToInventory. destruct (find_empty (p_inventory p)) as [i|] eqn:E.
  - right. apply find_empty_Some in E as [E _]. split; [lia|].
    pose proof (empty_insert _ _ it E) as N. pose proof (present_insert _ _ _ (Some it) E) as P.
    cbn in P. rewrite app_nil_r in P. destruct p. unfold getEmptyInventorySlots in *. cbn in *.
    split; [rewrite N; reflexivity|]. split; [rewrite P; symmetry; apply Permutation_cons_append | reflexivity].
  - left. split; [reflexivity|]. split; [reflexivity|]. apply find_empty_full in E.
    unfold isInventoryFull in E. apply Nat.eqb_eq, E.
Qed.

(** What the loop leaves: a full inventory, the old items and exactly as many new ones as
    there were free slots, and nothing else changed. *)
Definition filled_up (p p' : Player) (added : Z) : Prop :=
  wf_player p' /\ isInventoryFull p' = true /\ added = Z.of_nat (getEmptyInventorySlots p)
  /\ p' = with_inventory p (p_inventory p')
  /\ exists new, Z.of_nat (length new) = added
     /\ present (p_inventory p') ≡ₚ new ++ present (p_inventory p).

Lemma fill_loop_spec now fuel : forall p added, wf_player p -> (getEmptyInventorySlots p < fuel)%nat ->
  rand_post (fill_loop fuel now p added) (fun r =>
    exists p' n, r = Some (p', added + n) /\ filled_up p p' n).
Proof.
  induction fuel as [|fuel IH]; intros p added W L; [lia|]. cbn [fill_loop].
  eapply rand_post_bind; [apply generateItem_generated; discriminate|]. intros it [_ _ Hok _].
  pose proof (addItem_wf p it Hok W) as W'. pose proof (add_one p it) as A.
  destruct (addItemToInventory p it) as [p1 index]. cbn [fst] in W'.
  destruct A as [(-> & -> & N) | (I & N & P & E)].
  - apply rand_post_ret. exists p, 0. split; [f_equal; f_equal; lia|]. split; [exact W|].
    split; [unfold isInventoryFull; rewrite N; reflexivity|]. split; [rewrite N; reflexivity|].
    split; [destruct p; reflexivity|]. exists []. split; reflexivity.
  - destruct (Z.eqb_spec index (-1)) as [|_]; [lia|].
    eapply rand_post_weaken; [apply IH; [exact W' | lia]|].
    intros r (p' & n & -> & (W2 & Fu & Hn & E2 & new & Ln & Pn)).
    exists p', (n + 1). split; [f_equal; f_equal; lia|]. split; [exact W2|]. split; [exact Fu|].
    split; [rewrite N, Hn; lia|]. split.
    + rewrite E2, E. destruct p; reflexivity.
    + exists (new ++ [it]). split; [rewrite length_app; cbn; lia|]. rewrite Pn, P. solve_Permutation.
Qed.

Lemma empty_le p : (getEmptyInventorySlots p < S (length (p_inventory p)))%nat.
Proof. unfold getEmptyInventorySlots. pose proof (length_filter (fun slot : option Item => slot = None) (p_inventory p)). lia. Qed.

(** Filling the inventory terminates and fills it.  The loop of [fillInventory], which
    stops at the first item that finds no room, ends after one attempt more than there are
    free slots: it adds exactly one generated item per free slot, reports that number,
    keeps every item and everything else of the player, and leaves no slot free; and the
    session stays well formed, with the filled player saved. *)
Theorem fillInventory_fills (now : Z) (s : Session) (p : Player) :
  session_ok s -> playerRef s = Some p ->
  rand_post (debug_fillInventory now s) (fun r => exists p' n a,
    r = Some (setPlayerAndSave p' s, Some a) /\ filled_up p p' n
    /\ al_message a = "Added " +:+ pretty n +:+ " item(s); inventory is now full."
    /\ session_ok (setPlayerAndSave p' s)).
Proof.
  intros K P. pose proof (ok_player s K p P) as W. unfold debug_fillInventory. rewrite P.
  rewrite clone_eq by exact W. rand_step fill_loop_spec r Hr; [exact W | apply empty_le|].
  destruct Hr as (p' & n & -> & F). apply rand_post_ret.
  exists p', n. eexists. split; [reflexivity|]. split; [exact F|]. split; [reflexivity|].
  apply setPlayer_ok; [apply F | exact K].
Qed.

(** Every other action keeps the session well formed. *)
Lemma with_live_ok f s : session_ok s -> (forall p, wf_player p -> wf_player (f p)) ->
  session_ok (with_live f s).
Proof.
  intros K F. unfold with_live. destruct (playerRef s) as [p|] eqn:P; [|exact K].
  pose proof (ok_player s K p P) as W. apply setPlayer_ok; [|exact K]. rewrite clone_eq by exact W. auto.
Qed.

Lemma clearInventory_wf p : wf_player p -> wf_player (clearInventory p).
Proof.
  intros W. destruct p, W. constructor; cbn in *; auto.
  unfold all_items in *. cbn in *. apply Forall_app in wf_items as [_ I]. exact I.
Qed.

Theorem debug_actions_ok (s : Session) (level : Z) (a : Archetype) (xp : Z) :
  session_ok s -> 0 <= xp ->
  session_ok (fst (debug_setLevel level s)) /\ session_ok (fst (debug_setArchetype a s))
  /\ session_ok (fst (debug_addXP xp s)) /\ session_ok (debug_restoreHp s)
  /\ session_ok (debug_clearInventory s).
Proof.
  intros K X. split; [apply with_live_ok; auto with game|]. split; [apply with_live_ok; auto with game|].
  split.
  - unfold debug_addXP. destruct (playerRef s) as [p|] eqn:P; [|exact K].
    pose proof (ok_player s K p P) as W. rewrite clone_eq by exact W.
    pose proof (addExperience_wf p xp X W) as W'. destruct (addExperience p xp) as [p' g].
    apply setPlayer_ok; assumption.
  - split; apply with_live_ok; auto using fullHeal_wf, clearInventory_wf.
Qed.

Lemma fillInventory_fills_witness :
  rand_post (debug_fillInventory 5 (initial_session (Some sample_player))) (fun r => exists p' n a,
    r = Some (setPlayerAndSave p' (initial_session (Some sample_player)), Some a)
    /\ filled_up sample_player p' n
    /\ al_message a = "Added " +:+ pretty n +:+ " item(s); inventory is now full."
    /\ session_ok (setPlayerAndSave p' (initial_session (Some sample_player)))).
Proof.
  apply fillInventory_fills; [|reflexivity]. apply initial_session_ok. intros ? [= <-].
  apply sample_player_wf.
Defined.
