(* ===== verification/Tracking.v ===== *)
(** * Tracking: from the start button to the platform

    [src/hooks/useLocation.ts] with [initializeTracking] and the permission effect of
    [src/screens/HomeScreen.tsx], [requestPermission] of [LocationService], the
    foreground service of [NotificationService], and
    [src/services/BatteryOptimizationService.ts]; and the milestones of
    [handleDistanceUpdate].  What the platform answers (permissions, the native battery
    module) is an argument; each [await] on it ends a step.  [TKill] is the process
    being killed: only the disk and what the user has seen survive it.  Any storage call may
    fail, and Android may refuse to show the notification it is asked for. *)
From stdpp Require Import base decidable strings list gmap.
From Stdlib Require Import ZArith QArith Lia Lqa.
From S2P Require Import Prelude JsNumber Combat Config Player Encounter Location Json CloudSync.
From S2P Require Import Storage CombatSession SessionInvariant PlayerSession GameStep.
Local Open Scope Z_scope.

(** ** The platform *)

(** The platform and whether the native battery module is there. *)
Record Device := mkDevice { d_os : Platform; d_native : bool }.

Definition is_android (dev : Device) : bool := match d_os dev with android => true | ios => false end.

(** [result] is what the permission dialog returned; both libraries spell it alike. *)
Definition requestPermission (result : string) : bool := bool_decide (result = "granted").

(** Calls on the notification library. *)
Inductive ForegroundCall := ShowTracking | StopService.

Definition startForegroundService (dev : Device) : list ForegroundCall :=
  if negb (is_android dev) then [] else [ShowTracking].

Definition stopForegroundService (dev : Device) : list ForegroundCall :=
  if negb (is_android dev) then [] else [StopService].

(** [requestPermissions]: the status [notifee] answered, or its exception. *)
Definition requestPermissions (status : option Z) : bool :=
  match status with Some s => 1 <=? s | None => false end.

(** ** Battery *)

Definition shouldPromptForExemption (isAndroid isIgnoring alreadyAsked : bool) : bool :=
  isAndroid && negb isIgnoring && negb alreadyAsked.

(** [answer] is what the native module says, [None] an exception. *)
Definition isIgnoring (dev : Device) (answer : option bool) : bool :=
  if negb (is_android dev) || negb (d_native dev) then true else default true answer.

(** Where a call of [maybeRequestExemption] waits: for the two checks, of which the
    stored flag has been read, or for [requestExemption]. *)
Inductive ExemptionTask := Checking (alreadyAsked : json) | Prompting.

Section Tracking.
Context `{Trig} `{AsyncStorage}.

(** The location service with the device's watches, the hook's [isTracking], the calls
    of [startTracking] that wait for the permission, the flag [initializeTracking] read
    and has not acted on, the battery service, the calls made for the foreground
    service and the disk.  The other fields only record: what tracking was last switched
    to, what the stored flag was last set to and whether the last write of it failed; and
    the exemption dialogs that appeared, that were recorded as shown, and that were not
    (the process did not live to record them, or the write failed), and the failed reads of
    that record. *)
Record Tracker := mkTracker {
  location : Location.World;
  shownTracking : bool;
  starting : nat;
  resuming : option json;
  promptInFlight : bool;
  exemptions : list ExemptionTask;
  foreground : list ForegroundCall;
  tdisk : disk;
  wanted : bool;
  storedFlag : bool;
  flagRefused : bool;
  dialogs : nat;
  recorded : nat;
  unrecorded : nat;
  misread : nat
}.

#[global] Instance Tracker_fields : Fields Tracker := fun t =>
  mkTracker (location t) (shownTracking t) (starting t) (resuming t) (promptInFlight t) (exemptions t)
    (foreground t) (tdisk t) (wanted t) (storedFlag t) (flagRefused t) (dialogs t) (recorded t)
    (unrecorded t) (misread t).

(** [maybeRequestExemption] up to its first [await]. *)
Definition maybeRequestExemption (dev : Device) (t : Tracker) : Tracker :=
  if negb (is_android dev) || negb (d_native dev) || promptInFlight t then t
  else
    let (asked, d) := hasBatteryPromptBeenShown (tdisk t) in
    t <| promptInFlight := true |> <| tdisk := d |>
      <| misread := (misread t + if key_readable STORAGE_KEYS.BATTERY_PROMPT_SHOWN (tdisk t) then 0 else 1)%nat |>
      <| exemptions := exemptions t ++ [Checking (default (JBool false) asked)] |>.

(** Both checks are in. *)
Definition exemption_checked (dev : Device) (answer : option bool) (t : Tracker) : Tracker :=
  match exemptions t with
  | Checking alreadyAsked :: rest =>
      if negb (shouldPromptForExemption true (isIgnoring dev answer) (truthy alreadyAsked))
      then t <| exemptions := rest |> <| promptInFlight := false |>
      else t <| exemptions := Prompting :: rest |>
  | _ => t
  end.

(** [requestExemption] answers: [Some true] when the dialog appeared. *)
Definition exemption_launched (launched : option bool) (t : Tracker) : Tracker :=
  match exemptions t with
  | Prompting :: rest =>
      let t := t <| exemptions := rest |> <| promptInFlight := false |> in
      match launched with
      | Some true =>
          let (ok, d) := setBatteryPromptShown (tdisk t) in
          let t := t <| tdisk := d |> <| dialogs := S (dialogs t) |> in
          if default false ok then t <| recorded := S (recorded t) |> else t <| unrecorded := S (unrecorded t) |>
      | _ => t
      end
  | _ => t
  end.

(** ** The hook *)

(** [saveTrackingState(b)], which nobody waits for. *)
Definition put_flag (b : bool) (t : Tracker) : Tracker :=
  let (ok, d) := saveTrackingState b (tdisk t) in
  let ok := default false ok in
  t <| tdisk := d |> <| wanted := b |> <| storedFlag := if ok then b else storedFlag t |>
    <| flagRefused := negb ok |>.

(** [startTracking] up to the permission dialog. *)
Definition startTracking (t : Tracker) : Tracker := t <| starting := S (starting t) |>.

(** The rest of [startTracking]; [fresh] identifies the watch the platform opens. *)
Definition start_answered (dev : Device) (result : string) (fresh : Z) (t : Tracker) : Tracker :=
  match starting t with
  | O => t
  | S n =>
      let t := t <| starting := n |> in
      if negb (requestPermission result) then t
      else
        let t := maybeRequestExemption dev t in
        let t := t <| location :=
                   deliver (location t) (Location.startTracking (w_service (location t)) fresh) |>
                   <| shownTracking := true |> in
        let t := put_flag true t in
        t <| foreground := foreground t ++ startForegroundService dev |>
  end.

Definition stopTracking (dev : Device) (t : Tracker) : Tracker :=
  let t := t <| location := deliver (location t) (Location.stopTracking (w_service (location t))) |>
             <| shownTracking := false |> in
  let t := put_flag false t in
  t <| foreground := foreground t ++ stopForegroundService dev |>.

(** [initializeTracking]: the flag is read, and acted on when the read is done. *)
Definition initializeTracking (t : Tracker) : Tracker :=
  let (wasTracking, d) := loadTrackingState (tdisk t) in
  t <| tdisk := d |> <| resuming := wasTracking |>.

Definition tracking_loaded (t : Tracker) : Tracker :=
  match resuming t with
  | Some wasTracking =>
      let t := t <| resuming := None |> in
      if truthy wasTracking then startTracking t else t
  | None => t
  end.

(** ** The device *)

(** What the geolocation library reports; it calls back only while a watch is open and
    identifies a new watch by a number that no open watch has. *)
Inductive Report :=
  | Fix (p : GeolocationPosition)
  | NoFix
  | Position (p : GeolocationPosition) (fresh : Z)
  | WatchError (code : Z).

Definition report (r : Report) (w : Location.World) : Location.World :=
  match r with
  | Fix p => deliver w (initial_location_resolved (w_service w) p)
  | NoFix => deliver w (initial_location_rejected (w_service w))
  | Position p fresh =>
      if bool_decide (w_open w = []) || bool_decide (fresh ∈ w_open w) then w
      else deliver w (on_watch_position (w_service w) p fresh)
  | WatchError code =>
      if bool_decide (w_open w = []) then w else deliver w (on_watch_error (w_service w) code)
  end.

(** A launch of the app. *)
Definition launch_tracker (d : disk) : Tracker :=
  mkTracker Location.initial_world false 0 None false [] [] d false false false 0 0 0 0.

(** The process is killed; [appeared]: a dialog that was being launched had appeared. *)
Definition killed (appeared : bool) (t : Tracker) : Tracker :=
  let lost := match exemptions t with Prompting :: _ => if appeared then 1%nat else 0%nat | _ => 0%nat end in
  launch_tracker (tdisk t) <| wanted := wanted t |> <| storedFlag := storedFlag t |>
    <| flagRefused := flagRefused t |> <| dialogs := (dialogs t + lost)%nat |>
    <| recorded := recorded t |> <| unrecorded := (unrecorded t + lost)%nat |> <| misread := misread t |>.

Inductive TrackEvent :=
  | TMount
  | TLoaded
  | TStart
  | TAnswer (result : string) (fresh : Z)
  | TStop
  | TReport (r : Report)
  | TChecked (answer : option bool)
  | TLaunched (launched : option bool)
  | TKill (appeared : bool).

Definition track (dev : Device) (t : Tracker) (ev : TrackEvent) : Tracker :=
  match ev with
  | TMount => initializeTracking t
  | TLoaded => tracking_loaded t
  | TStart => startTracking t
  | TAnswer result fresh =>
      if bool_decide (fresh ∈ w_open (location t)) then t else start_answered dev result fresh t
  | TStop => stopTracking dev t
  | TReport r => t <| location := report r (location t) |>
  | TChecked answer => exemption_checked dev answer t
  | TLaunched launched => exemption_launched launched t
  | TKill appeared => killed appeared t
  end.

Definition track_run (dev : Device) (evs : list TrackEvent) (t : Tracker) : Tracker :=
  fold_left (track dev) evs t.

End Tracking.

(** ** Lemmas: flags on disk *)

Section Flags.
Context `{AsyncStorageLaws}.

(** The flag [key] reads as [b]; an absent one reads as [false]. *)
Definition flag (key : string) (b : bool) (d : disk) : Prop :=
  contents d key = Some (TJson (JBool b)) \/ b = false /\ contents d key = None.

Lemma load_flag_reads key b d : flag key b d ->
  fst (load_flag key d) = Some (JBool (key_readable key d && b)) /\ same_contents d (snd (load_flag key d)).
Proof.
  intros F. pose proof (getItem_cases key d) as C.
  unfold load_flag, try_catch, bind, key_readable. unfold getItem, bind, io_get in *.
  destruct (multiGet [key] d) as [[vs|] d1]; cbn [fst snd] in *; [|split; [reflexivity | exact (proj2 C)]].
  cbn in C. destruct C as [[C|C] S]; [|discriminate]. injection C as C.
  rewrite C. destruct F as [-> | [-> ->]]; (split; [reflexivity | exact S]).
Qed.

(** A write that succeeds stores the flag, one that fails changes nothing. *)
Lemma save_flag_cases key b d :
  (if default false (fst (save_json key (JBool b) d)) then flag key b (snd (save_json key (JBool b) d))
   else same_contents d (snd (save_json key (JBool b) d)))
  /\ forall k, k <> key -> contents (snd (save_json key (JBool b) d)) k = contents d k.
Proof.
  split.
  - pose proof (setItem_cases key (TJson (JBool b)) d) as C.
    unfold save_json, try_catch, bind. destruct (setItem key _ d) as [[[]|] d1]; cbn [fst snd default from_option ret] in *.
    + destruct C as [[_ E]|[C _]]; [|discriminate]. left. cbn in *. rewrite E, decide_True; reflexivity.
    + destruct C as [[C _]|[_ E]]; [discriminate|]. exact E.
  - intros k N. apply (touches_try [key]); [|apply touches_ret | rewrite list_elem_of_singleton; exact N].
    apply touches_bind; [apply touches_set, list_elem_of_here | intros ?; apply touches_ret].
Qed.

Lemma flag_same key b d d' : contents d' key = contents d key -> flag key b d -> flag key b d'.
Proof. unfold flag. intros ->. auto. Qed.

Lemma flag_of key b d : flag key b d ->
  contents d key = Some (TJson (JBool true)) <-> b = true.
Proof. intros [-> | [-> ->]]; [|split; discriminate]. split; [intros [= <-] | intros ->]; reflexivity. Qed.

End Flags.

Section Tracked.
Context `{Trig} `{AsyncStorageLaws}.

(** *** The invariant *)

(** At most one request for an exemption is under way; [asking] tells that it may still
    show a dialog. *)
Definition asking (t : Tracker) : nat :=
  match exemptions t with [Prompting] => 1 | [Checking asked] => if truthy asked then 0 else 1 | _ => 0 end.

Definition prompt_ok (t : Tracker) : Prop :=
  match exemptions t with
  | [] => promptInFlight t = false
  | [_] => promptInFlight t = true
  | _ => False
  end.

Record tracker_ok (dev : Device) (t : Tracker) : Prop := {
  tk_world : world_ok (location t);
  tk_shown : shownTracking t = isTracking (w_service (location t));
  tk_wanted : shownTracking t = true -> wanted t = true;
  tk_flag : flag STORAGE_KEYS.TRACKING_STATE (storedFlag t) (tdisk t);
  tk_refused : flagRefused t = false -> storedFlag t = wanted t;
  tk_foreground : is_android dev = true ->
    (last (foreground t) = Some ShowTracking <-> shownTracking t = true);
  tk_prompt : prompt_ok t;
  tk_battery : flag STORAGE_KEYS.BATTERY_PROMPT_SHOWN (1 <=? recorded t)%nat (tdisk t);
  tk_recorded : (recorded t + asking t <= 1 + misread t)%nat;
  tk_dialogs : dialogs t = (recorded t + unrecorded t)%nat
}.

Lemma launch_ok dev d : flag STORAGE_KEYS.TRACKING_STATE false d ->
  flag STORAGE_KEYS.BATTERY_PROMPT_SHOWN false d -> tracker_ok dev (launch_tracker d).
Proof. intros F B. constructor; cbn; auto using initial_world_ok. split; discriminate. Qed.

Lemma report_ok r w : world_ok w -> world_ok (report r w).
Proof.
  intros W. destruct r as [p| |p fresh|code]; cbn [report];
    [ exact (loc_step_ok _ _ (step_initial w p) W) | exact (loc_step_ok _ _ (step_initial_failed w) W) | | ].
  - destruct (w_open w) as [|id l] eqn:O; [exact W|]. rewrite bool_decide_false by discriminate.
    cbn [orb]. case_bool_decide as F; [exact W|].
    apply (loc_step_ok _ _ (step_position w id p fresh ltac:(rewrite O; set_solver) ltac:(rewrite O; exact F)) W).
  - destruct (w_open w) as [|id l] eqn:O; [exact W|]. rewrite bool_decide_false by discriminate.
    apply (loc_step_ok _ _ (step_error w id code ltac:(rewrite O; set_solver)) W).
Qed.

Lemma accumulate_tracking s l : isTracking (fst (accumulate s l)) = isTracking s.
Proof.
  unfold accumulate. destruct (currentLocation s); [|reflexivity].
  destruct (_ && _); [|reflexivity]. destruct s. reflexivity.
Qed.

Lemma adapt_tracking s v first fresh : isTracking (fst (adapt_accuracy s v first fresh)) = isTracking s.
Proof.
  assert (S : forall s b, isTracking (fst (switchAccuracyMode s b fresh)) = isTracking s)
    by (intros [[] c td hl hd tr ha n] b; reflexivity).
  unfold adapt_accuracy, updateAccuracyMode. destruct v as [v|].
  - destruct (js_lt _ _); cbv zeta; case_match; cbn [fst]; rewrite ?S; apply set_accuracy_tracking.
  - destruct (_ && _); [apply S | reflexivity].
Qed.

Lemma position_tracking s p fresh : isTracking (fst (on_watch_position s p fresh)) = isTracking s.
Proof.
  unfold on_watch_position. pose proof (accumulate_tracking s (location_of p)) as A.
  destruct (accumulate s (location_of p)) as [s1 e]. cbn [fst] in A.
  match goal with |- context [adapt_accuracy ?x ?v ?f ?i] => pose proof (adapt_tracking x v f i) as B;
    destruct (adapt_accuracy x v f i) as [s2 e'] end.
  cbn [fst] in *. rewrite B, <- A. destruct s1. reflexivity.
Qed.

Lemma report_tracking r w : isTracking (w_service (report r w)) = isTracking (w_service w).
Proof.
  destruct r as [p| |p fresh|code]; cbn [report]; repeat case_match; try reflexivity.
  - unfold deliver, initial_location_resolved, on_current_position. destruct (w_service w). reflexivity.
  - unfold deliver. cbn [w_service]. apply position_tracking.
Qed.

Lemma start_tracking s fresh : isTracking (fst (Location.startTracking s fresh)) = true.
Proof. unfold Location.startTracking. destruct s as [w c td hl hd [] ha n]; reflexivity. Qed.

Lemma stop_tracking s : isTracking (fst (Location.stopTracking s)) = false.
Proof. unfold Location.stopTracking. destruct s as [[] c td hl hd tr ha n]; reflexivity. Qed.

Lemma keys_apart : STORAGE_KEYS.TRACKING_STATE <> STORAGE_KEYS.BATTERY_PROMPT_SHOWN.
Proof. discriminate. Qed.

(** *** Every event keeps it *)

Lemma exemption_ok dev t : tracker_ok dev t -> tracker_ok dev (maybeRequestExemption dev t).
Proof.
  intros K. unfold maybeRequestExemption. destruct (_ || promptInFlight t) eqn:E; [exact K|].
  apply orb_false_iff in E as [_ E]. destruct K as [W S V F Rf G P B R D].
  destruct (load_flag_reads _ _ _ B) as [L C].
  unfold hasBatteryPromptBeenShown. destruct (load_flag _ (tdisk t)) as [asked d]. cbn [fst snd] in *. subst asked.
  assert (N : exemptions t = []).
  { unfold prompt_ok in P. destruct (exemptions t) as [|[] []]; [reflexivity|..]; congruence || contradiction. }
  unfold asking in R. rewrite N in R.
  constructor; unfold prompt_ok, asking; cbn; auto; rewrite ?N; cbn; auto;
    [apply (flag_same _ _ (tdisk t)) | apply (flag_same _ _ (tdisk t)) |]; auto.
  destruct (key_readable _ _), (recorded t) eqn:Q; cbn; lia.
Qed.

Lemma checked_ok dev answer t : tracker_ok dev t -> tracker_ok dev (exemption_checked dev answer t).
Proof.
  intros K. unfold exemption_checked. destruct (exemptions t) as [|[asked|] rest] eqn:E; try exact K.
  destruct K as [W S V F Rf G P B R D]. unfold prompt_ok in P. unfold asking in R. rewrite E in P, R.
  destruct rest; [|contradiction].
  unfold shouldPromptForExemption.
  destruct (isIgnoring dev answer), (truthy asked) eqn:A; cbn [andb negb]; constructor; cbn; auto;
    unfold asking; cbn; lia.
Qed.

Lemma launched_ok dev o t : tracker_ok dev t -> tracker_ok dev (exemption_launched o t).
Proof.
  intros K. unfold exemption_launched. destruct (exemptions t) as [|[asked|] rest] eqn:E; try exact K.
  destruct K as [W S V F Rf G P B R D]. unfold prompt_ok in P. unfold asking in R. rewrite E in P, R.
  destruct rest; [|contradiction].
  destruct o as [[|]|]; try (constructor; cbn; auto; unfold asking; cbn; lia).
  unfold setBatteryPromptShown. cbn [tdisk assign].
  match goal with |- context [save_json ?k ?j ?d] =>
    destruct (save_flag_cases k true d) as [S1 S2]; destruct (save_json k j d) as [ok d'] end.
  cbn [fst snd] in *. destruct (default false ok); constructor; cbn; auto; try lia; unfold asking; cbn; try lia.
  - apply (flag_same _ _ (tdisk t)); [apply S2, keys_apart | exact F].
  - apply (flag_same _ _ (tdisk t)); [apply S1 | exact F].
  - apply (flag_same _ _ (tdisk t)); [apply S1 | exact B].
Qed.

(** Writing the tracking flag. *)
Lemma put_flag_ok b t : flag STORAGE_KEYS.TRACKING_STATE (storedFlag t) (tdisk t) ->
  let t' := put_flag b t in
  flag STORAGE_KEYS.TRACKING_STATE (storedFlag t') (tdisk t') /\ (flagRefused t' = false -> storedFlag t' = b)
  /\ contents (tdisk t') STORAGE_KEYS.BATTERY_PROMPT_SHOWN = contents (tdisk t) STORAGE_KEYS.BATTERY_PROMPT_SHOWN
  /\ t' = t <| tdisk := tdisk t' |> <| wanted := b |> <| storedFlag := storedFlag t' |> <| flagRefused := flagRefused t' |>.
Proof.
  intros F. cbv zeta. unfold put_flag, saveTrackingState.
  destruct (save_flag_cases STORAGE_KEYS.TRACKING_STATE b (tdisk t)) as [A B].
  destruct (save_json _ _ (tdisk t)) as [ok d]. cbn [fst snd] in *.
  destruct (default false ok); cbn; (split; [|split; [|split; [apply B, not_eq_sym, keys_apart | reflexivity]]]);
    try exact A; try discriminate; [reflexivity|]. apply (flag_same _ _ (tdisk t)); [apply A | exact F].
Qed.

(** [startTracking] once the permission is granted, [t] being the state with the
    exemption asked for. *)
Lemma started_ok dev fresh t : fresh ∉ w_open (location t) -> tracker_ok dev t ->
  let t1 := put_flag true (t <| location := deliver (location t) (Location.startTracking (w_service (location t)) fresh) |>
    <| shownTracking := true |>) in
  tracker_ok dev (t1 <| foreground := foreground t1 ++ startForegroundService dev |>).
Proof.
  intros Fr [W S V F Rf G P Bt R D]. cbv zeta. set (t0 := t <| location := _ |> <| shownTracking := true |>).
  destruct (put_flag_ok true t0 F) as (A & B & C & ->). subst t0. constructor; cbn; auto.
  - exact (loc_step_ok _ _ (step_start (location t) fresh Fr) W).
  - symmetry. apply start_tracking.
  - intros An. unfold startForegroundService. rewrite An. cbn. rewrite last_snoc. split; reflexivity.
  - apply (flag_same _ _ (tdisk t)); [exact C | exact Bt].
Qed.

Lemma exemption_location dev t : location (maybeRequestExemption dev t) = location t.
Proof. unfold maybeRequestExemption. repeat case_match; reflexivity. Qed.

Lemma answered_ok dev result fresh t : fresh ∉ w_open (location t) ->
  tracker_ok dev t -> tracker_ok dev (start_answered dev result fresh t).
Proof.
  intros Fr K. unfold start_answered. destruct (starting t) as [|n]; [exact K|]. cbv zeta.
  assert (K1 : tracker_ok dev (t <| starting := n |>)) by (destruct K; constructor; auto).
  destruct (requestPermission result); cbn [negb]; [|exact K1].
  refine (started_ok dev fresh (maybeRequestExemption dev (t <| starting := n |>)) _ _).
  - rewrite exemption_location. exact Fr.
  - apply exemption_ok, K1.
Qed.

Lemma start_granted dev fresh n t : starting t = S n ->
  shownTracking (start_answered dev "granted" fresh t) = true.
Proof.
  intros E. unfold start_answered. rewrite E. cbv zeta.
  change (requestPermission "granted") with true. cbn [negb]. unfold put_flag.
  destruct (saveTrackingState _ _). reflexivity.
Qed.

Lemma stopped_ok dev t : tracker_ok dev t -> tracker_ok dev (stopTracking dev t).
Proof.
  intros [W S V F Rf G P Bt R D]. unfold stopTracking. cbv zeta.
  set (t0 := t <| location := _ |> <| shownTracking := false |>).
  destruct (put_flag_ok false t0 F) as (A & B & C & ->). subst t0. constructor; cbn; auto.
  - exact (loc_step_ok _ _ (step_stop (location t)) W).
  - symmetry. apply stop_tracking.
  - intros An. unfold stopForegroundService. rewrite An. cbn. rewrite last_snoc. split; discriminate.
  - apply (flag_same _ _ (tdisk t)); [exact C | exact Bt].
Qed.

Lemma killed_ok dev b t : tracker_ok dev t -> tracker_ok dev (killed b t).
Proof.
  intros [W S V F Rf G P Bt R D]. unfold killed.
  constructor; cbn; auto using initial_world_ok; [discriminate | split; discriminate | unfold asking; cbn; lia | lia].
Qed.

Lemma track_ok dev t ev : tracker_ok dev t -> tracker_ok dev (track dev t ev).
Proof.
  intros K. destruct ev as [| | |result fresh| |r|answer|o|b]; cbn [track].
  - unfold initializeTracking. destruct (load_flag_reads _ _ _ (tk_flag dev t K)) as [_ C].
    unfold loadTrackingState. destruct (load_flag _ (tdisk t)) as [v d]. cbn [snd] in C.
    destruct K. constructor; cbn; auto; (eapply flag_same; [apply C | assumption]).
  - unfold tracking_loaded. destruct (resuming t) as [v|]; [|exact K].
    cbv zeta. destruct (truthy v); destruct K; constructor; auto.
  - destruct K; constructor; auto.
  - case_bool_decide; [exact K|]. apply answered_ok; assumption.
  - apply stopped_ok, K.
  - destruct K. constructor; cbn; rewrite ?report_tracking; auto using report_ok.
  - apply checked_ok, K.
  - apply launched_ok, K.
  - apply killed_ok, K.
Qed.

Lemma track_run_ok dev evs t : tracker_ok dev t -> tracker_ok dev (track_run dev evs t).
Proof. revert t. induction evs as [|ev evs IH]; intros t K; [exact K | apply IH, track_ok, K]. Qed.

(** ** Properties *)

(** The app killed and launched again, with the permission still granted. *)
Definition relaunch (b : bool) (fresh : Z) : list TrackEvent := [TKill b; TMount; TLoaded; TAnswer "granted" fresh].

(** C27: tracking survives the app.  Whatever happened (starts, repeated or refused, stops,
    positions, errors, kills, failed resumes, failed reads and writes), the button shows
    what the location service does, the device has a watch open exactly while tracking, and
    the last thing asked of Android's foreground service is to show the tracking
    notification exactly then (whether Android shows it is not the app's to know: a refusal
    is only logged).  When the process is killed and launched again with the permission
    granted, it tracks again exactly if the stored flag can be read and was last set; and
    the stored flag is what tracking was last switched to unless the device refused that
    write. *)
Theorem tracking_survives_kill (dev : Device) (d : disk) (evs : list TrackEvent) (b : bool) (fresh : Z) :
  flag STORAGE_KEYS.TRACKING_STATE false d -> flag STORAGE_KEYS.BATTERY_PROMPT_SHOWN false d ->
  let t := track_run dev evs (launch_tracker d) in
  let t' := track_run dev (relaunch b fresh) t in
  shownTracking t = isTracking (w_service (location t))
  /\ w_open (location t) = option_list (watchId (w_service (location t)))
  /\ (shownTracking t = true <-> watchId (w_service (location t)) <> None)
  /\ (is_android dev = true -> last (foreground t) = Some ShowTracking <-> shownTracking t = true)
  /\ shownTracking t' = key_readable STORAGE_KEYS.TRACKING_STATE (tdisk t) && storedFlag t
  /\ (flagRefused t = false -> storedFlag t = wanted t)
  /\ (shownTracking t = true -> wanted t = true).
Proof.
  intros F B t t'. pose proof (track_run_ok dev evs _ (launch_ok dev d F B)) as K. fold t in K.
  assert (E : shownTracking t' = key_readable STORAGE_KEYS.TRACKING_STATE (tdisk t) && storedFlag t).
  { pose proof (killed_ok dev b t K) as Kk. unfold t', relaunch, track_run. cbn [fold_left track].
    unfold initializeTracking. destruct (load_flag_reads _ _ _ (tk_flag dev _ Kk)) as [L _].
    unfold loadTrackingState. destruct (load_flag _ (tdisk (killed b t))) as [v d1]. cbn [fst] in L. subst v.
    unfold tracking_loaded. cbn [resuming assign]. unfold killed. cbn [storedFlag tdisk assign launch_tracker].
    destruct (key_readable _ _ && storedFlag t); cbn [truthy]; rewrite bool_decide_false by apply not_elem_of_nil; [|reflexivity].
    apply (start_granted dev fresh 0). reflexivity. }
  destruct K as [[O T _ _ _] S V _ Rf G _ _ _ _].
  assert (X : shownTracking t = true <-> watchId (w_service (location t)) <> None)
    by (rewrite S, T; apply bool_decide_eq_true).
  split; [exact S|]. split; [exact O|]. split; [exact X|]. split; [exact G|].
  split; [exact E | auto].
Qed.

(** The battery dialog is asked once, as far as the device remembers.  Over any number of
    launches and however starts overlap, at most one exemption dialog is shown and recorded,
    and one more for each time the record could not be read; the stored flag says whether
    one was; the only dialogs beyond these are those that were not recorded, because the
    process did not survive them or the write failed.  A refused launch, a failing check or
    an exempt app do not use up the one question. *)
Theorem battery_asked_once (dev : Device) (d : disk) (evs : list TrackEvent) :
  flag STORAGE_KEYS.TRACKING_STATE false d -> flag STORAGE_KEYS.BATTERY_PROMPT_SHOWN false d ->
  let t := track_run dev evs (launch_tracker d) in
  dialogs t = (recorded t + unrecorded t)%nat /\ (recorded t <= 1 + misread t)%nat
  /\ (contents (tdisk t) STORAGE_KEYS.BATTERY_PROMPT_SHOWN = Some (TJson (JBool true)) <-> (1 <= recorded t)%nat)
  /\ (length (exemptions t) <= 1)%nat.
Proof.
  intros F B t. pose proof (track_run_ok dev evs _ (launch_ok dev d F B)) as K. fold t in K.
  destruct K as [_ _ _ _ _ _ P Bt R D]. split; [exact D|]. split; [lia|].
  split; [rewrite (flag_of _ _ _ Bt); apply Nat.leb_le|].
  unfold prompt_ok in P. destruct (exemptions t) as [|[] []]; try contradiction; cbn; lia.
Qed.

End Tracked.

(** ** Asking for notifications *)

(** The guard, the task given to [InteractionManager], and the requests made. *)
Record Permission := mkPermission {
  notifPermissionRequested : bool;
  scheduled : bool;
  requests : nat
}.

Definition initial_permission : Permission := mkPermission false false 0.

(** The effect on [hasPlayer], after the cleanup of its previous run. *)
Definition permission_effect (hasPlayer : bool) (p : Permission) : Permission :=
  if notifPermissionRequested p || negb hasPlayer
  then mkPermission (notifPermissionRequested p) false (requests p)
  else mkPermission (notifPermissionRequested p) true (requests p).

(** Interactions have settled: the scheduled task runs. *)
Definition interactions_settled (p : Permission) : Permission :=
  if negb (scheduled p) then p
  else if notifPermissionRequested p then mkPermission true false (requests p)
  else mkPermission true false (S (requests p)).

Inductive PermissionEvent := PPlayer (hasPlayer : bool) | PSettled.

Definition permission_step (p : Permission) (ev : PermissionEvent) : Permission :=
  match ev with
  | PPlayer hasPlayer => permission_effect hasPlayer p
  | PSettled => interactions_settled p
  end.

(** Notifications are asked for exactly once: never before there is a player, and once
    interactions settle with one present, however often the player came and went. *)
Theorem permission_asked_once (evs : list PermissionEvent) :
  let p := fold_left permission_step evs initial_permission in
  (requests p <= 1)%nat
  /\ (Forall (fun ev => ev <> PPlayer true) evs -> requests p = O)
  /\ requests (fold_left permission_step [PPlayer true; PSettled] p) = 1%nat.
Proof.
  assert (K : forall p, requests p = (if notifPermissionRequested p then 1 else 0)%nat ->
    let q := fold_left permission_step evs p in
    requests q = (if notifPermissionRequested q then 1 else 0)%nat
    /\ (scheduled p = false -> notifPermissionRequested p = false ->
        Forall (fun ev => ev <> PPlayer true) evs -> notifPermissionRequested q = false)).
  { induction evs as [|ev evs IH]; intros [r s n] E; cbn in *; [auto|].
    destruct (IH (permission_step (mkPermission r s n) ev)) as [A B].
    - destruct ev as [[]|], r, s; cbn in *; lia.
    - split; [exact A|]. intros -> -> [V1 V2]%Forall_cons. apply B; [..|exact V2];
        destruct ev as [[]|]; cbn; congruence. }
  intros p. destruct (K initial_permission eq_refl) as [A B]. fold p in A, B.
  split; [rewrite A; destruct (notifPermissionRequested p); lia|].
  split; [intros V; rewrite A, B; auto|].
  destruct p as [[] s n]; cbn in *; lia.
Qed.

(** ** Milestones *)

Definition MILESTONES : list Q := [1000; 5000; 10000; 25000; 50000; 100000]%Q.

(** The milestones [handleDistanceUpdate] reports for one update. *)
Definition crossed (prevTotal newTotal : Q) : list Q :=
  List.filter (fun m => js_lt prevTotal m && js_le m newTotal) MILESTONES.

(** Along a walk: the player after the updates, and what was reported. *)
Definition walk_milestones (steps : list Q) (p : Player) : Player * list Q :=
  fold_left (fun '(p, out) incremental =>
    let p' := addDistance (clone p) incremental in
    (p', out ++ crossed (p_totalDistance p) (p_totalDistance p'))) steps (p, []).

Lemma crossed_app l a b c : (a <= b)%Q -> (b <= c)%Q ->
  List.filter (fun m => js_lt a m && js_le m c) l
  ≡ₚ List.filter (fun m => js_lt a m && js_le m b) l ++ List.filter (fun m => js_lt b m && js_le m c) l.
Proof.
  intros A B. induction l as [|m l IH]; [reflexivity|]. cbn [List.filter].
  destruct (js_ltP a m), (js_leP m b), (js_ltP b m), (js_leP m c); cbn [andb];
    try (exfalso; lra); rewrite IH; first [reflexivity | apply Permutation_middle].
Qed.

Lemma crossed_again a b out : (a <= b)%Q -> forall c, (b <= c)%Q -> out ≡ₚ crossed a b -> out ++ crossed b c ≡ₚ crossed a c.
Proof. intros A c B ->. symmetry. apply crossed_app; assumption. Qed.

Lemma walk_on_from steps p out a :
  wf_player p -> is_double (p_totalDistance p) -> Forall (fun d => 0 <= d)%Q steps ->
  (a <= p_totalDistance p)%Q -> out ≡ₚ crossed a (p_totalDistance p) ->
  let r := fold_left (fun '(p, out) incremental =>
    let p' := addDistance (clone p) incremental in
    (p', out ++ crossed (p_totalDistance p) (p_totalDistance p'))) steps (p, out) in
  snd r ≡ₚ crossed a (p_totalDistance (fst r)).
Proof.
  revert p out. induction steps as [|d steps IH]; intros p out W D V A O; [exact O|].
  apply Forall_cons in V as [V1 V2]. cbn [fold_left]. cbv zeta. rewrite clone_eq by exact W.
  assert (T : p_totalDistance (addDistance p d) = js_add (p_totalDistance p) d) by (destruct p; reflexivity).
  assert (L : (p_totalDistance p <= js_add (p_totalDistance p) d)%Q)
    by (apply fl_ge_double; [exact D | lra]).
  apply IH; rewrite ?T; auto.
  - apply with_counters_wf, W.
  - apply is_double_fl.
  - lra.
  - apply crossed_again; assumption.
Qed.

(** Every milestone is reported once.  Along a walk of any length, however its
    distance is cut into updates, the milestones reported are exactly those between the
    total at the start and the total at the end, each once. *)
Theorem milestones_once (p : Player) (steps : list Q) :
  wf_player p -> is_double (p_totalDistance p) -> Forall (fun d => 0 <= d)%Q steps ->
  let (p', reported) := walk_milestones steps p in
  reported ≡ₚ crossed (p_totalDistance p) (p_totalDistance p') /\ NoDup reported.
Proof.
  intros W D V. pose proof (walk_on_from steps p [] (p_totalDistance p) W D V) as K.
  unfold walk_milestones. destruct (fold_left _ steps (p, [])) as [p' out]. cbn [fst snd] in K.
  assert (N : out ≡ₚ crossed (p_totalDistance p) (p_totalDistance p')).
  { apply K; [lra|]. unfold crossed. induction MILESTONES as [|m l IH]; [reflexivity|]. cbn [List.filter].
    destruct (js_ltP (p_totalDistance p) m), (js_leP m (p_totalDistance p)); try (exfalso; lra); exact IH. }
  split; [exact N|]. rewrite N. unfold crossed.
  assert (M : NoDup MILESTONES) by (apply NoDup_ListNoDup; repeat constructor; cbn; intuition discriminate).
  revert M. induction MILESTONES as [|m l IH]; intros M; [constructor|].
  apply NoDup_cons in M as [M1 M2]. cbn [List.filter]. case_match; [|apply IH, M2].
  apply NoDup_cons. split; [|apply IH, M2]. intros I%list_elem_of_In%filter_In. apply M1, list_elem_of_In, I.
Qed.

(** ** Witnesses *)

Definition pixel : Device := mkDevice android true.

(** Start twice before the permission is given, walk, be killed with the dialog up,
    resume, stop. *)
Definition busy_tracking : list TrackEvent :=
  [TMount; TLoaded; TStart; TStart; TAnswer "granted" 1; TAnswer "granted" 2; TReport (Fix (reading 0 None));
   TChecked (Some false); TKill true; TMount; TLoaded; TAnswer "granted" 1; TChecked (Some false);
   TLaunched (Some true); TReport (Position (reading 1 None) 2); TStop; TStart; TAnswer "granted" 5].

Definition no_flags : @disk durable_storage := ∅.

Lemma no_flags_set key : @flag durable_storage key false no_flags.
Proof. right. split; reflexivity. Qed.

Lemma tracking_survives_kill_witness :
  let t := @track_run flat_trig durable_storage pixel busy_tracking (@launch_tracker durable_storage no_flags) in
  let t' := @track_run flat_trig durable_storage pixel (relaunch false 9) t in
  shownTracking t = true /\ shownTracking t' = true.
Proof.
  cbv zeta. split; [vm_compute; reflexivity|].
  destruct (@tracking_survives_kill flat_trig durable_storage durable_laws pixel no_flags busy_tracking
           false 9 (no_flags_set _) (no_flags_set _)) as (_ & _ & _ & _ & E & _).
  etransitivity; [exact E | vm_compute; reflexivity].
Defined.

Lemma battery_asked_once_witness :
  let t := @track_run flat_trig durable_storage pixel busy_tracking (@launch_tracker durable_storage no_flags) in
  dialogs t = 2%nat /\ unrecorded t = 1%nat /\ dialogs t = (recorded t + unrecorded t)%nat.
Proof.
  cbv zeta. split; [vm_compute; reflexivity|]. split; [vm_compute; reflexivity|].
  apply (@battery_asked_once flat_trig durable_storage durable_laws pixel no_flags busy_tracking
           (no_flags_set _) (no_flags_set _)).
Defined.

Lemma milestones_once_witness :
  snd (walk_milestones [400; 700; 3899; 2; 0]%Q sample_player) = [1000; 5000]%Q
  /\ NoDup (snd (walk_milestones [400; 700; 3899; 2; 0]%Q sample_player)).
Proof.
  split; [vm_compute; reflexivity|].
  pose proof (milestones_once sample_player [400; 700; 3899; 2; 0]%Q sample_player_wf) as K.
  destruct (walk_milestones _ _) as [p' out]. apply K; [vm_compute; reflexivity|].
  repeat (apply Forall_cons; split; [vm_compute; discriminate|]). constructor.
Defined.
