(* ===== verification/AuthService.v ===== *)
(** * The auth service and the sign-in buttons

    [src/services/AuthService.ts] and the handlers of [src/hooks/useAuth.ts] that call it.
    Firebase Auth and the Google and Apple sign-in modules are an interface ([AuthSdk])
    over an abstract state, with what their documentation promises in [AuthSdkLaws]; any
    call may fail.  A call that signs in or out also reports the new user to the
    listener of [onAuthStateChanged]; the reports queue up in [reports], and the hook
    gets them as [onAuthStateChanged] of [AuthSession]. *)
From stdpp Require Import base decidable strings list gmap.
From Stdlib Require Import ZArith QArith Lia.
From S2P Require Import Prelude JsNumber Config Player Json CloudSync Storage PlayerSession AuthSession.
Local Open Scope Z_scope.

(** ** The interface *)

Record User := mkUser {
  u_uid : string;
  u_displayName : option string;
  u_email : option string;
  u_isAnonymous : bool;
  u_photoURL : option string;
  u_providers : list string
}.

(** An exception with a code of the SDK, the conflict class, or a plain [Error]. *)
Inductive AuthError {credential : Type} :=
  | SdkError (code message : string)
  | AccountConflictError (c : credential)
  | Error (message : string).
Arguments AuthError : clear implicits.

Class AuthSdk := {
  auth_state : Type;
  credential : Type;
  currentUser : auth_state -> option User;
  Raw := fun A : Type => auth_state -> (AuthError credential + A) * auth_state;
  hasPlayServices : Raw unit;
  googleSignIn : Raw bool;
  getTokens : Raw (option string);
  googleSignOut : Raw unit;
  appleRequest : Raw (option string * string);
  googleCredential : string -> credential;
  appleCredential : string -> string -> credential;
  sdk_signInAnonymously : Raw unit;
  sdk_signOut : Raw unit;
  sdk_signInWithCredential : credential -> Raw unit;
  sdk_linkWithCredential : credential -> Raw unit;
  sdk_reauthenticate : credential -> Raw unit;
  sdk_delete : Raw unit
}.

Definition succeeded {E A} (r : E + A) : bool := match r with inr _ => true | inl _ => false end.

(** The same account, as far as the app can tell. *)
Definition same_account (o o' : option User) : Prop :=
  u_uid <$> o = u_uid <$> o' /\ u_isAnonymous <$> o = u_isAnonymous <$> o'.

Definition keeps_user `{AuthSdk} {A} (m : Raw A) : Prop :=
  forall s, same_account (currentUser (snd (m s))) (currentUser s).

(** A failed call leaves the user alone; the calls of the sign-in modules always do. *)
Class AuthSdkLaws `{AuthSdk} : Prop := {
  hasPlayServices_keeps : keeps_user hasPlayServices;
  googleSignIn_keeps : keeps_user googleSignIn;
  getTokens_keeps : keeps_user getTokens;
  googleSignOut_keeps : keeps_user googleSignOut;
  appleRequest_keeps : keeps_user appleRequest;
  reauthenticate_keeps c : keeps_user (sdk_reauthenticate c);
  anonymous_ok s : succeeded (fst (sdk_signInAnonymously s)) = true ->
    exists u, currentUser (snd (sdk_signInAnonymously s)) = Some u /\ u_isAnonymous u = true;
  anonymous_err s : succeeded (fst (sdk_signInAnonymously s)) = false ->
    same_account (currentUser (snd (sdk_signInAnonymously s))) (currentUser s);
  signOut_ok s : succeeded (fst (sdk_signOut s)) = true -> currentUser (snd (sdk_signOut s)) = None;
  signOut_err s : succeeded (fst (sdk_signOut s)) = false ->
    same_account (currentUser (snd (sdk_signOut s))) (currentUser s);
  signIn_ok c s : succeeded (fst (sdk_signInWithCredential c s)) = true ->
    exists u, currentUser (snd (sdk_signInWithCredential c s)) = Some u /\ u_isAnonymous u = false;
  signIn_err c s : succeeded (fst (sdk_signInWithCredential c s)) = false ->
    same_account (currentUser (snd (sdk_signInWithCredential c s))) (currentUser s);
  link_ok c s : succeeded (fst (sdk_linkWithCredential c s)) = true ->
    u_uid <$> currentUser (snd (sdk_linkWithCredential c s)) = u_uid <$> currentUser s
    /\ u_isAnonymous <$> currentUser (snd (sdk_linkWithCredential c s)) = Some false;
  link_err c s : succeeded (fst (sdk_linkWithCredential c s)) = false ->
    same_account (currentUser (snd (sdk_linkWithCredential c s))) (currentUser s);
  delete_ok s : succeeded (fst (sdk_delete s)) = true -> currentUser (snd (sdk_delete s)) = None;
  delete_err s : succeeded (fst (sdk_delete s)) = false ->
    same_account (currentUser (snd (sdk_delete s))) (currentUser s)
}.

(** ** The service *)

Section Service.
Context `{AuthSdk}.

(** The SDK with the users it has reported to the listener. *)
Record Sdk := mkSdk { sdk : auth_state; reports : list (option User) }.

Definition M (A : Type) : Type := Sdk -> (AuthError credential + A) * Sdk.

Definition m_ret {A} (a : A) : M A := fun s => (inr a, s).
Definition m_throw {A} (e : AuthError credential) : M A := fun s => (inl e, s).
Definition m_bind {A B} (m : M A) (f : A -> M B) : M B := fun s =>
  match m s with (inr a, s') => f a s' | (inl e, s') => (inl e, s') end.
Definition m_catch {A} (m : M A) (h : AuthError credential -> M A) : M A := fun s =>
  match m s with (inl e, s') => h e s' | r => r end.

(** A call of the SDK: a change of account is reported. *)
Definition await {A} (m : Raw A) : M A := fun s =>
  let (r, x) := m (sdk s) in
  let user := currentUser x in
  (r, mkSdk x (if bool_decide (u_uid <$> user = u_uid <$> currentUser (sdk s))
               then reports s else reports s ++ [user])).

Definition getAuth_currentUser : M (option User) := fun s => (inr (currentUser (sdk s)), s).

End Service.

Declare Scope auth_scope.
Notation "'let?' x ':=' m 'in' f" := (m_bind m (fun x => f))
  (at level 10, x name, m at level 100, f at level 200) : auth_scope.
Notation "'seq?' m ';' f" := (m_bind m (fun _ => f)) (at level 10, m at level 100, f at level 200) : auth_scope.
Local Open Scope auth_scope.

Section Methods.
Context `{AuthSdk}.

Definition toAuthUser (u : User) : AuthUser :=
  mkAuthUser (u_uid u) (u_displayName u) (u_email u) (u_isAnonymous u) (u_photoURL u).

Definition getCurrentUser (s : Sdk) : option AuthUser := toAuthUser <$> currentUser (sdk s).

(** [timedOut]: the ten-second timer settled the race first. *)
Definition initialize (timedOut : bool) : M unit :=
  let? existingUser := getAuth_currentUser in
  match existingUser with
  | Some _ => m_ret tt
  | None => if timedOut then m_ret tt else m_catch (await sdk_signInAnonymously) (fun _ => m_ret tt)
  end.

Definition linkOrSignIn (c : credential) : M unit :=
  let? user := getAuth_currentUser in
  if from_option u_isAnonymous false user then
    m_catch (await (sdk_linkWithCredential c)) (fun error =>
      match error with
      | SdkError code _ =>
          if bool_decide (code = "auth/credential-already-in-use")
             || bool_decide (code = "auth/email-already-in-use")
          then m_throw (AccountConflictError c) else m_throw error
      | _ => m_throw error
      end)
  else await (sdk_signInWithCredential c).

(** [!idToken]: absent or empty. *)
Definition token (t : option string) : option string :=
  match t with Some s => if decide (s = "") then None else Some s | None => None end.

Definition signInWithGoogle : M unit :=
  seq? await hasPlayServices;
  let? success := await googleSignIn in
  if negb success then m_ret tt
  else
    let? idToken := await getTokens in
    match token idToken with
    | None => m_throw (Error "Google Sign-In failed: no ID token returned")
    | Some t => linkOrSignIn (googleCredential t)
    end.

Definition signInWithApple (os : Platform) : M unit :=
  match os with
  | android => m_ret tt
  | ios =>
      let? response := await appleRequest in
      match token (fst response) with
      | None => m_throw (Error "Apple Sign-In failed: no identity token returned")
      | Some t => linkOrSignIn (appleCredential t (snd response))
      end
  end.

Definition signInWithExistingCredential (c : credential) : M unit := await (sdk_signInWithCredential c).

(** [GoogleSignin.signOut] of an account that is not a guest, its failure ignored. *)
Definition leave_google (user : option User) : M unit :=
  if from_option (fun u => negb (u_isAnonymous u)) false user
  then m_catch (await googleSignOut) (fun _ => m_ret tt) else m_ret tt.

Definition signOut : M unit :=
  let? user := getAuth_currentUser in
  seq? leave_google user;
  seq? await sdk_signOut;
  m_catch (await sdk_signInAnonymously) (fun _ => m_ret tt).

Definition reauthenticate (os : Platform) : M unit :=
  let? user := getAuth_currentUser in
  match user with
  | None => m_throw (Error "No user to re-authenticate")
  | Some u =>
      let providerId := head (u_providers u) in
      if bool_decide (providerId = Some "google.com") then
        seq? await hasPlayServices;
        let? success := await googleSignIn in
        if negb success then m_throw (Error "Re-authentication cancelled")
        else
          let? idToken := await getTokens in
          match token idToken with
          | None => m_throw (Error "Re-authentication failed: no ID token returned")
          | Some t => await (sdk_reauthenticate (googleCredential t))
          end
      else if bool_decide (providerId = Some "apple.com") then
        match os with
        | android => m_throw (Error "Apple re-authentication is only available on iOS")
        | ios =>
            let? response := await appleRequest in
            match token (fst response) with
            | None => m_throw (Error "Re-authentication failed: no identity token returned")
            | Some t => await (sdk_reauthenticate (appleCredential t (snd response)))
            end
        end
      else m_throw (Error ("Cannot re-authenticate unsupported provider: " +:+ default "unknown" providerId))
  end.

(** Whether a failed deletion is tried again after re-authenticating. *)
Definition needs_recent_login (error : AuthError credential) : bool :=
  match error with SdkError code _ => bool_decide (code = "auth/requires-recent-login") | _ => false end.

Definition deleteAccount (os : Platform) : M unit :=
  let? user := getAuth_currentUser in
  match user with
  | None => m_throw (Error "No account is signed in to delete.")
  | Some u =>
      let wasAnonymous := u_isAnonymous u in
      seq? leave_google user;
      m_catch (await sdk_delete) (fun error =>
        if needs_recent_login error && negb wasAnonymous then
          seq? reauthenticate os;
          let? user := getAuth_currentUser in
          match user with
          | None => m_throw (Error "Re-authentication did not restore a user to delete.")
          | Some _ => await sdk_delete
          end
        else m_throw error)
  end.

End Methods.

(** ** The buttons of the account screen *)

Section Handlers.
Context `{AuthSdk} `{AsyncStorage}.

(** The account session and the SDK. *)
Record AuthApp := mkAuthApp { account : AuthWorld; firebase : Sdk }.

#[global] Instance AuthApp_fields : Fields AuthApp := fun x => mkAuthApp (account x) (firebase x).

Definition on_account (f : AuthWorld -> AuthWorld) (x : AuthApp) : AuthApp := x <| account := f (account x) |>.

Definition alert (title : string) : AuthApp -> AuthApp := on_account (AuthSession.alert title).

Definition setAuthLoading (b : bool) : AuthApp -> AuthApp := on_account (AuthSession.setAuthLoading b).

(** The listener gets what the SDK has reported. *)
Definition listen (x : AuthApp) : AuthApp :=
  x <| account := fold_left (fun w user => onAuthStateChanged (toAuthUser <$> user) w)
                    (reports (firebase x)) (account x) |>
    <| firebase := mkSdk (sdk (firebase x)) [] |>.

(** Reports reach the listener while the handler waits, or, when [late], after it. *)
Definition listen_unless (late : bool) (x : AuthApp) : AuthApp := if late then x else listen x.

(** [None] only when the guest's save has no readable timestamp. *)
Definition handleAccountConflict (late : bool) (cloud : CloudLoad) (c : credential) (x : AuthApp)
    : option ((AuthError credential + unit) * AuthApp) :=
  '(choose, w) ← handleAccountConflict_start (account x);
  let (r, s) := signInWithExistingCredential c (firebase x) in
  let x := listen_unless late (x <| account := w |> <| firebase := s |>) in
  Some (r, if choose : bool
           then x <| account := handleAccountConflict_end (succeeded r) cloud (account x) |> else x).

(** [handleGoogleSignIn] and [handleAppleSignIn] differ in the call they make. *)
Definition handle_sign_in (late : bool) (cloud : CloudLoad) (method : M unit) (x : AuthApp) : option AuthApp :=
  let x := setAuthLoading true x in
  let (r, s) := method (firebase x) in
  let x := listen_unless late (x <| firebase := s |>) in
  x ← (match r with
       | inr _ => Some x
       | inl (AccountConflictError c) =>
           '(r, x) ← handleAccountConflict late cloud c x;
           Some (if succeeded r then x else alert "Sign-in failed" x)
       | inl _ => Some (alert "Sign-in failed" x)
       end);
  Some (listen (setAuthLoading false x)).

Definition handleGoogleSignIn (late : bool) (cloud : CloudLoad) : AuthApp -> option AuthApp :=
  handle_sign_in late cloud signInWithGoogle.

Definition handleAppleSignIn (late : bool) (os : Platform) (cloud : CloudLoad) : AuthApp -> option AuthApp :=
  handle_sign_in late cloud (signInWithApple os).

Definition handleSignOut (late : bool) (x : AuthApp) : AuthApp :=
  let x := setAuthLoading true x in
  let (r, s) := signOut (firebase x) in
  let x := listen_unless late (x <| firebase := s |>) in
  listen (setAuthLoading false (if succeeded r then x else alert "Sign-out failed" x)).

(** [handleDeleteAccount] of [AuthSession], from the end of its drain on, with what the
    service answers; [cloud] is how the deletion of the cloud save ends, [timedOut] how the
    new guest session starts, [reloaded] whether the reload into it resolves. *)
Definition handleDeleteAccount_drained (os : Platform) (cloud : DeleteEvent) (timedOut reloaded : bool)
    (x : AuthApp) : AuthApp :=
  let uid := u_uid <$> currentUser (sdk (firebase x)) in
  let cloudOk := from_option snd true (deletePlayerData uid cloud) in
  let '(deleted, s) :=
    if cloudOk then let (r, s) := deleteAccount os (firebase x) in (succeeded r, s) else (false, firebase x) in
  let '(session, s) := if deleted then initialize timedOut s else (inr tt, s) in
  let reset := if succeeded session then if reloaded then ResetDone else ResetNoReload else ResetNoSession in
  let env := mkDeleteEnv false uid cloud deleted reset (getCurrentUser s) in
  listen (on_account (handleDeleteAccount_end env) x <| firebase := s |>).

End Handlers.

(** ** Lemmas: calls that leave the account alone *)

#[export] Instance same_account_equiv : Equivalence same_account.
Proof.
  unfold same_account. split.
  - intros x. split; reflexivity.
  - intros x y [A B]. split; congruence.
  - intros x y z [A B] [C D]. split; congruence.
Qed.

Create HintDb quiet.

Section Quiet.
Context `{AuthSdkLaws}.

Definition still (s s' : Sdk) : Prop :=
  same_account (currentUser (sdk s')) (currentUser (sdk s)) /\ reports s' = reports s.

#[global] Instance still_preorder : PreOrder still.
Proof.
  split.
  - intros s. split; reflexivity.
  - intros a b c [A A'] [B B']. split; [etransitivity; eassumption | congruence].
Qed.

Definition quiet {A} (m : M A) : Prop := forall s, still s (snd (m s)).

Lemma quiet_ret {A} (a : A) : quiet (m_ret a).
Proof. intros s. reflexivity. Qed.

Lemma quiet_throw {A} e : quiet (m_throw (A := A) e).
Proof. intros s. reflexivity. Qed.

Lemma quiet_bind {A B} (m : M A) (f : A -> M B) : quiet m -> (forall a, quiet (f a)) -> quiet (m_bind m f).
Proof.
  intros Q F s. unfold m_bind. specialize (Q s). destruct (m s) as [[e|a] s']; [exact Q|].
  etransitivity; [exact Q | apply F].
Qed.

Lemma quiet_catch {A} (m : M A) h : quiet m -> (forall e, quiet (h e)) -> quiet (m_catch m h).
Proof.
  intros Q F s. unfold m_catch. specialize (Q s). destruct (m s) as [[e|a] s']; [|exact Q].
  etransitivity; [exact Q | apply F].
Qed.

Lemma await_still {A} (m : Raw A) s : same_account (currentUser (snd (m (sdk s)))) (currentUser (sdk s)) ->
  still s (snd (await m s)).
Proof.
  intros K. unfold await. destruct (m (sdk s)) as [r x]. cbn [fst snd] in *.
  split; [exact K|]. cbn. rewrite bool_decide_true by apply K. reflexivity.
Qed.

Lemma quiet_await {A} (m : Raw A) : keeps_user m -> quiet (await m).
Proof. intros K s. apply await_still, K. Qed.

Lemma quiet_user : quiet getAuth_currentUser.
Proof. intros s. reflexivity. Qed.

Lemma await_result {A} (m : Raw A) s : fst (await m s) = fst (m (sdk s)).
Proof. unfold await. destruct (m (sdk s)). reflexivity. Qed.

Lemma await_user {A} (m : Raw A) s : currentUser (sdk (snd (await m s))) = currentUser (snd (m (sdk s))).
Proof. unfold await. destruct (m (sdk s)). reflexivity. Qed.

#[local] Hint Resolve quiet_ret quiet_throw quiet_user quiet_await quiet_bind quiet_catch : quiet.
#[local] Hint Resolve hasPlayServices_keeps googleSignIn_keeps getTokens_keeps googleSignOut_keeps
  appleRequest_keeps reauthenticate_keeps : quiet.

Ltac hush := repeat first [progress eauto with quiet | apply quiet_bind; [|intros ?] | apply quiet_catch; [|intros ?] | case_match].

Lemma leave_google_quiet user : quiet (leave_google user).
Proof. unfold leave_google. hush. Qed.

Lemma reauthenticate_quiet os : quiet (reauthenticate os).
Proof. unfold reauthenticate. hush. Qed.

(** *** Deleting *)

(** The account that was signed in is gone, or it is still signed in. *)
Definition deleted_or_kept (s : Sdk) (o : (AuthError credential + unit) * Sdk) : Prop :=
  if succeeded (fst o)
  then is_Some (currentUser (sdk s)) /\ currentUser (sdk (snd o)) = None
       /\ reports (snd o) = reports s ++ [None]
  else still s (snd o).

Lemma still_some s s' : still s s' -> is_Some (currentUser (sdk s')) <-> is_Some (currentUser (sdk s)).
Proof.
  intros [[K _] _]. rewrite !is_Some_alt.
  destruct (currentUser (sdk s)), (currentUser (sdk s')); try discriminate; reflexivity.
Qed.

Lemma deleted_after s s1 o : still s s1 -> deleted_or_kept s1 o -> deleted_or_kept s o.
Proof.
  intros K. unfold deleted_or_kept. destruct (succeeded (fst o)); [|intros E; etransitivity; eassumption].
  rewrite (still_some _ _ K). destruct K as [_ ->]. auto.
Qed.

Lemma kept_error s e : deleted_or_kept s (inl e, s).
Proof. unfold deleted_or_kept. cbn. reflexivity. Qed.

Lemma delete_call s : is_Some (currentUser (sdk s)) -> deleted_or_kept s (await sdk_delete s).
Proof.
  intros S. unfold deleted_or_kept. rewrite await_result. destruct (succeeded _) eqn:E.
  - rewrite await_user, (delete_ok _ E). split; [exact S|]. split; [reflexivity|].
    unfold await. pose proof (delete_ok _ E) as N. destruct (sdk_delete (sdk s)) as [r x]. cbn [snd fst] in *.
    destruct S as [u U]. cbn. rewrite N, U, bool_decide_false by discriminate. reflexivity.
  - apply await_still, delete_err, E.
Qed.

Lemma delete_retried os s : deleted_or_kept s
  (m_bind (reauthenticate os) (fun _ => m_bind getAuth_currentUser (fun user =>
     match user with
     | None => m_throw (Error "Re-authentication did not restore a user to delete.")
     | Some _ => await sdk_delete
     end)) s).
Proof.
  unfold m_bind at 1. pose proof (reauthenticate_quiet os s) as Q.
  destruct (reauthenticate os s) as [[e|[]] s1]; [exact Q|]. cbn [snd] in Q.
  apply (deleted_after _ s1 _ Q). unfold m_bind. cbn [getAuth_currentUser].
  destruct (currentUser (sdk s1)) as [u|] eqn:U; [|apply kept_error]. apply delete_call. rewrite U. eauto.
Qed.

(** An account is deleted or kept.  When [deleteAccount] succeeds, at once or after
    re-authenticating, the account that was signed in is gone, nobody is signed in, and
    the listener is told so once; when it fails, however far it got, the same account is
    still signed in and the listener has heard nothing. *)
Lemma deleteAccount_cases (os : Platform) (s : Sdk) : deleted_or_kept s (deleteAccount os s).
Proof.
  unfold deleteAccount. unfold m_bind at 1. cbn [getAuth_currentUser].
  destruct (currentUser (sdk s)) as [u|] eqn:U; [|apply kept_error].
  unfold m_bind at 1. pose proof (leave_google_quiet (Some u) s) as Q.
  destruct (leave_google (Some u) s) as [[e|[]] s1]; [exact Q|]. cbn [snd] in Q.
  apply (deleted_after _ s1 _ Q). unfold m_catch.
  assert (S1 : is_Some (currentUser (sdk s1))) by (apply (still_some s s1 Q); rewrite U; eauto).
  pose proof (delete_call s1 S1) as D.
  destruct (await sdk_delete s1) as [[e|[]] s2]; [|exact D]. cbn in D.
  apply (deleted_after _ s2 _ D). destruct (_ && _); [apply delete_retried | apply kept_error].
Qed.

(** *** Linking *)

(** A call by which a guest stays the same user: nothing is reported. *)
Definition same_guest (s s' : Sdk) : Prop :=
  u_uid <$> currentUser (sdk s') = u_uid <$> currentUser (sdk s) /\ reports s' = reports s.

Lemma still_same s s' : still s s' -> same_guest s s'.
Proof. intros [[A _] B]. split; assumption. Qed.

(** A guest signing in: the guest is linked, nothing happens, or an error is thrown,
    and in every case the uid is the guest's. *)
Definition guest_call (m : M unit) : Prop :=
  forall s, u_isAnonymous <$> currentUser (sdk s) = Some true -> same_guest s (snd (m s)).

Lemma guest_after {A} (m : M A) f : quiet m -> (forall a, guest_call (f a)) -> guest_call (m_bind m f).
Proof.
  intros Q F s G. unfold m_bind. pose proof (Q s) as K. destruct (m s) as [[e|a] s1]; [apply still_same, K|].
  cbn [snd] in K. destruct K as [[K1 K2] K3]. destruct (F a s1) as [A1 A2]; [congruence|].
  split; congruence.
Qed.

Lemma link_guest c : guest_call (linkOrSignIn c).
Proof.
  intros s G. unfold linkOrSignIn, m_bind. cbn [getAuth_currentUser].
  assert (E : from_option u_isAnonymous false (currentUser (sdk s)) = true)
    by (destruct (currentUser (sdk s)); [injection G as G; exact G | discriminate]).
  rewrite E. assert (K : same_guest s (snd (await (sdk_linkWithCredential c) s))).
  { unfold await. destruct (succeeded (fst (sdk_linkWithCredential c (sdk s)))) eqn:L.
    - destruct (link_ok _ _ L) as [A _]. destruct (sdk_linkWithCredential c (sdk s)) as [r x].
      cbn [fst snd] in *. split; [exact A|]. cbn. rewrite bool_decide_true by exact A. reflexivity.
    - apply still_same, await_still, link_err, L. }
  unfold m_catch. destruct (await _ s) as [[e|[]] s1]; [|exact K].
  destruct e as [code msg|c'|msg]; [destruct (_ || _)|..]; exact K.
Qed.

Lemma google_guest : guest_call signInWithGoogle.
Proof.
  assert (R : forall a : unit, guest_call (m_ret a)) by (intros a s _; split; reflexivity).
  unfold signInWithGoogle. apply guest_after; [hush|]. intros _. apply guest_after; [hush|]. intros [].
  - cbn [negb]. apply guest_after; [hush|]. intros o. destruct (token o); [apply link_guest|].
    intros s _. split; reflexivity.
  - apply R.
Qed.

Lemma apple_guest os : guest_call (signInWithApple os).
Proof.
  destruct os; [|intros s _; split; reflexivity]. apply guest_after; [hush|]. intros [o n].
  cbn [fst snd]. destruct (token o); [apply link_guest | intros s _; split; reflexivity].
Qed.
End Quiet.

(** ** Lemmas: the handlers *)

Section Guest.
Context `{AuthSdkLaws} `{AsyncStorageLaws}.

(** The listener while a conflict is guarded, and with nothing to report. *)
Lemma listen_guarded x : a_conflictResolutionPending (auth (account x)) = true ->
  adisk (account (listen x)) = adisk (account x) /\ calls (account (listen x)) = calls (account x)
  /\ signingIn (account (listen x)) = signingIn (account x)
  /\ a_conflictState (auth (account (listen x))) = a_conflictState (auth (account x))
  /\ a_conflictResolutionPending (auth (account (listen x))) = true.
Proof.
  destruct x as [w s]. cbn. generalize (reports s). intros l. revert w.
  induction l as [|u l IH]; intros w G; cbn [fold_left]; [auto|].
  destruct (guard_holds (toAuthUser <$> u) w G) as [A B].
  destruct (state_changed_keeps (toAuthUser <$> u) w) as (C & D & E).
  rewrite G in E. specialize (IH _ E). rewrite A, B, C, D in IH. exact IH.
Qed.

Lemma listen_silent x : reports (firebase x) = [] -> listen x = x.
Proof. destruct x as [w [s l]]. cbn. intros ->. reflexivity. Qed.

Lemma listen_unless_silent late x : reports (firebase x) = [] -> listen_unless late x = x.
Proof. destruct late; [reflexivity | apply listen_silent]. Qed.

Lemma write_conflict_stored c j t d : stored j t d -> stored j t (snd (writePendingConflict c d)).
Proof.
  assert (T : touches [STORAGE_KEYS.CONFLICT_PENDING] (writePendingConflict c))
    by (apply touches_try; [apply touches_set, list_elem_of_here | apply touches_ret]).
  intros [A B]. split; rewrite T; auto; rewrite list_elem_of_singleton; discriminate.
Qed.

(** A guest with a save, and nothing going on. *)
Record guest_ready (x : AuthApp) (g : User) (j : json) (t : Z) : Prop := {
  gr_user : currentUser (sdk (firebase x)) = Some g;
  gr_guest : u_isAnonymous g = true;
  gr_heard : reports (firebase x) = [];
  gr_idle : signingIn (account x) = None;
  gr_open : a_conflictState (auth (account x)) = None;
  gr_valid : isValidPlayerData j = true;
  gr_stored : stored j t (adisk (account x))
}.

(** The guest is still the user and nothing was asked of the app. *)
Definition still_guest (x x' : AuthApp) (g : User) : Prop :=
  u_uid <$> currentUser (sdk (firebase x')) = Some (u_uid g)
  /\ a_conflictState (auth (account x')) = None /\ calls (account x') = calls (account x).

(** The choice is shown, with the guest's save in it, and guarded. *)
Definition choice_shown (x x' : AuthApp) (j : json) (t : Z) : Prop :=
  exists c, a_conflictState (auth (account x')) = Some c /\ pc_localData c = Some j
    /\ pc_localSavedAt c = t /\ a_conflictResolutionPending (auth (account x')) = true
    /\ calls (account x') = calls (account x) ++ [OnAccountSwitch].

(** What [handleAccountConflict] leaves, before the late reports are heard. *)
Lemma conflict_begins j t w : isValidPlayerData j = true -> stored j t (adisk w) ->
  readable (adisk w) = true ->
  exists w', handleAccountConflict_start w = Some (true, w') /\ stored j t (adisk w')
    /\ signingIn w' = Some (j, t) /\ calls w' = calls w
    /\ a_conflictState (auth w') = a_conflictState (auth w)
    /\ a_conflictResolutionPending (auth w') = true.
Proof.
  intros V S Rd. unfold handleAccountConflict_start.
  destruct (read_readable j t (adisk w) V S Rd) as [E C].
  destruct (readLocalPlayerSnapshot (adisk w)) as [r d]. cbn [fst snd] in *. subst r.
  cbn [mbind option_bind]. change (JNum (num t)) with (jint t). rewrite dec_int_round.
  eexists. split; [reflexivity|]. destruct S as [S1 S2].
  split; [split; cbn; rewrite C; assumption | repeat split].
Qed.

Lemma conflict_ends ok cloud j t w : signingIn w = Some (j, t) -> stored j t (adisk w) ->
  a_conflictState (auth w) = None -> a_conflictResolutionPending (auth w) = true ->
  let w' := handleAccountConflict_end ok cloud w in
  stored j t (adisk w') /\ a_authLoading (auth w') = a_authLoading (auth w)
  /\ if ok then a_conflictResolutionPending (auth w') = true /\ calls w' = calls w ++ [OnAccountSwitch]
               /\ exists c, a_conflictState (auth w') = Some c /\ pc_localData c = Some j /\ pc_localSavedAt c = t
     else a_conflictState (auth w') = None /\ calls w' = calls w.
Proof.
  intros S D C G. unfold handleAccountConflict_end. rewrite S. destruct ok.
  - split; [apply write_conflict_stored, D|]. split; [reflexivity|]. split; [exact G|].
    split; [reflexivity|]. eexists. repeat split.
  - repeat split; cbn; auto; apply D.
Qed.

Lemma handle_conflict late cloud c x g j t :
  u_uid <$> currentUser (sdk (firebase x)) = Some (u_uid g) -> reports (firebase x) = [] ->
  a_conflictState (auth (account x)) = None -> isValidPlayerData j = true -> stored j t (adisk (account x)) ->
  readable (adisk (account x)) = true ->
  exists r x1, handleAccountConflict late cloud c x = Some (r, x1)
    /\ stored j t (adisk (account x1))
    /\ if succeeded r then choice_shown x x1 j t
       else still_guest x x1 g /\ reports (firebase x1) = [].
Proof.
  intros U R O V S Rd. unfold handleAccountConflict.
  destruct (conflict_begins j t (account x) V S Rd) as (w & -> & S1 & I1 & C1 & O1 & G1).
  cbn [mbind option_bind]. unfold signInWithExistingCredential.
  pose proof (await_result (sdk_signInWithCredential c) (firebase x)) as E.
  pose proof (fun L => await_still (sdk_signInWithCredential c) (firebase x) (signIn_err c _ L)) as K.
  destruct (await (sdk_signInWithCredential c) (firebase x)) as [r s]. cbn [fst snd] in *. rewrite <- E in K. clear E.
  set (y := x <| account := w |> <| firebase := s |>).
  assert (Y : adisk (account (listen_unless late y)) = adisk w
    /\ calls (account (listen_unless late y)) = calls w /\ signingIn (account (listen_unless late y)) = signingIn w
    /\ a_conflictState (auth (account (listen_unless late y))) = a_conflictState (auth w)
    /\ a_conflictResolutionPending (auth (account (listen_unless late y))) = true).
  { destruct late; [cbn; auto | apply (listen_guarded y), G1]. }
  destruct Y as (Y1 & Y2 & Y3 & Y4 & Y5).
  destruct (conflict_ends (succeeded r) cloud j t (account (listen_unless late y))) as (Z1 & _ & Z2);
    [congruence | rewrite Y1; exact S1 | congruence | exact Y5|].
  do 2 eexists. split; [reflexivity|]. split; [exact Z1|]. destruct (succeeded r).
  - destruct Z2 as (Z2 & Z3 & rec & Z4 & Z5 & Z6). exists rec. cbn. rewrite Z3, Y2, C1. auto.
  - destruct Z2 as [Z2 Z3]. destruct (K eq_refl) as [[K1 K2] K3].
    assert (Q : reports (firebase y) = []) by (cbn; rewrite K3; exact R).
    rewrite (listen_unless_silent late y Q) in *.
    split; [|exact Q]. split; [exact (eq_trans K1 U)|]. split; [exact Z2 | exact (eq_trans Z3 C1)].
Qed.

(** Reports that are still queued when the spinner is released. *)
Lemma settle_guest x x1 g : still_guest x x1 g -> reports (firebase x1) = [] ->
  still_guest x (listen (setAuthLoading false x1)) g.
Proof. intros K R. rewrite listen_silent by exact R. exact K. Qed.

Lemma settle_choice x x1 j t : choice_shown x x1 j t -> stored j t (adisk (account x1)) ->
  choice_shown x (listen (setAuthLoading false x1)) j t
  /\ stored j t (adisk (account (listen (setAuthLoading false x1)))).
Proof.
  intros (c & C1 & C2 & C3 & C4 & C5) S.
  destruct (listen_guarded (setAuthLoading false x1) C4) as (A & B & _ & D & E).
  split; [|rewrite A; exact S]. exists c. rewrite B, D, E. auto.
Qed.

Lemma loading_kept user w : a_authLoading (auth (onAuthStateChanged user w)) = a_authLoading (auth w).
Proof.
  unfold onAuthStateChanged, on_auth. cbn [auth assign]. unfold note_account.
  repeat case_match; reflexivity.
Qed.

Lemma listen_loading x : a_authLoading (auth (account (listen x))) = a_authLoading (auth (account x)).
Proof.
  destruct x as [w s]. cbn. generalize (reports s). intros l. revert w.
  induction l as [|u l IH]; intros w; cbn [fold_left]; [reflexivity|]. rewrite IH. apply loading_kept.
Qed.

Lemma sign_in_guest late cloud method x g j t : guest_call method -> guest_ready x g j t ->
  readable (adisk (account x)) = true ->
  exists x', handle_sign_in late cloud method x = Some x'
    /\ stored j t (adisk (account x')) /\ a_authLoading (auth (account x')) = false
    /\ (still_guest x x' g \/ choice_shown x x' j t).
Proof.
  intros M K Rd. unfold handle_sign_in. set (x0 := setAuthLoading true x).
  pose proof (M (firebase x0)) as Q. change (firebase x0) with (firebase x) in Q.
  change (firebase x0) with (firebase x).
  destruct Q as [Q1 Q2]; [rewrite (gr_user _ _ _ _ K); cbn; f_equal; apply K|].
  destruct (method (firebase x)) as [r s]. cbn [snd] in *.
  rewrite (gr_heard _ _ _ _ K) in Q2. rewrite (gr_user _ _ _ _ K) in Q1.
  set (x1 := x0 <| firebase := s |>). rewrite (listen_unless_silent late x1 Q2).
  assert (G1 : still_guest x x1 g) by (split; [exact Q1 | split; [apply K | reflexivity]]).
  assert (L : forall y, a_authLoading (auth (account (listen (setAuthLoading false y)))) = false)
    by (intros y; rewrite listen_loading; reflexivity).
  assert (F : forall y, still_guest x y g -> reports (firebase y) = [] -> stored j t (adisk (account y)) ->
    exists x', Some (listen (setAuthLoading false y)) = Some x' /\ stored j t (adisk (account x'))
      /\ a_authLoading (auth (account x')) = false /\ (still_guest x x' g \/ choice_shown x x' j t)).
  { intros y Gy Ry Sy. eexists. split; [reflexivity|]. split; [rewrite listen_silent by exact Ry; exact Sy|].
    split; [apply L | left; apply settle_guest; assumption]. }
  destruct r as [[code msg|c|msg]|[]]; cbn [mbind option_bind];
    try (apply F; [exact G1 | exact Q2 | apply K]).
  destruct (handle_conflict late cloud c x1 g j t) as (r & y & -> & Sy & Cy);
    [exact Q1 | exact Q2 | apply K | apply K | apply K | exact Rd|]. cbn [mbind option_bind].
  destruct (succeeded r).
  - eexists. split; [reflexivity|]. destruct (settle_choice x1 y j t Cy Sy) as [A B].
    split; [exact B|]. split; [apply L | right; exact A].
  - destruct Cy as [Cy Ry]. apply F; [exact Cy | exact Ry | exact Sy].
Qed.

(** The two sign-in methods. *)
Inductive Provider := google | apple.

Definition sign_in (os : Platform) (provider : Provider) : M unit :=
  match provider with google => signInWithGoogle | apple => signInWithApple os end.

(** C20: signing in keeps a guest's save that can be read.  A guest with a stored save,
    which the device can read, taps a sign-in button; whatever the platform's dialogs and
    Firebase answer, whenever the auth-state reports arrive and whether or not the conflict
    can be recorded, the save is still stored and the spinner is gone afterwards.  Either
    the guest is still the same user (linked, cancelled or failed) and the app was asked
    nothing, or the account exists and the choice between the saves is on the screen
    with the guest's save in it, guarded. *)
Theorem sign_in_keeps_save (late : bool) (cloud : CloudLoad) (os : Platform) (provider : Provider)
    (x : AuthApp) (g : User) (j : json) (t : Z) :
  guest_ready x g j t -> readable (adisk (account x)) = true ->
  exists x', handle_sign_in late cloud (sign_in os provider) x = Some x'
    /\ stored j t (adisk (account x')) /\ a_authLoading (auth (account x')) = false
    /\ (still_guest x x' g \/ choice_shown x x' j t).
Proof. apply sign_in_guest. destruct provider; [apply google_guest | apply apple_guest]. Qed.

End Guest.

(** ** Leaving an account *)

Section Leaving.
Context `{AuthSdkLaws} `{AsyncStorageLaws}.

(** Nobody, or a guest. *)
Definition no_account (o : option User) : Prop := forall u, o = Some u -> u_isAnonymous u = true.

(** What the listener hears when an account is left: that it is gone, then perhaps a guest. *)
Definition left_reports (l : list (option User)) : Prop := l = [None] \/ exists u, l = [None; Some u].

Lemma none_heard w : adisk (onAuthStateChanged None w) = adisk w
  /\ a_prevUid (auth (onAuthStateChanged None w)) = None.
Proof. unfold onAuthStateChanged, on_auth. cbn. destruct (a_prevUid (auth w)); split; reflexivity. Qed.

Lemma guest_heard u w : a_prevUid (auth w) = None -> adisk (onAuthStateChanged (Some u) w) = adisk w.
Proof. intros E. unfold onAuthStateChanged, on_auth. cbn. rewrite E. case_match; reflexivity. Qed.

Lemma state_changed_alerts user w : alerts (onAuthStateChanged user w) = alerts w.
Proof. unfold onAuthStateChanged, on_auth. cbn [alerts assign]. repeat case_match; reflexivity. Qed.

Lemma listen_alerts x : alerts (account (listen x)) = alerts (account x).
Proof.
  destruct x as [w s]. cbn. generalize (reports s). intros l. revert w.
  induction l as [|u l IH]; intros w; cbn [fold_left]; [reflexivity|]. rewrite IH. apply state_changed_alerts.
Qed.

Lemma listen_calls x : calls (account x) `prefix_of` calls (account (listen x)).
Proof.
  destruct x as [w s]. cbn. generalize (reports s). intros l. revert w.
  induction l as [|u l IH]; intros w; cbn [fold_left]; [reflexivity|].
  etransitivity; [apply (state_changed_frame (toAuthUser <$> u) w) | apply IH].
Qed.

Lemma heard_after_leaving x : left_reports (reports (firebase x)) ->
  adisk (account (listen x)) = adisk (account x).
Proof.
  destruct x as [w [s l]]. intros [E|[u E]]; cbn in E; subst l.
  - apply none_heard.
  - exact (eq_trans (guest_heard _ _ (proj2 (none_heard w))) (proj1 (none_heard w))).
Qed.

(** Signing in as a guest when nobody is signed in. *)
Lemma guest_follows s : currentUser (sdk s) = None -> reports s = [None] ->
  let s' := snd (m_catch (await sdk_signInAnonymously) (fun _ => m_ret tt) s) in
  no_account (currentUser (sdk s')) /\ left_reports (reports s').
Proof.
  intros N R. unfold m_catch. pose proof (await_result sdk_signInAnonymously s) as E.
  pose proof (await_user sdk_signInAnonymously s) as U.
  pose proof (fun L => await_still sdk_signInAnonymously s (anonymous_err _ L)) as K.
  pose proof (anonymous_ok (sdk s)) as A. rewrite <- E in A, K.
  unfold await in *. destruct (sdk_signInAnonymously (sdk s)) as [r x]. cbn [fst snd sdk reports] in *.
  destruct r as [e|[]]; cbn.
  - destruct (K eq_refl) as [[K1 _] K2]. cbn in K1, K2. rewrite N in K1. cbn in K1.
    destruct (currentUser x); [discriminate|]. rewrite N. cbn.
    split; [intros u [=] | left; exact R].
  - destruct (A eq_refl) as (u & Eu & Gu). rewrite Eu, N. cbn. rewrite R.
    split; [intros v [= <-]; exact Gu | right; exists u; reflexivity].
Qed.

Lemma initialize_follows timedOut s : currentUser (sdk s) = None -> reports s = [None] ->
  let s' := snd (initialize timedOut s) in
  no_account (currentUser (sdk s')) /\ left_reports (reports s').
Proof.
  intros N R. unfold initialize, m_bind. cbn [getAuth_currentUser]. rewrite N.
  destruct timedOut; [|apply guest_follows; assumption].
  cbn. rewrite N, R. split; [intros u [=] | left; reflexivity].
Qed.

Lemma initialize_resolves timedOut s : succeeded (fst (initialize timedOut s)) = true.
Proof.
  unfold initialize, m_bind. cbn [getAuth_currentUser]. destruct (currentUser (sdk s)); [reflexivity|].
  destruct timedOut; [reflexivity|]. unfold m_catch. destruct (await _ s) as [[e|[]] s']; reflexivity.
Qed.

Lemma signOut_spec s : is_Some (currentUser (sdk s)) -> reports s = [] ->
  let (r, s') := signOut s in
  if succeeded r then no_account (currentUser (sdk s')) /\ left_reports (reports s') else still s s'.
Proof.
  intros S R. unfold signOut. unfold m_bind at 1. cbn [getAuth_currentUser].
  unfold m_bind at 1. pose proof (leave_google_quiet (currentUser (sdk s)) s) as Q.
  destruct (leave_google (currentUser (sdk s)) s) as [[e|[]] s1]; [exact Q|]. cbn [snd] in Q.
  unfold m_bind. pose proof (proj2 (still_some s s1 Q) S) as [u U]. destruct Q as [QA QR].
  pose proof (await_still sdk_signOut s1) as K. pose proof (signOut_err (sdk s1)) as K'.
  pose proof (signOut_ok (sdk s1)) as A.
  unfold await at 1. unfold await in K. destruct (sdk_signOut (sdk s1)) as [[e|[]] x]; cbn [fst snd] in *.
  - destruct (K (K' eq_refl)) as [K1 K2]. split; [etransitivity; eassumption | etransitivity; eassumption].
  - specialize (A eq_refl). rewrite A, U. cbn [fmap option_fmap option_map].
    rewrite bool_decide_false by discriminate. rewrite QR, R.
    pose proof (guest_follows (mkSdk x [None]) A eq_refl) as F. cbn [app].
    assert (O : forall s0, succeeded (fst (m_catch (await sdk_signInAnonymously) (fun _ => m_ret tt) s0)) = true)
      by (intros s0; unfold m_catch; destruct (await _ s0) as [[]]; reflexivity).
    specialize (O (mkSdk x [None])). destruct (m_catch _ _ _) as [r s2]. cbn [fst snd] in *. rewrite O. exact F.
Qed.

(** Signing out leaves the account and nothing else.  The spinner is released and the
    local save is untouched whatever happens; without an alert nobody or a new guest is
    signed in, and with one the same account still is. *)
Theorem sign_out_leaves (late : bool) (x : AuthApp) :
  is_Some (currentUser (sdk (firebase x))) -> reports (firebase x) = [] ->
  let x' := handleSignOut late x in
  adisk (account x') = adisk (account x) /\ a_authLoading (auth (account x')) = false
  /\ (alerts (account x') = alerts (account x) /\ no_account (currentUser (sdk (firebase x')))
      \/ alerts (account x') = alerts (account x) ++ ["Sign-out failed"]
         /\ same_account (currentUser (sdk (firebase x'))) (currentUser (sdk (firebase x)))).
Proof.
  intros S R. cbv zeta. unfold handleSignOut. pose proof (signOut_spec (firebase x) S R) as K.
  change (firebase (setAuthLoading true x)) with (firebase x).
  destruct (signOut (firebase x)) as [r s]. set (x1 := setAuthLoading true x <| firebase := s |>).
  split; [|split; [rewrite listen_loading; reflexivity|]].
  - destruct (succeeded r).
    + destruct K as [_ K]. destruct late; cbn [listen_unless].
      * exact (heard_after_leaving (setAuthLoading false x1) K).
      * rewrite listen_silent by reflexivity. exact (heard_after_leaving x1 K).
    + assert (E : reports (firebase x1) = []) by exact (eq_trans (proj2 K) R).
      rewrite (listen_unless_silent late x1 E), listen_silent by exact E. reflexivity.
  - destruct (succeeded r); [left | right].
    + split; [|destruct late; apply K]. rewrite listen_alerts.
      destruct late; [reflexivity | exact (listen_alerts x1)].
    + split; [|destruct late; apply K]. rewrite listen_alerts.
      destruct late; [reflexivity | exact (f_equal (fun l => l ++ ["Sign-out failed"]) (listen_alerts x1))].
Qed.

(** C21: what deleting the account leaves, composed with the service.  The drain of a
    deletion by a signed-in user is over.  Then one of three things has happened, and the
    spinner is released in each.  The cloud save and the account were deleted, in this
    order, nothing of the user is left on the device (or both wipes failed) and nobody or a
    new guest is signed in; an alert is shown only if the reload failed.  Or the cloud save
    was deleted and the account was not: the cloud save is gone, an alert is shown, the
    same account is signed in and the device, with the local save, is as it was.  Or the
    cloud save's deletion failed or timed out: the account's was not tried, an alert is
    shown, the same account is signed in and the device is as it was. *)
Theorem deletion_outcome (os : Platform) (cloud : DeleteEvent) (timedOut reloaded : bool) (x : AuthApp)
    (captured : list nat) :
  waiting captured (account x) -> is_Some (currentUser (sdk (firebase x))) -> reports (firebase x) = [] ->
  let uid := u_uid <$> currentUser (sdk (firebase x)) in
  let x' := handleDeleteAccount_drained os cloud timedOut reloaded x in
  let same := adisk (account x') = adisk (account x)
    /\ same_account (currentUser (sdk (firebase x'))) (currentUser (sdk (firebase x))) in
  a_authLoading (auth (account x')) = false
  /\ (cloud = DeleteResolved
        /\ (calls (account x) ++ [DeleteCloud true uid true; DeleteAuth true true]) `prefix_of` calls (account x')
        /\ alerts (account x') = alerts (account x) ++ (if reloaded then [] else ["Account deleted"])
        /\ wiped (adisk (account x)) (adisk (account x')) /\ no_account (currentUser (sdk (firebase x')))
      \/ cloud = DeleteResolved
         /\ calls (account x') = calls (account x) ++ [DeleteCloud true uid true; DeleteAuth true false; OnAccountChange]
         /\ alerts (account x') = alerts (account x) ++ ["Couldn’t delete account"] /\ same
      \/ cloud <> DeleteResolved
         /\ calls (account x') = calls (account x) ++ [DeleteCloud true uid false; OnAccountChange]
         /\ alerts (account x') = alerts (account x) ++ ["Couldn’t delete account"] /\ same).
Proof.
  intros W S R. cbv zeta. unfold handleDeleteAccount_drained. pose proof (deleteAccount_cases os (firebase x)) as K.
  set (uid := u_uid <$> currentUser (sdk (firebase x))).
  assert (E : forall t a r u, cloud_erased (mkDeleteEnv t uid cloud a r u) = bool_decide (cloud = DeleteResolved))
    by (intros ? ? ? ?; subst uid; destruct S as [us ->]; destruct cloud; reflexivity).
  assert (E' : from_option snd true (deletePlayerData uid cloud) = bool_decide (cloud = DeleteResolved))
    by (rewrite <- (E false false ResetDone None), <- cloud_erased_eq; reflexivity).
  assert (F : forall a r u, let env := mkDeleteEnv false uid cloud a r u in
    let w' := handleDeleteAccount_end env (account x) in
    calls w' = calls (account x) ++ deletion_calls env /\ alerts w' = alerts (account x) ++ deletion_alerts env
    /\ a_authLoading (auth w') = false)
    by (intros a r u; cbv zeta; destruct (deletion_end_effects (mkDeleteEnv false uid cloud a r u) (account x)
          (wa_suspended _ _ W)) as (? & ? & _ & ? & _); auto).
  assert (D : forall a r u, if bool_decide (cloud = DeleteResolved) && a
    then wiped (adisk (account x)) (adisk (handleDeleteAccount_end (mkDeleteEnv false uid cloud a r u) (account x)))
    else adisk (handleDeleteAccount_end (mkDeleteEnv false uid cloud a r u) (account x)) = adisk (account x))
    by (intros a r u; pose proof (deletion_disk (mkDeleteEnv false uid cloud a r u) (account x)) as X;
        rewrite E in X; exact X).
  unfold deletion_calls, deletion_alerts in F. setoid_rewrite E in F. cbn [de_uid de_account de_reset] in F.
  rewrite E'. case_bool_decide as C; [destruct (deleteAccount os (firebase x)) as [r s];
    unfold deleted_or_kept in K; cbn [fst snd] in K; destruct (succeeded r)|].
  - destruct K as (_ & N & L). rewrite R in L. destruct (initialize_follows timedOut s N L) as [F1 F2].
    pose proof (initialize_resolves timedOut s) as I. destruct (initialize timedOut s) as [session s'].
    cbn [fst snd] in *. rewrite I.
    set (reset := if reloaded then ResetDone else ResetNoReload).
    destruct (F true reset (getCurrentUser s')) as (K1 & K2 & K3). specialize (D true reset (getCurrentUser s')).
    split; [rewrite listen_loading; exact K3|]. left. split; [exact C|].
    split; [etransitivity; [|apply listen_calls]; cbn [account assign on_account]; rewrite K1;
      subst reset; destruct reloaded; eexists; rewrite <- ?app_assoc; reflexivity|].
    split; [rewrite listen_alerts; etransitivity; [exact K2|]; subst reset; destruct reloaded; reflexivity|].
    split; [rewrite heard_after_leaving by exact F2; exact D | exact F1].
  - destruct K as [K1 K2]. cbn [fst snd succeeded].
    destruct (F false (if reloaded then ResetDone else ResetNoReload) (getCurrentUser s)) as (L1 & L2 & L3).
    specialize (D false (if reloaded then ResetDone else ResetNoReload) (getCurrentUser s)).
    split; [rewrite listen_loading; exact L3|]. right. left.
    rewrite listen_silent by exact (eq_trans K2 R). split; [exact C|]. split; [exact L1|]. split; [exact L2|].
    split; [exact D | exact K1].
  - cbn [succeeded].
    destruct (F false (if reloaded then ResetDone else ResetNoReload) (getCurrentUser (firebase x))) as (L1 & L2 & L3).
    specialize (D false (if reloaded then ResetDone else ResetNoReload) (getCurrentUser (firebase x))).
    split; [rewrite listen_loading; exact L3|]. right. right.
    rewrite listen_silent by exact R. split; [exact C|]. split; [exact L1|]. split; [exact L2|].
    split; [exact D | reflexivity].
Qed.

End Leaving.

(** ** Concrete inputs *)

(** A small Firebase: the guest's account, and one account that Google credentials lead to.
    [fb_stale] counts how often a deletion still asks for a recent login. *)
Record Fb := mkFb { fb_user : option User; fb_taken : bool; fb_stale : nat }.

Definition fb_guest : User := mkUser "guest" None None true None [].
Definition fb_owner : User := mkUser "owner" (Some "Ada") None false None ["google.com"].

Definition fb_yes {A} (a : A) : Fb -> (AuthError string + A) * Fb := fun s => (inr a, s).

#[local] Instance sample_sdk : AuthSdk := {|
  auth_state := Fb;
  credential := string;
  currentUser := fb_user;
  hasPlayServices := fb_yes tt;
  googleSignIn := fb_yes true;
  getTokens := fb_yes (Some "token");
  googleSignOut := fb_yes tt;
  appleRequest := fb_yes (None, "");
  googleCredential t := t;
  appleCredential t _ := t;
  sdk_signInAnonymously s :=
    (inr tt, match fb_user s with Some u => if u_isAnonymous u then s else mkFb (Some fb_guest) (fb_taken s) 0
                                | None => mkFb (Some fb_guest) (fb_taken s) 0 end);
  sdk_signOut s := (inr tt, mkFb None (fb_taken s) (fb_stale s));
  sdk_signInWithCredential _ s := (inr tt, mkFb (Some fb_owner) (fb_taken s) (fb_stale s));
  sdk_linkWithCredential _ s :=
    match fb_user s with
    | Some u =>
        if fb_taken s then (inl (SdkError "auth/credential-already-in-use" "in use"), s)
        else (inr tt, mkFb (Some (mkUser (u_uid u) None None false None ["google.com"])) false (fb_stale s))
    | None => (inl (SdkError "auth/no-current-user" "no user"), s)
    end;
  sdk_reauthenticate _ s := (inr tt, mkFb (fb_user s) (fb_taken s) (pred (fb_stale s)));
  sdk_delete s :=
    match fb_stale s with
    | O => (inr tt, mkFb None (fb_taken s) 0)
    | S _ => (inl (SdkError "auth/requires-recent-login" "stale"), s)
    end
|}.

Lemma sample_sdk_laws : AuthSdkLaws.
Proof.
  constructor; try (intros s; split; reflexivity); try (intros c s; split; reflexivity); cbn;
    try discriminate; auto.
  - intros [[[uid n e [] p l]|] k n'] _; cbn; eauto.
  - intros c s _. eauto.
  - intros c [[[uid n e a p l]|] [] n']; cbn; intros; try discriminate. auto.
  - intros c [[[uid n e a p l]|] [] n']; cbn; intros; try discriminate; split; reflexivity.
  - intros [o k [|n]]; cbn; [reflexivity | discriminate].
  - intros [o k [|n]]; cbn; [discriminate | split; reflexivity].
Qed.

(** A guest with a save whose Google account exists already. *)
Definition signing_in : @AuthApp sample_sdk durable_storage :=
  mkAuthApp (@auth_launch durable_storage guest_disk) (mkSdk (mkFb (Some fb_guest) true 0) []).

Lemma sign_in_keeps_save_witness :
  exists x', handle_sign_in false (found cloud_save) (sign_in android google) signing_in = Some x'
    /\ stored guest_data 2000 (adisk (account x')) /\ a_authLoading (auth (account x')) = false
    /\ (still_guest signing_in x' fb_guest \/ choice_shown signing_in x' guest_data 2000).
Proof.
  apply (@sign_in_keeps_save sample_sdk sample_sdk_laws durable_storage durable_laws); [|reflexivity].
  constructor; try reflexivity. vm_compute. split; reflexivity.
Defined.

(** An owner whose session is too old to delete the account at once. *)
Definition owner_app : @AuthApp sample_sdk durable_storage :=
  mkAuthApp (@auth_launch durable_storage guest_disk) (mkSdk (mkFb (Some fb_owner) true 1) []).

Lemma sign_out_leaves_witness :
  adisk (account (handleSignOut true owner_app)) = adisk (account owner_app)
  /\ alerts (account (handleSignOut true owner_app)) = [].
Proof.
  split; [|vm_compute; reflexivity].
  apply (@sign_out_leaves sample_sdk sample_sdk_laws durable_storage);
    [exists fb_owner|]; reflexivity.
Defined.

(** The owner, whose session is too old, when the drain is over. *)
Definition leaving_app : @AuthApp sample_sdk durable_storage := on_account handleDeleteAccount_start owner_app.

Lemma deletion_outcome_witness :
  let x' := handleDeleteAccount_drained android DeleteResolved false true leaving_app in
  a_authLoading (auth (account x')) = false /\ alerts (account x') = []
  /\ reports (firebase x') = [] /\ u_uid <$> currentUser (sdk (firebase x')) = Some "guest".
Proof.
  cbv zeta. split; [|vm_compute; auto].
  apply (@deletion_outcome sample_sdk sample_sdk_laws durable_storage durable_laws android DeleteResolved
           false true leaving_app []);
    [exact (delete_start_waiting (account owner_app) eq_refl) | exists fb_owner; reflexivity | reflexivity].
Defined.

(** A guest's save that cannot be read at the wrong moment is lost by signing in: the
    conflict finds no save, clears what is stored and signs in without offering the choice. *)
Theorem unreadable_save_lost :
  let x : @AuthApp sample_sdk memory_storage :=
    mkAuthApp (@auth_launch memory_storage (saved_disk [true] 9000)) (mkSdk (mkFb (Some fb_guest) true 0) []) in
  contents (adisk (account x)) STORAGE_KEYS.PLAYER_DATA <> None
  /\ (x' ← handle_sign_in false unavailable (sign_in android google) x;
      Some (contents (adisk (account x')) STORAGE_KEYS.PLAYER_DATA,
            a_conflictState (auth (account x')), alerts (account x'), calls (account x')))
     = Some (None, None, [], []).
Proof. vm_compute. split; [discriminate | reflexivity]. Qed.
