(* ===== verification/Theme.v ===== *)
(** * The theme and the sun

    [src/hooks/useTheme.tsx] with [resolveThemeName] of [src/constants/theme.ts]: the
    palette follows an explicit choice or, on [auto], the sun where the player was last
    seen.  The restore of the stored preference and the write of a new one are
    asynchronous; each is a pending value that a later event completes.  An event comes
    with the clock and the position [LocationService] has cached. *)
From stdpp Require Import base decidable strings list gmap pretty.
From Stdlib Require Import ZArith QArith Lia.
From S2P Require Import Prelude JsNumber Encounter Location Json Storage PlayerSession.
Local Open Scope Z_scope.

(** ** The preference *)

Inductive ThemeName := night | day.
Inductive ThemePreference := prefer (name : ThemeName) | auto.

#[export] Instance ThemeName_eq_dec : EqDecision ThemeName.
Proof. solve_decision. Defined.
#[export] Instance ThemePreference_eq_dec : EqDecision ThemePreference.
Proof. solve_decision. Defined.

Definition DEFAULT_THEME_NAME : ThemeName := night.
Definition DEFAULT_PREFERENCE : ThemePreference := auto.
Definition SUN_TICK_MS : Z := 60000.
Definition AWAITING_FIX_MS : Z := 3000.
Definition MAX_FAST_POLLS : Z := 10.

Definition preference_string (p : ThemePreference) : string :=
  match p with prefer night => "night" | prefer day => "day" | auto => "auto" end.

(** [saved === 'night' || saved === 'day' || saved === 'auto'] *)
Definition saved_preference (saved : option json) : option ThemePreference :=
  match saved with
  | Some (JStr s) =>
      if decide (s = "night") then Some (prefer night)
      else if decide (s = "day") then Some (prefer day)
      else if decide (s = "auto") then Some auto else None
  | _ => None
  end.

(** [a ?? b] *)
Definition nullish (a b : option json) : option json :=
  match a with None | Some JNull => b | _ => a end.

(** ** The stored settings *)

(** [{ ...o, [key]: v }]: a key that is there keeps its place. *)
Fixpoint put (key : string) (v : json) (o : list (string * json)) : list (string * json) :=
  match o with
  | [] => [(key, v)]
  | (k, w) :: o => if decide (k = key) then (k, v) :: o else (k, w) :: put key v o
  end.

Fixpoint characters (s : string) : list json :=
  match s with
  | EmptyString => []
  | String c s => JStr (String c EmptyString) :: characters s
  end.

(** [...(settings ?? {})]: the entries of an object; an array or a string spreads by index. *)
Definition spread (settings : option json) : list (string * json) :=
  match settings with
  | Some (JObj o) => o
  | Some (JArr l) => imap (fun i v => (pretty (Z.of_nat i), v)) l
  | Some (JStr s) => imap (fun i v => (pretty (Z.of_nat i), v)) (characters s)
  | _ => []
  end.

Definition with_preference (settings : option json) (next : ThemePreference) : json :=
  JObj (put "themePreference" (JStr (preference_string next)) (spread settings)).

Section Theme.
Context `{Trig} `{AsyncStorage}.

Definition resolveThemeName (preference : ThemePreference) (now : Z) (coords : option Location) : ThemeName :=
  match preference with
  | prefer name => name
  | auto =>
      match coords with
      | None => DEFAULT_THEME_NAME
      | Some c => if isDaylight now (latitude c) (longitude c) then day else night
      end
  end.

(** ** The provider *)

(** The states and refs; [live]: a run of the palette effect is in force (and, on [auto],
    its foreground subscription); [timer]: the delay of the timer it armed; [restore]:
    what the mount read found, until it is applied; [writes]: choices whose settings have
    been read and not yet written, oldest first.  The last four fields only record the last
    choice, when the palette was last resolved, whether a choice's read of the settings
    ever failed, and whether the last write of them did. *)
Record Theme := mkTheme {
  preference : ThemePreference;
  themeName : ThemeName;
  userChose : bool;
  hydrated : bool;
  lastCoords : option Location;
  fastPolls : Z;
  live : bool;
  timer : option Z;
  restore : option (option json);
  writes : list (option json * ThemePreference);
  settings : disk;
  chosen : option ThemePreference;
  applied : option Z;
  lostRead : bool;
  lostWrite : bool
}.

#[global] Instance Theme_fields : Fields Theme := fun t =>
  mkTheme (preference t) (themeName t) (userChose t) (hydrated t) (lastCoords t) (fastPolls t) (live t)
    (timer t) (restore t) (writes t) (settings t) (chosen t) (applied t) (lostRead t) (lostWrite t).

Definition applyAndSchedule (now : Z) (cached : option LocationData) (t : Theme) : Theme :=
  let t := t <| timer := None |> in
  let t :=
    match cached with
    | Some l => t <| lastCoords := Some (mkLocation (loc_latitude l) (loc_longitude l)) |>
    | None => t
    end in
  let coords := lastCoords t in
  let t := t <| themeName := resolveThemeName (preference t) now coords |> <| applied := Some now |> in
  match preference t with
  | prefer _ => t
  | auto =>
      let none := bool_decide (coords = None) in
      let t := if none then t <| fastPolls := fastPolls t + 1 |> else t in
      let stillWaitingFast := none && (fastPolls t <=? MAX_FAST_POLLS) in
      t <| timer := Some (if stillWaitingFast then AWAITING_FIX_MS else SUN_TICK_MS) |>
  end.

(** The effect on the preference and on hydration, after the cleanup of its last run. *)
Definition palette_effect (now : Z) (cached : option LocationData) (t : Theme) : Theme :=
  let t := t <| live := false |> <| timer := None |> in
  if negb (hydrated t) && negb (userChose t) then t
  else applyAndSchedule now cached (t <| live := true |> <| fastPolls := 0 |>).

(** A render after [t] became [t']: the effect runs if one of its dependencies changed. *)
Definition commit (now : Z) (cached : option LocationData) (t t' : Theme) : Theme :=
  if bool_decide (preference t = preference t') && Bool.eqb (hydrated t) (hydrated t') then t'
  else palette_effect now cached t'.

(** The first render and the mount effects. *)
Definition mount_theme (now : Z) (cached : option LocationData) (d : disk) : Theme :=
  let (r, d) := loadSettings d in
  palette_effect now cached
    (mkTheme DEFAULT_PREFERENCE DEFAULT_THEME_NAME false false None 0 false None (Some (default None r)) []
       d None None false false).

(** The mount read is done: [then], and [finally]. *)
Definition restored (now : Z) (cached : option LocationData) (t : Theme) : Theme :=
  match restore t with
  | None => t
  | Some s =>
      let saved := saved_preference (nullish (s ≫= fun j => jget j "themePreference") (s ≫= fun j => jget j "themeName")) in
      let t1 := match saved with
                | Some p => if userChose t then t else t <| preference := p |>
                | None => t
                end in
      let t1 := commit now cached t (t1 <| restore := None |>) in
      commit now cached t1 (t1 <| hydrated := true |>)
  end.

Definition setPreference (now : Z) (cached : option LocationData) (next : ThemePreference) (t : Theme) : Theme :=
  let (s, d) := loadSettings (settings t) in
  let t1 := t <| userChose := true |> <| preference := next |> <| settings := d |>
              <| writes := writes t ++ [(default None s, next)] |> <| chosen := Some next |>
              <| lostRead := lostRead t || negb (key_readable STORAGE_KEYS.SETTINGS (settings t)) |> in
  commit now cached t t1.

(** The oldest read of [setPreference] is done and its settings are written. *)
Definition write_settings (t : Theme) : Theme :=
  match writes t with
  | [] => t
  | (s, next) :: rest =>
      let (ok, d) := saveSettings (with_preference s next) (settings t) in
      t <| writes := rest |> <| settings := d |> <| lostWrite := negb (default false ok) |>
  end.

Inductive ThemeEvent :=
  | ThRestored
  | ThTimer
  | ThForeground
  | ThChoose (next : ThemePreference)
  | ThWrite.

Definition theme_step (now : Z) (cached : option LocationData) (ev : ThemeEvent) (t : Theme) : Theme :=
  match ev with
  | ThRestored => restored now cached t
  | ThTimer => if bool_decide (is_Some (timer t)) then applyAndSchedule now cached t else t
  | ThForeground =>
      if live t && bool_decide (preference t = auto) then applyAndSchedule now cached t else t
  | ThChoose next => setPreference now cached next t
  | ThWrite => write_settings t
  end.

Fixpoint theme_run (evs : list (Z * option LocationData * ThemeEvent)) (t : Theme) : Theme :=
  match evs with
  | [] => t
  | (now, cached, ev) :: evs => theme_run evs (theme_step now cached ev t)
  end.

End Theme.

(** ** Lemmas: settings *)

Lemma put_same key v o : assoc key (put key v o) = Some v.
Proof.
  induction o as [|[k w] o IH]; cbn [put]; [apply assoc_eq|].
  destruct (decide (k = key)) as [->|N]; [apply assoc_eq | rewrite assoc_ne by exact N; exact IH].
Qed.

Lemma put_other key key' v o : key' <> key -> assoc key' (put key v o) = assoc key' o.
Proof.
  intros N. induction o as [|[k w] o IH]; cbn [put]; [apply assoc_ne; congruence|].
  destruct (decide (k = key)) as [->|N']; [rewrite !assoc_ne by congruence; reflexivity|].
  destruct (decide (k = key')) as [->|M]; [rewrite !assoc_eq; reflexivity | rewrite !assoc_ne by exact M; exact IH].
Qed.

Lemma saved_round p : saved_preference (Some (JStr (preference_string p))) = Some p.
Proof. destruct p as [[]|]; reflexivity. Qed.

Section Restored.
Context `{Trig} `{AsyncStorageLaws}.

(** The settings on disk; anything unreadable counts as none. *)
Definition stored_settings (d : disk) : option json :=
  match contents d STORAGE_KEYS.SETTINGS with Some (TJson j) => Some j | _ => None end.

Lemma load_reads d :
  default None (fst (loadSettings d))
    = (if key_readable STORAGE_KEYS.SETTINGS d then stored_settings d else None)
  /\ stored_settings (snd (loadSettings d)) = stored_settings d.
Proof.
  unfold loadSettings, try_catch, bind, stored_settings, key_readable.
  pose proof (getItem_cases STORAGE_KEYS.SETTINGS d) as [C S]. unfold getItem, bind, io_get in *.
  destruct (multiGet [STORAGE_KEYS.SETTINGS] d) as [[vs|] d1]; cbn [fst snd] in *;
    [|cbn; rewrite S; split; reflexivity].
  cbn in C, S. destruct C as [C|C]; [|discriminate]. injection C as C. cbn. rewrite C.
  destruct (contents d STORAGE_KEYS.SETTINGS) as [[j|]|] eqn:Q; cbn; rewrite S, Q; auto.
Qed.

Lemma save_stores j d : stored_settings (snd (saveSettings j d))
  = if default false (fst (saveSettings j d)) then Some j else stored_settings d.
Proof.
  unfold saveSettings, save_json, try_catch, bind, stored_settings.
  pose proof (setItem_cases STORAGE_KEYS.SETTINGS (TJson j) d) as C.
  destruct (setItem _ _ d) as [[[]|] d1]; cbn [fst snd default from_option ret] in *.
  - destruct C as [[_ E]|[C _]]; [|discriminate]. cbn. rewrite E, decide_True; reflexivity.
  - destruct C as [[C _]|[_ E]]; [discriminate|]. cbn. rewrite E. reflexivity.
Qed.

(** ** The invariant *)

(** The palette effect is in force and its result is on the screen. *)
Definition in_force (t : Theme) : Prop :=
  (exists at_, applied t = Some at_ /\ themeName t = resolveThemeName (preference t) at_ (lastCoords t))
  /\ match preference t with
     | prefer _ => timer t = None
     | auto => timer t = Some SUN_TICK_MS
         \/ timer t = Some AWAITING_FIX_MS /\ lastCoords t = None /\ fastPolls t <= MAX_FAST_POLLS
     end.

Definition other_keys (f : string -> option json) (s : option json) : Prop :=
  forall key, key <> "themePreference" -> assoc key (spread s) = f key.

(** The choice is the last one waiting to be written, or it is stored, or was refused. *)
Definition choice_kept (t : Theme) : Prop :=
  forall p, chosen t = Some p ->
    preference t = p
    /\ (snd <$> last (writes t) = Some p
        \/ writes t = []
           /\ (lostWrite t = false -> (stored_settings (settings t) ≫= fun j => jget j "themePreference")
                                       = Some (JStr (preference_string p)))).

Record theme_ok (f : string -> option json) (t : Theme) : Prop := {
  th_live : live t = true -> in_force t;
  th_idle : live t = false -> themeName t = DEFAULT_THEME_NAME /\ hydrated t = false /\ timer t = None
              /\ preference t = DEFAULT_PREFERENCE;
  th_chose : userChose t = bool_decide (is_Some (chosen t));
  th_kept : choice_kept t;
  th_others : lostRead t = false -> other_keys f (stored_settings (settings t));
  th_reads : lostRead t = false -> Forall (fun w => other_keys f (fst w)) (writes t);
  th_unread : chosen t = None -> writes t = [];
  th_restore : restore t <> None -> hydrated t = false
}.

Lemma apply_in_force now cached t : in_force (applyAndSchedule now cached t).
Proof.
  unfold applyAndSchedule, in_force.
  destruct cached as [l|]; cbn [preference lastCoords timer assign];
    (destruct (preference t) eqn:P; cbn [preference assign]; rewrite ?P; cbn; rewrite ?P).
  - split; [eauto | reflexivity].
  - split; [eauto | left; reflexivity].
  - split; [eauto | reflexivity].
  - destruct (lastCoords t) as [c|] eqn:L; cbn; rewrite ?P, ?L.
    + split; [eauto | left; reflexivity].
    + split; [eauto|]. destruct (Z.leb_spec (fastPolls t + 1) MAX_FAST_POLLS); [right; auto | left; reflexivity].
Qed.

(** What [applyAndSchedule] leaves alone. *)
Definition same_choice (t t' : Theme) : Prop :=
  preference t' = preference t /\ userChose t' = userChose t /\ hydrated t' = hydrated t
  /\ writes t' = writes t /\ settings t' = settings t /\ chosen t' = chosen t /\ restore t' = restore t
  /\ lostRead t' = lostRead t /\ lostWrite t' = lostWrite t.

Lemma apply_same now cached t :
  same_choice t (applyAndSchedule now cached t) /\ live (applyAndSchedule now cached t) = live t.
Proof.
  unfold applyAndSchedule, same_choice. destruct cached; cbn [preference assign];
    destruct (preference t) eqn:P; cbn; repeat case_match; cbn; auto 14.
Qed.

(** *** Every event keeps it *)

(** Everything of [theme_ok] but the palette. *)
Record choice_ok (f : string -> option json) (t : Theme) : Prop := {
  co_chose : userChose t = bool_decide (is_Some (chosen t));
  co_kept : choice_kept t;
  co_others : lostRead t = false -> other_keys f (stored_settings (settings t));
  co_reads : lostRead t = false -> Forall (fun w => other_keys f (fst w)) (writes t);
  co_unread : chosen t = None -> writes t = [];
  co_restore : restore t <> None -> hydrated t = false
}.

Lemma ok_choice f t : theme_ok f t -> choice_ok f t.
Proof. intros []. constructor; assumption. Qed.

Lemma choice_same f t t' : same_choice t t' -> choice_ok f t -> choice_ok f t'.
Proof.
  intros (P & U & Hy & W & S & C & R & Lr & Lw) [A K O Rd N Rs].
  constructor; unfold choice_kept in *; rewrite ?P, ?U, ?Hy, ?W, ?S, ?C, ?R, ?Lr, ?Lw; assumption.
Qed.

Lemma applied_ok f t : choice_ok f t -> live t = true -> in_force t -> theme_ok f t.
Proof.
  intros [A K O Rd N Rs] L F. constructor; auto. rewrite L. discriminate.
Qed.

Lemma apply_ok f now cached t : live t = true -> theme_ok f t -> theme_ok f (applyAndSchedule now cached t).
Proof.
  intros L K. destruct (apply_same now cached t) as [S E].
  apply applied_ok; [exact (choice_same f t _ S (ok_choice f t K)) | rewrite E; exact L | apply apply_in_force].
Qed.

Lemma effect_same now cached t : same_choice t (palette_effect now cached t).
Proof.
  unfold palette_effect. cbn [hydrated userChose assign]. destruct (negb _ && negb _).
  - unfold same_choice. cbn. auto 14.
  - match goal with |- same_choice _ (applyAndSchedule _ _ ?u) => exact (proj1 (apply_same now cached u)) end.
Qed.

Lemma effect_ok f now cached t : hydrated t || userChose t = true -> choice_ok f t ->
  theme_ok f (palette_effect now cached t).
Proof.
  intros E C. pose proof (choice_same f t _ (effect_same now cached t) C) as C'. revert C'.
  unfold palette_effect. cbn [hydrated userChose assign].
  rewrite <- negb_orb, E. cbn [negb]. intros C'.
  match goal with |- theme_ok f (applyAndSchedule _ _ ?u) => set (u0 := u) in * end.
  apply applied_ok; [exact C' | rewrite (proj2 (apply_same now cached u0)); reflexivity | apply apply_in_force].
Qed.

Lemma commit_same now cached t t' : same_choice t' (commit now cached t t').
Proof. unfold commit. destruct (_ && _); [unfold same_choice; auto 14 | apply effect_same]. Qed.

Lemma choose_ok f now cached p t : theme_ok f t -> theme_ok f (setPreference now cached p t).
Proof.
  intros K. pose proof (load_reads (settings t)) as [L1 L2]. unfold setPreference.
  destruct (loadSettings (settings t)) as [s d]. cbn [fst snd] in *.
  match goal with |- theme_ok f (commit _ _ _ ?u) => set (t1 := u) end.
  assert (C : choice_ok f t1).
  { destruct K as [_ _ A B O R N Rs]. constructor; cbn.
    - reflexivity.
    - intros q [= <-]. split; [reflexivity|]. left. cbn. rewrite last_snoc. reflexivity.
    - intros [X _]%orb_false_iff. rewrite L2. exact (O X).
    - intros [X Y%negb_false_iff]%orb_false_iff. apply Forall_app. split; [exact (R X)|].
      apply Forall_singleton. cbn. rewrite L1, Y. exact (O X).
    - discriminate.
    - exact Rs. }
  unfold commit. case_bool_decide as P; cbn [andb]; [|apply effect_ok; [apply orb_true_r | exact C]].
  destruct (Bool.eqb _ _); [|apply effect_ok; [apply orb_true_r | exact C]].
  destruct (live t) eqn:L; [|destruct K as [_ I _ _ _ _ _ _]; destruct C; constructor; auto].
  - apply applied_ok; [exact C | exact L|]. destruct K as [F _ _ _ _ _ _ _]. specialize (F L).
    unfold in_force in *. cbn in P |- *. rewrite <- P. exact F.
  - cbn. congruence.
  - intros _. destruct (I L) as (I1 & I2 & I3 & I4). cbn in P |- *. rewrite <- P. auto.
Qed.

Lemma restored_ok f now cached t : theme_ok f t -> theme_ok f (restored now cached t).
Proof.
  intros K. unfold restored. destruct (restore t) as [s|] eqn:R; [|exact K].
  set (saved := saved_preference _). cbv zeta.
  set (u := match saved with Some p => if userChose t then t else t <| preference := p |> | None => t end).
  assert (Hy : hydrated t = false) by (apply (th_restore f t K); congruence).
  assert (U : choice_ok f (u <| restore := None |>) /\ hydrated u = false).
  { apply ok_choice in K. destruct K as [A B O Rd N Rs].
    subst u. destruct saved as [p|]; [destruct (userChose t) eqn:Uc|];
      (split; [constructor; cbn; auto; try congruence | exact Hy]).
    intros q Q. cbn in Q. rewrite Q, bool_decide_true in A by eauto. discriminate. }
  destruct U as [U Hu].
  match goal with |- theme_ok f (commit _ _ ?a _) =>
    assert (S : same_choice (u <| restore := None |>) a) by apply commit_same;
    revert S; generalize a; intros t1 S end.
  apply (choice_same f _ _ S) in U. destruct S as (_ & _ & S3 & _ & _ & _ & S7 & _). cbn in S3, S7.
  unfold commit at 1. cbn [preference hydrated assign]. rewrite bool_decide_true by reflexivity.
  rewrite S3, Hu. cbn [andb Bool.eqb]. apply effect_ok; [reflexivity|].
  destruct U as [A B O Rd N Rs]. constructor; cbn; auto. rewrite S7. congruence.
Qed.

Lemma write_ok f t : theme_ok f t -> theme_ok f (write_settings t).
Proof.
  intros K. unfold write_settings. destruct (writes t) as [|[s p] rest] eqn:W; [exact K|].
  pose proof (save_stores (with_preference s p) (settings t)) as S.
  destruct (saveSettings _ (settings t)) as [ok d]. cbn [fst snd] in S.
  destruct K as [F I A B O R N Rs]. rewrite W in R.
  constructor; cbn; auto.
  - intros q Q. destruct (B q Q) as [P X]. split; [exact P|]. cbn. rewrite W in X.
    destruct X as [X|[X _]]; [|discriminate]. destruct rest as [|w rest]; [right | left; exact X].
    split; [reflexivity|]. intros Ok%negb_false_iff. injection X as ->. rewrite S, Ok. cbn. apply put_same.
  - intros Lr. specialize (R Lr). apply Forall_cons in R as [R1 _]. rewrite S.
    destruct (default false ok); [|exact (O Lr)]. intros key Nk.
    cbn [with_preference spread]. rewrite put_other by exact Nk. apply R1, Nk.
  - intros Lr. specialize (R Lr). apply Forall_cons in R as [_ R2]. exact R2.
  - intros Q. rewrite (N Q) in W. discriminate.
Qed.

Lemma step_ok f now cached ev t : theme_ok f t -> theme_ok f (theme_step now cached ev t).
Proof.
  intros K. destruct ev as [| | |p|]; cbn [theme_step].
  - apply restored_ok, K.
  - case_bool_decide as T; [|exact K]. apply apply_ok; [|exact K].
    destruct (live t) eqn:L; [reflexivity|]. destruct (th_idle f t K L) as (_ & _ & E & _).
    rewrite E in T. destruct T as [? [=]].
  - destruct (live t) eqn:L; cbn [andb]; [|exact K]. case_bool_decide; [apply apply_ok; assumption | exact K].
  - apply choose_ok, K.
  - apply write_ok, K.
Qed.

Lemma theme_run_ok f evs t : theme_ok f t -> theme_ok f (theme_run evs t).
Proof.
  revert t. induction evs as [|[[now cached] ev] evs IH]; intros t K; [exact K | apply IH, step_ok, K].
Qed.

Lemma mount_ok now cached d :
  theme_ok (fun key => assoc key (spread (stored_settings d))) (mount_theme now cached d).
Proof.
  unfold mount_theme. pose proof (load_reads d) as [_ L]. destruct (loadSettings d) as [r d']. cbn [snd] in L.
  unfold palette_effect. cbn. constructor; cbn; auto; try discriminate.
  intros _ key _. rewrite L. reflexivity.
Qed.

(** *** Positions and polls *)

(** A property of the last position and the polls that every resolution keeps is kept
    by every event. *)
Section Kept.
Variable (Q : option Location -> Z -> Prop).
Hypothesis (reset_polls : forall c n, Q c n -> Q c 0).
Hypothesis (next_poll : forall c n, Q c n -> Q c (n + 1)).
Hypothesis (next_fix : forall c n l, Q c n -> Q (Some l) n).

Lemma apply_keeps now cached t : Q (lastCoords t) (fastPolls t) ->
  Q (lastCoords (applyAndSchedule now cached t)) (fastPolls (applyAndSchedule now cached t)).
Proof.
  intros E. unfold applyAndSchedule. destruct cached; cbn [preference assign];
    destruct (preference t); cbn; eauto. destruct (bool_decide _); cbn; eauto.
Qed.

Lemma commit_keeps now cached t t' : Q (lastCoords t') (fastPolls t') ->
  Q (lastCoords (commit now cached t t')) (fastPolls (commit now cached t t')).
Proof.
  intros E. unfold commit, palette_effect. destruct (_ && _); [exact E|].
  cbv zeta. destruct (negb _ && negb _); [exact E | apply apply_keeps; cbn; eauto].
Qed.

Lemma step_keeps now cached ev t : Q (lastCoords t) (fastPolls t) ->
  Q (lastCoords (theme_step now cached ev t)) (fastPolls (theme_step now cached ev t)).
Proof.
  intros E. destruct ev as [| | |p|]; cbn [theme_step].
  - unfold restored. destruct (restore t); [|exact E]. cbv zeta. apply commit_keeps.
    cbn [lastCoords fastPolls assign]. apply commit_keeps. cbn. repeat case_match; exact E.
  - case_bool_decide; [apply apply_keeps|]; exact E.
  - destruct (_ && _); [apply apply_keeps|]; exact E.
  - unfold setPreference. destruct (loadSettings _). apply commit_keeps, E.
  - unfold write_settings. destruct (writes t) as [|[]]; [exact E|]. destruct (saveSettings _ _). exact E.
Qed.

Lemma run_keeps evs t : Q (lastCoords t) (fastPolls t) ->
  Q (lastCoords (theme_run evs t)) (fastPolls (theme_run evs t)).
Proof.
  revert t. induction evs as [|[[now cached] ev] evs IH]; intros t E; [exact E | apply IH, step_keeps, E].
Qed.

End Kept.

Lemma coords_kept evs t : is_Some (lastCoords t) -> is_Some (lastCoords (theme_run evs t)).
Proof. apply (run_keeps (fun c _ => is_Some c)); eauto. Qed.

Lemma polls_counted now cached d evs : 0 <= fastPolls (theme_run evs (mount_theme now cached d)).
Proof.
  apply (run_keeps (fun _ n => 0 <= n)); try (intros; lia).
  unfold mount_theme. destruct (loadSettings d). cbn. lia.
Qed.

(** Polls with no fix in sight. *)
Lemma blind_polls times t : preference t = auto -> is_Some (timer t) -> lastCoords t = None ->
  0 <= fastPolls t ->
  let t' := theme_run ((fun now => (now, None, ThTimer)) <$> times) t in
  preference t' = auto /\ is_Some (timer t') /\ lastCoords t' = None
  /\ fastPolls t' = fastPolls t + Z.of_nat (length times)
  /\ (times <> [] -> timer t' = Some (if fastPolls t' <=? MAX_FAST_POLLS then AWAITING_FIX_MS else SUN_TICK_MS)).
Proof.
  revert t. induction times as [|now times IH]; intros t P T C F; cbn [fmap list_fmap theme_run].
  - cbn. rewrite Z.add_0_r. repeat (split; [assumption || reflexivity|]). congruence.
  - cbn [theme_step]. rewrite bool_decide_true by exact T.
    set (u := applyAndSchedule now None t).
    assert (E : preference u = auto /\ lastCoords u = None /\ fastPolls u = fastPolls t + 1
      /\ timer u = Some (if fastPolls u <=? MAX_FAST_POLLS then AWAITING_FIX_MS else SUN_TICK_MS)).
    { subst u. unfold applyAndSchedule. cbn [preference assign]. rewrite P. cbn. rewrite C. cbn. auto. }
    destruct E as (E1 & E2 & E3 & E4). destruct (IH u E1 ltac:(rewrite E4; eauto) E2 ltac:(lia)) as (A & B & D & G & W).
    split; [exact A|]. split; [exact B|]. split; [exact D|]. split; [rewrite G, E3; cbn [length]; lia|].
    intros _. destruct times as [|x times]; [exact E4 | apply W; discriminate].
Qed.

Lemma restored_applies now cached t s p : restore t = Some s -> userChose t = false ->
  saved_preference (nullish (s ≫= fun j => jget j "themePreference") (s ≫= fun j => jget j "themeName")) = Some p ->
  preference (restored now cached t) = p /\ hydrated (restored now cached t) = true.
Proof.
  intros R U S. unfold restored. rewrite R, S, U. cbv zeta. split.
  - refine (eq_trans (proj1 (commit_same now cached _ _)) _). cbn [preference assign].
    exact (proj1 (commit_same now cached _ _)).
  - exact (proj1 (proj2 (proj2 (commit_same now cached _ _)))).
Qed.

(** ** Properties *)

(** The palette is the one chosen, or the sun's.  Once the stored preference has been
    read, in whatever order choices, timers, foregrounds and position updates come: an
    explicit choice is on the screen and nothing polls; on [auto] the palette is the
    sun's at the last resolution, where the player was last seen, and a timer is armed,
    a fast one only while no position was ever seen and at most ten times.  A position
    once seen is never forgotten, so a cleared cache does not turn day to night; and with
    no position at all more than ten further polls end the fast ones. *)
Theorem theme_follows (now : Z) (cached : option LocationData) (d : disk)
    (evs later : list (Z * option LocationData * ThemeEvent)) :
  let t := theme_run evs (mount_theme now cached d) in
  hydrated t = true ->
  (exists at_, applied t = Some at_ /\ themeName t = resolveThemeName (preference t) at_ (lastCoords t))
  /\ (preference t <> auto -> timer t = None)
  /\ (preference t = auto -> timer t = Some SUN_TICK_MS
      \/ timer t = Some AWAITING_FIX_MS /\ lastCoords t = None /\ fastPolls t <= MAX_FAST_POLLS)
  /\ (is_Some (lastCoords t) -> is_Some (lastCoords (theme_run later t)))
  /\ forall times, preference t = auto -> lastCoords t = None -> (10 < length times)%nat ->
       timer (theme_run ((fun now => (now, None, ThTimer)) <$> times) t) = Some SUN_TICK_MS.
Proof.
  intros t Hy. pose proof (theme_run_ok _ evs _ (mount_ok now cached d)) as K. fold t in K.
  assert (L : live t = true).
  { destruct (live t) eqn:L; [reflexivity|]. destruct (th_idle _ t K L) as (_ & E & _). congruence. }
  destruct (th_live _ t K L) as [A B]. split; [exact A|].
  split; [destruct (preference t); [auto | congruence]|]. split; [intros E; rewrite E in B; exact B|]. split.
  - apply coords_kept.
  - intros times P C N. rewrite P in B. pose proof (polls_counted now cached d evs) as F. fold t in F.
    assert (T : is_Some (timer t)) by (destruct B as [-> | [-> _]]; eauto).
    destruct (blind_polls times t P T C F) as (_ & _ & _ & G & W).
    rewrite W by (intros ->; cbn in N; lia). rewrite G.
    destruct (Z.leb_spec (fastPolls t + Z.of_nat (length times)) MAX_FAST_POLLS); [unfold MAX_FAST_POLLS in *; lia | reflexivity].
Qed.

(** A choice is kept.  The player's choice wins over a stored preference that is still
    being read, whenever that read completes; when the writes are through and the last one
    succeeded, what is stored is the last choice, and the next launch that can read it
    restores it.  Every other setting is as it was, unless a choice failed to read the
    settings it then wrote back. *)
Theorem theme_choice_kept (now : Z) (cached : option LocationData) (d : disk)
    (evs : list (Z * option LocationData * ThemeEvent)) (p : ThemePreference) (now' : Z) (cached' : option LocationData) :
  let t := theme_run evs (mount_theme now cached d) in
  chosen t = Some p ->
  preference t = p
  /\ (lostRead t = false -> forall key, key <> "themePreference" ->
        assoc key (spread (stored_settings (settings t))) = assoc key (spread (stored_settings d)))
  /\ (writes t = [] -> lostWrite t = false -> key_readable STORAGE_KEYS.SETTINGS (settings t) = true ->
      let t' := restored now' cached' (mount_theme now' cached' (settings t)) in
      preference t' = p /\ hydrated t' = true).
Proof.
  intros t C. pose proof (theme_run_ok _ evs _ (mount_ok now cached d)) as K. fold t in K.
  destruct (th_kept _ t K p C) as [P W]. split; [exact P|]. split; [apply (th_others _ t K)|].
  intros E Lw Rd. destruct W as [W | [_ W]]; [rewrite E in W; discriminate|]. specialize (W Lw).
  unfold mount_theme. pose proof (load_reads (settings t)) as [L1 _].
  destruct (loadSettings (settings t)) as [r d']. cbn [fst] in L1. cbv zeta.
  apply (restored_applies now' cached' _ (default None r)); [reflexivity | reflexivity|].
  rewrite L1, Rd, W. apply saved_round.
Qed.

End Restored.

(** ** Concrete inputs *)

Definition at_place (lat : Q) : option LocationData := Some (mkLocationData lat 0 5 None None 0 0).

(** A returning player, whose choice is overridden before it is read back. *)
Definition night_owl : @disk durable_storage :=
  {[ STORAGE_KEYS.SETTINGS := TJson (JObj [("themeName", JStr "night"); ("volume", JNum 3)]) ]}.

Definition a_morning : list (Z * option LocationData * ThemeEvent) :=
  [(1, None, ThChoose (prefer day)); (2, None, ThChoose auto); (3, None, ThRestored); (4, at_place 50, ThTimer);
   (5, None, ThForeground); (6, None, ThWrite); (7, None, ThWrite)].

Definition awake : @Theme durable_storage :=
  @theme_run flat_trig durable_storage a_morning (@mount_theme flat_trig durable_storage 0 None night_owl).

Lemma theme_follows_witness :
  hydrated awake = true /\ lastCoords awake = Some (mkLocation 50 0) /\ timer awake = Some SUN_TICK_MS
  /\ (is_Some (lastCoords awake) -> is_Some (lastCoords (@theme_run flat_trig durable_storage a_morning awake))).
Proof.
  split; [reflexivity|]. split; [reflexivity|]. split; [reflexivity|].
  apply (@theme_follows flat_trig durable_storage durable_laws 0 None night_owl a_morning a_morning).
  reflexivity.
Defined.

Lemma theme_choice_kept_witness :
  chosen awake = Some auto /\ preference awake = auto
  /\ assoc "volume" (spread (stored_settings (settings awake))) = Some (JNum 3).
Proof.
  pose proof (@theme_choice_kept flat_trig durable_storage durable_laws 0 None night_owl a_morning auto 9 None
                eq_refl) as (A & B & _).
  split; [reflexivity|]. split; [exact A|]. exact (B eq_refl "volume" ltac:(discriminate)).
Defined.

(** Choosing [auto] while the preference is still being read changes no dependency of the
    palette effect, so it is not applied until the read is done. *)
Theorem early_auto_waits :
  let t := @theme_run flat_trig durable_storage [(1, at_place 50, ThChoose auto)]
             (@mount_theme flat_trig durable_storage 0 None night_owl) in
  userChose t = true /\ applied t = None /\ lastCoords t = None.
Proof. repeat split. Qed.
