(* ===== verification/Readout.v ===== *)
(** * The encounter readout

    The displayed half of [src/hooks/useEncounter.ts]: the chance of an encounter, the
    chance of the last one, whether the time constraint blocks, the countdown, and the
    debug bypass, with the effects and the one-second interval that refresh them.  The
    gate of [EncounterFlow] is repeated with its calls on the readout, and
    [gate_with_readout_erases] says that nothing else was changed. *)
From stdpp Require Import base decidable strings list gmap.
From Stdlib Require Import ZArith QArith Lia Lqa.
From S2P Require Import Prelude JsNumber Random Combat Creature Config Player AutoCombat Encounter.
From S2P Require Import Location Json Storage CombatSession SessionInvariant EncounterFlow GameStep.
Local Open Scope Z_scope.

Record Readout := mkReadout {
  encounterChance : Q;
  lastEncounterChance : option Q;
  isTimeBlocking : bool;
  timeRemaining : Z;
  bypassTimeConstraint : bool
}.

#[export] Instance Readout_fields : Fields Readout := fun r =>
  mkReadout (encounterChance r) (lastEncounterChance r) (isTimeBlocking r) (timeRemaining r)
    (bypassTimeConstraint r).

Definition initial_readout : Readout := mkReadout 0 None false 0 false.

(** [setIsTimeBlocking] and [setTimeRemaining] from the service. *)
Definition read_time (svc : EncounterService) (now : Z) (r : Readout) : Readout :=
  r <| isTimeBlocking := isTimeConstraintBlocking svc now |>
    <| timeRemaining := getTimeRemainingUntilEncounter svc now |>.

Definition show_chance (svc : EncounterService) (r : Readout) : Readout :=
  r <| encounterChance := getDistanceBasedProbability svc |>.

(** The effect on the bypass. *)
Definition bypass_effect (now : Z) (svc : EncounterService) (r : Readout) : EncounterService * Readout :=
  let svc := Encounter.setBypassTimeConstraint svc (bypassTimeConstraint r) in (svc, read_time svc now r).

(** The mount effects, in order; both see the initial bypass, and the one that was read
    takes effect in the next render. *)
Definition mount_readout (now : Z) (svc : EncounterService) : EncounterService * Readout :=
  let r := read_time svc now (show_chance svc initial_readout) in
  let bypass := Encounter.bypassTimeConstraint svc in
  let (svc, r) := bypass_effect now svc r in
  if bypass then bypass_effect now svc (r <| bypassTimeConstraint := true |>) else (svc, r).

Definition setBypassTimeConstraint (now : Z) (bypass : bool) (svc : EncounterService) (r : Readout)
    : EncounterService * Readout :=
  if Bool.eqb (bypassTimeConstraint r) bypass then (svc, r)
  else bypass_effect now svc (r <| bypassTimeConstraint := bypass |>).

(** [updateTimeRemaining]: the interval runs while the block is shown. *)
Definition updateTimeRemaining (now : Z) (svc : EncounterService) (r : Readout) : Readout :=
  if isTimeBlocking r then read_time svc now r else r.

Section Gate.
Context `{Trig} `{AsyncStorage}.

(** The gate; [later] is the clock when the encounter has been routed. *)
Definition gate_with_readout (env : GateEnv) (later : Z) (distanceData : DistanceData)
    (currentPlayer : option Player) (a : App) (r : Readout) : Rand (App * Readout) :=
  match encounterRef (session a) with
  | Some _ =>
      let! a := onDistanceEncounterUpdate env distanceData currentPlayer a in rand_ret (a, r)
  | None =>
      let location := dd_location distanceData in
      let probabilityThatWillBeUsed :=
        getProbabilityAfterIncremental (service a) (ge_now env) (dd_incremental distanceData) in
      let refresh a := rand_ret (a, read_time (service a) later (show_chance (service a) r)) in
      match currentPlayer with
      | None => refresh a
      | Some p =>
          let! x := processDistanceUpdate (service a) (ge_now env) (ge_now' env)
                      (Some (dd_incremental distanceData))
                      (Some (mkLocation (loc_latitude location) (loc_longitude location))) (p_level p) in
          let (svc, result) := x in
          let a := a <| service := svc |> in
          match result with
          | Generated encounter _ =>
              let! a := route_encounter env encounter a in
              rand_ret (a, read_time (service a) later
                (r <| encounterChance := 0%Q |> <| lastEncounterChance := Some probabilityThatWillBeUsed |>))
          | NoEncounter => refresh a
          | Throws => rand_ret (a, r)
          end
      end
  end.

(** [forceEncounter] of the hook. *)
Definition force_with_readout (now : Z) (a : App) (r : Readout) : Rand (App * Readout) :=
  let! a := EncounterFlow.forceEncounter now a in
  rand_ret (a, read_time (service a) now (r <| encounterChance := 0%Q |>)).

(** The gate with the readout is the gate. *)
Lemma gate_with_readout_erases env later dd cp a r g :
  fst (fst (gate_with_readout env later dd cp a r g)) = fst (onDistanceEncounterUpdate env dd cp a g)
  /\ snd (gate_with_readout env later dd cp a r g) = snd (onDistanceEncounterUpdate env dd cp a g).
Proof.
  unfold gate_with_readout. destruct (encounterRef (session a)) eqn:E.
  - unfold rand_bind. destruct (onDistanceEncounterUpdate env dd cp a g). split; reflexivity.
  - unfold onDistanceEncounterUpdate. rewrite E. destruct cp as [p|]; [|split; reflexivity].
    unfold rand_bind. destruct (processDistanceUpdate _ _ _ _ _ _ g) as [[svc [|e n|]] g1];
      [split; reflexivity | | split; reflexivity].
    destruct (route_encounter env e _ g1). split; reflexivity.
Qed.

End Gate.

(** ** Lemmas *)

(** What is shown is what the service would answer: the chance exactly, and no block is
    hidden at any time from [clock] on. *)
Record truthful (svc : EncounterService) (r : Readout) (clock : Z) : Prop := {
  tr_chance : encounterChance r = getDistanceBasedProbability svc;
  tr_bypass : bypassTimeConstraint r = Encounter.bypassTimeConstraint svc;
  tr_block : forall now, clock <= now -> isTimeConstraintBlocking svc now = true -> isTimeBlocking r = true;
  tr_min : (0 < minEncounterDistance svc)%Q
}.

(** A block only ever ends. *)
Lemma block_ends svc now now' : now <= now' ->
  isTimeConstraintBlocking svc now' = true -> isTimeConstraintBlocking svc now = true.
Proof.
  unfold isTimeConstraintBlocking, time_too_short, timeSinceLastEncounter. intros L.
  destruct (Encounter.bypassTimeConstraint svc); [auto|].
  destruct (lastEncounterTime svc) as [t|]; [|auto]. destruct (t =? 0); [auto|].
  cbn. rewrite !Z.ltb_lt. lia.
Qed.

(** Reading the time makes the block true from then on. *)
Lemma read_block svc now r : forall now', now <= now' -> isTimeConstraintBlocking svc now' = true ->
  isTimeBlocking (read_time svc now r) = true.
Proof. intros now' L B. exact (block_ends svc now now' L B). Qed.

Lemma refreshed svc r now : bypassTimeConstraint r = Encounter.bypassTimeConstraint svc ->
  (0 < minEncounterDistance svc)%Q -> truthful svc (read_time svc now (show_chance svc r)) now.
Proof. intros B M. constructor; [reflexivity | exact B | apply read_block | exact M]. Qed.

Lemma reset_chance svc : (0 < minEncounterDistance svc)%Q -> distanceSinceLastEncounter svc = 0%Q ->
  getDistanceBasedProbability svc = 0%Q.
Proof.
  intros M D. unfold getDistanceBasedProbability. rewrite D.
  destruct (js_ltP 0 (minEncounterDistance svc)); [reflexivity | contradiction].
Qed.

(** The readout after an encounter has restarted the tracking. *)
Lemma restarted svc now' later r c : bypassTimeConstraint r = Encounter.bypassTimeConstraint svc ->
  (0 < minEncounterDistance svc)%Q ->
  let svc' := set_tracking svc 0 (Some now') in
  truthful svc' (read_time svc' later (r <| encounterChance := 0%Q |> <| lastEncounterChance := c |>)) later.
Proof.
  intros B M svc'. constructor; [|exact B | apply read_block | exact M].
  symmetry. apply reset_chance; [exact M | reflexivity].
Qed.

Lemma truthful_later svc r clock clock' : clock <= clock' -> truthful svc r clock -> truthful svc r clock'.
Proof. intros L [C B K M]. constructor; auto. intros now Ln. apply K. lia. Qed.

Lemma bypassed svc r now : encounterChance r = getDistanceBasedProbability svc -> (0 < minEncounterDistance svc)%Q ->
  let x := bypass_effect now svc r in truthful (fst x) (snd x) now.
Proof. intros C M x. constructor; [exact C | reflexivity | apply read_block | exact M]. Qed.

Lemma mounted svc now : (0 < minEncounterDistance svc)%Q ->
  truthful (fst (mount_readout now svc)) (snd (mount_readout now svc)) now.
Proof.
  intros M. unfold mount_readout. cbv zeta.
  pose proof (bypassed svc (read_time svc now (show_chance svc initial_readout)) now eq_refl M) as K.
  destruct (bypass_effect now svc _) as [svc1 r1]. destruct (Encounter.bypassTimeConstraint svc); [|exact K].
  apply bypassed; [exact (tr_chance _ _ _ K) | exact (tr_min _ _ _ K)].
Qed.

Lemma toggled svc r clock now b : truthful svc r clock -> clock <= now ->
  let x := setBypassTimeConstraint now b svc r in
  truthful (fst x) (snd x) now /\ lastEncounterChance (snd x) = lastEncounterChance r.
Proof.
  intros T C x. subst x. unfold setBypassTimeConstraint. destruct (Bool.eqb _ _).
  - split; [exact (truthful_later _ _ _ _ C T) | reflexivity].
  - split; [|reflexivity]. apply bypassed; [exact (tr_chance _ _ _ T) | exact (tr_min _ _ _ T)].
Qed.

Section Truth.
Context `{Trig} `{AsyncStorageLaws}.

Inductive ReadEvent :=
  | RDistance (env : GateEnv) (later : Z) (distanceData : DistanceData)
  | RForce (now : Z)
  | RTick (now : Z)
  | RBypass (now : Z) (bypass : bool).

Definition event_clock (ev : ReadEvent) : Z :=
  match ev with RDistance _ later _ => later | RForce now | RTick now | RBypass now _ => now end.

Definition readout_step (ev : ReadEvent) (a : App) (r : Readout) : Rand (App * Readout) :=
  match ev with
  | RDistance env later dd => gate_with_readout env later dd (playerRef (session a)) a r
  | RForce now => force_with_readout now a r
  | RTick now => rand_ret (a, updateTimeRemaining now (service a) r)
  | RBypass now bypass =>
      let (svc, r) := setBypassTimeConstraint now bypass (service a) r in rand_ret (a <| service := svc |>, r)
  end.

(** The chance a step reports is the one its roll uses. *)
Definition reported (ev : ReadEvent) (a : App) (r r' : Readout) : Prop :=
  lastEncounterChance r' = lastEncounterChance r
  \/ exists env later dd, ev = RDistance env later dd
       /\ lastEncounterChance r' = Some (getProbabilityAfterIncremental (service a) (ge_now env) (dd_incremental dd)).

Lemma gate_truthful env later dd a r clock :
  session_ok (session a) -> level_ok (playerRef (session a)) -> truthful (service a) r clock -> clock <= later ->
  rand_post (gate_with_readout env later dd (playerRef (session a)) a r) (fun x =>
    truthful (service (fst x)) (snd x) later /\ reported (RDistance env later dd) a r (snd x)).
Proof.
  intros K L T C. unfold gate_with_readout, reported. destruct T as [T1 T2 T3 T4].
  destruct (encounterRef (session a)) as [enc|] eqn:E.
  - unfold onDistanceEncounterUpdate. rewrite E. eapply rand_post_bind with (P := fun a' => service a' = service a).
    + apply rand_post_ret. destruct (too_far _ _ _); reflexivity.
    + intros a' Ha. apply rand_post_ret. cbn [fst snd]. rewrite Ha.
      split; [|left; reflexivity]. apply (truthful_later _ _ clock later C). constructor; assumption.
  - destruct (playerRef (session a)) as [p|] eqn:P; [|apply rand_post_ret; split; [apply refreshed; assumption | left; reflexivity]].
    rand_step process_gated_spec x Hx. destruct x as [svc [|e n|]]; cbv beta iota zeta in Hx; [| |contradiction].
    + subst svc. apply rand_post_ret. split; [apply refreshed; assumption | left; reflexivity].
    + destruct Hx as (_ & _ & -> & _ & F).
      eapply rand_post_bind.
      * apply (route_disposed env e (a <| service := set_tracking (service a) 0 (Some (ge_now' env)) |>) p); auto.
        apply (fresh_creature_ok _ _ _ _ F), (L p), eq_refl.
      * intros a' (_ & S & _). apply rand_post_ret. cbn [fst snd]. rewrite S. cbn [service assign].
        split; [apply restarted; assumption|].
        right. eexists _, _, _. split; reflexivity.
Qed.

Lemma force_truthful now a r clock : truthful (service a) r clock ->
  rand_post (force_with_readout now a r) (fun x => truthful (service (fst x)) (snd x) now
    /\ lastEncounterChance (snd x) = lastEncounterChance r).
Proof.
  intros [T1 T2 T3 T4]. unfold force_with_readout, EncounterFlow.forceEncounter.
  destruct (debugEncounterContext a) as [loc l]. unfold with_forced, Encounter.forceEncounter, generateEncounter.
  eapply rand_post_bind with (P := fun a' => service a' = set_tracking (service a) 0 (Some now)).
  - eapply rand_post_bind with (P := fun x => fst x = set_tracking (service a) 0 (Some now)).
    + rand_step createRandomEncounter_fresh o Ho. destruct Ho as (e & -> & _). apply rand_post_ret. reflexivity.
    + intros [svc [e|]] Hs; apply rand_post_ret; exact Hs.
  - intros a' S. apply rand_post_ret. split; [|reflexivity]. cbn [fst snd]. rewrite S.
    constructor; [|exact T2 | apply read_block | exact T4].
    symmetry. apply reset_chance; [exact T4 | reflexivity].
Qed.

(** ** Properties *)

(** The readout tells the truth.  From mount on and after every event (distance
    updates with whatever they trigger, forced encounters, ticks of the countdown,
    toggles of the bypass), the chance shown is the one the service holds, a time block
    is never hidden, now or later, and the chance recorded for an encounter is the one
    its roll was made with; a tick shows exactly whether the time constraint blocks. *)
Theorem readout_truthful (svc : EncounterService) (start : Z) (ev : ReadEvent) (a : App) (r : Readout) (clock : Z) :
  (0 < minEncounterDistance svc)%Q ->
  session_ok (session a) -> level_ok (playerRef (session a)) ->
  truthful (service a) r clock -> clock <= event_clock ev ->
  truthful (fst (mount_readout start svc)) (snd (mount_readout start svc)) start
  /\ rand_post (readout_step ev a r) (fun x =>
       truthful (service (fst x)) (snd x) (event_clock ev)
       /\ reported ev a r (snd x)
       /\ forall now, ev = RTick now -> isTimeBlocking (snd x) = isTimeConstraintBlocking (service (fst x)) now).
Proof.
  intros M K L T C. split; [apply mounted, M|].
  destruct ev as [env later dd|now|now|now b]; cbn [readout_step event_clock] in *.
  - eapply rand_post_weaken; [exact (gate_truthful env later dd a r clock K L T C)|].
    intros x [A B]. split; [exact A|]. split; [exact B | discriminate].
  - eapply rand_post_weaken; [exact (force_truthful now a r clock T)|].
    intros x [A B]. split; [exact A|]. split; [left; exact B | discriminate].
  - apply rand_post_ret. cbn [fst snd]. unfold updateTimeRemaining.
    destruct T as [T1 T2 T3 T4]. destruct (isTimeBlocking r) eqn:S.
    + split; [constructor; [exact T1 | exact T2 | apply read_block | exact T4]|].
      split; [left; reflexivity | intros ? [= <-]; reflexivity].
    + split; [constructor; auto; intros n Ln B; rewrite S; apply (T3 n); [lia | exact B]|].
      split; [left; reflexivity|]. intros ? [= <-]. rewrite S.
      destruct (isTimeConstraintBlocking (service a) now) eqn:B; [|reflexivity]. exact (T3 now C B).
  - pose proof (toggled (service a) r clock now b T C) as X.
    destruct (setBypassTimeConstraint now b (service a) r) as [svc' r']. destruct X as [X Y].
    apply rand_post_ret. split; [exact X|]. split; [left; exact Y | discriminate].
Qed.

End Truth.

(** ** Concrete inputs *)

Lemma readout_truthful_witness :
  let a := @fresh_app [] in
  let r := snd (mount_readout 0 new_EncounterService) in
  truthful (fst (mount_readout 7 new_EncounterService)) (snd (mount_readout 7 new_EncounterService)) 7
  /\ rand_post (@readout_step sample_trig _ (RDistance (env0 false true) 1700000200000 one_step) a r) (fun x =>
       truthful (service (fst x)) (snd x) 1700000200000
       /\ reported (RDistance (env0 false true) 1700000200000 one_step) a r (snd x)
       /\ forall now, RDistance (env0 false true) 1700000200000 one_step = RTick now ->
            isTimeBlocking (snd x) = isTimeConstraintBlocking (service (fst x)) now).
Proof.
  cbv zeta.
  apply (@readout_truthful sample_trig memory_storage _ new_EncounterService 7
           (RDistance (env0 false true) 1700000200000 one_step) (fresh_app []) _ 0).
  - reflexivity.
  - apply app0_ok.
  - intros p [= <-]. vm_compute. discriminate.
  - apply (mounted new_EncounterService 0). reflexivity.
  - vm_compute. discriminate.
Defined.
