(* ===== verification/StageLayout.v ===== *)
(** * The combat stage

    The geometry of [src/models/stageLayout.ts], the painted art of
    [src/components/combat/creatures/paintedRegistry.ts] and the choice
    [src/components/combat/CreatureStage.tsx] makes between a painted sprite and the plate.

    The geometry is computed in doubles, so the bounds below carry the rounding: the sprite
    is never wider than the stage, and taller by at most two parts in 2^52.  The paint
    itself is left out. *)
From stdpp Require Import base decidable strings list.
From Stdlib Require Import ZArith QArith Qabs Lia Lqa.
From S2P Require Import Prelude JsNumber.
Local Open Scope Q_scope.

(** ** Geometry *)

(** The shape of a sprite, measured from its alpha channel. *)
Record SpriteFraming := mkFraming {
  aspect : Q;
  footLeft : Q;
  footRight : Q;
  stanceDepth : Q
}.

Record Rect := mkRect { rect_left : Q; rect_top : Q; rect_width : Q; rect_height : Q }.

Record StageLayout := mkLayout { layout_sprite : Rect; layout_pool : Rect }.

Definition POOL_SPREAD : Q := lit (125 # 100).
Definition POOL_DEPTH : Q := lit (16 # 10).
Definition POOL_SINK : Q := lit (34 # 100).

(** The contain fit: the limiting axis decides the rendered width and height. *)
Definition contain_fit (stageWidth stageHeight ratio : Q) : Q * Q :=
  if js_lt ratio (js_div stageWidth stageHeight)
  then (js_mul stageHeight ratio, stageHeight)
  else (stageWidth, js_div stageWidth ratio).

(** The grounding pool, spanned over the two ground contacts and feathered equally. *)
Definition grounding_pool (stageHeight : Q) (framing : SpriteFraming) (spread depth : Q)
    (spriteLeft renderW renderH : Q) : Rect :=
  let contactL := js_add spriteLeft (js_mul renderW (footLeft framing)) in
  let contactR := js_add spriteLeft (js_mul renderW (footRight framing)) in
  let pad := js_div (js_mul (js_sub contactR contactL) (js_sub spread 1)) 2 in
  let poolLeft := js_sub contactL pad in
  let poolRight := js_add contactR pad in
  let poolH := js_mul (js_mul renderH (stanceDepth framing)) depth in
  mkRect poolLeft (js_sub stageHeight (js_mul poolH (js_sub 1 POOL_SINK)))
    (js_sub poolRight poolLeft) poolH.

Definition computeStageLayout (stageWidth stageHeight : Q) (framing : SpriteFraming)
    (scale : Q) (opt_spread opt_depth : option Q) : StageLayout :=
  let spread := default POOL_SPREAD opt_spread in
  let depth := default POOL_DEPTH opt_depth in
  let '(fitW, fitH) := contain_fit stageWidth stageHeight (aspect framing) in
  let renderW := js_mul fitW scale in
  let renderH := js_mul fitH scale in
  let spriteLeft := js_div (js_sub stageWidth renderW) 2 in
  let spriteTop := js_sub stageHeight renderH in
  mkLayout (mkRect spriteLeft spriteTop renderW renderH)
    (grounding_pool stageHeight framing spread depth spriteLeft renderW renderH).

(** ** Painted art *)

Record PaintedKey := mkKey { key_source : string; key_framing : SpriteFraming }.

Record PaintedCreature := mkPainted {
  art_night : PaintedKey;
  art_day : option PaintedKey;
  art_scale : Q
}.

Definition PAINTED_CREATURES : list (string * PaintedCreature) :=
  [ ("ash_wretch",
     mkPainted
       (mkKey "../../../assets/creatures/ash_wretch_night.png"
          (mkFraming (lit (87 # 100)) (lit (17 # 1000)) (lit (884 # 1000)) (lit (223 # 1000))))
       (Some (mkKey "../../../assets/creatures/ash_wretch_day.png"
          (mkFraming (lit (784 # 1000)) (lit (178 # 1000)) (lit (911 # 1000))
             (lit (223 # 1000)))))
       1) ]%string.

Record ResolvedPaintedCreature := mkResolved {
  resolved_key : PaintedKey;
  resolved_scale : Q;
  resolved_gloom : bool
}.

Definition painted_named (creatureId : string) : option PaintedCreature :=
  snd <$> List.find (fun e => bool_decide (fst e = creatureId)) PAINTED_CREATURES.

Definition resolve_art (painted : PaintedCreature) (daylight : option bool)
    : ResolvedPaintedCreature :=
  match daylight, art_day painted with
  | Some true, Some key => mkResolved key (art_scale painted) false
  | _, _ => mkResolved (art_night painted) (art_scale painted) (bool_decide (daylight = Some true))
  end.

Definition resolvePaintedCreature (creatureId : option string) (daylight : option bool)
    : option ResolvedPaintedCreature :=
  painted ← (match creatureId with
             | Some id => if decide (id = ""%string) then None else painted_named id
             | None => None
             end);
  Some (resolve_art painted daylight).

(** ** The stage *)

(** What the stage shows: the sprite with its pools, or the plate at a size. *)
Inductive Shown :=
  | shown_painted (gloom : bool) (layout : StageLayout)
  | shown_plate (size : Z).

(** [onLayout]: the measured size; an unchanged one keeps the previous object, which is
    the same value. *)
Definition onLayout (width height : Q) (prev : option (Q * Q)) : option (Q * Q) :=
  match prev with
  | Some (w, h) => if Qeq_bool w width && Qeq_bool h height then prev else Some (width, height)
  | None => Some (width, height)
  end.

Definition stage_shows (size : option (Q * Q)) (creatureId : option string)
    (daylight : option bool) : Shown :=
  match size, resolvePaintedCreature creatureId daylight with
  | Some (w, h), Some painted =>
      shown_painted (resolved_gloom painted)
        (computeStageLayout w h (key_framing (resolved_key painted)) (resolved_scale painted)
           None None)
  | Some (w, h), None => shown_plate (math_round (js_mul (math_min w h) (lit (62 # 100))))
  | None, _ => shown_plate 120
  end.

(** ** Theorems *)

(** A framing the cutout script can emit: a positive aspect, contacts in order. *)
Definition well_framed (f : SpriteFraming) : bool :=
  Qeq_bool (fl (aspect f)) (aspect f) && js_lt 0 (aspect f) && js_le (aspect f) (num (2 ^ 30))
  && js_le 0 (footLeft f) && js_le (footLeft f) (footRight f) && js_le 0 (stanceDepth f).

(** A stage of at least one pixel, measured in doubles. *)
Definition well_sized (w h : Q) : bool :=
  Qeq_bool (fl w) w && js_le 1 w && Qeq_bool (fl h) h && js_le 1 h && js_le h (num (2 ^ 30)).

Lemma well_framed_spec f : well_framed f = true ->
  is_double (aspect f) /\ 0 < aspect f <= num (2 ^ 30)
  /\ 0 <= footLeft f <= footRight f /\ 0 <= stanceDepth f.
Proof.
  unfold well_framed. rewrite !andb_true_iff, !js_le_iff, js_lt_iff, Qeq_bool_iff.
  unfold is_double. tauto.
Qed.

Lemma well_sized_spec w h : well_sized w h = true ->
  is_double w /\ 1 <= w /\ is_double h /\ 1 <= h <= num (2 ^ 30).
Proof.
  unfold well_sized. rewrite !andb_true_iff, !js_le_iff, !Qeq_bool_iff.
  unfold is_double. tauto.
Qed.

(** The rounding of a quotient of two stage lengths is relatively small. *)
Lemma stage_quotient x y : 1 <= x -> 0 < y <= num (2 ^ 30) ->
  0 < x / y /\ Qabs (js_div x y - x / y) <= two_pow (-53) * (x / y).
Proof.
  intros Hx [Hy Hy'].
  assert (two_pow (-1022) <= x / y) as Hq.
  { apply Qle_trans with (two_pow (-30)); [apply two_pow_le; lia|].
    apply Qle_shift_div_l; [lra|].
    apply Qle_trans with (two_pow (-30) * num (2 ^ 30)); [|assert (two_pow (-30) * num (2 ^ 30) == 1) by reflexivity; lra].
    apply Qmult_le_l; [apply two_pow_pos | lra]. }
  split; [pose proof (two_pow_pos (-1022)); lra | apply fl_error, Hq].
Qed.

(** Doubles on either side of a quotient stay on their sides when it is rounded. *)
Lemma js_div_lt_inv x y a : is_double a -> a < js_div x y -> a < x / y.
Proof.
  intros Ha Hlt. apply Qnot_le_lt. intros Hle.
  apply (fl_le_double _ _ Ha) in Hle. unfold js_div in Hlt. lra.
Qed.

Lemma contain_fit_width w h a : is_double w -> is_double a -> 0 < w -> 0 < h -> 0 < a ->
  0 <= fst (contain_fit w h a) <= w.
Proof.
  intros Hw Ha Hw0 Hh Ha0. unfold contain_fit. destruct (js_ltP a (js_div w h)) as [Hlt|]; simpl.
  - split; [apply js_mul_nonneg; lra|]. apply fl_le_double; [done|].
    apply js_div_lt_inv in Hlt; [|done].
    apply (Qmult_lt_l _ _ h) in Hlt; [|done]. field_simplify in Hlt; lra.
  - lra.
Qed.

Lemma contain_fit_height w h a :
  1 <= w -> 1 <= h <= num (2 ^ 30) -> 0 < a <= num (2 ^ 30) ->
  0 <= snd (contain_fit w h a) <= h * (1 + two_pow (-51)).
Proof.
  intros Hw Hh Ha. unfold contain_fit. destruct (js_ltP a (js_div w h)) as [|Hge]; simpl.
  - assert (two_pow (-51) == 1 # 2251799813685248) as Eu by reflexivity. rewrite Eu. lra.
  - apply Qnot_lt_le in Hge.
    destruct (stage_quotient w h) as [Hq Eq]; [lra..|].
    destruct (stage_quotient w a) as [Hr Er]; [lra..|].
    split; [apply js_div_nonneg; lra|].
    apply Qabs_Qle_condition in Eq, Er.
    assert (w / h * h == w) as Ew by (field; lra).
    assert (w / a * a == w) as Ea by (field; lra).
    set (q := w / h) in *. set (r := w / a) in *. clearbody q r.
    assert (two_pow (-53) == 1 # 9007199254740992) as Eu by reflexivity.
    assert (two_pow (-51) == 1 # 2251799813685248) as Eu' by reflexivity.
    rewrite Eu in *. rewrite Eu'.
    assert (q * (1 - (1 # 9007199254740992)) <= a) as H1 by lra.
    assert (r * (1 - (1 # 9007199254740992)) <= h) as H2.
    { apply (Qmult_lt_0_le_reg_r _ _ q); [done|].
      apply Qle_trans with (r * a); [nra|]. nra. }
    lra.
Qed.

Lemma scaled_within x b s : is_double x -> 0 <= x <= b -> 0 <= s <= 1 -> 0 <= js_mul x s <= b.
Proof.
  intros Hd Hx Hs. split; [apply js_mul_nonneg; lra|].
  apply Qle_trans with x; [|lra]. apply fl_le_double; [done|]. nra.
Qed.

Lemma contain_fit_doubles w h a : is_double w -> is_double h ->
  is_double (fst (contain_fit w h a)) /\ is_double (snd (contain_fit w h a)).
Proof.
  intros. unfold contain_fit. destruct (js_lt _ _); split; simpl; first [done | apply is_double_fl].
Qed.

(** The pool covers both ground contacts and straddles the baseline. *)
Lemma grounding_pool_covers h f spread depth left w ht :
  is_double h -> 0 <= w -> 0 <= ht -> well_framed f = true -> 1 <= spread -> 0 <= depth ->
  let pool := grounding_pool h f spread depth left w ht in
  let contactL := js_add left (js_mul w (footLeft f)) in
  let contactR := js_add left (js_mul w (footRight f)) in
  rect_left pool <= contactL /\ js_sub contactR contactL <= rect_width pool
  /\ js_sub h (rect_height pool) <= rect_top pool <= h.
Proof.
  intros Hh Hw Hht (_ & _ & [Hl Hr] & Hd)%well_framed_spec Hs Hdep. simpl.
  set (cl := js_add left (js_mul w (footLeft f))). set (cr := js_add left (js_mul w (footRight f))).
  assert (cl <= cr) as Hc by (apply js_add_mono; [lra | apply js_mul_mono_r; lra]).
  set (pad := js_div _ 2).
  assert (0 <= pad) as Hp.
  { apply js_div_nonneg; [|lra]. apply js_mul_nonneg; apply fl_nonneg; lra. }
  set (ph := js_mul (js_mul ht (stanceDepth f)) depth).
  assert (0 <= ph) as Hph by (repeat apply js_mul_nonneg; lra).
  assert (js_sub cl pad <= cl) as H1 by (apply fl_le_double; [apply is_double_fl | lra]).
  assert (cr <= js_add cr pad) as H2 by (apply fl_ge_double; [apply is_double_fl | lra]).
  split; [exact H1|]. split; [apply js_sub_mono; assumption|].
  assert (0 <= js_sub 1 POOL_SINK <= 1) as Hk by (split; vm_compute; discriminate).
  split; [apply js_sub_mono; [lra|]|].
  - apply scaled_within; [apply is_double_fl | lra | exact Hk].
  - apply fl_le_double; [done|].
    assert (0 <= js_mul ph (js_sub 1 POOL_SINK)) by (apply js_mul_nonneg; [exact Hph | apply Hk]).
    lra.
Qed.

(** The sprite stays inside the stage whatever the shape of both: never wider than it, no
    taller than it beyond the last bits, not left of its edge; and the pool covers the
    contacts of the sprite and straddles the baseline. *)
Theorem stage_contains_sprite w h f scale spread depth :
  well_sized w h = true -> well_framed f = true -> 0 <= scale <= 1 ->
  1 <= default POOL_SPREAD spread -> 0 <= default POOL_DEPTH depth ->
  let layout := computeStageLayout w h f scale spread depth in
  let sprite := layout_sprite layout in
  let pool := layout_pool layout in
  let contactL := js_add (rect_left sprite) (js_mul (rect_width sprite) (footLeft f)) in
  let contactR := js_add (rect_left sprite) (js_mul (rect_width sprite) (footRight f)) in
  0 <= rect_left sprite /\ 0 <= rect_width sprite <= w
  /\ 0 <= rect_height sprite <= h * (1 + two_pow (-51)) /\ rect_top sprite <= h
  /\ rect_left pool <= contactL /\ js_sub contactR contactL <= rect_width pool
  /\ js_sub h (rect_height pool) <= rect_top pool <= h.
Proof.
  intros Hsz Hf Hs Hsp Hdp. pose proof Hsz as (Dw & Hw & Dh & Hh)%well_sized_spec.
  pose proof Hf as (Da & Ha & _)%well_framed_spec.
  pose proof (contain_fit_width w h (aspect f)) as Fw.
  pose proof (contain_fit_height w h (aspect f)) as Fh.
  pose proof (contain_fit_doubles w h (aspect f) Dw Dh) as [D1 D2].
  unfold computeStageLayout. cbv zeta.
  generalize dependent (default POOL_SPREAD spread). intros sp Hsp.
  generalize dependent (default POOL_DEPTH depth). intros dp Hdp.
  destruct (contain_fit w h (aspect f)) as [fw fh]. cbn [fst snd layout_sprite layout_pool] in *.
  assert (0 <= js_mul fw scale <= w) as Hrw
    by (apply scaled_within; [done | apply Fw; first [done | lra] | done]).
  assert (0 <= js_mul fh scale <= h * (1 + two_pow (-51))) as Hrh
    by (apply scaled_within; [done | apply Fh; lra | done]).
  cbn [rect_left rect_top rect_width rect_height].
  split; [apply js_div_nonneg; [apply fl_nonneg; lra | lra]|].
  split; [exact Hrw|]. split; [exact Hrh|].
  split; [apply fl_le_double; [done | lra]|].
  apply grounding_pool_covers; [exact Dh | lra | lra | exact Hf | exact Hsp | exact Hdp].
Qed.

(** Every painted creature of the game fits every stage, in either light. *)
Theorem painted_creature_fits w h creatureId daylight painted :
  well_sized w h = true -> resolvePaintedCreature creatureId daylight = Some painted ->
  exists layout, stage_shows (Some (w, h)) creatureId daylight
                   = shown_painted (resolved_gloom painted) layout
    /\ 0 <= rect_left (layout_sprite layout) /\ rect_width (layout_sprite layout) <= w
    /\ rect_height (layout_sprite layout) <= h * (1 + two_pow (-51))
    /\ rect_top (layout_pool layout) <= h.
Proof.
  intros Hsz Hr. unfold stage_shows. rewrite Hr. eexists; split; [reflexivity|].
  assert (well_framed (key_framing (resolved_key painted)) = true
          /\ resolved_scale painted = 1) as [Hf E].
  { destruct creatureId as [id|]; [|done]. unfold resolvePaintedCreature in Hr.
    destruct (decide _); [done|]. unfold painted_named in Hr. simpl in Hr.
    case_bool_decide; [|done]. simpl in Hr. injection Hr as <-.
    destruct daylight as [[]|]; split; vm_compute; reflexivity. }
  rewrite E. generalize dependent (key_framing (resolved_key painted)). intros f Hf.
  edestruct (stage_contains_sprite w h f 1 None None Hsz Hf) as (? & ? & ? & ? & ? & ? & ?);
    [lra | vm_compute; discriminate.. |]. tauto.
Qed.

(** The art follows the sun: by day the day painting when there is one, otherwise the night
    painting, and gloom exactly when a creature without day art is met by day. *)
Theorem art_follows_sun painted daylight :
  let shown := resolve_art painted daylight in
  (resolved_key shown = (if bool_decide (daylight = Some true)
                         then default (art_night painted) (art_day painted)
                         else art_night painted))
  /\ (resolved_gloom shown = true <-> daylight = Some true /\ art_day painted = None).
Proof.
  unfold resolve_art. destruct daylight as [[]|], (art_day painted); simpl;
    (split; [reflexivity | intuition congruence]).
Qed.

(** The last bits are needed: a sprite whose ratio rounds the stage's is fitted by its width,
    and the division then gives a height one unit above the stage's. *)
Example fit_exceeds_by_a_bit :
  let f := mkFraming (lit (344 # 1000)) 0 1 0 in
  well_sized 172 500 = true /\ well_framed f = true
  /\ 500 < rect_height (layout_sprite (computeStageLayout 172 500 f 1 None None)).
Proof. repeat split; vm_compute; reflexivity. Qed.
