(* ===== verification/Screens.v ===== *)
(** * What the screens offer

    The computations and the controls of the screens around the game:
    [EncounterModal.tsx], [WalkSummaryModal.tsx], [RewardRevealModal.tsx],
    [ArchetypeSelectionScreen.tsx], [PlayerStats.tsx], [DistanceDisplay.tsx],
    [AccountConflictModal.tsx] and [SettingsModal.tsx].

    A screen is the record of what it computes and the list of its buttons, each with the
    event its press sends to the session and whether it is disabled.  The theorems compose
    the screens with the sessions behind them: a control that is enabled does what it says,
    and the numbers shown are those of the state.  Layout, colours and animation are left
    out. *)
From stdpp Require Import base decidable strings list pretty.
From Stdlib Require Import Ascii ZArith QArith Qround Lia Lqa.
From S2P Require Import Prelude JsNumber Random Combat Archetype Ability CombatFeed Creature.
From S2P Require Import Config Item Player Loot AutoCombat Encounter Json CloudSync Storage.
From S2P Require Import PlayerSession AuthSession CombatSession SessionInvariant EncounterFlow.
From S2P Require Import CombatView.
Local Open Scope Z_scope.

(** ** Numbers as text *)

(** [x.toFixed(f)] of a non-negative number: the nearest multiple of [10^-f], the larger of
    two, with [f] digits after the point. *)
Definition toFixed (f : nat) (x : Q) : string :=
  let unit := 10 ^ Z.of_nat f in
  let n := Qfloor (x * inject_Z unit + (1 # 2)) in
  let digits := pretty (n mod unit) in
  pretty (n / unit) +:+ "." +:+ String.concat "" (replicate (f - String.length digits) "0") +:+ digits.

(** [DistanceDisplay.tsx] *)
Inductive DistanceUnit := unit_km | unit_mi.

Definition display_distance (unit_ : DistanceUnit) (meters : Q) : string :=
  match unit_ with
  | unit_km => toFixed 2 (js_div meters 1000)
  | unit_mi => toFixed 2 (js_div meters (lit 1609.34))
  end.

Definition formatShortDistance (unit_ : DistanceUnit) (meters : Q) : string :=
  if js_le 1000 meters
  then display_distance unit_ meters +:+ (match unit_ with unit_km => " km" | unit_mi => " mi" end)
  else pretty (math_round meters) +:+ " m".

(** ** The encounter modal *)

Record Button := mkButton { btn_label : string; btn_event : Event; btn_disabled : bool }.

Definition encounter_buttons (debugMode : bool) (creature : Creature) (playerHp : option Z)
    : list Button :=
  let creatureDefeated := isDefeated creature in
  let playerDefeated := modal_playerDefeated playerHp in
  let blocked_ := creatureDefeated || playerDefeated in
  (if debugMode then [mkButton "⚡ Instant Defeat (Debug)" EvDebugDefeat blocked_] else [])
  ++ [mkButton (if creatureDefeated then "Defeated"
                else if playerDefeated then "You are Defeated" else "Fight") EvFight blocked_]
  ++ (if canAutoResolve creature then [mkButton "Auto-Resolve" EvAutoResolve blocked_] else [])
  ++ [mkButton "Flee" EvFlee false].

(** A chip per damage type the creature is not neutral to. *)
Definition resistance_chips (r : Resistances) : list (DamageType * string) :=
  let shown v := negb (Qeq_bool v 0) in
  (fun e => (fst e, signed (math_round (js_mul (snd e) 100)) +:+ "%")) <$>
    List.filter (fun e => shown (snd e))
      [ (physical, res_physical r); (Combat.fire, res_fire r); (frost, res_frost r);
        (arcane, res_arcane r) ].

Record EncounterCard := mkEncounterCard {
  ecard_visible : bool;
  ecard_hpFraction : Q;
  ecard_hpTone : HpTone;
  ecard_chips : list (DamageType * string);
  ecard_buttons : list Button
}.

Definition modal_hpFraction (playerHp playerMaxHp : option Z) : Q :=
  match playerHp, playerMaxHp with
  | Some hp, Some maxHp => if 0 <? maxHp then js_div (num hp) (num maxHp) else 1%Q
  | _, _ => 1%Q
  end.

(** The modal as the home screen renders it. *)
Definition encounter_modal (debugMode : bool) (s : Session) : option EncounterCard :=
  encounter ← currentEncounter s;
  let creature := eo_creature encounter in
  let hp := p_hp <$> playerRef s in
  let maxHp := p_maxHp <$> playerRef s in
  Some (mkEncounterCard (showEncounterModal s && negb (showCombatModal s))
    (modal_hpFraction hp maxHp) (hpColor (default 1 hp) (default 1 maxHp))
    (resistance_chips (c_resistances creature)) (encounter_buttons debugMode creature hp)).

(** ** The walk summary *)

Record Recap := mkRecap {
  rc_fought : Z;
  rc_won : Z;
  rc_totalXp : Z;
  rc_itemsFound : Z;
  rc_rows : list WalkSummaryEntry
}.

Definition walk_recap (entries : option (list WalkSummaryEntry)) : option Recap :=
  match entries with
  | None | Some [] => None
  | Some entries =>
      Some (mkRecap (Z.of_nat (length entries))
        (fold_left (fun n e => n + (if ws_won e then 1 else 0)) entries 0)
        (fold_left (fun n e => n + ws_xpGained e) entries 0)
        (fold_left (fun n e => n + (match ws_item e with Some _ => 1 | None => 0 end)) entries 0)
        (rev entries))
  end.

(** ** The archetype screen *)

Record ArchetypeCard := mkArchetypeCard {
  acard_archetype : Archetype;
  acard_name : string;
  acard_resourceLabel : string;
  acard_hp : Z;
  acard_atk : Z;
  acard_def : Z
}.

Definition ARCHETYPES : list Archetype := [Martial; Agile; Mage].

Definition archetype_card (archetype : Archetype) : ArchetypeCard :=
  let cfg := ARCHETYPE_CONFIGS archetype in
  let attrs := computeAttributes archetype 1 in
  mkArchetypeCard archetype (ac_name cfg)
    (match ac_resource cfg with rage => "Rage" | energy => "Energy" | mana => "Mana" end)
    (deriveMaxHp archetype (a_str attrs) (a_agi attrs))
    (deriveAttack (a_str attrs) (a_agi attrs))
    (deriveDefense (a_str attrs) (a_agi attrs)).

Definition archetype_screen : list ArchetypeCard := archetype_card <$> ARCHETYPES.

(** ** The player's bars *)

Definition progressPercentage (player : option Player) : Q :=
  match getStats <$> player with
  | Some stats =>
      if 0 <? ps_experienceForNextLevel stats
      then js_mul (js_div (num (ps_experience stats)) (num (ps_experienceForNextLevel stats))) 100
      else 0%Q
  | None => 0%Q
  end.

Definition hud_hpPercentage (player : option Player) : Q :=
  match getStats <$> player with
  | Some stats =>
      if 0 <? ps_maxHp stats then js_div (num (ps_hp stats)) (num (ps_maxHp stats)) else 1%Q
  | None => 1%Q
  end.

(** The level effect: whether the level pops, and the level remembered for the next. *)
Definition level_effect (currentLevel prevLevel : option Z) : bool * option Z :=
  (match currentLevel, prevLevel with Some l, Some l' => l' <? l | _, _ => false end,
   match currentLevel with Some l => Some l | None => prevLevel end).

(** ** The conflict modal *)

Definition conflict_formatDistance (meters : Q) : string :=
  if js_lt meters 1000 then pretty (math_round meters) +:+ " m"
  else toFixed 1 (js_div meters 1000) +:+ " km".

Definition formatTimestamp (now ts : Z) : string :=
  if ts =? 0 then "Unknown"
  else
    let minutes := (now - ts) / 60000 in
    if minutes <? 60 then pretty minutes +:+ "m ago"
    else
      let hours := minutes / 60 in
      if hours <? 24 then pretty hours +:+ "h ago" else pretty (hours / 24) +:+ "d ago".

(** The choices on screen: none while one is being resolved. *)
Definition conflict_choices (resolving : bool) (c : PendingConflictRecord) : list Choice :=
  if resolving then []
  else (match pc_localData c with Some _ => [choose_local] | None => [] end) ++ [choose_cloud].

(** ** The settings *)

Inductive AccountAction := act_google | act_apple | act_signOut | act_delete.

Definition isSignedIn (authUser : option AuthUser) : bool :=
  match authUser with Some u => negb (au_isAnonymous u) | None => false end.

Definition settings_displayName (authUser : option AuthUser) : string :=
  match authUser ≫= au_displayName, authUser ≫= au_email with
  | Some name, _ => name
  | None, Some email => email
  | None, None => "Signed in"
  end.

Definition account_actions (platform : Platform) (authUser : option AuthUser) (authLoading : bool)
    : list AccountAction :=
  if authLoading then []
  else (if isSignedIn authUser then [act_signOut]
        else act_google :: (match platform with ios => [act_apple] | android => [] end))
       ++ [act_delete].

(** ** The reward reveal *)

Record RarityFx := mkFx {
  fx_particles : nat;
  fx_size : Z;
  fx_spread : Z;
  fx_shake : Z;
  fx_haptic : list Z;
  fx_cardDelay : Z;
  fx_emitMs : Z
}.

Definition POOL_SIZE : nat := 30.

(** A pattern of vibrations; a single number is a pattern of one, and zero is none. *)
Definition RARITY_FX (r : Rarity) : RarityFx :=
  match r with
  | common => mkFx 8 6 130 0 [] 300 120
  | uncommon => mkFx 14 7 160 0 [15] 380 260
  | rare => mkFx 20 8 190 4 [25] 480 420
  | epic => mkFx 26 9 220 8 [0; 30; 40; 30] 580 600
  | legendary => mkFx 30 11 250 12 [0; 50; 50; 90] 680 780
  end.

(** The animated values a reveal starts from. *)
Record Particle := mkParticle { pt_tx : Q; pt_ty : Q; pt_scale : Q; pt_opacity : Q }.

Record Reveal := mkRevealView {
  rvw_backdrop : Q;
  rvw_cardScale : Q;
  rvw_cardOpacity : Q;
  rvw_shakeX : Q;
  rvw_promptOpacity : Q;
  rvw_particles : list Particle;
  rvw_shown : option nat;
  rvw_seq : Z
}.

Definition hidden_particle : Particle := mkParticle 0 0 0 0.

Definition initial_reveal : Reveal :=
  mkRevealView 0 0 0 0 0 (replicate POOL_SIZE hidden_particle) None 0.

(** A render with a reveal, by the identity of its object: a new one is reset before its
    first paint, one already shown is left to its animation. *)
Definition render_reveal (reveal : option nat) (v : Reveal) : Reveal :=
  match reveal with
  | Some o =>
      if decide (rvw_shown v = Some o) then v
      else mkRevealView 0 (lit 0.6) 0 0 0 ((fun _ => hidden_particle) <$> rvw_particles v)
             (Some o) (rvw_seq v + 1)
  | None => v
  end.

(** The particles the burst launches, and the pause between two launches. *)
Definition burst (item : option Item) (v : Reveal) : list (option Particle) :=
  match item with
  | Some it => (fun i => rvw_particles v !! i) <$> seq 0 (fx_particles (RARITY_FX (it_rarity it)))
  | None => []
  end.

Definition burst_stagger (fx : RarityFx) : Q :=
  js_div (num (fx_emitMs fx)) (num (Z.max 1 (Z.of_nat (fx_particles fx) - 1))).

(** ** Theorems *)

(** *** The walk adds up *)

(** The totals of some entries. *)
Definition total (f : WalkSummaryEntry -> Z) (entries : list WalkSummaryEntry) : Z :=
  fold_left (fun n e => n + f e) entries 0.

Definition won_of (e : WalkSummaryEntry) : Z := if ws_won e then 1 else 0.
Definition item_of (e : WalkSummaryEntry) : Z := match ws_item e with Some _ => 1 | None => 0 end.

Lemma fold_total f entries : forall n, fold_left (fun n e => n + f e) entries n = n + total f entries.
Proof.
  unfold total. induction entries as [|e l IH]; intros n; cbn [fold_left]; [lia|].
  rewrite IH, (IH (0 + f e)). lia.
Qed.

Lemma total_cons f e l : total f (e :: l) = f e + total f l.
Proof. unfold total at 1. cbn [fold_left]. rewrite fold_total. lia. Qed.

(** What some entries say a player gained on the way from [p] to [p']. *)
Record accounted (entries : list WalkSummaryEntry) (p p' : Player) : Prop := {
  ad_wf : wf_player p';
  ad_fought : p_totalEncounters p' = p_totalEncounters p + Z.of_nat (length entries);
  ad_won : p_creaturesDefeated p' = p_creaturesDefeated p + total won_of entries;
  ad_level : p_level p <= p_level p';
  ad_xp : p_experience p + total ws_xpGained entries
    = p_experience p' + levels_cost (p_level p) (Z.to_nat (p_level p' - p_level p));
  ad_gain : Forall (fun e => 0 <= ws_xpGained e) entries;
  ad_items : present (p_inventory p') ≡ₚ omap ws_item entries ++ present (p_inventory p);
  ad_distance : p_totalDistance p' = p_totalDistance p
}.

Lemma accounted_nil p : wf_player p -> accounted [] p p.
Proof.
  intros W. constructor; unfold total; simpl; try lia; [exact W | | constructor | reflexivity | reflexivity].
  replace (p_level p - p_level p) with 0 by lia. simpl. lia.
Qed.

Lemma total_app f l l' : total f (l ++ l') = total f l + total f l'.
Proof. unfold total at 1. rewrite fold_left_app, fold_total. reflexivity. Qed.

Lemma accounted_app l l' p p1 p2 : accounted l p p1 -> accounted l' p1 p2 -> accounted (l ++ l') p p2.
Proof.
  intros [A1 A2 A3 A4 A5 A6 A7 A8] [B1 B2 B3 B4 B5 B6 B7 B8].
  constructor; rewrite ?total_app, ?length_app; auto; try lia; [|apply Forall_app; auto | | congruence].
  - replace (Z.to_nat (p_level p2 - p_level p))
      with (Z.to_nat (p_level p1 - p_level p) + Z.to_nat (p_level p2 - p_level p1))%nat by lia.
    rewrite levels_cost_add, Z2Nat.id by lia.
    replace (p_level p + (p_level p1 - p_level p)) with (p_level p1) by lia. lia.
  - rewrite omap_app, B7, A7. rewrite !app_assoc. apply Permutation_app_tail, Permutation_app_comm.
Qed.

(** One resolution, of either tier, is accounted for by its entry. *)
Lemma passive_accounted now tier p c : wf_player p -> creature_ok c ->
  rand_post (passive_rewards now tier p c) (fun r => accounted [snd r] p (fst r)).
Proof.
  intros W C. destruct tier.
  - eapply rand_post_weaken; [apply passive_rewards_paid; [exact W | apply C]|].
    intros [p' e] [W' Xg _ [L X] T _ I _]. cbn [fst snd] in *. injection T as T1 T2 T3 _.
    constructor; unfold total; cbn [fold_left length]; auto; try lia; [apply Forall_singleton; lia|].
    csimpl. destruct (ws_item e); [apply I | rewrite I; reflexivity].
  - intros r Hr. pose proof (active_tier_spec now p c r) as E.
    destruct (victory_rewards_paid now p c false None W C r Hr) as [V R].
    destruct (passive_rewards now active_tier p c r) as [[p1 e] r1],
      (victory_rewards now p c false None r) as [[p2 rv] r2].
    destruct E as (-> & -> & E1 & E2 & _ & E3). cbn [fst snd] in *. split; [|exact R].
    destruct V as [W' Xp X [L _] T _ I _]. injection T as T1 T2 T3 _. rewrite <- E2 in X, Xp.
    constructor; unfold total; cbn [fold_left length]; auto; try lia;
      unfold won_of; rewrite ?E1; auto.
    + apply Forall_singleton. rewrite Xp. apply activeCombatXp_nonneg, C.
    + csimpl. rewrite E3. unfold received in I.
      destruct (rv_item rv), (rv_inventoryFull rv); first [exact I | destruct I as [-> _]; reflexivity].
Qed.

Section Walk.
Context `{AsyncStorageLaws}.

(** [resolvePassiveEncounter], observed: the entry it appends, with whether the read and the
    write of that append succeed. *)
Definition observed_fight (now : Z) (tier : RewardTier) (e : Encounter) (a : App)
    : Rand (App * list (WalkSummaryEntry * (bool * bool))) := fun r =>
  let note p :=
    let entry := snd (fst (passive_rewards now tier p (e_creature e) r)) in
    (entry, append_outcome (enc_summary_entry entry) (store a)) in
  let (a', r') := resolvePassiveEncounter now e tier a r in
  ((a', option_list (note <$> playerRef (session a))), r').

(** The encounters a walk resolves one after the other, each with its clock and tier. *)
Fixpoint resolve_walk (fights : list (Z * RewardTier * Encounter)) (a : App)
    : Rand (App * list (WalkSummaryEntry * (bool * bool))) :=
  match fights with
  | [] => rand_ret (a, [])
  | (now, tier, e) :: fights =>
      let! fought := observed_fight now tier e a in
      let! rest := resolve_walk fights (fst fought) in
      rand_ret (fst rest, snd fought ++ snd rest)
  end.

(** The log some observed fights leave. *)
Definition walk_log (notes : list (WalkSummaryEntry * (bool * bool))) (log : list json) : list json :=
  fold_left relogged ((fun n => (enc_summary_entry (fst n), snd n)) <$> notes) log.

(** One observed fight: its entry accounts for it, and is logged. *)
Lemma observed_accounted now tier e a p log : playerRef (session a) = Some p -> wf_player p ->
  creature_ok (e_creature e) -> log_is (store a) log -> forallb isValidWalkSummaryEntry log = true ->
  rand_post (observed_fight now tier e a) (fun r => exists p' n,
    snd r = [n] /\ playerRef (session (fst r)) = Some p' /\ accounted [fst n] p p'
    /\ log_is (store (fst r)) (walk_log [n] log)
    /\ forallb isValidWalkSummaryEntry (walk_log [n] log) = true).
Proof.
  intros P W C L V r R. destruct (passive_accounted now tier p (e_creature e) W C r R) as [A R'].
  unfold observed_fight, resolvePassiveEncounter. rewrite P. unfold rand_bind.
  cbn [fmap option_fmap option_map option_list].
  destruct (passive_rewards now tier p (e_creature e) r) as [[p' entry] r']. cbn [fst snd] in *.
  split; [|exact R']. exists p', (entry, append_outcome (enc_summary_entry entry) (store a)).
  split; [reflexivity|]. split; [reflexivity|]. split; [exact A|].
  split; [apply (append_record_log (store a) log (enc_summary_entry entry) L V)|].
  apply relogged_valid; [exact V | apply valid_enc_summary].
Qed.

Lemma walk_log_app notes notes' log : walk_log (notes ++ notes') log = walk_log notes' (walk_log notes log).
Proof. unfold walk_log. rewrite fmap_app. apply fold_left_app. Qed.

(** A walk: the entries of every stretch of it account for that stretch. *)
Lemma walk_accounted fights : Forall (fun f => creature_ok (e_creature (snd f))) fights ->
  forall a p log, playerRef (session a) = Some p -> wf_player p ->
  log_is (store a) log -> forallb isValidWalkSummaryEntry log = true ->
  rand_post (resolve_walk fights a) (fun r => exists p',
    length (snd r) = length fights /\ playerRef (session (fst r)) = Some p'
    /\ log_is (store (fst r)) (walk_log (snd r) log)
    /\ forallb isValidWalkSummaryEntry (walk_log (snd r) log) = true
    /\ forall k, exists pm, accounted (take k (fst <$> snd r)) p pm /\ accounted (drop k (fst <$> snd r)) pm p'
                           /\ (k = 0%nat -> pm = p)).
Proof.
  induction fights as [|[[now tier] e] fights IH]; intros F a p log P W L V.
  - apply rand_post_ret. exists p. repeat (split; [assumption || reflexivity|]). intros k. exists p.
    cbn. rewrite take_nil, drop_nil. auto using accounted_nil.
  - apply Forall_cons in F as [F1 F2]. cbn [resolve_walk].
    rand_step observed_accounted f Hf; [exact P | exact W | exact F1 | exact L | exact V |].
    destruct f as [a1 notes], Hf as (p1 & n & -> & P1 & A1 & L1 & V1). cbn [fst snd] in *.
    eapply rand_post_bind; [apply (IH F2 a1 p1 _ P1 (ad_wf _ _ _ A1) L1 V1)|].
    intros [a' rest] (p' & Len & P' & L' & V' & K). apply rand_post_ret. cbn [fst snd] in *. exists p'.
    split; [cbn; lia|]. split; [exact P'|]. rewrite walk_log_app. split; [exact L'|]. split; [exact V'|].
    intros [|k]; csimpl.
    + destruct (K 0%nat) as (pm & _ & B & E0). rewrite (E0 eq_refl), drop_0 in B. exists p. cbn.
      split; [apply accounted_nil, W|]. split; [exact (accounted_app [fst n] _ _ _ _ A1 B) | reflexivity].
    + destruct (K k) as (pm & B1 & B2 & _). exists pm. cbn [take drop].
      split; [exact (accounted_app [fst n] _ _ _ _ A1 B1)|]. split; [exact B2 | discriminate].
Qed.

(** What a recap shows is what its entries say. *)
Definition recap_of (entries : list WalkSummaryEntry) (rc : Recap) : Prop :=
  walk_recap (Some entries) = Some rc /\ rev (rc_rows rc) = entries.

(** The gains from [p] to [p'] are the totals of a recap, and its items are those that
    were added to the inventory. *)
Record adds_up (rc : Recap) (p p' : Player) : Prop := {
  au_fought : p_totalEncounters p' = p_totalEncounters p + rc_fought rc;
  au_won : p_creaturesDefeated p' = p_creaturesDefeated p + rc_won rc;
  au_xp : p_experience p + rc_totalXp rc
    = p_experience p' + levels_cost (p_level p) (Z.to_nat (p_level p' - p_level p));
  au_items : rc_itemsFound rc = Z.of_nat (length (omap ws_item (rc_rows rc)));
  au_kept : present (p_inventory p') ≡ₚ omap ws_item (rc_rows rc) ++ present (p_inventory p)
}.

Lemma total_items l : total item_of l = Z.of_nat (length (omap ws_item l)).
Proof.
  induction l as [|e l IH]; [reflexivity|]. rewrite total_cons, IH. csimpl. unfold item_of.
  destruct (ws_item e); cbn [length]; lia.
Qed.

Lemma omap_rev {A B} (f : A -> option B) l : omap f (rev l) ≡ₚ omap f l.
Proof. apply omap_Permutation, Permutation_sym, Permutation_rev. Qed.

Lemma recap_adds entries p p' : entries <> [] -> accounted entries p p' ->
  exists rc, recap_of entries rc /\ adds_up rc p p'.
Proof.
  intros N [W A1 A2 A3 A4 A5 A6 A7]. destruct entries as [|e l]; [congruence|].
  eexists. split; [split; [reflexivity | apply rev_involutive]|].
  constructor; cbn [rc_fought rc_won rc_totalXp rc_itemsFound rc_rows]; auto.
  - etransitivity; [exact (total_items (e :: l))|]. f_equal. symmetry. apply Permutation_length, omap_rev.
  - rewrite omap_rev. exact A6.
Qed.

Lemma fmap_zip_notes (notes : list (WalkSummaryEntry * (bool * bool))) :
  (fun n => (enc_summary_entry (fst n), snd n)) <$> notes
  = zip (enc_summary_entry <$> (fst <$> notes)) (snd <$> notes).
Proof. induction notes as [|[e o] l IH]; [reflexivity|]. csimpl. f_equal. exact IH. Qed.

(** What is logged are entries of the walk, in their order. *)
Lemma walk_log_shown notes : exists shown, walk_log notes [] = enc_summary_entry <$> shown
  /\ shown `sublist_of` (fst <$> notes).
Proof.
  unfold walk_log. rewrite fmap_zip_notes.
  pose proof (relog_sublist (enc_summary_entry <$> (fst <$> notes)) (snd <$> notes) [] [] ltac:(reflexivity)) as S.
  cbn [app] in S. generalize dependent (fold_left relogged (zip (enc_summary_entry <$> (fst <$> notes)) (snd <$> notes)) []).
  generalize (fst <$> notes). intros entries log. revert log.
  induction entries as [|e l IH]; intros log S; csimpl in S.
  - apply sublist_nil_r in S as ->. exists []. split; reflexivity.
  - apply sublist_cons_r in S as [S | (log' & -> & S)]; destruct (IH _ S) as (shown & -> & S').
    + exists shown. split; [reflexivity | apply sublist_cons, S'].
    + exists (e :: shown). split; [reflexivity | apply sublist_skip, S'].
Qed.

Lemma walk_log_all notes : Forall (fun n => snd n = (true, true)) notes ->
  walk_log notes [] = enc_summary_entry <$> drop (length notes - MAX_WALK_SUMMARY_ENTRIES) (fst <$> notes).
Proof.
  intros A. unfold walk_log. rewrite fmap_zip_notes, relog_all; [| |apply Forall_fmap|cbn; lia].
  - unfold slice_last. cbn [app]. rewrite fmap_drop, !length_fmap. reflexivity.
  - rewrite !length_fmap. reflexivity.
  - eapply Forall_impl; [exact A|]. intros n E. symmetry. exact E.
Qed.

Lemma walk_log_cases notes : exists shown, walk_log notes [] = enc_summary_entry <$> shown
  /\ shown `sublist_of` (fst <$> notes)
  /\ (Forall (fun n => snd n = (true, true)) notes ->
      shown = drop (length notes - MAX_WALK_SUMMARY_ENTRIES) (fst <$> notes)).
Proof.
  destruct (decide (Forall (fun n => snd n = (true, true)) notes)) as [A|A].
  - eexists. split; [apply walk_log_all, A|]. split; [apply sublist_drop | reflexivity].
  - destruct (walk_log_shown notes) as (shown & E & S). exists shown. split; [exact E|]. split; [exact S|].
    contradiction.
Qed.

(** C32: The recap adds up.  A walk resolves encounters on the way, one after the other,
    starting with an empty log; any storage call may fail.  What is logged at the end, and
    what the drain then gives to the modal (all of it, or nothing and the log stays), are
    entries of fights of the walk, in their order, and every item in them is in the
    inventory.  If no append failed, they are the last 100 fights, all of them on a
    shorter walk, and the totals of the modal are what the player gained in those: fights
    fought and won, the experience with the levels it bought, and the items, which are
    exactly those added to the inventory; the rows are the fights, latest first. *)
Theorem recap_adds_up (fights : list (Z * RewardTier * Encounter)) (a : App) (p : Player) :
  playerRef (session a) = Some p -> wf_player p -> log_is (store a) [] ->
  Forall (fun f => creature_ok (e_creature (snd f))) fights -> fights <> [] ->
  rand_post (resolve_walk fights a) (fun r => exists p' shown,
    let (a', notes) := r in
    playerRef (session a') = Some p' /\ length notes = length fights
    /\ log_is (store a') (enc_summary_entry <$> shown) /\ shown `sublist_of` (fst <$> notes)
    /\ omap ws_item shown ⊆+ present (p_inventory p')
    /\ (fst (drainWalkSummary (store a')) = Some (enc_summary_entry <$> shown)
        \/ fst (drainWalkSummary (store a')) = Some []
           /\ log_is (snd (drainWalkSummary (store a'))) (enc_summary_entry <$> shown))
    /\ (Forall (fun n => snd n = (true, true)) notes ->
        exists rc pm, recap_of shown rc /\ adds_up rc pm p'
          /\ length shown = Nat.min MAX_WALK_SUMMARY_ENTRIES (length fights)
          /\ shown = drop (length fights - MAX_WALK_SUMMARY_ENTRIES) (fst <$> notes)
          /\ accounted (take (length fights - MAX_WALK_SUMMARY_ENTRIES) (fst <$> notes)) p pm
          /\ ((length fights <= MAX_WALK_SUMMARY_ENTRIES)%nat -> pm = p))).
Proof.
  intros P W L F N. eapply rand_post_weaken; [apply (walk_accounted fights F a p [] P W L eq_refl)|].
  intros [a' notes] (p' & Len & P' & L' & V' & K). cbn [fst snd] in *.
  destruct (walk_log_cases notes) as (shown & E & S & Es). exists p', shown. rewrite E in L', V'.
  split; [exact P'|]. split; [exact Len|]. split; [exact L'|]. split; [exact S|]. split; [|split].
  - destruct (K 0%nat) as (pm & _ & B & _). rewrite drop_0 in B.
    rewrite (ad_items _ _ _ B). apply submseteq_inserts_r.
    clear -S. induction S as [|x l l' _ IH|x l l' _ IH]; csimpl; [reflexivity|destruct (ws_item x)|destruct (ws_item x)];
      auto using submseteq_skip, submseteq_cons.
  - pose proof (drain_log (store a') _ L' V') as D. destruct (drainWalkSummary (store a')) as [r d'].
    cbn [fst snd]. destruct D as [(_ & -> & _)|[-> D]]; auto.
  - intros A. set (k := (length fights - MAX_WALK_SUMMARY_ENTRIES)%nat). destruct (K k) as (pm & B1 & B2 & B3).
    specialize (Es A). rewrite Len in Es. fold k in Es.
    assert (Ls : length shown = Nat.min MAX_WALK_SUMMARY_ENTRIES (length fights))
      by (rewrite Es, length_drop, length_fmap, Len; lia).
    rewrite <- Es in B2. destruct (recap_adds shown pm p') as (rc & R1 & R2); [|exact B2|].
    { intros ->. destruct fights; [congruence|]. cbn [length] in Ls. discriminate. }
    exists rc, pm. repeat (split; [assumption|]). intros X. apply B3. lia.
Qed.

End Walk.

Definition short_walk : list (Z * RewardTier * Encounter) :=
  [ (1, idle_tier, elite); (2, active_tier, elite) ].

Lemma recap_adds_up_witness :
  rand_post (resolve_walk short_walk (fresh_app [])) (fun r => exists p' shown,
    playerRef (session (fst r)) = Some p' /\ length (snd r) = 2%nat
    /\ log_is (store (fst r)) (enc_summary_entry <$> shown)).
Proof.
  eapply rand_post_weaken; [apply (recap_adds_up short_walk (fresh_app []) sample_player)|].
  - reflexivity.
  - apply sample_player_wf.
  - left. reflexivity.
  - repeat (apply Forall_cons_2; [apply elite_ok|]). apply Forall_nil_2.
  - discriminate.
  - intros [a' notes] (p' & shown & H1 & H2 & H3 & _). exists p', shown. auto.
Defined.

(** *** Buttons act *)

(** What a press of a button of the encounter modal comes to. *)
Definition acted (ev : Event) (enc : EncounterObj) (p : Player) (s' : Session) : Prop :=
  match ev with
  | EvFight =>
      showCombatModal s' = true /\ encounterRef s' = Some enc /\ playerRef s' = Some p
      /\ is_Some (playerCombatStateRef s') /\ is_Some (creatureCombatStateRef s')
  | EvFlee => encounterRef s' = None /\ playerRef s' = Some (fullHeal (incrementEncounters p))
  | _ =>
      encounterRef s' = None /\ exists p' rv, playerRef s' = Some p'
      /\ rewardRevealTimerRef s' = Some rv
      /\ rv_xpGained rv = activeCombatXp (getExperienceReward (eo_creature enc))
      /\ p_creaturesDefeated p' = p_creaturesDefeated p + 1
  end.

Lemma fight_acts now s enc p : encounterRef s = Some enc -> playerRef s = Some p ->
  player_isDefeated p = false -> isDefeated (eo_creature enc) = false ->
  rand_post (handleFight now s) (acted EvFight enc p).
Proof.
  intros E P D C. unfold handleFight. rewrite E, P, D, C. apply rand_post_ret. unfold acted. simpl.
  destruct (playerCombatStateRef s) eqn:S1; simpl; destruct (creatureCombatStateRef s) eqn:S2; simpl;
    rewrite ?S1, ?S2; eauto 10.
Qed.

(** A win of the fight [enc], whatever the modals show and however the creature fell. *)
Lemma win_acts now s enc p ev : ev = EvAutoResolve \/ ev = EvDebugDefeat ->
  (exists o, encounterRef s = Some o /\ creature_ok (eo_creature o)
    /\ getExperienceReward (eo_creature o) = getExperienceReward (eo_creature enc)) ->
  wf_player p -> victoryProcessedRef s = false ->
  rand_post (handleVictory now (Some p) s) (acted ev enc p).
Proof.
  intros Hev (o & E & C & X) W V.
  eapply rand_post_weaken; [apply handleVictory_cases|].
  - intros q [= <-]. exact W.
  - intros x Hx. congruence.
  - intros s' H. cbn [base_player] in H. rewrite E, V in H. simpl in H.
    destruct H as (p' & rv & H & ->). pose proof (wp_tally _ _ _ _ H) as T. injection T as _ _ T _.
    pose proof (wp_xp _ _ _ _ H) as Hx. rewrite X in Hx.
    destruct Hev as [-> | ->]; (split; [reflexivity|]; exists p', rv; auto).
Qed.

Lemma flee_acts s enc p : wf_player p -> encounterRef s = Some enc -> playerRef s = Some p ->
  fleeProcessedRef s = false -> counterPendingRef s = false -> acted EvFlee enc p (handleFlee s).
Proof.
  intros W E P F C. unfold handleFlee. rewrite F, C, E, P, clone_eq by exact W. split; reflexivity.
Qed.

Lemma button_cases debug c hp b : b ∈ encounter_buttons debug c hp -> btn_disabled b = false ->
  (isDefeated c = false /\ modal_playerDefeated hp = false
   /\ (btn_event b = EvDebugDefeat \/ btn_event b = EvFight
       \/ btn_event b = EvAutoResolve /\ canAutoResolve c = true))
  \/ btn_event b = EvFlee.
Proof.
  unfold encounter_buttons. intros Hb D.
  assert (isDefeated c || modal_playerDefeated hp = false -> isDefeated c = false
          /\ modal_playerDefeated hp = false) as Split by (apply orb_false_iff).
  destruct debug, (canAutoResolve c); simpl in Hb; repeat (apply elem_of_cons in Hb as [-> | Hb]; [simpl in D |- *; tauto|]);
    inversion Hb.
Qed.

(** A button that is not greyed out does what it says.  While the encounter modal shows
    an encounter, Fight opens the fight with both sides ready; Auto-Resolve, which is
    offered exactly for creatures below rare, and Instant Defeat win it and pay the same
    experience as the fight; Flee leaves it, counted, at full health. *)
Theorem modal_buttons_act (now : Z) (debug : bool) (s : Session) (enc : EncounterObj) (p : Player)
    (card : EncounterCard) (b : Button) :
  session_ok s -> encounterRef s = Some enc -> playerRef s = Some p ->
  fleeProcessedRef s = false -> counterPendingRef s = false ->
  encounter_modal debug s = Some card -> b ∈ ecard_buttons card -> btn_disabled b = false ->
  rand_post (dispatch now (btn_event b) s) (acted (btn_event b) enc p).
Proof.
  intros K E P F C M Hb D. pose proof (ok_player s K p P) as W. pose proof (ok_creature s K enc E) as Cr.
  assert (victoryProcessedRef s = false) as V.
  { destruct (victoryProcessedRef s) eqn:V; [|reflexivity]. apply (ok_victory s K) in V. congruence. }
  unfold encounter_modal in M. rewrite (ok_encounter_sync s K), E, P in M. injection M as <-.
  apply button_cases in Hb; [|exact D].
  destruct Hb as [(Dc & Dp & [-> | [-> | [-> Ar]]]) | ->].
  - cbn [dispatch]. unfold handleDebugDefeat. rewrite E, P, V, Dc. apply win_acts; auto.
    eexists. split; [reflexivity|]. split; [|reflexivity].
    apply takeDamage_ok; [|exact Cr]. unfold isDefeated in Dc. apply Z.leb_gt in Dc. lia.
  - apply fight_acts; auto.
  - cbn [dispatch]. unfold handleAutoResolve. rewrite P, E.
    unfold canAutoResolve in Ar. apply negb_true_iff in Ar. rewrite Ar. apply win_acts; eauto.
  - apply rand_post_ret, flee_acts; auto.
Qed.

Definition met : Session := presentEncounter (mkObj 0 (foe 20)) (initial_session (Some sample_player)
  <| nextObject := 1%nat |>).

Lemma met_ok : session_ok met.
Proof.
  apply presentEncounter_ok; [apply foe_20_ok | simpl; lia | reflexivity |].
  apply (fresh_ok _ (initial_session_ok (Some sample_player) ltac:(intros q [= <-]; apply sample_player_wf))).
Qed.

Lemma modal_buttons_act_witness :
  rand_post (dispatch 3 EvAutoResolve met) (acted EvAutoResolve (mkObj 0 (foe 20)) sample_player).
Proof.
  eapply (modal_buttons_act 3 false met (mkObj 0 (foe 20)) sample_player _
            (mkButton "Auto-Resolve" EvAutoResolve false) met_ok); try reflexivity.
  vm_compute. apply list_elem_of_further. apply list_elem_of_here.
Defined.

(** *** Numbers shown are the numbers had *)

(** The card of an archetype shows the health, attack and defence the character created
    from it starts with, and every archetype has one card. *)
Theorem archetype_card_truthful (a : Archetype) :
  List.filter (fun c => bool_decide (acard_archetype c = a)) archetype_screen = [archetype_card a]
  /\ let stats := getStats (fresh_player a) in
     acard_hp (archetype_card a) = ps_hp stats /\ acard_hp (archetype_card a) = ps_maxHp stats
     /\ acard_atk (archetype_card a) = ps_attack stats
     /\ acard_def (archetype_card a) = ps_defense stats.
Proof. destruct a; repeat split; vm_compute; reflexivity. Qed.

Lemma fraction_unit a b : 0 <= a <= b -> 0 < b -> (0 <= js_div (num a) (num b) <= 1)%Q.
Proof.
  intros Ha Hb. split; [apply js_div_nonneg; [apply num_nonneg; lia | apply num_pos, Hb]|].
  change 1%Q with (num 1). apply fl_num_le; [lia|]. apply Qle_shift_div_r; [apply num_pos, Hb|].
  rewrite Qmult_1_l. apply num_le. lia.
Qed.

(** The bars of a well-formed player stay in their frames. *)
Theorem bars_in_frame (p : Player) : wf_player p ->
  (0 <= progressPercentage (Some p) <= 100 /\ 0 <= hud_hpPercentage (Some p) <= 1
   /\ hud_hpPercentage (Some p) == modal_hpFraction (Some (p_hp p)) (Some (p_maxHp p)))%Q.
Proof.
  intros W. destruct (wf_experience p W) as [X0 X1]. pose proof (wf_hp p W) as H.
  unfold progressPercentage, hud_hpPercentage, modal_hpFraction, getExperienceForNextLevel. simpl.
  pose proof (exp_for_next_ge (p_level p)). unfold getExperienceForNextLevel.
  destruct (Z.ltb_spec 0 (exp_for_next (p_level p))); [|lia].
  pose proof (fraction_unit (p_experience p) (exp_for_next (p_level p)) ltac:(lia) ltac:(lia)) as [F0 F1].
  split; [split; [apply js_mul_nonneg; lra|]|split; [|reflexivity]].
  - change 100%Q with (num 100) at 2. apply fl_num_le; [lia|].
    change (num 100) with 100%Q.
    match goal with |- (?f * 100 <= 100)%Q => generalize dependent f end. intros f F0 F1. lra.
  - destruct (Z.ltb_spec 0 (p_maxHp p)); [apply fraction_unit; lia | lra].
Qed.

(** *** The conflict modal *)

Section Conflict.
Context `{AsyncStorage}.

(** The press that resolves a conflict also takes the modal down, so its spinner, which
    nothing resets, is never the last thing shown; and the guest's save is offered exactly
    when there is one. *)
Theorem conflict_modal_closes (now : Z) (choice : Choice) (w w' : AuthWorld)
    (c : PendingConflictRecord) :
  a_conflictState (auth w) = Some c -> a_conflictResolving (auth w) = false ->
  choice ∈ conflict_choices false c -> resolveConflict now choice w = Some w' ->
  a_conflictState (auth w') = None /\ a_conflictResolving (auth w') = false
  /\ (choice = choose_local -> is_Some (pc_localData c)).
Proof.
  intros C R O E. unfold resolveConflict in E. rewrite C, R in E.
  assert (choice = choose_local -> is_Some (pc_localData c)) as L.
  { intros ->. unfold conflict_choices in O. destruct (pc_localData c); [eauto|].
    apply elem_of_cons in O as [[=] | O]. inversion O. }
  split; [|split; [|exact L]].
  all: unfold write_or in E; destruct choice;
    [|destruct (pc_cloudData c); [destruct (writeLocalPlayerSnapshot _ _ _) as [[] ?]|]; injection E as <-; reflexivity].
  all: destruct (readLocalPlayerSnapshot _) as [fresh d]; simpl in E;
    destruct (local_choice now c fresh) as [[[data t]|]|]; simpl in E; try discriminate;
    [destruct (writeLocalPlayerSnapshot _ _ _) as [[] ?]|]; injection E as <-; reflexivity.
Qed.

End Conflict.

(** A save stamped by a clock that runs ahead is shown as saved a negative time ago. *)
Theorem timestamp_ahead : formatTimestamp 1700000000000 1700000300000 = "-5m ago".
Proof. vm_compute. reflexivity. Qed.

(** Distances just under a kilometre are rounded past the threshold of their unit. *)
Theorem distance_rounds_up :
  conflict_formatDistance (lit 999.6) = "1000 m" /\ conflict_formatDistance 1000 = "1.0 km"
  /\ formatShortDistance unit_km (lit 999.6) = "1000 m"
  /\ formatShortDistance unit_km 1234 = "1.23 km".
Proof. vm_compute. repeat split. Qed.

(** *** The settings *)

(** Exactly one way in or out of an account is offered at a time, Apple's only where it
    exists, and nothing while a call to the account service is under way. *)
Theorem account_actions_fit (platform : Platform) (user : option AuthUser) (loading : bool)
    (a : AccountAction) :
  a ∈ account_actions platform user loading <->
  loading = false /\ match a with
                     | act_google => isSignedIn user = false
                     | act_apple => isSignedIn user = false /\ platform = ios
                     | act_signOut => isSignedIn user = true
                     | act_delete => True
                     end.
Proof.
  unfold account_actions. destruct loading, (isSignedIn user), platform, a; simpl;
    rewrite ?elem_of_cons, ?elem_of_nil; intuition congruence.
Qed.

(** *** The reveal *)

(** The burst of any item launches particles of the pool only. *)
Theorem burst_in_pool (item : option Item) (v : Reveal) :
  length (rvw_particles v) = POOL_SIZE -> Forall is_Some (burst item v).
Proof.
  intros L. unfold burst. destruct item as [it|]; [|constructor].
  apply Forall_fmap, Forall_forall. intros i Hi. apply elem_of_seq in Hi.
  apply lookup_lt_is_Some. rewrite L. destruct (it_rarity it); simpl in Hi |- *; unfold POOL_SIZE; lia.
Qed.

(** A reveal is hidden at its first paint whatever the last one left, and is never reset
    while it plays. *)
Theorem reveal_resets_once (o : nat) (v v' : Reveal) :
  let first := render_reveal (Some o) v in
  rvw_shown v <> Some o ->
  (rvw_cardOpacity first = 0%Q /\ rvw_promptOpacity first = 0%Q
   /\ Forall (fun x => x = hidden_particle) (rvw_particles first)
   /\ rvw_seq first = rvw_seq v + 1)
  /\ (rvw_shown v' = rvw_shown first -> render_reveal (Some o) (render_reveal None v') = v').
Proof.
  cbv zeta. intros N. unfold render_reveal at 1 2 3 4 5. destruct (decide _); [contradiction|]. simpl.
  split; [repeat split; apply Forall_fmap, Forall_true; reflexivity|].
  intros ->. destruct (decide _); [reflexivity | contradiction].
Qed.
