(* ===== verification/Telemetry.v ===== *)
(** * Telemetry: what the app reports about itself

    [src/utils/logger.ts], [src/services/CrashlyticsService.ts],
    [src/services/AnalyticsService.ts], [src/services/FirebaseService.ts] with the effect
    of [App.tsx] that starts it, and [src/components/common/ErrorBoundary.tsx].

    The Firebase SDK is an interface: a call either goes through or throws, as the SDK
    decides.  [console] collects what is printed.  An exception is its message.  The last
    part puts the analytics calls back into the two handlers of [useEncounter] that make
    them between computing a reward and saving it. *)
From stdpp Require Import base decidable strings list pretty.
From Stdlib Require Import ZArith QArith Lia.
From S2P Require Import Prelude JsNumber Random Combat Archetype Ability CombatFeed Creature Config Item Player.
From S2P Require Import Loot AutoCombat Encounter Json Storage CombatSession SessionInvariant.
From S2P Require Import EncounterFlow.
Local Open Scope Z_scope.

(** ** The SDK *)

Inductive Param := PStr (s : string) | PNum (n : Z) | PBool (b : bool).

Inductive SdkCall :=
  | GetCrashlytics
  | SetCollectionEnabled (enabled : bool)
  | CrashLog (message : string)
  | CrashAttribute (key value : string)
  | CrashUser (uid : string)
  | CrashRecord (message : string) (name : option string)
  | Crash
  | GetAnalytics
  | LogEvent (name : string) (params : list (string * Param))
  | LogLogin (method : string).

(** [sdk_call c x]: [None] when the call goes through, else the message it throws (or its
    promise rejects) with. *)
Class TelemetrySdk := {
  native : Type;
  sdk_call : SdkCall -> native -> option string * native
}.

Inductive Level := Debug | Log | Info | Warn | Error.

Section Services.
Context `{TelemetrySdk}.

(** The SDK, the console, and the field of [CrashlyticsService]. *)
Record Reporter := mkReporter {
  sdk : native;
  console : list (Level * string);
  crashlytics_initialized : bool
}.

(** A synchronous run: a value or an exception. *)
Definition R (A : Type) : Type := Reporter -> (string + A) * Reporter.

Definition r_ret {A} (a : A) : R A := fun s => (inr a, s).
Definition r_throw {A} (e : string) : R A := fun s => (inl e, s).
Definition r_bind {A B} (m : R A) (f : A -> R B) : R B := fun s =>
  match m s with (inr a, s) => f a s | (inl e, s) => (inl e, s) end.
Definition r_catch {A} (m : R A) (h : string -> R A) : R A := fun s =>
  match m s with (inl e, s) => h e s | r => r end.

Definition print (l : Level) (text : string) : R unit := fun s =>
  (inr tt, mkReporter (sdk s) (console s ++ [(l, text)]) (crashlytics_initialized s)).

Definition call_sdk (c : SdkCall) : R unit := fun s =>
  let (r, x) := sdk_call c (sdk s) in
  (match r with None => inr tt | Some e => inl e end,
   mkReporter x (console s) (crashlytics_initialized s)).

Definition set_initialized : R unit := fun s => (inr tt, mkReporter (sdk s) (console s) true).

End Services.

Declare Scope reporter_scope.
Notation "'then!' m ';' f" := (r_bind m (fun _ => f)) (at level 10, m at level 100, f at level 200) : reporter_scope.
Local Open Scope reporter_scope.

(** ** Crashlytics *)

Section Crashlytics.
Context `{TelemetrySdk}.

(** [f(getCrashlytics(), ...)] *)
Definition on_crashlytics (c : SdkCall) : R unit := then! call_sdk GetCrashlytics; call_sdk c.

(** [try { m } catch (error) { console.error(label, error) }] *)
Definition swallow (label : string) (m : R unit) : R unit :=
  r_catch m (fun e => print Error (label +:+ " " +:+ e)).

(** [dev] is [__DEV__]. *)
Definition crash_initialize (dev : bool) : R unit := fun s =>
  if crashlytics_initialized s then (inr tt, s)
  else
    r_catch
      (then! (if dev then on_crashlytics (SetCollectionEnabled true) else r_ret tt); set_initialized)
      (fun e => then! print Error ("Error initializing Crashlytics: " +:+ e); r_throw e) s.

Definition crash_log (message : string) : R unit :=
  swallow "Error logging to Crashlytics:" (on_crashlytics (CrashLog message)).

(** [String(value)] *)
Definition param_string (v : Param) : string :=
  match v with
  | PStr s => s
  | PNum n => pretty n
  | PBool b => if b then "true" else "false"
  end.

Definition crash_setAttribute (key : string) (value : Param) : R unit :=
  swallow "Error setting Crashlytics attribute:" (on_crashlytics (CrashAttribute key (param_string value))).

Definition crash_setUserId (userId : string) : R unit :=
  swallow "Error setting Crashlytics user ID:" (on_crashlytics (CrashUser userId)).

(** [error] is the message of the [Error], or the string one is made from. *)
Definition recordError (error : string) (jsErrorName : option string) : R unit :=
  swallow "Error recording error to Crashlytics:" (on_crashlytics (CrashRecord error jsErrorName)).

Definition setCollectionEnabled (enabled : bool) : R unit :=
  swallow "Error setting Crashlytics collection enabled:" (on_crashlytics (SetCollectionEnabled enabled)).

Fixpoint for_each {A} (l : list A) (f : A -> R unit) : R unit :=
  match l with [] => r_ret tt | a :: l => then! f a; for_each l f end.

Definition setAttributes (attributes : list (string * Param)) : R unit :=
  swallow "Error setting Crashlytics attributes:"
    (for_each attributes (fun e => crash_setAttribute (fst e) (snd e))).

(** [environmentName.toUpperCase()] *)
Definition environment_upper (env : AppEnvironment) : string :=
  match env with development => "DEVELOPMENT" | testing => "TESTING" | production => "PRODUCTION" end.

Definition forceCrash (env : AppEnvironment) : R unit :=
  if negb (enableCrashTest (ENV_CONFIG env))
  then print Warn "Crash test is only available in development or testing builds"
  else
    r_catch
      (then! on_crashlytics (SetCollectionEnabled true);
       then! print Warn ("⚠️ Forcing crash for testing (" +:+ environment_upper env +:+ " MODE)...");
       then! print Warn "Crashlytics collection enabled, crashing now...";
       on_crashlytics Crash)
      (fun e => then! print Error ("Error enabling Crashlytics collection or crashing: " +:+ e);
                r_throw e).

(** ** The logger *)

(** An argument of a log call: an [Error], a string, or another value with what
    [JSON.stringify] makes of it ([None] when it throws) and what [String] makes of it.
    [JSON.stringify(undefined)] is [undefined], which joins as the empty text. *)
Inductive LogArg :=
  | ArgError (message : string)
  | ArgString (s : string)
  | ArgValue (json_text : option string) (display : string).

Definition isProd (env : AppEnvironment) : bool := bool_decide (env = production).

Definition safeStringify (a : LogArg) : string :=
  match a with
  | ArgError message => message
  | ArgString s => s
  | ArgValue (Some text) _ => text
  | ArgValue None display => display
  end.

Definition toMessage (args : list LogArg) : string :=
  String.concat " " ((fun a => match a with ArgError message => message | _ => safeStringify a end) <$> args).

Definition firstError (args : list LogArg) : option string :=
  List.hd_error (omap (fun a => match a with ArgError message => Some message | _ => None end) args).

Definition to_console (env : AppEnvironment) (l : Level) (args : list LogArg) : R unit :=
  if isProd env then r_ret tt else print l (toMessage args).

Definition logger_debug (env : AppEnvironment) (args : list LogArg) : R unit := to_console env Debug args.
Definition logger_log (env : AppEnvironment) (args : list LogArg) : R unit := to_console env Log args.
Definition logger_info (env : AppEnvironment) (args : list LogArg) : R unit := to_console env Info args.

Definition logger_warn (env : AppEnvironment) (args : list LogArg) : R unit :=
  then! to_console env Warn args; crash_log ("WARN: " +:+ toMessage args).

Definition logger_error (env : AppEnvironment) (args : list LogArg) : R unit :=
  then! to_console env Error args; recordError (default (toMessage args) (firstError args)) None.

End Crashlytics.

(** ** Analytics *)

(** One constructor per method of [AnalyticsService]. *)
Inductive AnalyticsEvent :=
  | encounterTriggered (creatureName : string) (creatureLevel playerLevel : Z)
  | combatStarted (creatureName : string) (playerLevel : Z)
  | combatVictory (creatureName : string) (playerLevel xpGained : Z) (itemDropped_ leveledUp : bool)
  | itemDropped (rarity slot : string) (itemLevel playerLevel : Z)
  | combatDefeated (creatureName : string) (playerLevel : Z)
  | combatFled (creatureName : string) (playerLevel : Z)
  | distanceMilestone (milestoneMeter : Z) (totalDistanceMeter : Q)
  | playerSessionStart (playerLevel : Z) (totalDistanceMeter : Q)
  | levelUp (newLevel : Z)
  | trackingStarted
  | trackingStopped
  | signIn (method : string)
  | signOut
  | accountDeleted.

Definition event_name (ev : AnalyticsEvent) : string :=
  match ev with
  | encounterTriggered _ _ _ => "encounter_triggered"
  | combatStarted _ _ => "combat_started"
  | combatVictory _ _ _ _ _ => "combat_victory"
  | itemDropped _ _ _ _ => "item_dropped"
  | combatDefeated _ _ => "combat_defeat"
  | combatFled _ _ => "combat_fled"
  | distanceMilestone _ _ => "distance_milestone"
  | playerSessionStart _ _ => "player_session_start"
  | levelUp _ => "level_up"
  | trackingStarted => "tracking_started"
  | trackingStopped => "tracking_stopped"
  | signIn _ => "sign_in"
  | signOut => "sign_out"
  | accountDeleted => "account_deleted"
  end.

Definition event_params (ev : AnalyticsEvent) : list (string * Param) :=
  match ev with
  | encounterTriggered name clevel plevel =>
      [("creature_name", PStr name); ("creature_level", PNum clevel); ("player_level", PNum plevel)]
  | combatStarted name plevel | combatDefeated name plevel | combatFled name plevel =>
      [("creature_name", PStr name); ("player_level", PNum plevel)]
  | combatVictory name plevel xp dropped leveled =>
      [("creature_name", PStr name); ("player_level", PNum plevel); ("xp_gained", PNum xp);
       ("item_dropped", PBool dropped); ("leveled_up", PBool leveled)]
  | itemDropped rarity slot ilevel plevel =>
      [("rarity", PStr rarity); ("slot", PStr slot); ("item_level", PNum ilevel);
       ("player_level", PNum plevel)]
  | distanceMilestone milestone total =>
      [("milestone_m", PNum milestone); ("total_distance_m", PNum (math_round total))]
  | playerSessionStart plevel total =>
      [("player_level", PNum plevel); ("total_distance_m", PNum (math_round total))]
  | levelUp level => [("new_level", PNum level)]
  | _ => []
  end%string.

Section Analytics.
Context `{TelemetrySdk}.

(** [log]: the SDK's handle is an argument of the call, so it is fetched before there is a
    promise; what the promise rejects with is only warned about. *)
Definition analytics_log (env : AppEnvironment) (name : string) (params : list (string * Param)) : R unit :=
  then! call_sdk GetAnalytics;
  r_catch (call_sdk (LogEvent name params))
    (fun e => logger_warn env [ArgString "Analytics:"; ArgString name; ArgError e]).

Definition track (env : AppEnvironment) (ev : AnalyticsEvent) : R unit :=
  match ev with
  | signIn method =>
      then! call_sdk GetAnalytics;
      r_catch (call_sdk (LogLogin method))
        (fun e => logger_warn env [ArgString "Analytics: sign_in"; ArgError e])
  | _ => analytics_log env (event_name ev) (event_params ev)
  end.

(** ** Firebase *)

(** What [getApps()] and [getApp()] answer: no app yet, or an app, which is usable when its
    options have a project. *)
Inductive Apps := no_apps | apps (usable : bool).

(** A run of [_doInitialize]: waiting for its timer with so many retries left, waiting for
    Crashlytics, or over. *)
Inductive InitRun := Polling (retries : nat) | StartingCrashlytics | Resolved | Rejected.

(** The service: [initializationPromise] is the index of its run among all the runs. *)
Record Firebase := mkFirebase {
  fb_initialized : bool;
  fb_promise : option nat;
  fb_runs : list InitRun;
  fb_reporter : Reporter
}.

Definition INIT_RETRIES : nat := 10.

(** The loop's test and what follows it, up to the next [await] or to the exception. *)
Definition poll (seen : Apps) (retries : nat) : InitRun :=
  match seen with
  | no_apps => if (0 <? retries)%nat then Polling retries else Rejected
  | apps true => StartingCrashlytics
  | apps false => Rejected
  end.

(** What is logged when a run is rejected. *)
Definition report_failure (env : AppEnvironment) (seen : Apps) : R unit :=
  match seen with
  | no_apps =>
      then! logger_error env [ArgString "Firebase initialization failed:"; ArgString "Firebase apps array is empty"];
      logger_error env [ArgString "Error initializing Firebase:"; ArgError "Firebase apps array is empty"]
  | apps _ =>
      logger_error env [ArgString "Error initializing Firebase:"; ArgError "Firebase project ID is missing"]
  end.

Definition reported (env : AppEnvironment) (seen : Apps) (run : InitRun) (r : Reporter) : Reporter :=
  match run with Rejected => snd (report_failure env seen r) | _ => r end.

(** [initialize]: the run it returns the promise of, if it does not return at once.  The
    assignment of the promise comes after the synchronous part of the run, and so after the
    [catch] that resets it. *)
Definition fb_initialize (env : AppEnvironment) (seen : Apps) (f : Firebase) : option nat * Firebase :=
  if fb_initialized f then (None, f)
  else
    match fb_promise f with
    | Some n => (Some n, f)
    | None =>
        let n := length (fb_runs f) in
        let run := poll seen INIT_RETRIES in
        (Some n, mkFirebase false (Some n) (fb_runs f ++ [run]) (reported env seen run (fb_reporter f)))
    end.

(** The 100 ms timer of run [n]. *)
Definition fb_timer (env : AppEnvironment) (seen : Apps) (n : nat) (f : Firebase) : Firebase :=
  match fb_runs f !! n with
  | Some (Polling retries) =>
      let run := poll seen (retries - 1) in
      mkFirebase (fb_initialized f)
        (match run with Rejected => None | _ => fb_promise f end)
        (<[n := run]> (fb_runs f)) (reported env seen run (fb_reporter f))
  | _ => f
  end.

(** [CrashlyticsService.initialize] has answered. *)
Definition fb_crashlytics (env : AppEnvironment) (dev : bool) (n : nat) (f : Firebase) : Firebase :=
  match fb_runs f !! n with
  | Some StartingCrashlytics =>
      let start := r_catch (crash_initialize dev) (fun e =>
        logger_warn env [ArgString "Crashlytics initialization failed (non-critical):"; ArgError e]) in
      mkFirebase true (fb_promise f) (<[n := Resolved]> (fb_runs f)) (snd (start (fb_reporter f)))
  | _ => f
  end.

(** [getApp] and [getOptions] throw before initialization. *)
Definition fb_getApp (f : Firebase) : string + unit :=
  if fb_initialized f then inr tt
  else inl "Firebase has not been initialized. Call initialize() first."%string.

Inductive FirebaseEvent :=
  | FInitialize (seen : Apps)
  | FTimer (seen : Apps) (n : nat)
  | FCrashlytics (n : nat).

Definition fb_step (env : AppEnvironment) (dev : bool) (f : Firebase) (ev : FirebaseEvent) : Firebase :=
  match ev with
  | FInitialize seen => snd (fb_initialize env seen f)
  | FTimer seen n => fb_timer env seen n f
  | FCrashlytics n => fb_crashlytics env dev n f
  end.

Definition fb_run (env : AppEnvironment) (dev : bool) (evs : list FirebaseEvent) (f : Firebase) : Firebase :=
  fold_left (fb_step env dev) evs f.

Definition new_Firebase (r : Reporter) : Firebase := mkFirebase false None [] r.

(** ** The error boundary *)

Record Boundary := mkBoundary { hasError : bool; boundary_error : option string; boundary_reporter : Reporter }.

Definition getDerivedStateFromError (e : string) (b : Boundary) : Boundary :=
  mkBoundary true (Some e) (boundary_reporter b).

Definition componentDidCatch (env : AppEnvironment) (e stack : string) (b : Boundary) : Boundary :=
  mkBoundary (hasError b) (boundary_error b)
    (snd ((then! recordError e (Some "ReactRenderError");
           logger_debug env [ArgString "ErrorBoundary caught a render error:"; ArgError e; ArgString stack])
            (boundary_reporter b))).

Definition boundary_reset (b : Boundary) : Boundary := mkBoundary false None (boundary_reporter b).

(** A render below the boundary throws: React calls both methods. *)
Definition boundary_catches (env : AppEnvironment) (e stack : string) (b : Boundary) : Boundary :=
  componentDidCatch env e stack (getDerivedStateFromError e b).

(** Whether the game is on screen; else the apology, with the error in development. *)
Definition boundary_renders (dev : bool) (b : Boundary) : unit + option string :=
  if hasError b then inr (if dev then boundary_error b else None) else inl tt.

End Analytics.

(** ** The handlers that report *)

Section Handlers.
Context `{TelemetrySdk}.

Definition item_event (it : Item) (playerLevel : Z) : AnalyticsEvent :=
  itemDropped (rarity_name (it_rarity it)) (item_type_name (it_type it)) (it_level it) playerLevel.

Definition track_item (env : AppEnvironment) (item : option Item) (playerLevel : Z) : R unit :=
  match item with Some it => track env (item_event it playerLevel) | None => r_ret tt end.

Definition track_level (env : AppEnvironment) (leveledUp : bool) (level : Z) : R unit :=
  if leveledUp then track env (levelUp level) else r_ret tt.

(** [handleVictory] up to the reward: the victory is marked and the pending beats are gone. *)
Definition victory_opened (s : Session) : Session :=
  let s := s <| victoryProcessedRef := true |> in
  let s := pushLog l_defeat CPlayer (Some CCreature) None None None None None s in
  let s := s <| killBeatTimerRef := None |> <| killBeatPendingRef := false |> in
  cancelCounterBeat s.

(** The save and the tear-down, before the reveal is armed. *)
Definition victory_saved (p : Player) (s : Session) : Session :=
  torn_down (setPlayerAndSave p (victory_opened s)) <| fleeProcessedRef := false |>.

(** [handleVictory] with its reports, from the computed reward on: how it ends, the session
    and the reporter. *)
Definition victory_reported (env : AppEnvironment) (base updatedPlayer : Player) (reveal : RewardReveal)
    (s : Session) (r : Reporter) : (string + unit) * Session * Reporter :=
  match track_item env (rv_item reveal) (rv_newLevel reveal) r with
  | (inl e, r) => (inl e, victory_opened s, r)
  | (inr _, r) =>
      let s := victory_saved updatedPlayer s in
      let reports :=
        then! track env (combatVictory (rv_creatureName reveal) (p_level base) (rv_xpGained reveal)
                (bool_decide (is_Some (rv_item reveal))) (rv_leveledUp reveal));
        track_level env (rv_leveledUp reveal) (rv_newLevel reveal) in
      match reports r with
      | (inl e, r) => (inl e, s, r)
      | (inr _, r) => (inr tt, s <| rewardRevealTimerRef := Some reveal |>, r)
      end
  end.

Definition handleVictory_reported (env : AppEnvironment) (now : Z) (playerToUse : option Player)
    (s : Session) (r : Reporter) : Rand ((string + unit) * Session * Reporter) :=
  match encounterRef s, base_player playerToUse s with
  | Some enc, Some basePlayer =>
      if victoryProcessedRef s then rand_ret (inr tt, s, r)
      else
        let! paid := victory_rewards now basePlayer (eo_creature enc) (forceItemDrop s)
                       (forcedRarity s) in
        rand_ret (victory_reported env basePlayer (fst paid) (snd paid) s r)
  | _, _ => rand_ret (inr tt, s, r)
  end.

Context `{AsyncStorage}.

(** [resolvePassiveEncounter] with its reports, from the computed reward on.  [addExperience]
    returns the difference of the levels. *)
Definition passive_reported (env : AppEnvironment) (base updatedPlayer : Player) (entry : WalkSummaryEntry)
    (a : App) (r : Reporter) : (string + unit) * App * Reporter :=
  match track_item env (ws_item entry) (p_level updatedPlayer) r with
  | (inl e, r) => (inl e, a, r)
  | (inr _, r) =>
      let a := a <| session := setPlayerAndSave updatedPlayer (session a) |> in
      match track_level env (p_level base <? p_level updatedPlayer) (p_level updatedPlayer) r with
      | (inl e, r) => (inl e, a, r)
      | (inr _, r) =>
          (inr tt, a <| store := snd (appendWalkSummaryEntry entry (store a)) |>, r)
      end
  end.

Definition resolvePassive_reported (env : AppEnvironment) (now : Z) (encounter : Encounter)
    (rewardTier : RewardTier) (a : App) (r : Reporter) : Rand ((string + unit) * App * Reporter) :=
  match playerRef (session a) with
  | None => rand_ret (inr tt, a, r)
  | Some basePlayer =>
      let! paid := passive_rewards now rewardTier basePlayer (e_creature encounter) in
      rand_ret (passive_reported env basePlayer (fst paid) (snd paid) a r)
  end.

End Handlers.

(** ** Nothing a report does is felt *)

Section Silent.
Context `{TelemetrySdk}.

(** A run that never throws, whatever the SDK does. *)
Definition silent {A} (m : R A) : Prop := forall s, exists a, fst (m s) = inr a.

Lemma silent_ret {A} (a : A) : silent (r_ret a).
Proof. intros s. exists a. reflexivity. Qed.

Lemma silent_print l t : silent (print l t).
Proof. intros s. exists tt. reflexivity. Qed.

Lemma silent_bind {A B} (m : R A) (f : A -> R B) : silent m -> (forall a, silent (f a)) -> silent (r_bind m f).
Proof.
  intros Hm Hf s. unfold r_bind. specialize (Hm s). destruct (m s) as [r s'], Hm as [a E].
  simpl in E. subst r. apply Hf.
Qed.

Lemma silent_catch {A} (m : R A) h : (forall e, silent (h e)) -> silent (r_catch m h).
Proof.
  intros Hh s. unfold r_catch. destruct (m s) as [[e|a] s']; [apply Hh | exists a; reflexivity].
Qed.

Lemma silent_swallow l m : silent (swallow l m).
Proof. apply silent_catch. intros e. apply silent_print. Qed.

Lemma silent_for_each {A} (l : list A) f : (forall a, silent (f a)) -> silent (for_each l f).
Proof.
  intros Hf. induction l as [|a l IH]; [apply silent_ret|]. apply silent_bind; [apply Hf|]. intros _. exact IH.
Qed.

Lemma silent_console env l args : silent (to_console env l args).
Proof. unfold to_console. destruct (isProd env); [apply silent_ret | apply silent_print]. Qed.

Lemma silent_warn env args : silent (logger_warn env args).
Proof. apply silent_bind; [apply silent_console|]. intros _. apply silent_swallow. Qed.

Lemma silent_error env args : silent (logger_error env args).
Proof. apply silent_bind; [apply silent_console|]. intros _. apply silent_swallow. Qed.

End Silent.

Create HintDb report.
#[export] Hint Resolve silent_ret silent_print silent_swallow silent_console silent_warn silent_error
  silent_for_each : report.

Section Theorems.
Context `{TelemetrySdk}.

(** Crash reports and logging never throw, whatever the SDK does. *)
Theorem reporting_never_throws (env : AppEnvironment) (args : list LogArg) (message key uid : string)
    (v : Param) (name : option string) (b : bool) (attributes : list (string * Param)) :
  silent (logger_debug env args) /\ silent (logger_log env args) /\ silent (logger_info env args)
  /\ silent (logger_warn env args) /\ silent (logger_error env args)
  /\ silent (crash_log message) /\ silent (crash_setAttribute key v) /\ silent (crash_setUserId uid)
  /\ silent (recordError message name) /\ silent (setCollectionEnabled b)
  /\ silent (setAttributes attributes).
Proof.
  repeat match goal with |- _ /\ _ => split end;
    first [apply silent_console | apply silent_warn | apply silent_error | apply silent_swallow].
Qed.

(** An analytics call throws exactly when the SDK has no handle to give: a rejected event is
    only warned about. *)
Theorem analytics_throws_iff (env : AppEnvironment) (ev : AnalyticsEvent) (s : Reporter) (e : string) :
  fst (track env ev s) = inl e <-> fst (sdk_call GetAnalytics (sdk s)) = Some e.
Proof.
  assert (forall c h, (forall e, silent (h e)) ->
    fst ((then! call_sdk GetAnalytics; r_catch (call_sdk c) h) s) = inl e
    <-> fst (sdk_call GetAnalytics (sdk s)) = Some e) as K.
  { intros c h Hh. unfold r_bind, call_sdk at 1.
    destruct (sdk_call GetAnalytics (sdk s)) as [[e'|] x]; simpl; [split; congruence|].
    match goal with |- context [r_catch ?m h ?u] => destruct (silent_catch m h Hh u) as [a ->] end.
    split; discriminate. }
  destruct ev; apply K; auto with report.
Qed.

(** In a public release the quiet levels do nothing at all. *)
Theorem production_is_quiet (args : list LogArg) (s : Reporter) :
  snd (logger_debug production args s) = s /\ snd (logger_log production args s) = s
  /\ snd (logger_info production args s) = s.
Proof. repeat split. Qed.

(** *** Starting Firebase *)

Record fb_ok (f : Firebase) : Prop := {
  fbo_single : forall n r, fb_runs f !! n = Some r -> r <> Resolved -> r <> Rejected ->
    fb_promise f = Some n /\ fb_initialized f = false;
  fbo_retries : forall n k, fb_runs f !! n = Some (Polling k) -> (0 < k <= INIT_RETRIES)%nat;
  fbo_done : fb_initialized f = true -> exists n, fb_promise f = Some n /\ fb_runs f !! n = Some Resolved;
  fbo_promise : forall n, fb_promise f = Some n -> is_Some (fb_runs f !! n)
}.

Lemma poll_retries seen k r : poll seen r = Polling k -> k = r /\ (0 < r)%nat.
Proof.
  destruct seen as [|[]]; simpl; try discriminate.
  destruct (Nat.ltb_spec 0 r); intros [= <-]; auto.
Qed.

Lemma poll_open seen r : poll seen r <> Resolved.
Proof. destruct seen as [|[]]; simpl; try discriminate. destruct (Nat.ltb_spec 0 r); discriminate. Qed.

Lemma initialize_fb_ok env seen f : fb_ok f -> fb_ok (snd (fb_initialize env seen f)).
Proof.
  intros K. unfold fb_initialize. destruct (fb_initialized f) eqn:I; [exact K|].
  destruct (fb_promise f) as [n|] eqn:E; [exact K|]. destruct K as [S T D P].
  constructor; cbn [snd fb_promise fb_initialized fb_runs]; [| |discriminate|].
  - intros m r [Hm|[Hm Hr]]%lookup_app_Some N1 N2;
    [destruct (S m r Hm N1 N2) as [C _]; rewrite E in C; discriminate C|].
    apply list_lookup_singleton_Some in Hr as [Hr _]. split; [f_equal; lia | reflexivity].
  - intros m k [Hm|[Hm Hr]]%lookup_app_Some; [apply (T m k Hm)|].
    apply list_lookup_singleton_Some in Hr as [_ Hr]. apply poll_retries in Hr as [-> Hk].
    unfold INIT_RETRIES in *. lia.
  - intros m [= <-]. rewrite lookup_app_r, Nat.sub_diag by lia. eauto.
Qed.

(** Replacing the open run leaves at most that one open. *)
Lemma open_replaced f n r0 run : fb_ok f -> fb_runs f !! n = Some r0 -> r0 <> Resolved -> r0 <> Rejected ->
  forall m r, <[n:=run]> (fb_runs f) !! m = Some r -> r <> Resolved -> r <> Rejected -> m = n /\ r = run.
Proof.
  intros K E O1 O2 m r Hm N1 N2. apply list_lookup_insert_Some in Hm as [(-> & <- & _) | [N Hm]]; [auto|].
  destruct (fbo_single f K m r Hm N1 N2) as [P1 _], (fbo_single f K n r0 E O1 O2) as [P2 _]. congruence.
Qed.

Lemma timer_fb_ok env seen n f : fb_ok f -> fb_ok (fb_timer env seen n f).
Proof.
  intros K. unfold fb_timer. destruct (fb_runs f !! n) as [[k| | |]|] eqn:E; try exact K.
  pose proof (open_replaced f n _ (poll seen (k - 1)) K E) as U.
  destruct K as [S T D P]. destruct (S n _ E) as [Pn In]; try discriminate. pose proof (T n k E) as Hk.
  constructor; simpl; [| |congruence|].
  - intros m r Hm N1 N2. apply U in Hm as [-> ->]; auto; try discriminate.
    destruct (poll seen (k - 1)); auto. congruence.
  - intros m j Hm. apply U in Hm as [-> Hj]; try discriminate. symmetry in Hj.
    apply poll_retries in Hj as [-> ?]. lia.
  - intros m Hm. apply list_lookup_insert_is_Some, P. destruct (poll seen (k - 1)); congruence.
Qed.

Lemma crashlytics_fb_ok env dev n f : fb_ok f -> fb_ok (fb_crashlytics env dev n f).
Proof.
  intros K. unfold fb_crashlytics. destruct (fb_runs f !! n) as [[k| | |]|] eqn:E; try exact K.
  pose proof (open_replaced f n _ Resolved K E) as U.
  destruct K as [S T D P]. destruct (S n _ E) as [Pn In]; try discriminate.
  constructor; simpl.
  - intros m r Hm N1 N2. apply U in Hm as [-> ->]; auto; try discriminate. congruence.
  - intros m j Hm. apply U in Hm as [-> Hj]; discriminate.
  - intros _. exists n. split; [exact Pn | apply list_lookup_insert_eq; eapply lookup_lt_Some, E].
  - intros m Hm. apply list_lookup_insert_is_Some, P, Hm.
Qed.

Lemma fb_run_ok env dev evs : forall f, fb_ok f -> fb_ok (fb_run env dev evs f).
Proof.
  induction evs as [|[seen|seen n|n] evs IH]; intros f K; simpl; [exact K|..]; apply IH; simpl;
    auto using initialize_fb_ok, timer_fb_ok, crashlytics_fb_ok.
Qed.

Lemma new_fb_ok r : fb_ok (new_Firebase r).
Proof. constructor; simpl; [intros n x; rewrite lookup_nil; discriminate.. | discriminate | discriminate]. Qed.

(** Runs still under way. *)
Definition is_open (r : InitRun) : bool := match r with Resolved | Rejected => false | _ => true end.
Definition fb_open (f : Firebase) : list InitRun := List.filter is_open (fb_runs f).

(** A list with at most one element of a kind. *)
Lemma filter_one {A} (p : A -> bool) (l : list A) k :
  (forall n a, l !! n = Some a -> p a = true -> n = k) -> (length (List.filter p l) <= 1)%nat.
Proof.
  revert k. induction l as [|a l IH]; intros k Hk; simpl; [lia|].
  destruct (p a) eqn:E; simpl.
  - assert (List.filter p l = []) as ->; [|simpl; lia].
    pose proof (Hk O a eq_refl E) as <-. clear IH.
    assert (forall n b, l !! n = Some b -> p b = false) as F.
    { intros n b Hb. destruct (p b) eqn:B; [|reflexivity]. specialize (Hk (S n) b Hb B). discriminate. }
    clear Hk E. induction l as [|b l IH]; simpl; [reflexivity|].
    rewrite (F O b eq_refl). apply IH. intros n c Hc. exact (F (S n) c Hc).
  - apply (IH (k - 1)%nat). intros n b Hb B. specialize (Hk (S n) b Hb B). lia.
Qed.

(** Firebase is started once at a time: in every reachable state at most one run of the
    start-up is under way; a call made meanwhile joins it instead of starting another; and
    once the start-up has succeeded no run is left and further calls return at once. *)
Theorem firebase_single_flight (env : AppEnvironment) (dev : bool) (evs : list FirebaseEvent) (r : Reporter) :
  let f := fb_run env dev evs (new_Firebase r) in
  (length (fb_open f) <= 1)%nat
  /\ (forall n run seen, fb_runs f !! n = Some run -> is_open run = true ->
        fb_initialize env seen f = (Some n, f))
  /\ (fb_initialized f = true -> fb_open f = [] /\ forall seen, fb_initialize env seen f = (None, f)).
Proof.
  cbv zeta. pose proof (fb_run_ok env dev evs _ (new_fb_ok r)) as K.
  set (f := fb_run env dev evs (new_Firebase r)) in *. clearbody f.
  assert (forall n run, fb_runs f !! n = Some run -> is_open run = true ->
    fb_promise f = Some n /\ fb_initialized f = false) as Op
    by (intros n run E O; apply (fbo_single f K n run E); intros ->; discriminate).
  split; [|split].
  - apply filter_one with (k := default O (fb_promise f)). intros n run E Hr.
    destruct (Op n run E Hr) as [-> _]. reflexivity.
  - intros n run seen E Hr. destruct (Op n run E Hr) as [P I]. unfold fb_initialize. rewrite I, P. reflexivity.
  - intros I. split; [|intros seen; unfold fb_initialize; rewrite I; reflexivity].
    unfold fb_open. destruct (List.filter is_open (fb_runs f)) as [|x l] eqn:E; [reflexivity|].
    assert (In x (List.filter is_open (fb_runs f))) as Hx by (rewrite E; left; reflexivity).
    apply filter_In in Hx as [Hx Ox]. apply list_elem_of_In, list_elem_of_lookup in Hx as [n Hn].
    destruct (Op n x Hn Ox) as [_ C]. congruence.
Qed.

(** The reference: the first look that finds an app decides. *)
Definition first_app (looks : list Apps) : option Apps :=
  List.find (fun a => match a with no_apps => false | apps _ => true end) looks.

Definition usable_app (looks : list Apps) : bool :=
  match first_app looks with Some (apps true) => true | _ => false end.

Lemma timers_settled env dev looks f run : fb_runs f = [run] -> (forall k, run <> Polling k) ->
  fb_run env dev ((fun a => FTimer a 0) <$> looks) f = f.
Proof.
  intros E N. induction looks as [|a l IH]; [reflexivity|].
  change (fb_run env dev ((fun a => FTimer a 0) <$> l) (fb_timer env a 0 f) = f).
  assert (fb_timer env a 0 f = f) as ->; [|exact IH].
  unfold fb_timer. rewrite E. simpl. destruct run; try reflexivity. destruct (N retries eq_refl).
Qed.

Lemma timers_poll env dev looks : forall f, fb_runs f = [Polling (length looks)] -> (0 < length looks)%nat ->
  fb_initialized f = false -> exists f', fb_run env dev ((fun a => FTimer a 0) <$> looks) f = f'
    /\ fb_runs f' = [if usable_app looks then StartingCrashlytics else Rejected] /\ fb_initialized f' = false
    /\ (usable_app looks = false -> fb_promise f' = None).
Proof.
  induction looks as [|a l IH]; intros f E L I; [simpl in L; lia|].
  change (fb_run env dev ((fun a => FTimer a 0) <$> a :: l) f)
    with (fb_run env dev ((fun a => FTimer a 0) <$> l) (fb_timer env a 0 f)).
  unfold fb_timer. rewrite E. cbn [length lookup list_lookup]. replace (S (length l) - 1)%nat with (length l) by lia.
  destruct a as [|u].
  - destruct l as [|a l].
    + eexists. split; [reflexivity|]. simpl. auto.
    + apply IH; [reflexivity | simpl; lia | exact I].
  - eexists. split; [apply (timers_settled env dev l) with (run := poll (apps u) (length l))|].
    + reflexivity.
    + intros k. destruct u; discriminate.
    + destruct u; (split; [reflexivity|]; split; [exact I | auto]; discriminate).
Qed.

(** The start-up looks eleven times, a tenth of a second apart, and succeeds exactly when
    the first app it sees is usable: at most ten timers settle it, whatever it sees, and a
    start-up given up on leaves the service ready to try again. *)
Theorem firebase_startup (env : AppEnvironment) (dev : bool) (look : Apps) (looks : list Apps) (r : Reporter) :
  look = no_apps -> length looks = INIT_RETRIES ->
  let f := fb_run env dev (FInitialize look :: ((fun a => FTimer a 0) <$> looks) ++ [FCrashlytics 0])
             (new_Firebase r) in
  fb_runs f = [if usable_app looks then Resolved else Rejected]
  /\ fb_initialized f = usable_app looks
  /\ (usable_app looks = false -> fb_promise f = None).
Proof.
  intros -> L. unfold fb_run. cbn [fold_left]. rewrite fold_left_app. cbn [fold_left fb_step].
  set (f0 := snd (fb_initialize env no_apps (new_Firebase r))).
  destruct (timers_poll env dev looks f0) as (f & Ef & R & I & N); [rewrite L; reflexivity | rewrite L; unfold INIT_RETRIES; lia | reflexivity |].
  unfold fb_run in Ef. rewrite Ef. unfold fb_crashlytics. rewrite R.
  destruct (usable_app looks); simpl.
  - split; [reflexivity|]. split; [reflexivity | discriminate].
  - split; [exact R|]. split; [exact I | exact N].
Qed.

(** A start-up that fails before its first [await] is never tried again.  The [catch] resets
    the promise while [initialize] has yet to assign it, so the rejected promise stays and
    every later call returns it, even once the app is there. *)
Theorem synchronous_failure_sticks (env : AppEnvironment) (dev : bool) (evs : list FirebaseEvent) (r : Reporter) :
  let f := fb_run env dev (FInitialize (apps false) :: evs) (new_Firebase r) in
  fb_initialized f = false /\ fb_runs f = [Rejected]
  /\ forall seen, fb_initialize env seen f = (Some 0%nat, f).
Proof.
  cbv zeta. change (fb_run env dev (FInitialize (apps false) :: evs) (new_Firebase r))
    with (fb_run env dev evs (snd (fb_initialize env (apps false) (new_Firebase r)))).
  set (f := snd _). assert (fb_initialized f = false /\ fb_promise f = Some 0%nat /\ fb_runs f = [Rejected]) as K
    by (repeat split).
  clearbody f. destruct K as (I & P & R).
  assert (forall ev, fb_step env dev f ev = f) as Stuck.
  { intros [seen|seen n|n]; simpl; unfold fb_initialize, fb_timer, fb_crashlytics; rewrite ?I, ?P, ?R;
      [reflexivity | destruct n as [|[]]; reflexivity..]. }
  assert (fb_run env dev evs f = f) as ->.
  { induction evs as [|ev evs IH]; [reflexivity|]. unfold fb_run in *. simpl. rewrite Stuck. exact IH. }
  split; [exact I|]. split; [exact R|]. intros seen. unfold fb_initialize. rewrite I, P. reflexivity.
Qed.

(** *** Reports in the middle of a reward *)

(** The SDK has a handle to give, as it has once an app exists. *)
Definition analytics_ready : Prop := forall x, fst (sdk_call GetAnalytics x) = None.

Lemma track_ready env ev s : analytics_ready -> exists s', track env ev s = (inr tt, s').
Proof.
  intros Rdy. destruct (track env ev s) as [[e|[]] s'] eqn:E; [|eauto].
  assert (fst (track env ev s) = inl e) as C by (rewrite E; reflexivity).
  apply analytics_throws_iff in C. rewrite Rdy in C. discriminate.
Qed.

Lemma track_item_ready env o n s : analytics_ready -> exists s', track_item env o n s = (inr tt, s').
Proof. intros Rdy. destruct o; [apply track_ready, Rdy | eauto]. Qed.

Lemma track_level_ready env b n s : analytics_ready -> exists s', track_level env b n s = (inr tt, s').
Proof. intros Rdy. destruct b; [apply track_ready, Rdy | eauto]. Qed.

(** With a handle, a victory does what it does without reports: the model of the fight,
    which leaves them out, is the code's. *)
Theorem victory_reports_erase (env : AppEnvironment) (now : Z) (pu : option Player) (s : Session) (r : Reporter)
    (g : rng) :
  analytics_ready ->
  fst (fst (handleVictory_reported env now pu s r g)).1 = inr tt
  /\ snd (fst (handleVictory_reported env now pu s r g)).1 = fst (handleVictory now pu s g)
  /\ snd (handleVictory_reported env now pu s r g) = snd (handleVictory now pu s g).
Proof.
  intros Rdy. unfold handleVictory_reported, handleVictory.
  destruct (encounterRef s) as [enc|]; [|repeat split]. destruct (base_player pu s) as [base|]; [|repeat split].
  destruct (victoryProcessedRef s); [repeat split|]. unfold rand_bind.
  destruct (victory_rewards now base (eo_creature enc) (forceItemDrop s) (forcedRarity s) g) as [[p rv] g'].
  unfold rand_ret. cbn [fst snd]. unfold victory_reported.
  destruct (track_item_ready env (rv_item rv) (rv_newLevel rv) r Rdy) as [r1 ->].
  unfold r_bind. match goal with |- context [track env ?ev r1] => destruct (track_ready env ev r1 Rdy) as [r2 ->] end.
  destruct (track_level_ready env (rv_leveledUp rv) (rv_newLevel rv) r2 Rdy) as [r3 ->]. repeat split.
Qed.

(** Without one, a victory that drops an item throws before it saves: the reward is lost, the
    creature stays, and as the victory is already marked as processed no later attempt to
    resolve the fight does anything. *)
Theorem report_strands_fight (env : AppEnvironment) (now : Z) (pu : option Player) (s : Session) (r : Reporter)
    (g : rng) (enc : EncounterObj) (base p : Player) (rv : RewardReveal) (g' : rng) (it : Item) (e : string) :
  encounterRef s = Some enc -> base_player pu s = Some base -> victoryProcessedRef s = false ->
  victory_rewards now base (eo_creature enc) (forceItemDrop s) (forcedRarity s) g = (p, rv, g') ->
  rv_item rv = Some it -> fst (sdk_call GetAnalytics (sdk r)) = Some e ->
  exists s' r', handleVictory_reported env now pu s r g = (inl e, s', r', g')
    /\ playerRef s' = playerRef s /\ saves s' = saves s /\ encounterRef s' = Some enc
    /\ rewardRevealTimerRef s' = rewardRevealTimerRef s
    /\ forall now' pu' g2, handleVictory now' pu' s' g2 = (s', g2).
Proof.
  intros E B V W I T. unfold handleVictory_reported. rewrite E, B, V. unfold rand_bind. rewrite W.
  unfold rand_ret, victory_reported. cbn [fst snd]. rewrite I. cbn [track_item].
  apply (analytics_throws_iff env (item_event it (rv_newLevel rv))) in T.
  destruct (track env (item_event it (rv_newLevel rv)) r) as [o r'] eqn:Tr. simpl in T. subst o.
  exists (victory_opened s), r'. repeat split; auto.
  intros now' pu' g2. unfold handleVictory. cbn [victory_opened encounterRef victoryProcessedRef].
  change (encounterRef (victory_opened s)) with (encounterRef s). rewrite E.
  change (base_player pu' (victory_opened s)) with (base_player pu' s).
  destruct (base_player pu' s); reflexivity.
Qed.

Section Passive.
Context `{AsyncStorage}.

(** The same for an encounter resolved while walking. *)
Theorem passive_reports_erase (env : AppEnvironment) (now : Z) (enc : Encounter) (tier : RewardTier) (a : App)
    (r : Reporter) (g : rng) :
  analytics_ready ->
  fst (fst (resolvePassive_reported env now enc tier a r g)).1 = inr tt
  /\ snd (fst (resolvePassive_reported env now enc tier a r g)).1 = fst (resolvePassiveEncounter now enc tier a g)
  /\ snd (resolvePassive_reported env now enc tier a r g) = snd (resolvePassiveEncounter now enc tier a g).
Proof.
  intros Rdy. unfold resolvePassive_reported, resolvePassiveEncounter.
  destruct (playerRef (session a)) as [base|]; [|repeat split]. unfold rand_bind.
  destruct (passive_rewards now tier base (e_creature enc) g) as [[p entry] g'].
  unfold rand_ret. cbn [fst snd]. unfold passive_reported.
  destruct (track_item_ready env (ws_item entry) (p_level p) r Rdy) as [r1 ->].
  destruct (track_level_ready env (p_level base <? p_level p) (p_level p) r1 Rdy) as [r2 ->]. repeat split.
Qed.

(** Without a handle an item found on the way is lost with the experience of its fight. *)
Theorem report_loses_walk_reward (env : AppEnvironment) (base p : Player) (entry : WalkSummaryEntry) (a : App)
    (r : Reporter) (it : Item) (e : string) :
  ws_item entry = Some it -> fst (sdk_call GetAnalytics (sdk r)) = Some e ->
  exists r', passive_reported env base p entry a r = (inl e, a, r').
Proof.
  intros I T. unfold passive_reported. rewrite I. cbn [track_item].
  apply (analytics_throws_iff env (item_event it (p_level p))) in T.
  destruct (track env (item_event it (p_level p)) r) as [o r'] eqn:Tr. simpl in T. subst o. eauto.
Qed.

End Passive.

(** *** The boundary *)

(** A render error replaces the game by the apology and is offered to Crashlytics under its
    label; trying again brings the game back; neither throws. *)
Theorem boundary_recovers (env : AppEnvironment) (dev : bool) (e stack : string) (b : Boundary) :
  let caught := boundary_catches env e stack b in
  boundary_renders dev caught = inr (if dev then Some e else None)
  /\ boundary_renders dev (boundary_reset caught) = inl tt
  /\ sdk (boundary_reporter caught)
     = sdk (snd (recordError e (Some "ReactRenderError"%string) (boundary_reporter b))).
Proof.
  cbv zeta. split; [reflexivity|]. split; [reflexivity|].
  unfold boundary_catches, componentDidCatch, getDerivedStateFromError. cbn [boundary_reporter].
  unfold r_bind. destruct (silent_swallow "Error recording error to Crashlytics:"
    (on_crashlytics (CrashRecord e (Some "ReactRenderError"%string))) (boundary_reporter b)) as [u Eu].
  unfold recordError. destruct (swallow _ _ (boundary_reporter b)) as [o r']. simpl in Eu. subst o.
  unfold logger_debug, to_console. destruct (isProd env); reflexivity.
Qed.

End Theorems.

(** ** An SDK *)

(** An SDK whose calls succeed or fail as a list says, and then succeed. *)
#[export] Instance listed_sdk : TelemetrySdk := {|
  native := list (option string);
  sdk_call _ x := match x with [] => (None, []) | o :: x => (o, x) end
|}.

Definition no_analytics : Reporter := mkReporter [Some "No Firebase App"%string] [] false.

Lemma firebase_startup_witness :
  let looks := replicate 4 no_apps ++ [apps true] ++ replicate 5 (apps true) in
  fb_initialized (fb_run testing false (FInitialize no_apps :: ((fun a => FTimer a 0) <$> looks) ++ [FCrashlytics 0])
    (new_Firebase no_analytics)) = true.
Proof.
  exact (proj1 (proj2 (firebase_startup testing false no_apps
    (replicate 4 no_apps ++ [apps true] ++ replicate 5 (apps true)) no_analytics eq_refl eq_refl))).
Defined.

(** Without Firebase, a win that drops an item leaves a fight that cannot be won. *)
Example stranded_fight :
  let s := presentEncounter (mkObj 0 (foe 0)) (initial_session (Some sample_player)) <| forceItemDrop := true |> in
  let '(result, s', _, _) := handleVictory_reported testing 9 None s no_analytics sample_rng in
  result = inl "No Firebase App"%string /\ encounterRef s' = encounterRef s /\ saves s' = saves s
  /\ victoryProcessedRef s' = true.
Proof. vm_compute. repeat split. Qed.
