(* ===== verification/Notifications.v ===== *)
(** * Notifications

    [src/services/NotificationService.ts], the calls [src/hooks/useEncounter.ts] makes of it
    when an encounter is resolved in the background, the handlers of a tap
    ([src/screens/HomeScreen.tsx], [index.ts]) and the creation of the channels at start-up.

    The notification library is an interface over an abstract state: any call may reject.
    [attempts] records the notifications the service asked it to display.  What is logged
    is left out; logging never throws ([reporting_never_throws] of [Telemetry]). *)
From stdpp Require Import base decidable strings list pretty.
From Stdlib Require Import ZArith QArith Lia.
From S2P Require Import Prelude JsNumber Random Combat Archetype Creature Config Item Player.
From S2P Require Import Loot AutoCombat Encounter Location Json Storage CombatSession SessionInvariant.
From S2P Require Import EncounterFlow.
Local Open Scope Z_scope.

(** ** The library *)

Inductive Importance := importance_high | importance_low.

Record Channel := mkChannel {
  ch_id : string;
  ch_name : string;
  ch_description : string;
  ch_importance : Importance;
  ch_sound : option string;
  ch_vibration : bool
}.

(** The fields the service sets; [n_type] and [n_encounterId] are those of [data]. *)
Record Notification := mkNotification {
  n_id : option string;
  n_title : string;
  n_body : string;
  n_type : option string;
  n_encounterId : option string;
  n_channel : string;
  n_importance : option Importance;
  n_foreground : bool;
  n_ongoing : bool;
  n_sound : option string
}.

Class Notifee := {
  notifee : Type;
  settings : Type;
  createChannel : Channel -> notifee -> (string + unit) * notifee;
  requestPermission : notifee -> (string + Z) * notifee;
  displayNotification : Notification -> notifee -> (string + string) * notifee;
  stopForeground : notifee -> (string + unit) * notifee;
  cancelOne : string -> notifee -> (string + unit) * notifee;
  cancelAll : notifee -> (string + unit) * notifee;
  getNotificationSettings : notifee -> (string + settings) * notifee
}.

(** ** The service *)

Definition channelId : string := "encounter_channel".
Definition trackingChannelId : string := "tracking_channel".

Definition encounter_channel : Channel :=
  mkChannel channelId "Encounter Notifications" "Notifications for creature encounters while walking"
    importance_high (Some "default") true.

Definition tracking_channel : Channel :=
  mkChannel trackingChannelId "Location Tracking"
    "Persistent notification while location tracking is active" importance_low None false.

Definition tracking_notification : Notification :=
  mkNotification (Some "location_tracking_service") "StrideQuest" "Tracking your location for encounters"
    None None trackingChannelId None true true None.

Definition encounter_notification (e : Encounter) : Notification :=
  mkNotification None "⚔️ A Worthy Foe Awaits!"
    ("A " +:+ c_name (e_creature e) +:+ " (" +:+ rarity_name (c_rarity (e_creature e))
     +:+ ") stalks you. Tap to fight it.")
    (Some "encounter") (Some (pretty (e_timestamp e))) channelId (Some importance_high) false false
    (Some "default").

Definition victory_notification (creatureName itemName : string) : Notification :=
  mkNotification None "⚔️ Victory while walking!"
    ("You defeated a " +:+ creatureName +:+ " and found " +:+ itemName +:+ ". Tap to see your haul.")
    (Some "walk_summary") None channelId (Some importance_high) false false (Some "default").

Section Service.
Context `{Notifee}.

Record Tray := mkTray { library : notifee; attempts : list Notification }.

Definition N (A : Type) : Type := Tray -> (string + A) * Tray.

Definition n_ret {A} (a : A) : N A := fun t => (inr a, t).
Definition n_bind {A B} (m : N A) (f : A -> N B) : N B := fun t =>
  match m t with (inr a, t) => f a t | (inl e, t) => (inl e, t) end.
Definition n_catch {A} (m : N A) (h : string -> N A) : N A := fun t =>
  match m t with (inl e, t) => h e t | r => r end.

Definition ask {A} (m : notifee -> (string + A) * notifee) : N A := fun t =>
  let (r, x) := m (library t) in (r, mkTray x (attempts t)).

Definition display (n : Notification) : N string := fun t =>
  let (r, x) := displayNotification n (library t) in (r, mkTray x (attempts t ++ [n])).

Definition notifications_initialize (os : Platform) : N unit :=
  match os with
  | android => n_bind (ask (createChannel encounter_channel)) (fun _ => ask (createChannel tracking_channel))
  | ios => n_ret tt
  end.

Definition notifications_requestPermissions : N bool :=
  n_catch (n_bind (ask requestPermission) (fun status => n_ret (1 <=? status))) (fun _ => n_ret false).

Definition notifications_startForegroundService (os : Platform) : N unit :=
  match os with
  | android => n_catch (n_bind (display tracking_notification) (fun _ => n_ret tt)) (fun _ => n_ret tt)
  | ios => n_ret tt
  end.

Definition notifications_stopForegroundService (os : Platform) : N unit :=
  match os with
  | android => n_catch (ask stopForeground) (fun _ => n_ret tt)
  | ios => n_ret tt
  end.

(** Both log and rethrow. *)
Definition showEncounterNotification (e : Encounter) : N string := display (encounter_notification e).
Definition showPassiveVictoryNotification (creatureName itemName : string) : N string :=
  display (victory_notification creatureName itemName).

Definition cancelNotification (id : string) : N unit := n_catch (ask (cancelOne id)) (fun _ => n_ret tt).
Definition cancelAllNotifications : N unit := n_catch (ask cancelAll) (fun _ => n_ret tt).

Definition notifications_getSettings : N (option settings) :=
  n_catch (n_bind (ask getNotificationSettings) (fun s => n_ret (Some s))) (fun _ => n_ret None).

(** [initializeNotifications] of the home screen. *)
Definition initializeNotifications (os : Platform) : N unit :=
  n_catch (notifications_initialize os) (fun _ => n_ret tt).

End Service.

(** ** Taps *)

Inductive TapAction := tap_refreshHeldFoe | tap_checkWalkSummary | tap_none.

(** The foreground handler; [press] is whether the event is a press. *)
Definition on_foreground_event (press : bool) (dataType : option string) : TapAction :=
  if press && bool_decide (dataType = Some "encounter"%string) then tap_refreshHeldFoe
  else if press && bool_decide (dataType = Some "walk_summary"%string) then tap_checkWalkSummary
  else tap_none.

(** The background handler only says that it was called. *)
Definition on_background_event (press : bool) (dataType : option string) : list string :=
  if press && bool_decide (dataType = Some "encounter"%string)
  then ["Background notification tapped for encounter"%string] else [].

(** ** What the encounter hook notifies *)

Definition NOTABLE_DROP_RARITIES : list Rarity := [rare; epic; legendary].

Section Hook.
Context `{Trig} `{AsyncStorage} `{Notifee}.

(** [holdEliteEncounter]: the outcome is decided before the notification, whose failure is
    only logged. *)
Definition hold_notified (encounter : Encounter) (isBackground : bool) (a : App) (t : Tray)
    : bool * App * Tray :=
  let (held, a) := holdEliteEncounter encounter a in
  (held, a, if held && isBackground then snd (showEncounterNotification encounter t) else t).

(** The notification at the end of [resolvePassiveEncounter]. *)
Definition notify_drop (isBackground : bool) (creatureName : string) (item : option Item) (t : Tray) : Tray :=
  match item with
  | Some it =>
      if isBackground && bool_decide (it_rarity it ∈ NOTABLE_DROP_RARITIES)
      then snd (showPassiveVictoryNotification creatureName (it_name it) t) else t
  | None => t
  end.

Definition resolvePassive_notified (now : Z) (encounter : Encounter) (isBackground : bool)
    (rewardTier : RewardTier) (a : App) (t : Tray) : Rand (App * Tray) :=
  match playerRef (session a) with
  | None => rand_ret (a, t)
  | Some basePlayer =>
      let! paid := passive_rewards now rewardTier basePlayer (e_creature encounter) in
      let (updatedPlayer, entry) := paid in
      let a := a <| session := setPlayerAndSave updatedPlayer (session a) |> in
      rand_ret (a <| store := snd (appendWalkSummaryEntry entry (store a)) |>,
                notify_drop isBackground (c_name (e_creature encounter)) (ws_item entry) t)
  end.

(** The routing of a rolled encounter, with its notifications. *)
Definition route_notified (env : GateEnv) (encounter : Encounter) (a : App) (t : Tray) : Rand (App * Tray) :=
  let bg := ge_isBackground env in
  match resolveEncounterRoute bg (isEliteCreature (c_rarity (e_creature encounter)))
          (ge_autoResolveBelowRare env) with
  | present_ => rand_ret (a <| session := present_new encounter (session a) |>, t)
  | autoResolve => resolvePassive_notified (ge_now' env) encounter bg active_tier a t
  | hold =>
      let '(held, a, t) := hold_notified encounter bg a t in
      if held then rand_ret (a, t) else resolvePassive_notified (ge_now' env) encounter bg idle_tier a t
  | passive => resolvePassive_notified (ge_now' env) encounter bg idle_tier a t
  end.

End Hook.

(** ** Theorems *)

Section Theorems.
Context `{Trig} `{AsyncStorageLaws} `{Notifee}.

Lemma display_attempts n t : attempts (snd (display n t)) = attempts t ++ [n].
Proof. unfold display. destruct (displayNotification n (library t)). reflexivity. Qed.

(** The service never throws, its two [show] methods and its set-up apart, and the home
    screen catches the set-up. *)
Theorem service_contained (os : Platform) (id : string) (t : Tray) :
  (exists b, fst (notifications_requestPermissions t) = inr b)
  /\ fst (notifications_startForegroundService os t) = inr tt
  /\ fst (notifications_stopForegroundService os t) = inr tt
  /\ fst (cancelNotification id t) = inr tt /\ fst (cancelAllNotifications t) = inr tt
  /\ (exists o, fst (notifications_getSettings t) = inr o)
  /\ fst (initializeNotifications os t) = inr tt.
Proof.
  assert (forall m : N unit, fst (n_catch m (fun _ => n_ret tt) t) = inr tt) as C.
  { intros m. unfold n_catch. destruct (m t) as [[e|[]] t']; reflexivity. }
  repeat split; try (destruct os; [reflexivity | apply C]); try apply C.
  - unfold notifications_requestPermissions, n_catch. destruct (n_bind _ _ t) as [[e|b] t']; eauto.
  - unfold notifications_getSettings, n_catch. destruct (n_bind _ _ t) as [[e|o] t']; eauto.
Qed.

(** Notifications change nothing in the game. *)
Lemma passive_notified_erases now e bg tier a t g :
  let '((a', _), g') := resolvePassive_notified now e bg tier a t g in
  resolvePassiveEncounter now e tier a g = (a', g').
Proof.
  unfold resolvePassive_notified, resolvePassiveEncounter.
  destruct (playerRef (session a)) as [p|]; [|reflexivity]. unfold rand_bind.
  destruct (passive_rewards now tier p (e_creature e) g) as [[p' entry] g']. reflexivity.
Qed.

Theorem route_notified_erases (env : GateEnv) (e : Encounter) (a : App) (t : Tray) (g : rng) :
  let '((a', _), g') := route_notified env e a t g in route_encounter env e a g = (a', g').
Proof.
  unfold route_notified, route_encounter.
  destruct (resolveEncounterRoute _ _ _); [reflexivity | apply passive_notified_erases | |
    apply passive_notified_erases].
  unfold hold_notified. destruct (holdEliteEncounter e a) as [[] a1]; [reflexivity|].
  apply passive_notified_erases.
Qed.

(** What a notification says is so: the foe it announces is held, on screen and in
    storage, or the item it names is in the inventory and a notable one. *)
Definition truthful (e : Encounter) (a : App) (n : Notification) : Prop :=
  (n = encounter_notification e
   /\ eo_enc <$> heldFoe (session a) = Some e
   /\ contents (store a) STORAGE_KEYS.PENDING_ENCOUNTER = Some (TJson (enc_encounter (hold_data e))))
  \/ exists it p, n = victory_notification (c_name (e_creature e)) (it_name it)
     /\ playerRef (session a) = Some p /\ it ∈ present (p_inventory p)
     /\ it_rarity it ∈ NOTABLE_DROP_RARITIES.

(** At most one, none in the foreground, and true. *)
Definition notified (bg : bool) (e : Encounter) (t : Tray) (r : App * Tray) : Prop :=
  exists ns, attempts (snd r) = attempts t ++ ns /\ (length ns <= 1)%nat
    /\ (bg = false -> ns = []) /\ Forall (truthful e (fst r)) ns.

Lemma notified_none bg e t a : notified bg e t (a, t).
Proof. exists []. rewrite app_nil_r. simpl. auto. Qed.

Lemma notified_one bg e t a t' n : bg = true -> attempts t' = attempts t ++ [n] -> truthful e a n ->
  notified bg e t (a, t').
Proof.
  intros -> E T. exists [n]. split; [exact E|]. split; [simpl; lia|]. split; [discriminate|].
  constructor; [exact T | constructor].
Qed.

(** The drop an entry records is in the inventory. *)
Lemma drop_kept now tier p c : wf_player p -> creature_ok c ->
  rand_post (passive_rewards now tier p c) (fun r => forall it, ws_item (snd r) = Some it ->
    it ∈ present (p_inventory (fst r))).
Proof.
  intros W C. destruct tier.
  - eapply rand_post_weaken; [apply passive_rewards_paid; [exact W | apply C]|].
    intros [p' e] P it E. pose proof (pa_loot _ _ _ _ P) as I. cbn [fst snd] in *. rewrite E in I.
    destruct I as [_ ->]. apply elem_of_cons. auto.
  - intros g Hg. pose proof (active_tier_spec now p c g) as E.
    destruct (victory_rewards_paid now p c false None W C g Hg) as [V Rg].
    destruct (passive_rewards now active_tier p c g) as [[p1 e] g1],
      (victory_rewards now p c false None g) as [[p2 rv] g2].
    destruct E as (-> & -> & _ & _ & _ & E). cbn [fst snd] in *. split; [|exact Rg].
    intros it Hit. pose proof (wp_loot _ _ _ _ V) as L. rewrite E in Hit.
    destruct (rv_inventoryFull rv); [discriminate|]. rewrite Hit in L. simpl in L. rewrite L.
    apply elem_of_cons. auto.
Qed.

Lemma passive_notified now e bg tier a p t : app_ok a p -> encounter_ok e ->
  rand_post (resolvePassive_notified now e bg tier a t) (notified bg e t).
Proof.
  intros [K P] C. unfold resolvePassive_notified. rewrite P.
  rand_step drop_kept r Hr; [apply (ok_player _ K p P) | exact C |].
  destruct r as [p' entry]. apply rand_post_ret. cbn [fst snd] in Hr. unfold notify_drop.
  destruct (ws_item entry) as [it|] eqn:E; [|apply notified_none].
  destruct bg; [|apply notified_none]. destruct (bool_decide_reflect (it_rarity it ∈ NOTABLE_DROP_RARITIES));
    [|apply notified_none].
  eapply notified_one; [reflexivity | apply display_attempts |]. right. exists it, p'. auto.
Qed.

(** C11: A notification tells the truth.  For every encounter rolled on a walk, whichever way it
    goes and whether or not the library delivers, the player is notified at most once and
    never while the app is in front; a worthy foe is announced only when it has been
    stored and its card is up, and a find only when the item, rare or better, is in the
    inventory. *)
Theorem notifications_true (env : GateEnv) (e : Encounter) (a : App) (p : Player) (t : Tray) :
  session_ok (session a) -> playerRef (session a) = Some p -> creature_ok (e_creature e) ->
  rand_post (route_notified env e a t) (notified (ge_isBackground env) e t).
Proof.
  intros K P C. unfold route_notified.
  destruct (resolveEncounterRoute (ge_isBackground env) _ _) eqn:Rt.
  - apply rand_post_ret, notified_none.
  - apply passive_notified with (p := p); [split; assumption | exact C].
  - unfold hold_notified. pose proof (hold_cases e a) as Hc.
    destruct (holdEliteEncounter e a) as [[] a1].
    + destruct Hc as (_ & Se & St). apply rand_post_ret.
      assert (ge_isBackground env = true) as Bg.
      { destruct (ge_isBackground env); [reflexivity|]. unfold resolveEncounterRoute in Rt. simpl in Rt.
        destruct (_ && _) in Rt; discriminate. }
      rewrite Bg. eapply notified_one; [reflexivity | apply display_attempts |].
      left. split; [reflexivity|]. split; [rewrite Se; reflexivity | exact St].
    + destruct Hc as [_ Se]. apply passive_notified with (p := p); [split; rewrite Se; assumption | exact C].
  - apply passive_notified with (p := p); [split; assumption | exact C].
Qed.

(** A tap reaches what its notification announced, and nothing else does. *)
Theorem tap_reaches (press : bool) (n : Notification) (e : Encounter) (creatureName itemName : string) :
  (n = encounter_notification e -> on_foreground_event true (n_type n) = tap_refreshHeldFoe)
  /\ (n = victory_notification creatureName itemName ->
      on_foreground_event true (n_type n) = tap_checkWalkSummary)
  /\ on_foreground_event press (n_type tracking_notification) = tap_none
  /\ on_foreground_event false (n_type n) = tap_none.
Proof.
  split; [intros ->; reflexivity|]. split; [intros ->; reflexivity|].
  split; [destruct press; reflexivity | reflexivity].
Qed.

(** A tap on the announcement of a foe, after the process has been restarted, brings the
    foe's card up from storage. *)
Theorem tap_restores_foe (now : Z) (e : Encounter) (a a' : App) (t t' : Tray) (svc : EncounterService)
    (s : Session) (loc : option LocationData) :
  hold_notified e true a t = (true, a', t') ->
  e_timestamp e <> 0 -> e_playerLevel e <> 0 -> c_description (e_creature e) <> "" ->
  encounterRef s = None -> readable STORAGE_KEYS.PENDING_ENCOUNTER (store a') ->
  exists n, attempts t' = attempts t ++ [n] /\ on_foreground_event true (n_type n) = tap_refreshHeldFoe
    /\ exists a2, refreshHeldFoe now (mkApp s svc (store a') loc) = Some a2
       /\ eo_enc <$> heldFoe (session a2) = Some (without_resistances e).
Proof.
  unfold hold_notified. intros Hh T L D E G. destruct (holdEliteEncounter e a) as [h a1] eqn:Ha.
  injection Hh as -> -> <-. exists (encounter_notification e). split; [apply display_attempts|].
  split; [reflexivity|].
  destruct (held_foe_survives now e a s svc (store a') loc) as [_ R]; rewrite ?Ha; auto.
Qed.

End Theorems.

(** ** A library *)

(** A library that accepts everything, and one that refuses everything. *)
#[export] Instance stub_notifee : Notifee := {|
  notifee := bool;
  settings := unit;
  createChannel _ ok := (if ok then inr tt else inl "refused"%string, ok);
  requestPermission ok := (if ok then inr 1 else inl "refused"%string, ok);
  displayNotification _ ok := (if ok then inr "id"%string else inl "refused"%string, ok);
  stopForeground ok := (if ok then inr tt else inl "refused"%string, ok);
  cancelOne _ ok := (if ok then inr tt else inl "refused"%string, ok);
  cancelAll ok := (if ok then inr tt else inl "refused"%string, ok);
  getNotificationSettings ok := (if ok then inr tt else inl "refused"%string, ok)
|}.

Lemma notifications_true_witness :
  rand_post (route_notified (env0 true false) elite (fresh_app []) (mkTray false []))
    (notified true elite (mkTray false [])).
Proof.
  exact (notifications_true (env0 true false) elite (fresh_app []) sample_player (mkTray false [])
           (app0_ok []) eq_refl elite_ok).
Defined.

(** The elite of the example is held, announced although the library refuses, and its tap
    goes to the card. *)
Example elite_announced :
  let '(held, _, t) := hold_notified elite true (fresh_app []) (mkTray false []) in
  held = true /\ (n_type <$> attempts t) = [Some "encounter"%string].
Proof. vm_compute. repeat split. Qed.
