(* ===== verification/HomeView.v ===== *)
(** * The home screen as it is rendered, and the debug panel

    The render of [src/screens/HomeScreen.tsx], [components/hud/BetaIndicator.tsx] with the
    banner of [constants/config.ts], and [components/debug/DebugPanel.tsx].

    A page is the record of what it shows and the list of its controls, each with its label
    and what its press does; [press_debug] composes the controls of the debug panel with the
    handlers of the home screen.  The theorems: in a production build no history of presses
    reaches a debug control, in the other builds every one is at most a press away, the
    panel cannot break the game, and the screen's own controls say what they do.  Layout and
    colours are left out. *)
From stdpp Require Import base decidable strings list pretty.
From Stdlib Require Import ZArith QArith Qabs Qround Lia.
From S2P Require Import Prelude JsNumber Random Combat Archetype Ability CombatFeed Creature.
From S2P Require Import Config Item Player Loot AutoCombat Encounter Location Json CloudSync Storage.
From S2P Require Import PlayerSession AuthSession CombatSession SessionInvariant EncounterFlow GameStep.
From S2P Require Import Home CombatView DebugActions Tracking Readout Screens.
Local Open Scope Z_scope.

(** ** The build banner *)

Inductive BannerPosition := pos_top | pos_bottom | pos_inline.
Inductive BannerVariant := v_badge | v_banner.

Record EnvironmentBanner := mkBanner {
  eb_visible : bool;
  eb_position : BannerPosition;
  eb_variant : BannerVariant;
  eb_buildType : AppEnvironment
}.

Definition ENVIRONMENT_BANNER (env : AppEnvironment) : EnvironmentBanner :=
  mkBanner (showEnvironmentBanner (ENV_CONFIG env)) pos_top v_banner (environmentName (ENV_CONFIG env)).

Definition getBuildTypeDisplay (buildType : option AppEnvironment) : string * string :=
  match buildType with
  | Some development => ("🔧", "DEVELOPMENT BUILD")
  | Some testing => ("🧪", "TESTING BUILD")
  | _ => ("🧪", "BETA VERSION")
  end.

(** What the indicator shows: its title, the version if it is not empty, and the warning of
    a banner. *)
Record Indicator := mkIndicator {
  in_title : string;
  in_version : option string;
  in_warning : option string
}.

Definition BetaIndicator (visible : bool) (version : option string) (buildType : option AppEnvironment)
    (variant : BannerVariant) : option Indicator :=
  if negb visible then None
  else
    let isBanner := match variant with v_banner => true | v_badge => false end in
    let (icon, text) := getBuildTypeDisplay buildType in
    Some (mkIndicator (icon +:+ " " +:+ text)
      (match version with Some "" => None | v => v end)
      (if isBanner && bool_decide (buildType = Some testing)
       then Some "This is a test version. Features may be incomplete or unstable."
       else if isBanner && bool_decide (buildType = Some development)
       then Some "Development build. Debug features enabled."
       else None)).

(** ** The controls *)

(** What the debug panel's presses call. *)
Inductive DebugAction :=
  | restoreHp
  | clearInventory
  | fillInventory
  | setBypass (value : bool)
  | setForceItemDrop (value : bool)
  | setForcedRarity (value : option Rarity)
  | previewReveal (rarity : option Rarity)
  | simulateMovement (meters : Z)
  | forceEncounter
  | forceIdleEncounter (rarity : Rarity)
  | forceEliteEncounter (rarity : Rarity)
  | simulateWalk (count : nat)
  | showWalkSummary
  | setLevel (level : Z)
  | setArchetype (archetype : Archetype)
  | addXP (amount : Z).

Inductive HomeAction :=
  | OpenSettings
  | FightFoe
  | PressSlot (slot : EquipmentSlot)
  | ViewInventory
  | StartWalking
  | StopWalking
  | ExpandEncounter
  | ToggleDebug (enabled : bool)
  | Debug (action : DebugAction).

Record Control := mkControl { ctl_label : string; ctl_action : HomeAction }.

Definition debug_control (label : string) (action : DebugAction) : Control := mkControl label (Debug action).

(** ** The debug panel *)

(** [x.toFixed(f)] of any number. *)
Definition fixed (f : nat) (x : Q) : string :=
  (if js_lt x 0 then "-" else "")
  +:+ match f with O => pretty (Qfloor (Qabs x + (1 # 2))) | _ => toFixed f (Qabs x) end.

Definition RARITY_OPTIONS : list Rarity := [common; uncommon; rare; epic; legendary].

Definition RARITY_SHORT (r : Rarity) : string :=
  match r with common => "C" | uncommon => "U" | rare => "R" | epic => "E" | legendary => "L" end.

Definition player_rows (player : Player) : list string :=
  [ "❤️ HP: " +:+ pretty (p_hp player) +:+ " / " +:+ pretty (p_maxHp player)
      +:+ "  ⚔️ ATK: " +:+ pretty (p_attack player) +:+ "  🛡️ DEF: " +:+ pretty (p_defense player);
    "⭐ Lv " +:+ pretty (p_level player) +:+ "  XP: " +:+ pretty (p_experience player) +:+ " / "
      +:+ pretty (getExperienceForNextLevel player) ].

Definition location_rows (location : option LocationData) : list string :=
  match location with
  | None => []
  | Some l =>
      [ "📍 " +:+ fixed 5 (loc_latitude l) +:+ ", " +:+ fixed 5 (loc_longitude l);
        "🎯 ±" +:+ fixed 0 (loc_accuracy l) +:+ "m  🏃 " +:+ fixed 1 (loc_speed l) +:+ " m/s  🧭 "
          +:+ fixed 0 (default 0%Q (loc_heading l)) +:+ "°" ]
  end.

Definition sync_row (now : Z) (status : CloudSyncStatus) : string :=
  "☁️ Sync: "
  +:+ (match st_lastSuccessfulSyncAt status with
       | Some t => if t =? 0 then "never"
                   else pretty (math_round (js_div (num (now - t)) 1000)) +:+ "s ago"
       | None => "never"
       end)
  +:+ "  ⏳ " +:+ pretty (st_pendingWrites status) +:+ " pending"
  +:+ (if st_writesSuspended status then "  ⛔ suspended" else "").

Definition chance_rows (r : Readout) : list string :=
  let percent c := fixed 2 (js_mul c 100) +:+ "%" in
  ("Encounter Chance: " +:+ percent (encounterChance r)
     +:+ (if isTimeBlocking r then "(Blocked: " +:+ pretty (timeRemaining r) +:+ "s)" else ""))
  :: from_option (fun c => ["Last Encounter @: " +:+ percent c]) [] (lastEncounterChance r).

Definition on_off (b : bool) : string := if b then "ON" else "OFF".

(** The drop settings: whether drops are forced, their rarity, and the preview. *)
Definition drop_controls (forceDrop : bool) (forced : option Rarity) : list Control :=
  [ debug_control (on_off forceDrop) (setForceItemDrop (negb forceDrop));
    debug_control "Auto" (setForcedRarity None) ]
  ++ ((fun r => debug_control (RARITY_SHORT r) (setForcedRarity (Some r))) <$> RARITY_OPTIONS)
  ++ [ debug_control ("Preview Reveal "
         +:+ match forced with Some r => "(" +:+ rarity_name r +:+ ")" | None => "(random)" end)
         (previewReveal forced) ].

Definition encounter_controls : list Control :=
  [ debug_control "+10m" (simulateMovement 10);
    debug_control "+100m" (simulateMovement 100);
    debug_control "+1km" (simulateMovement 1000);
    debug_control "Force Encounter" forceEncounter;
    debug_control "Idle Win (common)" (forceIdleEncounter common);
    debug_control "Worthy Foe (rare)" (forceEliteEncounter rare);
    debug_control "Worthy Foe (epic)" (forceEliteEncounter epic);
    debug_control "Simulate Walk ×5" (simulateWalk 5);
    debug_control "Show Walk Summary" showWalkSummary ].

Definition player_controls : list Control :=
  ((fun lvl => debug_control ("L" +:+ pretty lvl) (setLevel lvl)) <$> [1; 5; 10; 20; 50])
  ++ ((fun a => debug_control (ac_name (ARCHETYPE_CONFIGS a)) (setArchetype a)) <$> [Martial; Agile; Mage])
  ++ [ debug_control "+100 XP" (addXP 100);
       debug_control "+500 XP" (addXP 500);
       debug_control "+1000 XP" (addXP 1000) ].

Record Panel := mkPanel { pn_rows : list string; pn_controls : list Control }.

(** What [useDebugActions] hands to the panel: the readouts and the settings. *)
Record DebugController := mkController {
  dc_readout : Readout;
  dc_location : option LocationData;
  dc_sync : CloudSyncStatus;
  dc_forceItemDrop : bool;
  dc_forcedRarity : option Rarity
}.

Definition DebugPanel (env : AppEnvironment) (debugMode : bool) (now : Z) (player : Player)
    (debug : DebugController) : option Panel :=
  if negb (enableDebugMode (ENV_CONFIG env)) then None
  else if negb debugMode then Some (mkPanel [] [mkControl "Show Debug Mode" (ToggleDebug true)])
  else
    let bypass := bypassTimeConstraint (dc_readout debug) in
    Some (mkPanel
      (player_rows player ++ location_rows (dc_location debug) ++ [sync_row now (dc_sync debug)]
       ++ chance_rows (dc_readout debug))
      ([ debug_control "Restore Full HP" restoreHp;
         debug_control "Clear Inventory" clearInventory;
         debug_control "Fill Inventory" fillInventory;
         debug_control (on_off bypass) (setBypass (negb bypass)) ]
       ++ drop_controls (dc_forceItemDrop debug) (dc_forcedRarity debug)
       ++ encounter_controls ++ player_controls
       ++ [mkControl "Hide Debug" (ToggleDebug false)])).

(** ** The page *)

(** [slotLabels] and the order of the slots in [Equipment.tsx]. *)
Definition slotLabels (slot : EquipmentSlot) : string :=
  match slot with
  | slot_weapon => "Weapon" | slot_offhand => "Offhand" | slot_head => "Head" | slot_chest => "Chest"
  | slot_legs => "Legs" | slot_boots => "Boots" | slot_gloves => "Gloves"
  | slot_accessory1 => "Accessory 1" | slot_accessory2 => "Accessory 2"
  end.

Definition shown_slots : list EquipmentSlot :=
  [ slot_weapon; slot_offhand; slot_head; slot_chest; slot_legs; slot_boots; slot_gloves;
    slot_accessory1; slot_accessory2 ].

(** What a slot reads: its label, and the item in it with its level. *)
Definition slot_text (equipment : Equipment) (slot : EquipmentSlot) : string * string :=
  (slotLabels slot,
   match equip_get equipment slot with
   | Some item => it_name item +:+ " Lv. " +:+ pretty (it_level item)
   | None => "Empty"
   end).

Section Page.
Context `{Trig} `{AsyncStorage}.

(** The state the screen itself keeps. *)
Record Ui := mkUi {
  debugMode : bool;
  showInventoryModal : bool;
  showSettingsModal : bool;
  selectedEquipmentSlot : option EquipmentSlot
}.

#[global] Instance Ui_fields : Fields Ui := fun u =>
  mkUi (debugMode u) (showInventoryModal u) (showSettingsModal u) (selectedEquipmentSlot u).

Definition open_ui (env : AppEnvironment) : Ui := mkUi (enableDebugMode (ENV_CONFIG env)) false false None.

(** What a render reads from the hooks and services. *)
Record Frame := mkFrame {
  fr_home : Home;
  fr_tracker : Tracker;
  fr_readout : Readout;
  fr_sync : CloudSyncService;
  fr_currentLocation : option LocationData;
  fr_conflict : option PendingConflictRecord;
  fr_version : string;
  fr_build : string
}.

(** The direct children of the scroll view. *)
Inductive Child := child_top | child_foe (foe : EncounterObj) | child_rest.

Record HomePage := mkHomePage {
  hp_banner : option Indicator;
  hp_sticky : option (list nat);
  hp_children : list Child;
  hp_slots : list (string * string);
  hp_status : string;
  hp_location : option (string * option string);
  hp_controls : list Control;
  hp_panel : option Panel;
  hp_encounter : option (bool * list Button);
  hp_combat : bool;
  hp_conflict : option PendingConflictRecord
}.

Inductive Page :=
  | page_archetype (key : Z) (cards : list ArchetypeCard)
  | page_loading (conflict : option PendingConflictRecord)
  | page_home (page : HomePage).

(** [isTracking || LocationService.getIsTracking()] *)
Definition tracking_shown (t : Tracker) : bool := shownTracking t || isTracking (w_service (location t)).

Definition track_control (t : Tracker) : Control :=
  if tracking_shown t then mkControl "Stop Tracking" StopWalking else mkControl "Start Walking" StartWalking.

Definition location_info (l : option LocationData) : option (string * option string) :=
  l ← l;
  Some (fixed 6 (loc_latitude l) +:+ ", " +:+ fixed 6 (loc_longitude l),
        if js_lt 0 (loc_speed l)
        then Some ("Speed: " +:+ fixed 1 (js_mul (loc_speed l) (lit 3.6)) +:+ " km/h") else None).

(** The minimized encounter's indicator. *)
Definition minimized_control (s : Session) : list Control :=
  match currentEncounter s with
  | Some encounter =>
      if isEncounterModalMinimized s && negb (showCombatModal s)
      then [mkControl (" Active Encounter: " +:+ c_name (eo_creature encounter) +:+ " (Tap to view)")
              ExpandEncounter]
      else []
  | None => []
  end.

(** The screen's own controls, from top to bottom; that of the settings is an icon. *)
Definition home_controls (s : Session) (t : Tracker) : list Control :=
  mkControl "" OpenSettings
  :: from_option (fun _ => [mkControl "Fight →" FightFoe]) [] (heldFoe s)
  ++ ((fun slot => mkControl (slotLabels slot) (PressSlot slot)) <$> shown_slots)
  ++ [mkControl " View Inventory" ViewInventory; track_control t]
  ++ minimized_control s.

(** The grouping [useDebugActions] returns. *)
Definition debug_controller (fr : Frame) : DebugController :=
  let s := session (game (fr_home fr)) in
  mkController (fr_readout fr) (fr_currentLocation fr) (getSyncStatus (fr_sync fr)) (forceItemDrop s)
    (forcedRarity s).

(** The buttons of the encounter modal, and whether it is visible. *)
Definition encounter_offer (env : AppEnvironment) (ui : Ui) (player : Player) (s : Session)
    : option (bool * list Button) :=
  encounter ← currentEncounter s;
  Some (showEncounterModal s && negb (showCombatModal s),
        encounter_buttons (enableDebugMode (ENV_CONFIG env) && debugMode ui) (eo_creature encounter)
          (Some (p_hp player))).

Definition home_page (env : AppEnvironment) (ui : Ui) (now : Z) (player : Player) (fr : Frame) : HomePage :=
  let s := session (game (fr_home fr)) in
  let environmentBanner := ENVIRONMENT_BANNER env in
  let appVersionLabel := fr_version fr +:+ " (build " +:+ fr_build fr +:+ ")" in
  mkHomePage
    (if eb_visible environmentBanner
     then BetaIndicator true (Some appVersionLabel) (Some (eb_buildType environmentBanner))
            (eb_variant environmentBanner)
     else None)
    (match heldFoe s with Some _ => Some [1%nat] | None => None end)
    (child_top :: from_option (fun foe => [child_foe foe]) [] (heldFoe s) ++ [child_rest])
    (slot_text (p_equipment player) <$> shown_slots)
    (if tracking_shown (fr_tracker fr) then "Tracking Active" else "Not Tracking")
    (location_info (fr_currentLocation fr))
    (home_controls s (fr_tracker fr))
    (DebugPanel env (debugMode ui) now player (debug_controller fr))
    (encounter_offer env ui player s)
    (showCombatModal s)
    (fr_conflict fr).

Definition render_home (env : AppEnvironment) (ui : Ui) (now : Z) (fr : Frame) : Page :=
  let h := hook (world (fr_home fr)) in
  if h_needsArchetypeSelection h then page_archetype (h_repaintToken h) archetype_screen
  else match h_player h with
       | None => page_loading (fr_conflict fr)
       | Some po => page_home (home_page env ui now (po_player po) fr)
       end.

(** The controls a page offers; those of the encounter modal are events of the session. *)
Definition offered (p : Page) : list HomeAction :=
  match p with
  | page_home p => ctl_action <$> hp_controls p ++ from_option pn_controls [] (hp_panel p)
  | _ => []
  end.

Definition offered_events (p : Page) : list CombatSession.Event :=
  match p with
  | page_home p => from_option (fun m => btn_event <$> snd m) [] (hp_encounter p)
  | _ => []
  end.

(** What a press does to the screen's own state. *)
Definition tap (action : HomeAction) (ui : Ui) : Ui :=
  match action with
  | OpenSettings => ui <| showSettingsModal := true |>
  | PressSlot slot => ui <| selectedEquipmentSlot := Some slot |> <| showInventoryModal := true |>
  | ViewInventory => ui <| selectedEquipmentSlot := None |> <| showInventoryModal := true |>
  | ToggleDebug enabled => ui <| debugMode := enabled |>
  | _ => ui
  end.

(** ** The panel's presses *)

(** The panel's presses that are events of the home screen. *)
Definition debug_events (act : DebugAction) : list HomeEvent :=
  match act with
  | previewReveal r => [HGame (EvPreview r)]
  | forceEncounter => [HForce]
  | forceIdleEncounter r => [HForceIdle r]
  | forceEliteEncounter r => [HForceElite r]
  | simulateWalk count => replicate count (HForceIdle common)
  | showWalkSummary => [HSummaryStart]
  | _ => []
  end.

Definition set_session (now : Z) (f : Session -> Session) (h : Home) : Rand (option Home) :=
  play now (on_session (fun s => rand_ret (f s))) h.

Definition press_debug (now now' : Z) (currentDistance : Q) (act : DebugAction) (h : Home)
    : Rand (option Home) :=
  match act with
  | restoreHp => set_session now debug_restoreHp h
  | clearInventory => set_session now debug_clearInventory h
  | fillInventory =>
      let! r := debug_fillInventory now (session (enter h)) in
      rand_ret (r ← r; Some (leave now h (enter h <| session := fst r |>)))
  | setBypass value =>
      play now (fun a => rand_ret (a <| service := Encounter.setBypassTimeConstraint (service a) value |>)) h
  | setForceItemDrop value => set_session now (fun s => s <| forceItemDrop := value |>) h
  | setForcedRarity value => set_session now (fun s => s <| forcedRarity := value |>) h
  | simulateMovement meters =>
      play now (DebugActions.simulateMovement (gate_env now now' h) now currentDistance (num meters)) h
  | setLevel level => set_session now (fun s => fst (debug_setLevel level s)) h
  | setArchetype archetype => set_session now (fun s => fst (debug_setArchetype archetype s)) h
  | addXP amount => set_session now (fun s => fst (debug_addXP amount s)) h
  | _ => Home.run (pair now <$> debug_events act) h
  end.

(** The conditions under which [Home] shows the game kept well formed, checked along the
    press. *)
Definition paced_press (now : Z) (act : DebugAction) (h : Home) (r : rng) : bool :=
  match act with
  | simulateMovement _ => low_level h
  | _ => paced (pair now <$> debug_events act) h r
  end.

End Page.

(** ** The debug gate *)

Definition is_debug (a : HomeAction) : bool :=
  match a with Debug _ | ToggleDebug _ => true | _ => false end.

Section Gate.
Context `{Trig} `{AsyncStorage}.

Lemma home_controls_plain s t : Forall (fun c => is_debug (ctl_action c) = false) (home_controls s t).
Proof.
  unfold home_controls, minimized_control, track_control. constructor; [reflexivity|].
  destruct (heldFoe s); cbn; repeat (constructor; [reflexivity|]);
    (constructor; [destruct (tracking_shown t); reflexivity|]);
    destruct (currentEncounter s); repeat case_match; repeat constructor.
Qed.

Lemma plain_buttons c hp : EvDebugDefeat ∉ (btn_event <$> encounter_buttons false c hp).
Proof.
  unfold encounter_buttons. destruct (canAutoResolve c); cbn; rewrite !elem_of_cons, elem_of_nil;
    intros E; decompose [or] E; discriminate || contradiction.
Qed.

Lemma production_env dev var : dev = false -> var <> Some "testing" ->
  getAppEnvironment dev var = production.
Proof. intros -> N. unfold getAppEnvironment. rewrite bool_decide_false by exact N. reflexivity. Qed.

(** A shipped build has no debug controls.  In a release build that did not opt in to
    testing, whatever the screen's state (even one whose debug mode is on), whatever the
    game does and whenever it renders, no control on the page is one of the debug panel,
    the encounter modal does not offer the instant defeat, and no build banner is shown. *)
Theorem production_locked (dev : bool) (var : option string) (ui : Ui) (now : Z) (fr : Frame) :
  dev = false -> var <> Some "testing" ->
  let page := render_home (getAppEnvironment dev var) ui now fr in
  Forall (fun a => is_debug a = false) (offered page)
  /\ (EvDebugDefeat ∉ offered_events page)
  /\ forall p, page = page_home p -> hp_panel p = None /\ hp_banner p = None.
Proof.
  intros D V page. subst page. rewrite production_env by assumption. unfold render_home.
  destruct (h_needsArchetypeSelection _);
    [split; [constructor | split; [apply not_elem_of_nil | discriminate]]|].
  destruct (h_player _) as [po|]; [|split; [constructor | split; [apply not_elem_of_nil | discriminate]]].
  cbn [offered offered_events home_page hp_controls hp_panel hp_encounter]. split; [|split].
  - cbn [DebugPanel]. rewrite app_nil_r. apply Forall_fmap, home_controls_plain.
  - unfold encounter_offer. destruct (currentEncounter _); cbn; [apply plain_buttons | apply not_elem_of_nil].
  - intros p [= <-]. split; reflexivity.
Qed.

Lemma panel_offered env ui now fr po p : render_home env ui now fr = page_home p ->
  h_player (hook (world (fr_home fr))) = Some po ->
  forall panel, DebugPanel env (debugMode ui) now (po_player po) (debug_controller fr) = Some panel ->
  forall c, c ∈ pn_controls panel -> ctl_action c ∈ offered (render_home env ui now fr).
Proof.
  unfold render_home. destruct (h_needsArchetypeSelection _); [discriminate|]. intros _ -> panel E c I.
  cbn [offered home_page hp_controls hp_panel]. rewrite E.
  apply list_elem_of_fmap_2, elem_of_app. right. exact I.
Qed.

(** In the other builds the debug controls are a press away.  While the panel is hidden
    its toggle is offered, and with it shown the page offers the forced encounter, every
    rarity for drops, every class and the preview, whatever the settings. *)
Theorem debug_within_reach (env : AppEnvironment) (ui : Ui) (now : Z) (fr : Frame) (p : HomePage) :
  env <> production -> render_home env ui now fr = page_home p ->
  (debugMode ui = false -> ToggleDebug true ∈ offered (page_home p))
  /\ (let page := render_home env (tap (ToggleDebug true) ui) now fr in
      forall act, act = forceEncounter \/ (exists r, act = setForcedRarity r) \/ (exists a, act = setArchetype a)
        \/ act = previewReveal (forcedRarity (session (game (fr_home fr)))) ->
      Debug act ∈ offered page).
Proof.
  intros N R. assert (G : enableDebugMode (ENV_CONFIG env) = true) by (destruct env; [..|congruence]; reflexivity).
  assert (exists po, h_player (hook (world (fr_home fr))) = Some po /\
    h_needsArchetypeSelection (hook (world (fr_home fr))) = false) as (po & E & A).
  { unfold render_home in R. destruct (h_needsArchetypeSelection _); [discriminate|].
    destruct (h_player _); [eauto | discriminate]. }
  split.
  - intros D. rewrite <- R.
    eapply (panel_offered _ _ _ _ po p R E _ ltac:(unfold DebugPanel; rewrite G, D; reflexivity)
              (mkControl "Show Debug Mode" (ToggleDebug true))). left.
  - intros page act K. assert (Q : exists p', page = page_home p')
      by (unfold page, render_home; rewrite A, E; eauto). destruct Q as [p' Q].
    pose proof (panel_offered _ _ _ _ po p' Q E _ ltac:(unfold DebugPanel; rewrite G; reflexivity)) as O.
    assert (exists l, debug_control l act ∈ drop_controls (dc_forceItemDrop (debug_controller fr))
                        (dc_forcedRarity (debug_controller fr)) ++ encounter_controls ++ player_controls) as [l I].
    { destruct K as [ -> | [ [r ->] | [ [a ->] | -> ] ] ];
        [| destruct r as [ [] | ] | destruct a |]; eexists;
        cbn; unfold debug_control; repeat (apply elem_of_cons; first [left; reflexivity | right]). }
    apply (O (debug_control l act)). cbn [pn_controls]. apply elem_of_app. right.
    rewrite !app_assoc. apply elem_of_app. left. rewrite <- !app_assoc. exact I.
Qed.

End Gate.

(** ** The panel and the game *)

Section Safe.
Context `{Trig} `{AsyncStorageLaws}.

Lemma run_game now evs : Forall (fun ev => play_event ev = true) evs -> forall h r, wf_rng r ->
  game_ok (enter h) -> paced (pair now <$> evs) h r = true ->
  exists h', fst (Home.run (pair now <$> evs) h r) = Some h' /\ game_ok (enter h').
Proof.
  induction 1 as [|ev evs P _ IH]; intros h r W G Q; [cbn; eauto|]. cbn [fmap list_fmap] in *.
  cbn [paced Home.run] in *. apply andb_true_iff in Q as [Q1 Q2].
  destruct (dispatch_played now ev h G P Q1 r W) as [(h1 & E & Pl) W1].
  unfold rand_bind. destruct (Home.dispatch now ev h r) as [o r1]. cbn [fst snd] in *. subst o.
  cbn [from_option] in Q2. apply IH; [exact W1 | apply (played_game _ _ Pl G) | exact Q2].
Qed.

Lemma play_game now m h r : wf_rng r -> game_ok (enter h) ->
  rand_post (m (enter h)) (stepped (enter h)) ->
  exists h', fst (play now m h r) = Some h' /\ game_ok (enter h').
Proof.
  intros W G M. destruct (play_played now m h M r W) as [(h' & E & P) _].
  exists h'. split; [exact E | apply (played_game _ _ P G)].
Qed.

Lemma set_session_game now f h r : wf_rng r -> game_ok (enter h) ->
  session_ok (f (session (enter h))) -> advanced (session (enter h)) (f (session (enter h))) ->
  exists h', fst (set_session now f h r) = Some h' /\ game_ok (enter h').
Proof.
  intros W G K A. apply play_game; [exact W | exact G|].
  apply on_session_ok; [exact G | apply rand_post_ret, K | apply rand_post_ret, A].
Qed.

Lemma with_live_advanced f s : advanced s (with_live f s).
Proof. unfold with_live. destruct (playerRef s) as [p|] eqn:P; [eapply advanced_save; eauto; reflexivity | adv]. Qed.

Lemma fill_game now h r : wf_rng r -> game_ok (enter h) ->
  exists h', fst (press_debug now now 0 fillInventory h r) = Some h' /\ game_ok (enter h').
Proof.
  intros W G. cbn [press_debug]. unfold rand_bind.
  destruct (playerRef (session (enter h))) as [p|] eqn:P.
  - destruct (fillInventory_fills now _ p (proj1 G) P r W) as [(p' & n & a & E & _ & _ & K) _].
    destruct (debug_fillInventory now (session (enter h)) r) as [o r1]. cbn [fst] in E. subst o. cbn.
    eexists. split; [reflexivity|]. apply leave_game, stepped_session; [exact G | exact K | adv].
  - unfold debug_fillInventory. rewrite P. cbn. eexists. split; [reflexivity|].
    apply leave_game, stepped_session; [exact G | apply G | adv].
Qed.

Lemma addXP_game now n h r : wf_rng r -> game_ok (enter h) -> 0 <= n ->
  exists h', fst (set_session now (fun s => fst (debug_addXP n s)) h r) = Some h' /\ game_ok (enter h').
Proof.
  intros W G N. destruct (debug_actions_ok _ 1 Martial n (proj1 G) N) as (_ & _ & K & _).
  apply set_session_game; [exact W | exact G | exact K|].
  unfold debug_addXP. destruct (playerRef (session (enter h))) as [p|] eqn:P; [|adv].
  destruct (addExperience _ _). adv.
Qed.

(** A press that changes the live player and saves it. *)
Ltac live := apply set_session_game; [assumption | assumption
  | apply with_live_ok; auto using fullHeal_wf, clearInventory_wf with game | apply with_live_advanced].

Definition grants_xp (a : HomeAction) : Prop := forall n, a = Debug (addXP n) -> 0 <= n.

Ltac each := repeat (apply Forall_cons_2; [intros ? [=]; lia|]); try apply Forall_nil_2.

Lemma offered_xp env ui now fr : Forall grants_xp (offered (render_home env ui now fr)).
Proof.
  unfold render_home. destruct (h_needsArchetypeSelection _); [apply Forall_nil_2|].
  destruct (h_player _) as [po|]; [|apply Forall_nil_2]. cbn [offered home_page hp_controls hp_panel].
  apply Forall_fmap, Forall_app. split.
  - eapply Forall_impl; [apply home_controls_plain|]. intros c D n E. unfold compose in E. simpl in *. rewrite E in D. discriminate.
  - unfold DebugPanel. destruct (negb _); [apply Forall_nil_2|].
    destruct (negb _); cbn [from_option pn_controls]; [each|].
    apply Forall_app. split; [each|]. unfold drop_controls, encounter_controls, player_controls.
    destruct (dc_forcedRarity _); cbn; each.
Qed.

(** C36: The debug panel cannot break the game.  From any well-formed game, pressing any
    control the panel offers, below the level where the arithmetic of rewards is exact
    and with no encounter active for a forced one, runs to its end (the loop that fills
    the inventory included) and leaves the game well formed: the player and every value
    the session derives from it, the stored encounter, and the saves that were made.  Any
    call of the storage may fail on the way. *)
Theorem debug_panel_safe (env : AppEnvironment) (ui : Ui) (now now' : Z) (distance : Q) (fr : Frame)
    (act : DebugAction) (r : rng) :
  wf_rng r -> game_ok (enter (fr_home fr)) ->
  Debug act ∈ offered (render_home env ui now fr) -> paced_press now act (fr_home fr) r = true ->
  exists h', fst (press_debug now now' distance act (fr_home fr) r) = Some h' /\ game_ok (enter h').
Proof.
  intros W G O Q. set (h := fr_home fr) in *. pose proof G as [K _].
  assert (X : forall n, act = addXP n -> 0 <= n).
  { pose proof (proj1 (Forall_forall _ _) (offered_xp env ui now fr) _ O) as X. intros n ->. apply X, eq_refl. }
  destruct act; cbn [press_debug];
    try solve [apply run_game; [repeat constructor | assumption..]].
  - live.
  - live.
  - apply fill_game; assumption.
  - apply play_game; [exact W | exact G|]. apply rand_post_ret.
    split; [exact G | apply game_keys_only_refl | adv].
  - apply set_session_game; auto; [|adv]. destruct K. constructor; assumption.
  - apply set_session_game; auto; [|adv]. destruct K. constructor; assumption.
  - apply play_game; [exact W | exact G|]. apply distance_stepped; [exact G | apply low_level_ok, Q].
  - apply run_game; [apply Forall_replicate; reflexivity | assumption..].
  - live.
  - live.
  - apply addXP_game; auto.
Qed.

End Safe.

(** ** The page and the state behind it *)

Section Truth.
Context `{Trig} `{AsyncStorageLaws}.

(** The sticky header is the held foe's card, and there is one exactly while a foe is held. *)
Theorem sticky_is_foe (env : AppEnvironment) (ui : Ui) (now : Z) (fr : Frame) (p : HomePage) :
  render_home env ui now fr = page_home p ->
  match heldFoe (session (game (fr_home fr))) with
  | Some foe => exists i, hp_sticky p = Some [i] /\ hp_children p !! i = Some (child_foe foe)
                /\ FightFoe ∈ offered (page_home p)
  | None => hp_sticky p = None /\ forall foe, child_foe foe ∉ hp_children p
  end.
Proof.
  unfold render_home. destruct (h_needsArchetypeSelection _); [discriminate|].
  destruct (h_player _); [|discriminate]. intros [= <-].
  cbn [home_page hp_sticky hp_children offered hp_controls].
  unfold home_controls. destruct (heldFoe _) as [foe|]; cbn [from_option app].
  - exists 1%nat. split; [reflexivity|]. split; [reflexivity|]. right. left.
  - split; [reflexivity|]. intros foe. rewrite !elem_of_cons, elem_of_nil. intuition discriminate.
Qed.

(** A banner is shown exactly in the builds that are not for the public, and it names the
    build: the text for other builds is never shown. *)
Theorem banner_names_build (env : AppEnvironment) (ui : Ui) (now : Z) (fr : Frame) (p : HomePage) :
  render_home env ui now fr = page_home p ->
  match env with
  | production => hp_banner p = None
  | _ => exists b, hp_banner p = Some b /\ is_Some (in_warning b)
         /\ in_title b = (match env with development => "🔧 DEVELOPMENT BUILD" | _ => "🧪 TESTING BUILD" end)
         /\ in_version b = Some (fr_version fr +:+ " (build " +:+ fr_build fr +:+ ")")
  end.
Proof.
  unfold render_home. destruct (h_needsArchetypeSelection _); [discriminate|].
  destruct (h_player _); [|discriminate]. intros [= <-].
  destruct env; [..|reflexivity]; eexists; (split; [reflexivity|]); cbn; repeat split; eauto;
    destruct (fr_version fr); reflexivity.
Qed.

(** The button that starts and stops tracking. *)
Lemma tracking_shown_ok dev t : tracker_ok dev t ->
  tracking_shown t = bool_decide (watchId (w_service (location t)) <> None).
Proof.
  intros K. unfold tracking_shown. rewrite (tk_shown dev t K), orb_diag. apply (ok_tracking _ (tk_world dev t K)).
Qed.

(** The button that starts and stops tracking says what the device does: after any events
    it offers to stop exactly while a watch is open; a press of "Stop Tracking" turns it into
    "Start Walking", and a press of that, once the permission is granted, turns it back. *)
Theorem track_button_truthful (dev : Device) (d : disk) (evs : list TrackEvent) (fresh : Z) :
  flag STORAGE_KEYS.TRACKING_STATE false d -> flag STORAGE_KEYS.BATTERY_PROMPT_SHOWN false d ->
  let t := track_run dev evs (launch_tracker d) in
  (ctl_action (track_control t) = StopWalking <-> watchId (w_service (location t)) <> None)
  /\ track_control (track dev t TStop) = mkControl "Start Walking" StartWalking
  /\ (fresh ∉ w_open (location t) ->
      track_control (track_run dev [TStart; TAnswer "granted" fresh] t) = mkControl "Stop Tracking" StopWalking).
Proof.
  intros F B t. pose proof (track_run_ok dev evs _ (launch_ok dev d F B)) as K. fold t in K.
  unfold track_control. split; [|split].
  - rewrite (tracking_shown_ok dev t K). case_bool_decide; cbn; intuition congruence.
  - cbn [track]. unfold tracking_shown. pose proof (stopped_ok dev t K) as K'.
    rewrite <- (tk_shown dev _ K'), orb_diag. unfold stopTracking, put_flag. cbv zeta.
    destruct (saveTrackingState _ _). reflexivity.
  - intros N. cbn [track_run fold_left track]. unfold tracking_shown.
    rewrite bool_decide_false by exact N. rewrite (start_granted dev fresh (starting t)) by reflexivity.
    reflexivity.
Qed.

End Truth.

(** ** Concrete pages *)

Definition first_frame (h : @Home durable_storage) : @Frame durable_storage :=
  mkFrame h (@launch_tracker durable_storage no_flags) initial_readout new_CloudSyncService None None "1.2.0" "48".

Definition shown_ui : Ui := mkUi true false false None.

Lemma production_locked_witness :
  let page := @render_home durable_storage (getAppEnvironment false None) shown_ui 0 (first_frame beat_home) in
  (exists p, page = page_home p) /\ Forall (fun a => is_debug a = false) (offered page).
Proof.
  cbv zeta. split; [eexists; reflexivity|].
  apply (@production_locked durable_storage false None shown_ui 0 (first_frame beat_home)); [reflexivity | discriminate].
Defined.

Lemma debug_panel_safe_witness : exists h',
  fst (@press_debug sample_trig durable_storage 6000 6001 0 (simulateWalk 5) beat_home sample_rng) = Some h'
  /\ game_ok (enter h').
Proof.
  apply (@debug_panel_safe sample_trig durable_storage durable_laws testing shown_ui 6000 6001 0
           (first_frame beat_home) (simulateWalk 5) sample_rng);
    [apply sample_rng_wf | apply beat_home_ok | | vm_compute; reflexivity].
  vm_compute. repeat (apply elem_of_cons; first [left; reflexivity | right]).
Defined.

(** A page of a tester, read from top to bottom. *)
Example tester_page :
  match @render_home durable_storage testing shown_ui 65000
          (first_frame beat_home)
  with
  | page_home p =>
      hp_status p = "Not Tracking"
      /\ (in_title <$> hp_banner p) = Some "🧪 TESTING BUILD"
      /\ (pn_rows <$> hp_panel p)
         = Some ["❤️ HP: 100 / 100  ⚔️ ATK: 19  🛡️ DEF: 6"; "⭐ Lv 1  XP: 0 / 100";
                 "☁️ Sync: never  ⏳ 0 pending"; "Encounter Chance: 0.00%"]
  | _ => False
  end.
Proof. vm_compute. repeat split. Qed.
