(* ===== verification/FightView.v ===== *)
(** * The fight as it is shown

    [components/combat/CombatModal.tsx], [CombatLog.tsx], [CombatFxCanvas.tsx],
    [CreaturePlate.tsx] and [creatures/registry.ts], with the glyph tables of
    [components/icons/].

    The modal is the record of what it computes from the session: whose turn it is, the
    numbers, the badges, the ability buttons with their state, the outcome and the log.
    Drawings are names; positions, colours that only theme the screen and the timing of
    animations inside the animation library are left out. *)
From stdpp Require Import base decidable strings list pretty.
From Stdlib Require Import Ascii ZArith QArith Lia Lqa.
From S2P Require Import Prelude JsNumber Random Combat Archetype Ability CombatFeed Creature.
From S2P Require Import Config Item Player Loot Encounter CombatSession SessionInvariant CombatView.
From S2P Require Import StageLayout Screens.
Local Open Scope Z_scope.

(** ** Drawings *)

(** A table keyed by strings, as [Record<string, _>]. *)
Definition entry {A} (table : list (string * A)) (key : string) : option A :=
  snd <$> List.find (fun e => bool_decide (fst e = key)) table.

Definition CREATURE_BODIES : list (string * string) :=
  [ ("sump_ooze", "SumpOozeBody"); ("forest_sprite", "ForestSpriteBody");
    ("urban_phantom", "UrbanPhantomBody"); ("alley_cur", "AlleyCurBody");
    ("gutter_swarm", "GutterSwarmBody"); ("mossback_toad", "MossbackToadBody");
    ("grit_golemling", "GritGolemlingBody"); ("pale_stray", "PaleStrayBody");
    ("ash_wretch", "AshWretchBody"); ("copper_sentinel", "CopperSentinelBody") ].

(** [creatureId ? CREATURE_BODIES[creatureId] : undefined] *)
Definition resolveCreatureBody (creatureId : option string) : option string :=
  match creatureId with
  | None | Some "" => None
  | Some id => entry CREATURE_BODIES id
  end.

Inductive CreatureAnimState := anim_idle | anim_attack | anim_death.

Definition deriveCreatureAnimState (isDefeated isEnemyTurn : bool) : CreatureAnimState :=
  if isDefeated then anim_death else if isEnemyTurn then anim_attack else anim_idle.

(** The creature types with an emblem, in the order of the table, and their tints. *)
Definition ELEMENT_COLORS : list (string * string) :=
  [ ("Fire", "#FF7043"); ("Frost", "#4FC3F7"); ("Water", "#29B6F6"); ("Air", "#90CAF9");
    ("Earth", "#A1887F"); ("Nature", "#66BB6A"); ("Shadow", "#7E57C2"); ("Arcane", "#BA68C8");
    ("Spirit", "#B39DDB"); ("Undead", "#90A4AE"); ("Beast", "#FF8A65"); ("Vermin", "#9CCC65");
    ("Ooze", "#26A69A"); ("Fungus", "#AB47BC"); ("Construct", "#78909C") ].

Definition ELEMENT_EMBLEMS : list (string * string) :=
  (fun type => (type, type)) <$>
  [ "Fire"; "Frost"; "Water"; "Air"; "Earth"; "Nature"; "Shadow"; "Arcane"; "Spirit"; "Undead";
    "Beast"; "Vermin"; "Ooze"; "Fungus"; "Construct" ].

Definition emblemColor (type : string) : string := default "#B0BEC5" (entry ELEMENT_COLORS type).

Definition RARITY_COLORS (rarity : Rarity) : string :=
  match rarity with
  | common => "#9E9E9E" | uncommon => "#4CAF50" | rare => "#2196F3" | epic => "#9C27B0"
  | legendary => "#FF9800"
  end.

(** What a plate draws in its ring: a body or an emblem with its size, or nothing. *)
Inductive Drawing := drawn_body (body : string) (size : Z) | drawn_emblem (emblem : string) (size : Z) | drawn_nothing.

Record Plate := mkPlate { pl_ring : string; pl_tint : string; pl_drawing : Drawing }.

Definition CreaturePlate (type : string) (rarity : Rarity) (size : Z) (creatureId : option string) : Plate :=
  let scaled f := math_round (js_mul (num size) f) in
  mkPlate (RARITY_COLORS rarity) (emblemColor type)
    (match resolveCreatureBody creatureId with
     | Some body => drawn_body body (scaled (lit (76 # 100)))
     | None => match entry ELEMENT_EMBLEMS type with
               | Some emblem => drawn_emblem emblem (scaled (lit (56 # 100)))
               | None => drawn_nothing
               end
     end).

Definition ABILITY_ICONS : list (string * string) :=
  [ ("strike", "StrikeIcon"); ("power_strike", "PowerStrikeIcon"); ("battle_cry", "BattleCryIcon");
    ("execute", "ExecuteIcon"); ("quick_slash", "QuickSlashIcon"); ("twin_fangs", "TwinFangsIcon");
    ("hemorrhage", "HemorrhageIcon"); ("evasive_leap", "EvasiveLeapIcon");
    ("arcane_bolt", "ArcaneBoltIcon"); ("fireball", "FireballIcon"); ("frost_bolt", "FrostBoltIcon");
    ("immolate", "ImmolateIcon"); ("arcane_surge", "ArcaneSurgeIcon") ].

Definition AbilityIcon (id : string) : string := default "FallbackIcon" (entry ABILITY_ICONS id).

Definition ITEM_SLOT_ICONS : list (string * string) :=
  [ ("weapon", "WeaponIcon"); ("offhand", "OffhandIcon"); ("head", "HeadIcon"); ("chest", "ChestIcon");
    ("legs", "LegsIcon"); ("boots", "BootsIcon"); ("gloves", "GlovesIcon"); ("accessory", "AccessoryIcon") ].

Definition normalizeSlotKey (slot : string) : string :=
  if String.prefix "accessory" slot then "accessory" else slot.

Definition ItemSlotIcon (slot : string) : string :=
  default "FallbackSlotIcon" (entry ITEM_SLOT_ICONS (normalizeSlotKey slot)).

(** The key of an equipment slot. *)
Definition slot_key (slot : EquipmentSlot) : string :=
  match slot with
  | slot_weapon => "weapon" | slot_offhand => "offhand" | slot_head => "head" | slot_chest => "chest"
  | slot_legs => "legs" | slot_boots => "boots" | slot_gloves => "gloves"
  | slot_accessory1 => "accessory1" | slot_accessory2 => "accessory2"
  end.

(** ** Particle bursts *)

Record BurstPreset := mkPreset {
  bp_color : string;
  bp_count : Z;
  bp_speed : Q;
  bp_size : Z;
  bp_lifetimeMs : Z;
  bp_upwardBias : Q;
  bp_gravity : Q
}.

Definition PARTICLE_PRESETS (t : DamageType) : BurstPreset :=
  match t with
  | Combat.fire => mkPreset "#FF7043" 16 34 5 620 (lit (7 # 10)) (-26)
  | frost => mkPreset "#4FC3F7" 12 40 5 560 0 8
  | arcane => mkPreset "#BA68C8" 14 36 5 640 0 0
  | physical => mkPreset "#ECEFF1" 10 46 4 440 0 12
  end.

Definition BUFF_PRESET : BurstPreset := mkPreset "#FFD54F" 16 30 5 700 (lit (85 # 100)) (-34).
Definition DEBUFF_PRESET : BurstPreset := mkPreset "#B39DDB" 12 26 5 650 0 22.

Definition RESIST_COUNT_SCALE (r : ResistTier) : Q :=
  match r with resisted => lit (5 # 10) | neutral => 1 | vulnerable => lit (13 # 10) end.

Definition RESIST_OPACITY (r : ResistTier) : Q :=
  match r with resisted => lit (55 # 100) | neutral => lit (9 # 10) | vulnerable => 1 end.

Record ParticleSpec := mkSpec { ps_angle : Q; ps_dist : Q; ps_gravity : Q }.

Definition particle_count (preset : BurstPreset) (countScale : Q) : Z :=
  Z.max 4 (math_round (js_mul (num (bp_count preset)) countScale)).

(** The particles from number [i] on. *)
Fixpoint particles_from (preset : BurstPreset) (count : Z) (i : Z) (n : nat) : Rand (list ParticleSpec) :=
  match n with
  | O => rand_ret []
  | S n =>
      let! q := math_random in
      let angle :=
        if js_lt 0 (bp_upwardBias preset)
        then js_add (js_div (- math_PI) 2)
               (js_mul (js_mul (js_sub q (1 # 2)) math_PI) (js_sub 1 (bp_upwardBias preset)))
        else js_add (js_mul (js_mul (js_div (num i) (num count)) math_PI) 2)
               (js_mul (js_sub q (1 # 2)) (lit (8 # 10))) in
      let! q' := math_random in
      let dist := js_mul (bp_speed preset) (js_add (lit (6 # 10)) (js_mul q' (lit (6 # 10)))) in
      let! rest := particles_from preset count (i + 1) n in
      rand_ret (mkSpec angle dist (bp_gravity preset) :: rest)
  end.

Definition makeParticles (preset : BurstPreset) (countScale : Q) : Rand (list ParticleSpec) :=
  let count := particle_count preset countScale in
  particles_from preset count 0 (Z.to_nat count).

Definition burst_preset (burst : CombatBurst) : BurstPreset :=
  match bu_kind burst with
  | burst_buff => BUFF_PRESET
  | burst_debuff => DEBUFF_PRESET
  | burst_damage => PARTICLE_PRESETS (default physical (bu_damageType burst))
  end.

Definition ParticleBurst (burst : CombatBurst) : Rand (list ParticleSpec) :=
  makeParticles (burst_preset burst) (RESIST_COUNT_SCALE (bu_resist burst)).

(** The bursts a panel's canvas draws: those of its combatant, once it is measured. *)
Definition canvas_bursts (width : Q) (target : Combatant) (bursts : list CombatBurst) : list CombatBurst :=
  let mine := List.filter (fun b => bool_decide (bu_target b = target)) bursts in
  if js_lt 0 width then mine else [].

(** ** The combat log *)

(** The theme's colours the fight uses, by name. *)
Inductive Token :=
  | tk_danger | tk_success | tk_warning | tk_accent | tk_textMuted | tk_fire | tk_frost | tk_arcane
  | tk_physical.

Definition lineColor (e : CombatLogEntry) : Token :=
  let on_player := bool_decide (cl_target e = Some CPlayer) in
  match cl_kind e with
  | l_attack | l_dot => if on_player then tk_danger else tk_success
  | l_heal => tk_success
  | l_buff => tk_warning
  | l_debuff => tk_arcane
  | l_defeat => if on_player then tk_danger else tk_accent
  end.

(** The lines of the log with their colours; [None]: nothing happened yet. *)
Definition log_lines (entries : list CombatLogEntry) (creatureName : string) : option (list (string * Token)) :=
  match entries with
  | [] => None
  | _ => Some ((fun e => (formatCombatLogEntry e (mkNames "You" creatureName), lineColor e)) <$> entries)
  end.

(** ** The combat modal *)

Definition damageTypeColor (t : DamageType) : Token :=
  match t with Combat.fire => tk_fire | frost => tk_frost | arcane => tk_arcane | physical => tk_physical end.

Definition getButtonColor (ability : Ability) : Token :=
  match ability with
  | DirectAbility _ _ t | DotAbility _ _ _ t => damageTypeColor t
  | BuffDebuffAbility _ _ _ _ => tk_textMuted
  | DefensiveAbility _ _ _ _ => tk_success
  end.

Record AbilityButton := mkAbilityButton {
  bt_ability : Ability;
  bt_icon : string;
  bt_color : Token;
  bt_preview : string;
  bt_cost : option string;
  bt_disabled : bool
}.

Definition resourceLabel (archetype : Archetype) : string :=
  match ac_resource (ARCHETYPE_CONFIGS archetype) with rage => "Rage" | energy => "Energy" | mana => "Mana" end.

Definition ability_button (creature : Creature) (player : Player) (state : option CombatantState)
    (enemyTurn : bool) (ability : Ability) : AbilityButton :=
  mkAbilityButton ability (AbilityIcon (ab_id (ability_base ability))) (getButtonColor ability)
    (getDamagePreview creature player state ability)
    (if 0 <? resourceCost ability
     then Some (pretty (resourceCost ability) +:+ " " +:+ resourceLabel (p_archetype player)) else None)
    (ability_disabled creature player state enemyTurn ability).

(** [id.replace('_', ' ')]: the first underscore. *)
Fixpoint replace_underscore (id : string) : string :=
  match id with
  | EmptyString => EmptyString
  | String "_" id' => String " " id'
  | String c id' => String c (replace_underscore id')
  end.

Inductive BadgeIcon := BuffIcon | DebuffIcon | DotIcon.

Definition status_badge (effect : StatusEffect) : BadgeIcon * string :=
  (match se_type effect with buff => BuffIcon | debuff => DebuffIcon | dot => DotIcon end,
   " " +:+ replace_underscore (se_id effect) +:+ " (" +:+ pretty (remainingTicks effect) +:+ "t)").

Definition stat_chips_of (attack defense speed : Z) : list string :=
  ["ATK " +:+ pretty attack; "DEF " +:+ pretty defense; "SPD " +:+ pretty speed].

Record CombatScreen := mkCombatScreen {
  cs_visible : bool;
  cs_turn : string;
  cs_state : CreatureAnimState;
  cs_creature : list string;
  cs_chips : list (DamageType * string);
  cs_player : list string;
  cs_resource : string * string;
  cs_badges : list (BadgeIcon * string);
  cs_section : string;
  cs_buttons : list AbilityButton;
  cs_outcome : option string;
  cs_log : option (list (string * Token))
}.

Definition hp_text (hp maxHp : Z) : string := pretty hp +:+ " / " +:+ pretty maxHp +:+ " HP".

Definition turn_banner (creature : Creature) (enemyTurn : bool) : string :=
  if enemyTurn then c_name creature +:+ "'s turn — bracing…" else "Your turn".

(** The creature's name, hit points and stats under the stage. *)
Definition plinth (creature : Creature) : list string :=
  c_name creature :: hp_text (c_hp creature) (c_maxHp creature)
    :: stat_chips_of (c_attack creature) (c_defense creature) (c_speed creature).

Definition player_info (player : Player) : list string :=
  ("You (" +:+ ac_name (ARCHETYPE_CONFIGS (p_archetype player)) +:+ ")") :: hp_text (p_hp player) (p_maxHp player)
    :: stat_chips_of (p_attack player) (p_defense player) (p_speed player).

(** The resource's label and its value. *)
Definition resource_row (archetype : Archetype) (state : option CombatantState) : string * string :=
  (resourceLabel archetype,
   pretty (shown_resource archetype state) +:+ "/" +:+ pretty (rc_max (RESOURCE_CONFIGS archetype))).

Definition section_title (enemyTurn : bool) : string :=
  if enemyTurn then "Enemy turn — hold on…" else "Choose an Ability".

Definition outcome_message (creature : Creature) (player : Player) : option string :=
  if isDefeated creature then Some "Creature Defeated!"
  else if player_isDefeated player then Some "You are Defeated!" else None.

Definition combat_screen (s : Session) (player : option Player) : option CombatScreen :=
  encounter ← currentEncounter s;
  player ← player;
  let creature := eo_creature encounter in
  let state := playerCombatState s in
  let archetype := p_archetype player in
  Some (mkCombatScreen (showCombatModal s)
    (turn_banner creature (isEnemyTurn s))
    (deriveCreatureAnimState (isDefeated creature) (isEnemyTurn s))
    (plinth creature)
    (resistance_chips (c_resistances creature))
    (player_info player)
    (resource_row archetype state)
    (from_option (fun st => status_badge <$> statusEffects st) [] state)
    (section_title (isEnemyTurn s))
    (ability_button creature player state (isEnemyTurn s) <$> ARCHETYPE_ABILITIES archetype)
    (outcome_message creature player)
    (log_lines (combatLog s) (c_name creature))).

(** ** The bars *)

Inductive Timing := snap | ease.

(** [barsEncounterRef], the dependencies of the effect as of its last run, and the timing of
    each run. *)
Record Bars := mkBars {
  bars_ref : option Z;
  bars_deps : option (option Z * Q * Q * Q);
  bars_moves : list Timing
}.

Definition initial_bars : Bars := mkBars None None [].

Definition same_deps (a b : option Z * Q * Q * Q) : bool :=
  let '(i, x, y, z) := a in let '(i', x', y', z') := b in
  bool_decide (i = i') && Qeq_bool x x' && Qeq_bool y y' && Qeq_bool z z'.

(** The effect after a render with these targets. *)
Definition bars_effect (encId : option Z) (creaturePct playerPct resourcePct : Q) (b : Bars) : Bars :=
  let deps := (encId, creaturePct, playerPct, resourcePct) in
  if from_option (same_deps deps) false (bars_deps b) then b
  else mkBars encId (Some deps)
         (bars_moves b ++ [if bool_decide (bars_ref b = encId) then ease else snap]).

(** A render of the modal for a session and the player shown. *)
Definition render_bars (s : Session) (player : option Player) (b : Bars) : Bars :=
  bars_effect (e_timestamp ∘ eo_enc <$> currentEncounter s) (creatureHpTargetPct (currentEncounter s))
    (playerHpTargetPct player) (resourceTargetPct player (playerCombatState s)) b.

(** ** The modal and the fight *)

Lemma shown_affordable s p : session_ok s -> castable s -> playerRef s = Some p ->
  exists ab, ab ∈ ARCHETYPE_ABILITIES (p_archetype p)
    /\ resourceCost ab <= shown_resource (p_archetype p) (playerCombatState s).
Proof.
  intros K C P. rewrite (ok_state_sync s K).
  destruct (playerCombatStateRef s) as [st|] eqn:S; cbn [shown_resource]; apply roster_affordable.
  - apply (ok_resource s K st S).
  - apply (C p st P S).
  - destruct (p_archetype p); cbn; lia.
  - intros ->. cbn. lia.
Qed.

Lemma disabled_outside c p st b ab : isDefeated c || player_isDefeated p || b = true ->
  ability_disabled c p st b ab = true.
Proof.
  unfold ability_disabled. destruct (isDefeated c), (player_isDefeated p), b; cbn; intros E; try discriminate;
    rewrite ?orb_true_r; reflexivity.
Qed.

(** The modal always lets the fight go on.  After any events (archetype changes aside),
    the combat modal says that it is the player's turn exactly while the creature's beat is
    not running; it announces an outcome exactly when one of the two is down; and some
    ability button is enabled exactly when it is the player's turn and nobody is down, so
    the player is never left before a fight in which every button is dead. *)
Theorem turn_is_playable (p0 : Player) (evs : list (Z * Event)) :
  wf_player p0 -> Forall (fun e => event_ok (snd e) /\ event_same_archetype (snd e)) evs ->
  rand_post (run evs (initial_session (Some p0))) (fun s => forall v, combat_screen s (playerRef s) = Some v ->
    (cs_section v = "Choose an Ability" <-> isEnemyTurn s = false)
    /\ ((exists b, b ∈ cs_buttons v /\ bt_disabled b = false)
        <-> isEnemyTurn s = false /\ cs_outcome v = None)).
Proof.
  intros W F. eapply rand_post_weaken;
    [apply run_castable; [exact F | apply initial_session_ok; intros ? [= <-]; exact W
       | apply castable_idle; reflexivity]|].
  intros s [K C] v. unfold combat_screen. destruct (currentEncounter s) as [enc|]; [|discriminate].
  destruct (playerRef s) as [p|] eqn:P; [|discriminate]. intros [= <-]. cbn [cs_section cs_buttons cs_outcome].
  split; [unfold section_title; destruct (isEnemyTurn s); split; congruence|]. unfold outcome_message. split.
  - intros (b & (ab & -> & _)%list_elem_of_fmap & D). cbn [bt_disabled ability_button] in D.
    destruct (isDefeated (eo_creature enc) || player_isDefeated p || isEnemyTurn s) eqn:E;
      [rewrite disabled_outside in D by exact E; discriminate|].
    apply orb_false_iff in E as [[-> ->]%orb_false_iff ->]. auto.
  - intros [T O]. destruct (shown_affordable s p K C P) as (ab & I & L).
    exists (ability_button (eo_creature enc) p (playerCombatState s) (isEnemyTurn s) ab).
    split; [apply list_elem_of_fmap_2, I|]. cbn [bt_disabled ability_button]. unfold ability_disabled.
    destruct (isDefeated _); [discriminate|]. destruct (player_isDefeated p); [discriminate|].
    rewrite T, orb_false_r. apply Z.ltb_ge, L.
Qed.

Lemma turn_is_playable_witness :
  rand_post (run [(0, EvPresent (foe 20)); (1, EvFight)] (initial_session (Some sample_player))) (fun s =>
    forall v, combat_screen s (playerRef s) = Some v ->
    (cs_section v = "Choose an Ability" <-> isEnemyTurn s = false)
    /\ ((exists b, b ∈ cs_buttons v /\ bt_disabled b = false)
        <-> isEnemyTurn s = false /\ cs_outcome v = None)).
Proof.
  apply turn_is_playable; [apply sample_player_wf|].
  repeat (apply Forall_cons; split); try apply Forall_nil; split; try exact I. apply foe_20_ok.
Defined.

(** The modal of the fight in [midfight]. *)
Example midfight_screen : exists v, combat_screen midfight (playerRef midfight) = Some v
  /\ cs_turn v = "Your turn" /\ cs_outcome v = None
  /\ Forall (fun b => bt_icon b <> "FallbackIcon") (cs_buttons v).
Proof.
  eexists. split; [vm_compute; reflexivity|]. split; [reflexivity|]. split; [reflexivity|].
  repeat (apply Forall_cons_2; [vm_compute; discriminate|]). apply Forall_nil_2.
Qed.

(** ** The drawings are complete *)

Definition drawn (d : Drawing) : bool := match d with drawn_nothing => false | _ => true end.

(** Every ability has a glyph of its own, every slot has one, every creature of the game is
    drawn in the tint of its type, with a body exactly if it is common, and the rarities are
    told apart by their colours. *)
Theorem drawings_complete :
  Forall (fun a => Forall (fun ab => AbilityIcon (ab_id (ability_base ab)) <> "FallbackIcon")
                     (ARCHETYPE_ABILITIES a)) [Martial; Agile; Mage]
  /\ NoDup (snd <$> ABILITY_ICONS)
  /\ (forall slot, ItemSlotIcon (slot_key slot) <> "FallbackSlotIcon")
  /\ Forall (fun t => is_Some (entry ELEMENT_COLORS (ct_type t))
               /\ (is_Some (resolveCreatureBody (Some (ct_id t))) <-> ct_rarity t = common)
               /\ forall size, drawn (pl_drawing (CreaturePlate (ct_type t) (ct_rarity t) size (Some (ct_id t)))) = true)
       CREATURE_TEMPLATES
  /\ (forall r r', RARITY_COLORS r = RARITY_COLORS r' -> r = r').
Proof.
  split; [|split; [|split; [|split]]].
  - repeat (apply Forall_cons_2; [repeat (apply Forall_cons_2; [vm_compute; discriminate|]); apply Forall_nil_2|]).
    apply Forall_nil_2.
  - apply (bool_decide_unpack _). vm_compute. exact I.
  - intros []; vm_compute; discriminate.
  - repeat (apply Forall_cons_2; [split; [eexists; reflexivity | split; [split; [by intros [] | first [discriminate | by eexists]] | intros; reflexivity]]|]). apply Forall_nil_2.
  - intros [] []; first [reflexivity | discriminate].
Qed.

(** ** Bursts *)

(** A burst reads as the number beside it: its colour is the one of the damage type, or of
    the buff or the debuff. *)
Theorem burst_reads_as_number (b : CombatBurst) :
  bp_color (burst_preset b) = match bu_kind b with
                              | burst_damage => DAMAGE_TYPE_COLOR (default physical (bu_damageType b))
                              | burst_buff => BUFF_COLOR
                              | burst_debuff => DEBUFF_COLOR
                              end.
Proof. unfold burst_preset. destruct (bu_kind b); [destruct (default _ _)|..]; reflexivity. Qed.

Definition in_reach (preset : BurstPreset) (p : ParticleSpec) : Prop :=
  (0 < ps_dist p <= js_mul (bp_speed preset) (lit (12 # 10)))%Q /\ ps_gravity p = bp_gravity preset.

Lemma particles_from_ok preset count : (0 < js_mul (bp_speed preset) (lit (6 # 10)))%Q ->
  (0 <= bp_speed preset)%Q -> forall n i,
  rand_post (particles_from preset count i n) (fun l => length l = n /\ Forall (in_reach preset) l).
Proof.
  intros S0 S1. induction n as [|n IH]; intros i; cbn [particles_from]; [apply rand_post_ret; auto|].
  rand_step rand_post_random q Hq. rand_step rand_post_random q' Hq'. rand_step IH rest Hr.
  apply rand_post_ret. destruct Hr as [<- F]. split; [reflexivity|]. apply Forall_cons_2; [|exact F].
  split; [|reflexivity]. cbn [ps_dist]. destruct Hq' as [L U]. split.
  - eapply Qlt_le_trans; [exact S0|]. apply js_mul_mono_r; [exact S1|].
    apply Qle_trans with (js_add (lit (6 # 10)) (js_mul 0 (lit (6 # 10)))); [q_compute|].
    apply js_add_mono; [lra|]. apply js_mul_mono_l; [q_compute | exact L].
  - apply js_mul_mono_r; [exact S1|].
    apply Qle_trans with (js_add (lit (6 # 10)) (js_mul random_max (lit (6 # 10)))); [|q_compute].
    apply js_add_mono; [lra|]. apply js_mul_mono_l; [q_compute | exact U].
Qed.

(** A burst has at least four particles and at most twenty-one, fewer against a resistant
    target and more against a vulnerable one, and none flies further than 1.2 times the
    preset's speed. *)
Theorem burst_bounded (b : CombatBurst) :
  rand_post (ParticleBurst b) (fun l =>
    (4 <= length l <= 21)%nat /\ Forall (in_reach (burst_preset b)) l)
  /\ particle_count (burst_preset b) (RESIST_COUNT_SCALE resisted)
     < particle_count (burst_preset b) (RESIST_COUNT_SCALE neutral)
     < particle_count (burst_preset b) (RESIST_COUNT_SCALE vulnerable).
Proof.
  assert (Hp : exists t, burst_preset b = PARTICLE_PRESETS t \/ burst_preset b = BUFF_PRESET
                 \/ burst_preset b = DEBUFF_PRESET)
    by (unfold burst_preset; destruct (bu_kind b); [eexists; left; reflexivity | exists physical; auto..]).
  destruct Hp as [t Hp]. split.
  - unfold ParticleBurst, makeParticles. eapply rand_post_weaken; [apply particles_from_ok|].
    + destruct Hp as [ -> | [ -> | -> ] ]; [destruct t|..]; q_compute.
    + destruct Hp as [ -> | [ -> | -> ] ]; [destruct t|..]; q_compute.
    + intros l [-> F]. split; [|exact F].
      destruct Hp as [ -> | [ -> | -> ] ]; [destruct t|..]; destruct (bu_resist b); vm_compute; lia.
  - destruct Hp as [ -> | [ -> | -> ] ]; [destruct t|..]; vm_compute; auto.
Qed.

(** ** Bars *)

Definition Render : Type := option Z * Q * Q * Q.

Definition render_id (r : Render) : option Z := r.1.1.1.

Definition bars_step (b : Bars) (r : Render) : Bars := bars_effect r.1.1.1 r.1.1.2 r.1.2 r.2 b.

(** The ref and the dependencies are those of the previous render. *)
Definition bars_at (prev : option Z) (b : Bars) : Prop :=
  bars_ref b = prev /\ from_option (fun deps => render_id deps = prev) True (bars_deps b).

Lemma same_deps_id a b : same_deps a b = true -> render_id a = render_id b.
Proof.
  destruct a as [ [ [i x] y] z], b as [ [ [j x'] y'] z']. unfold same_deps, render_id. cbn.
  case_bool_decide; [auto | discriminate].
Qed.

Lemma bars_step_at prev b r : bars_at prev b ->
  bars_at (render_id r) (bars_step b r)
  /\ (render_id r <> prev -> bars_moves (bars_step b r) = bars_moves b ++ [snap])
  /\ (render_id r = prev -> bars_moves (bars_step b r) = bars_moves b
      \/ bars_moves (bars_step b r) = bars_moves b ++ [ease]).
Proof.
  intros [E D]. destruct r as [ [ [i x] y] z]. unfold bars_step, bars_effect. cbn [fst snd].
  change (render_id (i, x, y, z)) with i.
  destruct (from_option (same_deps (i, x, y, z)) false (bars_deps b)) eqn:S.
  - destruct (bars_deps b) as [deps|] eqn:Db; [|discriminate]. cbn [from_option] in S, D. apply same_deps_id in S.
    change (i = render_id deps) in S. rewrite <- S in D.
    split; [split; [congruence | rewrite Db; symmetry; exact S]|]. split; [congruence | auto].
  - split; [split; reflexivity|]. cbn [bars_moves]. rewrite E. split; intros N.
    + rewrite bool_decide_false by congruence. reflexivity.
    + rewrite bool_decide_true by congruence. auto.
Qed.

Lemma bars_follow rs : forall prev b, bars_at prev b ->
  bars_at (default prev (render_id <$> last rs)) (fold_left bars_step rs b).
Proof.
  induction rs as [|r rs IH]; intros prev b A; [exact A|]. cbn [fold_left].
  destruct (bars_step_at prev b r A) as [A' _]. specialize (IH _ _ A').
  rewrite last_cons. destruct (last rs); exact IH.
Qed.

(** The bars snap once per fight.  Whatever was rendered before, the bars jump to their
    values without easing exactly when the encounter differs from the one of the previous
    render; while it is the same they only ever ease, so a fresh creature's full bar never
    sweeps up from its predecessor's and no hit within a fight is shown without its motion. *)
Theorem bars_snap_per_fight (rs : list Render) (r : Render) :
  let b := fold_left bars_step rs initial_bars in
  (render_id r <> default None (render_id <$> last rs) <->
     bars_moves (bars_step b r) = bars_moves b ++ [snap])
  /\ (render_id r = default None (render_id <$> last rs) ->
      bars_moves (bars_step b r) = bars_moves b \/ bars_moves (bars_step b r) = bars_moves b ++ [ease]).
Proof.
  cbv zeta. pose proof (bars_follow rs None initial_bars (conj eq_refl I)) as A.
  destruct (bars_step_at _ _ r A) as (_ & N & S). split; [split; [exact N|] | exact S].
  intros M Eq. destruct (S Eq) as [H|H]; rewrite H in M.
  - apply (f_equal length) in M. rewrite length_app in M. cbn in M. lia.
  - apply app_inj_tail in M as [_ M]. discriminate.
Qed.
