(* ===== verification/CardView.v ===== *)
(** * The cards

    What the cards of the app read: [components/inventory/ItemDetailsModal.tsx],
    [combat/WorthyFoeCard.tsx], the creature's card of [combat/EncounterModal.tsx],
    [hud/PlayerStats.tsx], [rewards/WalkSummaryModal.tsx], and the sections of
    [account/SettingsModal.tsx] and [AccountConflictModal.tsx].

    A card is the list of its texts, with the controls it offers.  The theorems relate the
    texts to the rules behind them: the numbers of a found item add up, its button fits the
    rule for wearing it, deletion asks first, and the theme marked is the one in force. *)
From stdpp Require Import base decidable strings list pretty.
From Stdlib Require Import Ascii ZArith QArith Lia.
From S2P Require Import Prelude JsNumber Random Combat Archetype Ability CombatFeed Creature.
From S2P Require Import Config Item Player Loot AutoCombat Encounter Location Json CloudSync Storage WalkLog.
From S2P Require Import PlayerSession AuthSession CombatSession EncounterFlow Inventory Theme Screens.
From S2P Require Import FightView.
Local Open Scope Z_scope.

(** [toUpperCase] of ASCII text. *)
Fixpoint upper_string (s : string) : string :=
  match s with
  | EmptyString => EmptyString
  | String c s =>
      let k := nat_of_ascii c in
      String (if ((97 <=? k) && (k <=? 122))%nat then ascii_of_nat (k - 32) else c) (upper_string s)
  end.

(** ** The details of an item *)

Definition getSlotName (t : ItemType) : string :=
  match t with
  | weapon => "Weapon" | offhand => "Offhand" | head => "Head" | chest => "Chest" | legs => "Legs"
  | boots => "Boots" | gloves => "Gloves" | accessory => "Accessory"
  end.

Definition affixStatLabel (stat : AffixStat) : string :=
  match stat with s_attack => "Attack" | s_defense => "Defense" | s_maxHp => "Max HP" end.

(** The section "Stats" with its rows, if any stat is there. *)
Definition stat_rows (item : Item) : list (string * Z) :=
  from_option (fun n => [("Attack", n)]) [] (it_attack item)
  ++ from_option (fun n => [("Defense", n)]) [] (it_defense item)
  ++ from_option (fun n => [("Max HP", n)]) [] (it_maxHp item).

(** The section "Modifiers". *)
Definition modifier_rows (item : Item) : list (string * Z) :=
  (fun a => (affixStatLabel (af_stat a), af_value a)) <$> default [] (it_affixes item).

Record ItemDetails := mkDetails {
  id_name : string;
  id_meta : string;
  id_level : string;
  id_description : string;
  id_stats : list (string * Z);
  id_modifiers : list (string * Z);
  id_warning : option string;
  id_equipDisabled : bool
}.

Definition ItemDetailsModal (item : option Item) (player : option Player) : option ItemDetails :=
  item ← item;
  Some (mkDetails (it_name item)
    (getSlotName (it_type item) +:+ " • " +:+ upper_string (rarity_name (it_rarity item)))
    ("Level " +:+ pretty (it_level item)) (it_description item)
    (stat_rows item) (modifier_rows item)
    (p ← player;
     if canEquip player item then None
     else Some (" Requires level " +:+ pretty (it_level item) +:+ " (You are level " +:+ pretty (p_level p) +:+ ")"))
    (negb (canEquip player item))).

(** ** The held foe's card and the encounter's *)

Definition WorthyFoeCard (foe : EncounterObj) : list string :=
  let creature := eo_creature foe in
  [ " A WORTHY FOE STALKS YOU"; c_name creature;
    upper_string (rarity_name (c_rarity creature)) +:+ " · Lv " +:+ pretty (c_level creature); "Fight →" ].

(** The player's stats on the encounter modal, those that are given. *)
Definition your_stats (playerHp playerMaxHp playerAttack playerDefense : option Z) : list string :=
  match playerHp, playerMaxHp with Some hp, Some maxHp => [hp_text hp maxHp] | _, _ => [] end
  ++ from_option (fun n => [" Attack: " +:+ pretty n]) [] playerAttack
  ++ from_option (fun n => [" Defense: " +:+ pretty n]) [] playerDefense.

Definition creature_card (creature : Creature) : list string :=
  [ upper_string (rarity_name (c_rarity creature)); c_name creature;
    c_type creature +:+ " · Level " +:+ pretty (c_level creature); c_description creature;
    "HP: " +:+ pretty (c_hp creature) +:+ " / " +:+ pretty (c_maxHp creature);
    "Attack: " +:+ pretty (c_attack creature); "Defense: " +:+ pretty (c_defense creature);
    "Speed: " +:+ pretty (c_speed creature) ]
  ++ (if isDefeated creature then ["DEFEATED!"] else []).

(** ** The player's stats *)

Definition player_stats (player : Player) : list string :=
  [ ac_name (ARCHETYPE_CONFIGS (p_archetype player)); "Level " +:+ pretty (p_level player);
    hp_text (p_hp player) (p_maxHp player);
    pretty (p_experience player) +:+ " / " +:+ pretty (getExperienceForNextLevel player) +:+ " XP";
    pretty (p_attack player) +:+ " Attack"; pretty (p_defense player) +:+ " Defense";
    toFixed 1 (p_totalDistance player) +:+ " m"; pretty (p_totalEncounters player);
    pretty (p_creaturesDefeated player) ].

(** ** The recap of a walk *)

Definition recap_totals (r : Recap) : list (string * string) :=
  [ ("Fought", pretty (rc_fought r)); ("Won", pretty (rc_won r)); ("XP", "+" +:+ pretty (rc_totalXp r));
    ("Items", pretty (rc_itemsFound r)) ].

Definition recap_row (e : WalkSummaryEntry) : string * option string * string :=
  ((if ws_won e then "Defeated " else "Fled from ") +:+ ws_creatureName e,
   (fun item => " " +:+ it_name item) <$> ws_item e, "+" +:+ pretty (ws_xpGained e)).

(** ** The settings *)

Definition THEME_OPTION_LABELS (p : ThemePreference) : string :=
  match p with auto => "Auto" | prefer night => "Night" | prefer day => "Day" end.

Definition theme_choices : list ThemePreference := [auto; prefer night; prefer day].

(** The theme options, each with its label and whether it is marked as the one in force. *)
Definition theme_options (preference : ThemePreference) : list (ThemePreference * string * bool) :=
  (fun o => (o, THEME_OPTION_LABELS o, bool_decide (preference = o))) <$> theme_choices.

Definition theme_hint (preference : ThemePreference) (themeName : ThemeName) : option string :=
  match preference with
  | auto => Some ("Following the sun — currently "
                    +:+ (match themeName with day => "day" | night => "night" end) +:+ " where you are.")
  | prefer _ => None
  end.

Definition account_text (authUser : option AuthUser) (authLoading : bool) : option string :=
  if authLoading then None
  else Some (if isSignedIn authUser
             then "Signed in as " +:+ settings_displayName authUser +:+ ". Your progress is backed up automatically."
             else "Sign in to back up your progress and recover it if you reinstall.").

(** What the controls of the settings do at once: account deletion only opens an alert. *)
Inductive SettingsPress :=
  | RunAction (a : AccountAction)
  | OpenAlert (title : string) (buttons : list (string * option AccountAction))
  | ToggleAutoResolve (enabled : bool)
  | ChooseTheme (p : ThemePreference)
  | OpenURL (url : string).

Definition confirmDelete : SettingsPress :=
  OpenAlert "Delete account & data?" [("Cancel", None); ("Delete", Some act_delete)].

Definition account_press (a : AccountAction) : SettingsPress :=
  match a with act_delete => confirmDelete | a => RunAction a end.

Definition PRIVACY_POLICY_URL : string := "https://lapease32.github.io/walking-rpg-app/privacy-policy.html".

Definition settings_presses (platform : Platform) (authUser : option AuthUser) (authLoading : bool)
    (autoResolveBelowRare : bool) : list SettingsPress :=
  (account_press <$> account_actions platform authUser authLoading)
  ++ [ToggleAutoResolve (negb autoResolveBelowRare)]
  ++ (ChooseTheme <$> theme_choices) ++ [OpenURL PRIVACY_POLICY_URL].

(** ** What the cards promise *)

Lemma stat_rows_total it : sumZ (snd <$> stat_rows it) = statTotal it.
Proof. unfold stat_rows, statTotal. destruct (it_attack it), (it_defense it), (it_maxHp it); cbn; lia. Qed.

Lemma stat_rows_nonneg it : item_ok it -> Forall (fun row => 0 <= snd row) (stat_rows it).
Proof.
  intros (A & D & H). unfold stat_rows.
  destruct (it_attack it), (it_defense it), (it_maxHp it); cbn in *; repeat constructor; assumption.
Qed.

Lemma affix_labels_apart l : NoDup (af_stat <$> l) -> NoDup (affixStatLabel ∘ af_stat <$> l).
Proof.
  intros N. rewrite (list_fmap_compose af_stat affixStatLabel). apply NoDup_fmap_2; [|exact N].
  intros [] [] E; first [reflexivity | discriminate].
Qed.

(** A found item's card adds up.  Whatever is rolled for a player's own level, the card of
    the item shows numbers that are not negative, the stats shown sum to the rolled base and
    the modifiers shown, no stat is modified twice, and the item can be worn at once: the
    button is enabled and there is no warning. *)
Theorem details_add_up (now : Z) (p : Player) (rarity : option Rarity) (m : Q) :
  wf_player p -> (0 <= m)%Q ->
  rand_post (generateItem now (p_level p) rarity m) (fun it => exists v base,
    ItemDetailsModal (Some it) (Some p) = Some v
    /\ fst (BASE_RANGES (it_rarity it)) <= base <= snd (BASE_RANGES (it_rarity it))
    /\ sumZ (snd <$> id_stats v) = scaleStat m base + sumZ (snd <$> id_modifiers v)
    /\ Forall (fun row => 0 <= snd row) (id_stats v ++ id_modifiers v)
    /\ NoDup (fst <$> id_modifiers v)
    /\ id_equipDisabled v = false /\ id_warning v = None).
Proof.
  intros W M. eapply rand_post_weaken; [apply generateItem_generated, M|].
  intros it [L _ O (l & base & A & _ & N & B & V & T)].
  assert (C : canEquip (Some p) it = true).
  { unfold canEquip. rewrite L. pose proof (wf_level p W). apply Z.leb_le. lia. }
  eexists _, base. split; [reflexivity|]. split; [exact B|].
  cbn [id_stats id_modifiers id_equipDisabled id_warning]. unfold modifier_rows. rewrite A, C.
  cbn [default from_option]. rewrite stat_rows_total, T, <- !list_fmap_compose.
  split; [reflexivity|]. split; [|split; [apply affix_labels_apart, N | split; reflexivity]].
  apply Forall_app. split; [apply stat_rows_nonneg, O|]. apply Forall_fmap.
  eapply Forall_impl; [exact V|]. intros a Ha. cbn in *.
  pose proof (scaleStat_nonneg m (fst (AFFIX_RANGES (it_rarity it))) M (proj2 (proj2 (ranges_ok _)))). lia.
Qed.

Lemma details_add_up_witness :
  rand_post (generateItem 5 (p_level sample_player) None 2) (fun it => exists v base,
    ItemDetailsModal (Some it) (Some sample_player) = Some v
    /\ sumZ (snd <$> id_stats v) = scaleStat 2 base + sumZ (snd <$> id_modifiers v)
    /\ id_equipDisabled v = false).
Proof.
  eapply rand_post_weaken; [apply (details_add_up 5 sample_player None 2); [apply sample_player_wf | discriminate]|].
  intros it (v & base & A & _ & B & _ & _ & C & _). eauto.
Defined.

(** The button fits the rule and the warning explains it: it is disabled exactly when there
    is no player or the item is above their level, and a warning is shown exactly in the
    second case. *)
Theorem details_button (item : Item) (player : option Player) : exists v,
  ItemDetailsModal (Some item) player = Some v
  /\ (id_equipDisabled v = false <-> exists p, player = Some p /\ it_level item <= p_level p)
  /\ (is_Some (id_warning v) <-> exists p, player = Some p /\ p_level p < it_level item).
Proof.
  eexists. split; [reflexivity|]. cbn [id_equipDisabled id_warning]. unfold canEquip.
  destruct player as [p|]; cbn.
  - destruct (Z.leb_spec (it_level item) (p_level p)) as [L|L]; cbn; split.
    + split; eauto.
    + split; [intros []; discriminate | intros (q & [= <-] & L'); lia].
    + split; [discriminate | intros (q & [= <-] & L'); lia].
    + split; eauto.
  - split; (split; [first [discriminate | intros []; discriminate] | intros (q & [=] & _)]).
Qed.

(** What a press of the settings may do. *)
Definition asks_first (x : SettingsPress) : Prop :=
  match x with
  | RunAction a => a <> act_delete
  | OpenAlert _ buttons => Forall (fun b => forall a, snd b = Some a -> fst b = "Delete" /\ a = act_delete) buttons
  | _ => True
  end.

Lemma settings_ask platform user loading auto_ :
  Forall asks_first (settings_presses platform user loading auto_).
Proof.
  unfold settings_presses, account_actions, theme_choices. apply Forall_app. split.
  - apply Forall_fmap. destruct loading, (isSignedIn user), platform; cbn [app];
      repeat (apply Forall_cons_2; [cbn; first [discriminate | repeat constructor; cbn in *; congruence]|]);
      apply Forall_nil_2.
  - repeat constructor.
Qed.

(** Deletion asks first.  No control of the settings deletes the account: the one that
    offers to opens an alert of which only the button "Delete" does, and it is offered
    whenever the account is not busy. *)
Theorem deletion_asks (platform : Platform) (user : option AuthUser) (loading auto_ : bool) :
  let presses := settings_presses platform user loading auto_ in
  (RunAction act_delete ∉ presses)
  /\ (forall title buttons label a, OpenAlert title buttons ∈ presses -> (label, Some a) ∈ buttons ->
        label = "Delete" /\ a = act_delete)
  /\ (confirmDelete ∈ presses <-> loading = false).
Proof.
  cbv zeta. pose proof (settings_ask platform user loading auto_) as A. rewrite Forall_forall in A.
  split; [intros I; exact (A _ I eq_refl)|]. split.
  - intros t b l a I J. apply A in I. cbn in I. rewrite Forall_forall in I. exact (I _ J a eq_refl).
  - unfold settings_presses, account_actions. destruct loading.
    + split; [|discriminate]. cbn. rewrite !elem_of_cons, elem_of_nil. intros E.
      decompose [or] E; discriminate || contradiction.
    + split; [reflexivity|]. intros _. apply elem_of_app. left.
      apply (list_elem_of_fmap_2 account_press _ act_delete), elem_of_app. right. left.
Qed.

(** One theme option is marked, it is the preference, and a press moves the mark. *)
Theorem theme_mark `{Trig} `{AsyncStorage} (now : Z) (cached : option LocationData) (next : ThemePreference)
    (t : Theme) :
  List.filter (fun o => snd o) (theme_options (preference (setPreference now cached next t)))
  = [(next, THEME_OPTION_LABELS next, true)].
Proof.
  assert (E : preference (setPreference now cached next t) = next).
  { unfold setPreference. destruct (loadSettings _). rewrite (proj1 (commit_same now cached t _)). reflexivity. }
  rewrite E. destruct next as [ [] | ]; reflexivity.
Qed.

Example ring_card : exists v, ItemDetailsModal (Some sample_ring) (Some sample_player) = Some v
  /\ id_meta v = getSlotName (it_type sample_ring) +:+ " • " +:+ upper_string (rarity_name (it_rarity sample_ring)).
Proof. eexists. split; reflexivity. Qed.
