(* ===== verification/Motion.v ===== *)
(** * Motion

    The animations the app starts: the reward reveal
    ([components/rewards/RewardRevealModal.tsx], [RewardGlowCanvas.tsx]), the cues of a hit
    ([src/hooks/useCombatImpact.ts]), the floating numbers ([FloatingCombatText.tsx]) and the
    bodies of the creatures ([creatures/useCreatureBodyAnim.ts]).

    An animation is a plan, as the calls of the animation library build it: timings, springs
    and delays, in sequence and in parallel.  [schedule] lays a plan out as the segments
    during which each animated value moves, on an ideal clock in milliseconds.  What the
    library decides, the shape of its curves and the time a spring takes, is an interface.
    The theorems: the values stay where the screen expects them at every moment and come to
    rest as they should, and the rarity of a drop shows before its card. *)
From stdpp Require Import base decidable strings list pretty.
From Stdlib Require Import ZArith QArith Qabs Qminmax Lia Lqa.
From S2P Require Import Prelude JsNumber Random Combat Archetype Ability CombatFeed Creature.
From S2P Require Import Config Item Player Loot Encounter Json CombatSession SessionInvariant CombatView.
From S2P Require Import Screens FightView CardView.
Local Open Scope Q_scope.

(** ** Plans *)

Inductive Easing := ez_default | ez_in_quad | ez_out_quad | ez_in_cubic | ez_out_cubic.

Class Curves := {
  ease : Easing -> Q -> Q;
  spring_curve : Q -> Q;
  spring_ms : Z -> Z -> Q
}.

(** The curves of a timing do not leave the interval they interpolate; a spring may
    overshoot, and takes some time. *)
Class CurveLaws `{Curves} := {
  ease_range : forall e x, 0 <= x <= 1 -> 0 <= ease e x <= 1;
  spring_takes : forall friction tension, 0 < spring_ms friction tension
}.

Inductive Plan (V : Type) :=
  | Timing (v : V) (toValue duration : Q) (e : Easing)
  | Spring (v : V) (toValue : Q) (friction tension : Z)
  | Delay (duration : Q)
  | Sequence (ps : list (Plan V))
  | Parallel (ps : list (Plan V)).
Arguments Timing {V}.
Arguments Spring {V}.
Arguments Delay {V}.
Arguments Sequence {V}.
Arguments Parallel {V}.

(** [Animated.stagger]: in parallel, each after its own delay. *)
Definition Stagger {V} (gap : Q) (ps : list (Plan V)) : Plan V :=
  Parallel (imap (fun i p => Sequence [Delay (js_mul gap (num (Z.of_nat i))); p]) ps).

(** The movement of one value; [None]: along a spring's curve. *)
Record Segment (V : Type) := mkSegment {
  sg_value : V;
  sg_start : Q;
  sg_end : Q;
  sg_to : Q;
  sg_easing : option Easing
}.
Arguments mkSegment {V}.
Arguments sg_value {V}.
Arguments sg_start {V}.
Arguments sg_end {V}.
Arguments sg_to {V}.
Arguments sg_easing {V}.

Section Schedule.
Context `{Curves} {V : Type} `{EqDecision V}.

(** The segments of a plan started at [t], and the time it ends. *)
Fixpoint schedule (t : Q) (p : Plan V) : list (Segment V) * Q :=
  match p with
  | Timing v toValue duration e => ([mkSegment v t (t + duration) toValue (Some e)], t + duration)
  | Spring v toValue friction tension =>
      ([mkSegment v t (t + spring_ms friction tension) toValue None], t + spring_ms friction tension)
  | Delay duration => ([], t + duration)
  | Sequence ps =>
      (fix go (t : Q) (ps : list (Plan V)) :=
         match ps with
         | [] => ([], t)
         | p :: ps => let (s, t) := schedule t p in let (s', t) := go t ps in (s ++ s', t)
         end) t ps
  | Parallel ps =>
      (fix go (ps : list (Plan V)) :=
         match ps with
         | [] => ([], t)
         | p :: ps => let (s, e) := schedule t p in let (s', e') := go ps in (s ++ s', Qmax e e')
         end) ps
  end.

Definition segments (t : Q) (p : Plan V) : list (Segment V) := fst (schedule t p).

(** Where a value that stood at [x] when a segment began stands at time [t]. *)
Definition move (t : Q) (x : Q) (s : Segment V) : Q :=
  if Qle_bool t (sg_start s) then x
  else if Qle_bool (sg_end s) t then sg_to s
  else
    let progress := (t - sg_start s) / (sg_end s - sg_start s) in
    x + (sg_to s - x) * from_option (fun e => ease e progress) (spring_curve progress) (sg_easing s).

Definition track (v : V) (segs : list (Segment V)) : list (Segment V) :=
  filter (fun s => sg_value s = v) segs.

(** A value at time [t], from where it stood at the start.  The segments of a value follow
    one another ([follow_on]), so that each begins where the one before has ended. *)
Definition value_at (t x : Q) (v : V) (segs : list (Segment V)) : Q := foldl (move t) x (track v segs).

Fixpoint follow_on (segs : list (Segment V)) : Prop :=
  match segs with
  | s :: (s' :: _) as rest => sg_end s <= sg_start s' /\ follow_on rest
  | _ => True
  end.
End Schedule.

(** ** The reward reveal *)

Definition BURST_MS : Q := 900.

Inductive RevealValue :=
  | av_backdrop | av_cardScale | av_cardOpacity | av_shakeX | av_promptOpacity
  | av_tx (i : nat) | av_ty (i : nat) | av_scale (i : nat) | av_opacity (i : nat).

#[export] Instance RevealValue_eq_dec : EqDecision RevealValue.
Proof. solve_decision. Defined.

(** The flight of one particle: out to [dx], up to [peakY] and down to [fallY]. *)
Definition flight_plan (i : nat) (dx peakY fallY : Q) : Plan RevealValue :=
  Parallel
    [ Timing (av_tx i) dx BURST_MS ez_out_quad;
      Sequence [ Timing (av_ty i) peakY (js_mul BURST_MS (lit 0.35)) ez_out_quad;
                 Timing (av_ty i) fallY (js_mul BURST_MS (lit 0.65)) ez_in_quad ];
      Sequence [ Timing (av_scale i) 1 90 ez_out_quad;
                 Timing (av_scale i) 0 (js_sub BURST_MS 90) ez_in_quad ];
      Sequence [ Timing (av_opacity i) 1 90 ez_default;
                 Delay (js_mul BURST_MS (lit 0.4));
                 Timing (av_opacity i) 0 (js_sub (js_mul BURST_MS (lit 0.6)) 90) ez_in_cubic ] ].

Definition flight `{Trig} (fx : RarityFx) (i : nat) : Rand (Plan RevealValue) :=
  let spread := num (fx_spread fx) in
  let! q := math_random in
  let angle := js_mul (js_mul q math_PI) 2 in
  let! q := math_random in
  let dist := js_mul spread (js_add (lit 0.45) (js_mul q (lit 0.55))) in
  let dx := js_mul (math_cos angle) dist in
  let! q := math_random in
  let peakY := - js_mul spread (js_add (lit 0.3) (js_mul q (lit 0.3))) in
  let! q := math_random in
  let fallY := js_mul spread (js_add (lit 0.55) (js_mul q (lit 0.5))) in
  rand_ret (flight_plan i dx peakY fallY).

Fixpoint flights `{Trig} (fx : RarityFx) (i n : nat) : Rand (list (Plan RevealValue)) :=
  match n with
  | O => rand_ret []
  | S n =>
      let! p := flight fx i in
      let! ps := flights fx (S i) n in
      rand_ret (p :: ps)
  end.

Definition shake_plan (fx : RarityFx) : option (Plan RevealValue) :=
  let shake := num (fx_shake fx) in
  if (0 <? fx_shake fx)%Z
  then Some (Sequence [ Timing av_shakeX shake 45 ez_default; Timing av_shakeX (- shake) 45 ez_default;
                        Timing av_shakeX (js_mul shake (lit 0.6)) 45 ez_default;
                        Timing av_shakeX 0 45 ez_default ])
  else None.

(** The card resolves out of the burst, then the prompt. *)
Definition card_plan (fx : option RarityFx) : Plan RevealValue :=
  Sequence [ Delay (from_option (fun fx => num (fx_cardDelay fx)) 80 fx);
             Parallel [ Spring av_cardScale 1 6 90; Timing av_cardOpacity 1 220 ez_default ];
             Timing av_promptOpacity 1 250 ez_default ].

(** What the effect starts when a reveal is shown: the vibration and the animations, of
    which only the burst is stopped when the reveal is replaced or goes away. *)
Record Showing := mkShowing {
  sh_vibration : list Z;
  sh_backdrop : Plan RevealValue;
  sh_burst : option (Plan RevealValue);
  sh_shake : option (Plan RevealValue);
  sh_card : Plan RevealValue
}.

Definition reveal_fx (item : option Item) : option RarityFx := RARITY_FX ∘ it_rarity <$> item.

Definition show_reveal `{Trig} (reveal : RewardReveal) : Rand Showing :=
  let backdrop := Timing av_backdrop 1 150 ez_default in
  match reveal_fx (rv_item reveal) with
  | Some fx =>
      let! ps := flights fx 0 (fx_particles fx) in
      rand_ret (mkShowing (fx_haptic fx) backdrop (Some (Stagger (burst_stagger fx) ps)) (shake_plan fx)
                  (card_plan (Some fx)))
  | None => rand_ret (mkShowing [] backdrop None None (card_plan None))
  end.

Section Showing.
Context `{Curves}.

(** The segments of a reveal shown at time 0. *)
Definition showing (sh : Showing) : list (Segment RevealValue) :=
  segments 0 (sh_backdrop sh) ++ from_option (segments 0) [] (sh_burst sh)
  ++ from_option (segments 0) [] (sh_shake sh) ++ segments 0 (sh_card sh).

(** The animations of a reveal taken away at [t] that start later all the same: the cleanup
    of the effect stops the burst. *)
Definition left_running (t : Q) (sh : Showing) : list (Segment RevealValue) :=
  filter (fun s => Qle_bool t (sg_start s) = true)
    (from_option (segments 0) [] (sh_shake sh) ++ segments 0 (sh_card sh)).
End Showing.

(** The animated values of the modal, by name. *)
Definition reveal_value (v : Reveal) (a : RevealValue) : Q :=
  let particle i f := from_option f 0 (rvw_particles v !! i) in
  match a with
  | av_backdrop => rvw_backdrop v
  | av_cardScale => rvw_cardScale v
  | av_cardOpacity => rvw_cardOpacity v
  | av_shakeX => rvw_shakeX v
  | av_promptOpacity => rvw_promptOpacity v
  | av_tx i => particle i pt_tx
  | av_ty i => particle i pt_ty
  | av_scale i => particle i pt_scale
  | av_opacity i => particle i pt_opacity
  end.

(** The texts of the card. *)
Definition reveal_card (reveal : RewardReveal) : list string :=
  match rv_item reveal with
  | Some item =>
      [it_name item; upper_string (rarity_name (it_rarity item)) +:+ " • " +:+ item_type_name (it_type item)]
      ++ ((fun row : string * Z => " +" +:+ pretty (snd row)) <$> stat_rows item)
      ++ [if rv_isUpgrade reveal then "▲ UPGRADE" else "NEW"]
      ++ (if rv_inventoryFull reveal
          then [" Inventory full — this drop was lost. Clear space to keep future finds."] else [])
  | None => ["Victory!"; "Defeated " +:+ rv_creatureName reveal]
  end
  ++ ["+" +:+ pretty (rv_xpGained reveal) +:+ " XP"]
  ++ (if rv_leveledUp reveal then ["LEVEL UP! → " +:+ pretty (rv_newLevel reveal)] else []).

(** *** The glow behind the card *)

Record Glow := mkGlow { gl_radius : Z; gl_opacity : Q; gl_pulse : bool }.

Definition RARITY_GLOW (r : Rarity) : Glow :=
  match r with
  | common => mkGlow 90 (lit 0.18) false
  | uncommon => mkGlow 110 (lit 0.24) false
  | rare => mkGlow 140 (lit 0.32) false
  | epic => mkGlow 175 (lit 0.42) true
  | legendary => mkGlow 215 (lit 0.55) true
  end.

(** Scale and opacity at a moment of the intro and of the pulse. *)
Definition glow_scale (intro pulse : Q) : Q :=
  js_mul (js_add (lit 0.7) (js_mul (lit 0.3) intro)) (js_add 1 (js_mul (lit 0.08) pulse)).

Definition glow_opacity (preset : Glow) (intro pulse : Q) : Q :=
  js_mul (js_mul (gl_opacity preset) intro) (js_sub 1 (js_mul (lit 0.2) pulse)).

(** ** The cues of a hit *)

Inductive CueValue := cv_shake | cv_flash (target : Combatant) | cv_scale (target : Combatant).

#[export] Instance CueValue_eq_dec : EqDecision CueValue.
Proof. solve_decision. Defined.

Definition FLASH_UP_MS : Q := 60.
Definition FLASH_DOWN_MS : Q := 200.
Definition RECOIL_SCALE : Q := lit 0.94.
Definition RECOIL_DOWN_MS : Q := 70.
Definition RECOIL_UP_MS : Q := 160.
Definition EMPOWER_SCALE : Q := lit 1.08.
Definition SHAKE_LEG_MS : Q := 40.

(** Up or down to [peak], and back to [rest]. *)
Definition pulse_plan (v : CueValue) (peak up rest down : Q) : Plan CueValue :=
  Sequence [Timing v peak up ez_default; Timing v rest down ez_out_cubic].

Definition triggerShake (mag : Q) : Plan CueValue :=
  Sequence [ Timing cv_shake (- mag) SHAKE_LEG_MS ez_default; Timing cv_shake mag SHAKE_LEG_MS ez_default;
             Timing cv_shake (js_mul (- mag) (lit 0.5)) SHAKE_LEG_MS ez_default;
             Timing cv_shake 0 SHAKE_LEG_MS ez_default ].

Definition cue_plan (c : Cue) : Plan CueValue :=
  match c with
  | Shake mag => triggerShake mag
  | Flash target => pulse_plan (cv_flash target) 1 FLASH_UP_MS 0 FLASH_DOWN_MS
  | Recoil => pulse_plan (cv_scale CCreature) RECOIL_SCALE RECOIL_DOWN_MS 1 RECOIL_UP_MS
  | Empower target => pulse_plan (cv_scale target) EMPOWER_SCALE 110 1 230
  end.

(** The value of a cue when nothing plays. *)
Definition cue_rest (v : CueValue) : Q := match v with cv_shake | cv_flash _ => 0 | cv_scale _ => 1 end.

(** ** Floating numbers *)

Definition RISE_PX : Q := 46.

Record FloaterStyle := mkFloaterStyle { fs_opacity : Q; fs_translateX : Q; fs_translateY : Q; fs_scale : Q }.

Definition floater_style (item : CombatFloater) (progress : Q) : FloaterStyle :=
  mkFloaterStyle (js_sub 1 progress) (fl_dx item) (js_mul (- RISE_PX) progress)
    (js_add (lit 0.8) (js_mul (lit 0.2) (math_min 1 (js_mul progress 4)))).

(** The callback of the timing: the floater goes when its animation has finished. *)
Definition floater_done (finished : bool) (id : Z) (i : Impact) : Impact :=
  if finished then removeFloater id i else i.

(** ** Bodies *)

Inductive CreatureIdleStyle := idle_ground | idle_float.
Inductive CreatureDeathStyle := death_melt | death_collapse | death_fade.

(** How a shared value is driven: towards a value, or back and forth for ever through legs
    of a value and a duration. *)
Inductive Drive := Toward (toValue duration : Q) (e : Easing) | Loop (legs : list (Q * Q)).

Definition idle_drive (idleStyle : CreatureIdleStyle) : Drive :=
  let leg := match idleStyle with idle_float => 1400 | idle_ground => 950 end in
  Loop [(1, leg); (0, leg)].

Definition attack_drive (state : CreatureAnimState) : Drive :=
  match state with
  | anim_attack => Loop [(1, 200); (0, 260)]
  | _ => Toward 0 140 ez_default
  end.

Definition death_drive (state : CreatureAnimState) : Drive :=
  match state with
  | anim_death => Toward 1 620 ez_in_quad
  | _ => Toward 0 200 ez_in_quad
  end.

Record BodyStyle := mkBodyStyle {
  bs_opacity : Q;
  bs_translateY : Q;
  bs_rotate : Q;
  bs_scaleX : Q;
  bs_scaleY : Q
}.

(** Squash, stretch and height of the idle movement at [b]. *)
Definition idle_style (idleStyle : CreatureIdleStyle) (size b : Q) : Q * Q * Q :=
  match idleStyle with
  | idle_float =>
      (js_add 1 (js_mul (lit 0.02) (js_sub 1 b)), js_sub 1 (js_mul (lit 0.02) (js_sub 1 b)),
       js_mul (js_mul (lit (-0.06)) size) b)
  | idle_ground =>
      (js_add 1 (js_mul (lit 0.05) (js_sub 1 b)), js_sub 1 (js_mul (lit 0.05) (js_sub 1 b)),
       js_mul (js_mul (lit (-0.05)) size) b)
  end.

Definition body_style (idleStyle : CreatureIdleStyle) (deathStyle : CreatureDeathStyle) (size b a d : Q)
    : BodyStyle :=
  let '(scaleX, scaleY, translateY) := idle_style idleStyle size b in
  let scaleX := js_add scaleX (js_mul (lit 0.1) a) in
  let scaleY := js_add scaleY (js_mul (lit 0.06) a) in
  let translateY := js_add translateY (js_mul (js_mul (lit (-0.06)) size) a) in
  let '(scaleX, scaleY, translateY, rotate) :=
    match deathStyle with
    | death_melt =>
        (js_mul scaleX (js_add 1 (js_mul (lit 0.5) d)), js_mul scaleY (js_sub 1 (js_mul (lit 0.8) d)),
         js_add translateY (js_mul (js_mul (lit 0.12) size) d), 0)
    | death_fade =>
        (js_mul scaleX (js_sub 1 (js_mul (lit 0.1) d)), js_mul scaleY (js_sub 1 (js_mul (lit 0.1) d)),
         js_add translateY (js_mul (js_mul (lit (-0.14)) size) d), 0)
    | death_collapse =>
        (scaleX, js_mul scaleY (js_sub 1 (js_mul (lit 0.5) d)),
         js_add translateY (js_mul (js_mul (lit 0.14) size) d), js_mul (-8) d)
    end in
  mkBodyStyle (js_sub 1 d) translateY rotate scaleX scaleY.

(** The two knobs each body sets. *)
Definition body_knobs : list (string * (CreatureIdleStyle * CreatureDeathStyle)) :=
  [ ("SumpOozeBody", (idle_ground, death_melt)); ("ForestSpriteBody", (idle_float, death_fade));
    ("UrbanPhantomBody", (idle_float, death_fade)); ("AlleyCurBody", (idle_ground, death_collapse));
    ("GutterSwarmBody", (idle_ground, death_collapse)); ("MossbackToadBody", (idle_ground, death_collapse));
    ("GritGolemlingBody", (idle_ground, death_collapse)); ("PaleStrayBody", (idle_ground, death_fade));
    ("AshWretchBody", (idle_ground, death_collapse)); ("CopperSentinelBody", (idle_ground, death_collapse)) ].

(** ** Lemmas on plans *)

Section PlanLemmas.
Context `{CurveLaws} {V : Type} `{EqDecision V}.

Lemma move_within lo hi t x (s : Segment V) : is_Some (sg_easing s) -> lo <= x <= hi -> lo <= sg_to s <= hi ->
  lo <= move t x s <= hi.
Proof.
  intros [e He] Hx Ht. unfold move. rewrite He. simpl.
  destruct (Qle_bool t (sg_start s)) eqn:E1; [exact Hx|].
  destruct (Qle_bool (sg_end s) t) eqn:E2; [exact Ht|].
  apply js_le_false in E1, E2.
  assert (P : 0 <= (t - sg_start s) / (sg_end s - sg_start s) <= 1).
  { split; [apply Qle_shift_div_l | apply Qle_shift_div_r]; lra. }
  apply (ease_range e) in P. revert P.
  generalize (ease e ((t - sg_start s) / (sg_end s - sg_start s))). intros k [K0 K1].
  split; nra.
Qed.

Lemma value_within lo hi t x (v : V) segs : lo <= x <= hi ->
  Forall (fun s => is_Some (sg_easing s) /\ lo <= sg_to s <= hi) (track v segs) ->
  lo <= value_at t x v segs <= hi.
Proof.
  unfold value_at. generalize (track v segs). intros l. revert x.
  induction l as [|s l IH]; intros x Hx F; [exact Hx|]. apply Forall_cons_1 in F as [[He Ht] F].
  cbn [foldl]. apply IH; [apply move_within; assumption | exact F].
Qed.

Lemma value_before t x (v : V) segs : Forall (fun s => t <= sg_start s) (track v segs) ->
  value_at t x v segs = x.
Proof.
  unfold value_at. generalize (track v segs). intros l. revert x.
  induction l as [|s l IH]; intros x F; [reflexivity|]. apply Forall_cons_1 in F as [Hs F].
  cbn [foldl]. unfold move at 2. apply js_le_iff in Hs. unfold js_le in Hs. rewrite Hs. apply IH, F.
Qed.

(** Once its last segment is over, a value stands where that segment led. *)
Lemma value_rests t x (v : V) segs l s : track v segs = l ++ [s] -> sg_start s < t -> sg_end s <= t ->
  value_at t x v segs = sg_to s.
Proof.
  intros E L U. unfold value_at. rewrite E, foldl_app. cbn [foldl]. unfold move.
  apply js_lt_iff in L. unfold js_lt in L. apply negb_true_iff in L. rewrite L.
  apply js_le_iff in U. unfold js_le in U. rewrite U. reflexivity.
Qed.

(** Between its two last segments it waits where the first of them led. *)
Lemma value_holds t x (v : V) segs l s s' : track v segs = l ++ [s; s'] -> sg_start s < t -> sg_end s <= t ->
  t <= sg_start s' -> value_at t x v segs = sg_to s.
Proof.
  intros E L U W. unfold value_at. rewrite E, foldl_app. cbn [foldl]. unfold move at 1.
  apply js_le_iff in W. unfold js_le in W. rewrite W. unfold move.
  apply js_lt_iff in L. unfold js_lt in L. apply negb_true_iff in L. rewrite L.
  apply js_le_iff in U. unfold js_le in U. rewrite U. reflexivity.
Qed.

Lemma track_app (v : V) a b : track v (a ++ b) = track v a ++ track v b.
Proof. apply filter_app. Qed.

Lemma track_none (v : V) segs : Forall (fun s => sg_value s <> v) segs -> track v segs = [].
Proof.
  induction 1 as [|s l N _ IH]; [reflexivity|]. unfold track. rewrite filter_cons_False; assumption.
Qed.

Lemma segments_parallel t (ps : list (Plan V)) : segments t (Parallel ps) = concat (segments t <$> ps).
Proof.
  induction ps as [|p ps IH]; [reflexivity|].
  change (segments t (Parallel (p :: ps)))
    with (fst (let (s, e) := schedule t p in let (s', e') := schedule t (Parallel ps) in (s ++ s', Qmax e e'))).
  cbn [fmap list_fmap concat]. rewrite <- IH. unfold segments.
  destruct (schedule t p), (schedule t (Parallel ps)). reflexivity.
Qed.

(** The segments of a staggered plan: those of its parts, each from its own launch. *)
Lemma segments_stagger gap (ps : list (Plan V)) :
  segments 0 (Stagger gap ps) = concat (imap (fun i p => segments (0 + js_mul gap (num (Z.of_nat i))) p) ps).
Proof.
  unfold Stagger. rewrite segments_parallel, fmap_imap. f_equal. apply imap_ext. intros i p _.
  unfold compose, segments. cbn [schedule]. destruct (schedule _ p). cbn. rewrite app_nil_r. reflexivity.
Qed.

(** When the parts move different values, the track of a value is that of its part. *)
Lemma track_parts (f : nat -> Plan V -> list (Segment V)) (v : V) ps i p : ps !! i = Some p ->
  (forall j q, ps !! j = Some q -> j <> i -> Forall (fun s => sg_value s <> v) (f j q)) ->
  track v (concat (imap f ps)) = track v (f i p).
Proof.
  intros Hi N. rewrite <- (take_drop_middle ps i p Hi).
  assert (Li : length (take i ps) = i) by (apply length_take_le, Nat.lt_le_incl, lookup_lt_Some with p, Hi).
  rewrite imap_app, concat_app, track_app. cbn [imap concat]. rewrite track_app, Nat.add_0_r, Li.
  rewrite (track_none v (concat (imap f (take i ps)))), (track_none v (concat (imap _ (drop (S i) ps)))).
  - rewrite app_nil_r. reflexivity.
  - apply Forall_concat, Forall_lookup_2. intros j l Hl. apply list_lookup_imap_Some in Hl as (q & Hq & ->).
    rewrite lookup_drop in Hq. unfold compose. rewrite ?Li.
    replace (i + S j)%nat with (S i + j)%nat by lia. apply N; [exact Hq | lia].
  - apply Forall_concat, Forall_lookup_2. intros j l Hl. apply list_lookup_imap_Some in Hl as (q & Hq & ->).
    apply lookup_take_Some in Hq as [Hq Hj]. apply N; [exact Hq | lia].
Qed.
End PlanLemmas.

(** Evaluate a track whose values are constructors. *)
Ltac eval_track :=
  unfold track; cbn [segments schedule fst snd app flight_plan card_plan shake_plan cue_plan triggerShake pulse_plan];
  repeat (first [rewrite filter_cons_True by reflexivity | rewrite filter_cons_False by discriminate]);
  rewrite ?filter_nil.

(** ** The reveal plays as it should *)

(** The flight of particle [i] stays in the box its rarity allows. *)
Definition in_box (fx : RarityFx) (dx peakY fallY : Q) : Prop :=
  - num (fx_spread fx) <= dx <= num (fx_spread fx)
  /\ - num (fx_spread fx) <= peakY <= 0 /\ 0 <= fallY <= num (fx_spread fx) * (11 # 10).

Definition flight_ok (fx : RarityFx) (i : nat) (p : Plan RevealValue) : Prop :=
  exists dx peakY fallY, p = flight_plan i dx peakY fallY /\ in_box fx dx peakY fallY.

Class TrigRange `{Trig} := cos_range : forall a, -1 <= math_cos a <= 1.

(** A random share of a spread, between its least and its greatest value. *)
Lemma share_bounds (n : Z) (base width q : Q) : (0 <= n)%Z -> 0 <= width -> 0 <= q <= random_max ->
  js_mul (num n) (js_add base (js_mul 0 width)) <= js_mul (num n) (js_add base (js_mul q width))
  <= js_mul (num n) (js_add base (js_mul random_max width)).
Proof.
  intros N W [L U]. split; apply js_mul_mono_r; try (apply num_nonneg, N);
    apply js_add_mono; try lra; apply js_mul_mono_l; assumption.
Qed.

Section Reveal.
Context `{TrigRange} `{CurveLaws}.

Lemma cos_scaled a x : 0 <= x -> is_double x -> - x <= js_mul (math_cos a) x <= x.
Proof.
  intros X D. pose proof (cos_range a) as C. split.
  - apply fl_ge_double; [apply is_double_opp, D | nra].
  - apply fl_le_double; [exact D | nra].
Qed.

Lemma flight_contained r i : rand_post (flight (RARITY_FX r) i) (flight_ok (RARITY_FX r) i).
Proof.
  unfold flight. rand_step rand_post_random q1 Hq1. rand_step rand_post_random q2 Hq2.
  rand_step rand_post_random q3 Hq3. rand_step rand_post_random q4 Hq4. apply rand_post_ret.
  do 3 eexists. split; [reflexivity|].
  assert (N : (0 <= fx_spread (RARITY_FX r))%Z) by (destruct r; cbn; lia).
  pose proof (share_bounds _ (lit 0.45) (lit 0.55) q2 N ltac:(q_compute) Hq2) as B2.
  pose proof (share_bounds _ (lit 0.3) (lit 0.3) q3 N ltac:(q_compute) Hq3) as B3.
  pose proof (share_bounds _ (lit 0.55) (lit 0.5) q4 N ltac:(q_compute) Hq4) as B4.
  split; [|split].
  - match goal with |- context [js_mul (math_cos ?a) ?x] =>
      assert (X : 0 <= x) by (eapply Qle_trans; [|apply B2]; destruct r; q_compute);
      assert (U : x <= num (fx_spread (RARITY_FX r)))
        by (eapply Qle_trans; [apply B2|]; destruct r; q_compute);
      pose proof (cos_scaled a x X (is_double_fl _)) end. lra.
  - split.
    + apply Qopp_le_compat. eapply Qle_trans; [apply B3|]. destruct r; q_compute.
    + apply (Qopp_le_compat 0). eapply Qle_trans; [|apply B3]. destruct r; q_compute.
  - split; [eapply Qle_trans; [|apply B4]; destruct r; q_compute|].
    eapply Qle_trans; [apply B4|]. destruct r; q_compute.
Qed.

Lemma flights_contained r n : forall i, rand_post (flights (RARITY_FX r) i n) (fun ps =>
  length ps = n /\ forall j p, ps !! j = Some p -> flight_ok (RARITY_FX r) (i + j) p).
Proof.
  induction n as [|n IH]; intros i; cbn [flights].
  { apply rand_post_ret. split; [reflexivity|]. intros j p Hj. discriminate. }
  rand_step flight_contained p Hp. rand_step IH ps Hps. apply rand_post_ret.
  destruct Hps as [<- F]. split; [reflexivity|]. intros [|j] q Hq.
  - injection Hq as <-. rewrite Nat.add_0_r. exact Hp.
  - rewrite Nat.add_succ_r, <- Nat.add_succ_l. apply F, Hq.
Qed.

(** What showing a drop of rarity [r] starts. *)
Definition shows (r : Rarity) (sh : Showing) : Prop :=
  let fx := RARITY_FX r in
  exists ps, length ps = fx_particles fx /\ (forall j p, ps !! j = Some p -> flight_ok fx j p)
    /\ sh = mkShowing (fx_haptic fx) (Timing av_backdrop 1 150 ez_default)
              (Some (Stagger (burst_stagger fx) ps)) (shake_plan fx) (card_plan (Some fx)).

Lemma show_reveal_shows rv it : rv_item rv = Some it -> rand_post (show_reveal rv) (shows (it_rarity it)).
Proof.
  intros E. unfold show_reveal, reveal_fx. rewrite E. cbn [fmap option_fmap option_map compose].
  rand_step flights_contained ps F. apply rand_post_ret. destruct F as [L F]. exists ps. auto.
Qed.

(** The particle a value belongs to. *)
Definition particle_of (v : RevealValue) : option nat :=
  match v with av_tx i | av_ty i | av_scale i | av_opacity i => Some i | _ => None end.

Definition launch (r : Rarity) (i : nat) : Q := 0 + js_mul (burst_stagger (RARITY_FX r)) (num (Z.of_nat i)).

Lemma flight_moves t i dx peakY fallY :
  Forall (fun s => particle_of (sg_value s) = Some i) (segments t (flight_plan i dx peakY fallY)).
Proof. repeat constructor. Qed.

Lemma shake_moves fx : Forall (fun s => particle_of (sg_value s) = None) (from_option (segments 0) [] (shake_plan fx)).
Proof. unfold shake_plan. destruct (0 <? fx_shake fx)%Z; repeat constructor. Qed.

Lemma card_moves o : Forall (fun s => particle_of (sg_value s) = None) (segments 0 (card_plan o)).
Proof. repeat constructor. Qed.

Lemma other_value k v segs : Forall (fun s => particle_of (sg_value s) = k) segs -> particle_of v <> k ->
  Forall (fun s => sg_value s <> v) segs.
Proof. intros F N. eapply Forall_impl; [exact F|]. intros s E C. cbv beta in E. congruence. Qed.

(** The particles move by their own flight only, each from its launch. *)
Lemma particle_track r sh i : shows r sh -> (i < fx_particles (RARITY_FX r))%nat ->
  exists dx peakY fallY, in_box (RARITY_FX r) dx peakY fallY
    /\ forall v, particle_of v = Some i ->
       track v (showing sh) = track v (segments (launch r i) (flight_plan i dx peakY fallY)).
Proof.
  intros (ps & L & F & ->) Hi. rewrite <- L in Hi. destruct (lookup_lt_is_Some_2 ps i Hi) as [p Hp].
  pose proof (F i p Hp) as (dx & peakY & fallY & -> & B). exists dx, peakY, fallY.
  split; [exact B|]. intros v Hv.
  assert (N : particle_of v <> None) by (rewrite Hv; discriminate).
  unfold showing. cbn [sh_backdrop sh_burst sh_shake sh_card from_option]. rewrite !track_app.
  rewrite (track_none v (segments 0 (Timing av_backdrop _ _ _))) by (eapply (other_value None); [repeat constructor | exact N]).
  rewrite (track_none v (from_option _ _ _)), (track_none v (segments 0 (card_plan _)))
    by (eapply other_value; [apply shake_moves || apply card_moves | exact N]).
  rewrite !app_nil_r, segments_stagger. cbn [app].
  apply (track_parts (fun i p => segments (0 + js_mul _ (num (Z.of_nat i))) p) v ps i _ Hp). intros j q Hq J.
  destruct (F j q Hq) as (? & ? & ? & -> & _). eapply other_value; [apply flight_moves|].
  rewrite Hv. congruence.
Qed.

(** The other values move by the backdrop, the shake and the card only. *)
Lemma frame_track r sh v : shows r sh -> particle_of v = None ->
  track v (showing sh) = track v (segments 0 (Timing av_backdrop 1 150 ez_default)
    ++ from_option (segments 0) [] (shake_plan (RARITY_FX r)) ++ segments 0 (card_plan (Some (RARITY_FX r)))).
Proof.
  intros (ps & L & F & ->) Hv. unfold showing. cbn [sh_backdrop sh_burst sh_shake sh_card].
  change (from_option (segments 0) [] (Some (Stagger (burst_stagger (RARITY_FX r)) ps)))
    with (segments 0 (Stagger (burst_stagger (RARITY_FX r)) ps)).
  rewrite !track_app, segments_stagger, (track_none v (concat _)); [reflexivity|].
  apply Forall_concat, Forall_lookup_2. intros j l Hl. apply list_lookup_imap_Some in Hl as (q & Hq & ->).
  destruct (F j q Hq) as (? & ? & ? & -> & _). eapply other_value; [apply flight_moves|]. congruence.
Qed.

(** The last launch is at the end of the emission window, up to rounding. *)
Lemma launch_bounds r i : (i < fx_particles (RARITY_FX r))%nat ->
  0 <= launch r i <= num (fx_emitMs (RARITY_FX r)) + 1.
Proof.
  intros Hi. unfold launch.
  assert (G : 0 <= burst_stagger (RARITY_FX r)) by (destruct r; q_compute).
  assert (M : js_mul (burst_stagger (RARITY_FX r)) (num (Z.of_nat i))
              <= js_mul (burst_stagger (RARITY_FX r)) (num (Z.of_nat (fx_particles (RARITY_FX r)) - 1)))
    by (apply js_mul_mono_r; [exact G | apply num_le; lia]).
  assert (T : js_mul (burst_stagger (RARITY_FX r)) (num (Z.of_nat (fx_particles (RARITY_FX r)) - 1))
              <= num (fx_emitMs (RARITY_FX r)) + 1) by (destruct r; q_compute).
  assert (P : 0 <= js_mul (burst_stagger (RARITY_FX r)) (num (Z.of_nat i)))
    by (apply js_mul_nonneg; [exact G | apply num_nonneg; lia]). lra.
Qed.

(** The legs of a flight: how long it rises, falls, shrinks, waits and fades. *)
Lemma flight_legs :
  js_mul BURST_MS (lit 0.35) == 315 /\ js_mul BURST_MS (lit 0.65) == 585 /\ js_sub BURST_MS 90 == 810
  /\ js_mul BURST_MS (lit 0.4) == 360 /\ js_sub (js_mul BURST_MS (lit 0.6)) 90 == 450.
Proof. repeat split; q_compute. Qed.

(** A value of the modal [t] milliseconds after the reveal [o] was first rendered. *)
Definition painted (t : Q) (o : nat) (v : Reveal) (sh : Showing) (a : RevealValue) : Q :=
  value_at t (reveal_value (render_reveal (Some o) v) a) a (showing sh).

Lemma fresh_hidden o v a : rvw_shown v <> Some o -> a <> av_cardScale -> reveal_value (render_reveal (Some o) v) a = 0.
Proof.
  intros N A. unfold render_reveal. destruct (decide _); [contradiction|].
  destruct a; try reflexivity; try contradiction; cbn; rewrite list_lookup_fmap; destruct (_ !! _); reflexivity.
Qed.

(** While a drop is revealed, every particle stays in the box of its rarity, and its size
    and opacity between nothing and full, at every moment and whatever was drawn. *)
Theorem burst_contained (rv : RewardReveal) (it : Item) (o : nat) (v : Reveal) :
  rv_item rv = Some it -> rvw_shown v <> Some o ->
  let spread := num (fx_spread (RARITY_FX (it_rarity it))) in
  rand_post (show_reveal rv) (fun sh => forall t i, (i < fx_particles (RARITY_FX (it_rarity it)))%nat ->
    - spread <= painted t o v sh (av_tx i) <= spread
    /\ - spread <= painted t o v sh (av_ty i) <= spread * (11 # 10)
    /\ 0 <= painted t o v sh (av_scale i) <= 1
    /\ 0 <= painted t o v sh (av_opacity i) <= 1).
Proof.
  intros E N spread. eapply rand_post_weaken; [apply show_reveal_shows, E|]. intros sh S t i Hi.
  destruct (particle_track _ _ i S Hi) as (dx & peakY & fallY & (X & P & F) & T).
  assert (P0 : 0 <= spread) by (apply num_nonneg; destruct (it_rarity it); cbn; lia). fold spread in X, P, F.
  unfold painted. rewrite !(fresh_hidden o v) by (assumption || discriminate).
  split; [|split; [|split]]; (apply value_within; [lra|]); rewrite T by reflexivity; eval_track;
    repeat (apply Forall_cons_2; [split; [by eexists | cbn [sg_to]; lra]|]); apply Forall_nil_2.
Qed.

(** The tracks of a particle's size and opacity, and of the frame. *)
Lemma scale_track r sh i : shows r sh -> (i < fx_particles (RARITY_FX r))%nat -> let l := launch r i in
  track (av_scale i) (showing sh) =
  [ mkSegment (av_scale i) l (l + 90) 1 (Some ez_out_quad);
    mkSegment (av_scale i) (l + 90) (l + 90 + js_sub BURST_MS 90) 0 (Some ez_in_quad) ].
Proof.
  intros S Hi l. destruct (particle_track _ _ i S Hi) as (dx & peakY & fallY & _ & T).
  rewrite T by reflexivity. eval_track. reflexivity.
Qed.

Lemma opacity_track r sh i : shows r sh -> (i < fx_particles (RARITY_FX r))%nat -> let l := launch r i in
  track (av_opacity i) (showing sh) =
  [ mkSegment (av_opacity i) l (l + 90) 1 (Some ez_default);
    mkSegment (av_opacity i) (l + 90 + js_mul BURST_MS (lit 0.4))
      (l + 90 + js_mul BURST_MS (lit 0.4) + js_sub (js_mul BURST_MS (lit 0.6)) 90) 0 (Some ez_in_cubic) ].
Proof.
  intros S Hi l. destruct (particle_track _ _ i S Hi) as (dx & peakY & fallY & _ & T).
  rewrite T by reflexivity. eval_track. reflexivity.
Qed.

Lemma card_tracks r sh : shows r sh -> let d := 0 + num (fx_cardDelay (RARITY_FX r)) in
  let e := d + spring_ms 6 90 in
  track av_cardOpacity (showing sh) = [mkSegment av_cardOpacity d (d + 220) 1 (Some ez_default)]
  /\ track av_cardScale (showing sh) = [mkSegment av_cardScale d e 1 None]
  /\ exists e', e' <= e + 220 /\ d <= e' /\
     track av_promptOpacity (showing sh) = [mkSegment av_promptOpacity e' (e' + 250) 1 (Some ez_default)].
Proof.
  intros S d e. rewrite !(frame_track _ _ _ S) by reflexivity. rewrite !track_app.
  rewrite !(track_none _ (from_option _ _ _)) by (unfold shake_plan; destruct (_ <? _)%Z; repeat constructor; discriminate).
  eval_track. split; [reflexivity|]. split; [reflexivity|].
  assert (W : Qmax e (Qmax (d + 220) d) <= e + 220 /\ d <= Qmax e (Qmax (d + 220) d)).
  { assert (De : d <= e) by (pose proof (spring_takes 6 90); unfold e; lra).
    split; [repeat apply Q.max_lub; lra|]. eapply Qle_trans; [exact De | apply Q.le_max_l]. }
  exists (Qmax e (Qmax (d + 220) d)). split; [apply W|]. split; [apply W | reflexivity].
Qed.

Lemma shake_track r sh : shows r sh -> track av_shakeX (showing sh) = []
  \/ exists l s, track av_shakeX (showing sh) = l ++ [s] /\ sg_start s < 180 /\ sg_end s <= 180 /\ sg_to s = 0.
Proof.
  intros S. rewrite (frame_track _ _ _ S) by reflexivity. rewrite !track_app.
  rewrite (track_none _ (segments 0 (card_plan _))) by (repeat constructor; discriminate). rewrite app_nil_r.
  unfold shake_plan. destruct (0 <? fx_shake (RARITY_FX r))%Z; [right | left; reflexivity].
  cbn [from_option]. eval_track. eexists [_; _; _], _. split; [reflexivity|]. cbn [sg_start sg_end sg_to].
  split; [q_compute|]. split; [q_compute | reflexivity].
Qed.

(** A second after the last particle is launched nothing of the burst is left to be seen and
    the screen stands still; once the spring is done the card and its prompt are fully
    there, and they stay. *)
Theorem reveal_settles (rv : RewardReveal) (it : Item) (o : nat) (v : Reveal) :
  rv_item rv = Some it -> rvw_shown v <> Some o ->
  let fx := RARITY_FX (it_rarity it) in
  rand_post (show_reveal rv) (fun sh => forall t,
    (num (fx_emitMs fx) + 1000 <= t -> painted t o v sh av_shakeX = 0
       /\ forall i, (i < fx_particles fx)%nat ->
          painted t o v sh (av_scale i) = 0 /\ painted t o v sh (av_opacity i) = 0)
    /\ (num (fx_cardDelay fx) + spring_ms 6 90 + 500 <= t ->
        painted t o v sh av_cardOpacity = 1 /\ painted t o v sh av_cardScale = 1
        /\ painted t o v sh av_promptOpacity = 1)).
Proof.
  intros E N fx. eapply rand_post_weaken; [apply show_reveal_shows, E|]. intros sh S t.
  destruct flight_legs as (_ & _ & L1 & L2 & L3). split; intros Ht.
  - assert (0 <= num (fx_emitMs fx)) by (apply num_nonneg; unfold fx; destruct (it_rarity it); cbn; lia).
    split; [|intros i Hi; pose proof (launch_bounds _ _ Hi) as Lb; fold fx in Lb; unfold painted; split].
    + unfold painted. rewrite fresh_hidden by (assumption || discriminate).
      destruct (shake_track _ _ S) as [Tr|(l & s & Tr & S1 & S2 & S3)].
      * unfold value_at. rewrite Tr. reflexivity.
      * rewrite (value_rests _ _ _ _ _ _ Tr) by lra. exact S3.
    + erewrite (value_rests _ _ _ _ [_]); [| rewrite (scale_track _ _ _ S Hi); reflexivity | cbn [sg_start]; lra | cbn [sg_end]; lra].
      reflexivity.
    + erewrite (value_rests _ _ _ _ [_]); [| rewrite (opacity_track _ _ _ S Hi); reflexivity | cbn [sg_start]; lra | cbn [sg_end]; lra].
      reflexivity.
  - destruct (card_tracks _ _ S) as (T1 & T2 & e' & B1 & B2 & T3). fold fx in T1, T2, B1, B2.
    assert (0 <= num (fx_cardDelay fx)) by (apply num_nonneg; unfold fx; destruct (it_rarity it); cbn; lia).
    pose proof (spring_takes 6 90). unfold painted.
    split; [|split]; (erewrite (value_rests _ _ _ _ []); [| first [exact T1 | exact T2 | exact T3]
      | cbn [sg_start]; lra | cbn [sg_end]; lra]); reflexivity.
Qed.

(** The rarity of a drop shows before the drop does: until the card starts to appear it and
    its prompt are invisible, and at that moment a particle in the rarity's colour is fully
    opaque. *)
Theorem rarity_shows_first (rv : RewardReveal) (it : Item) (o : nat) (v : Reveal) :
  rv_item rv = Some it -> rvw_shown v <> Some o ->
  let fx := RARITY_FX (it_rarity it) in
  rand_post (show_reveal rv) (fun sh =>
    (forall t, t <= num (fx_cardDelay fx) ->
       painted t o v sh av_cardOpacity = 0 /\ painted t o v sh av_promptOpacity = 0)
    /\ exists i, (i < fx_particles fx)%nat /\ painted (num (fx_cardDelay fx)) o v sh (av_opacity i) = 1).
Proof.
  intros E N fx. eapply rand_post_weaken; [apply show_reveal_shows, E|]. intros sh S. split.
  - intros t Ht. destruct (card_tracks _ _ S) as (T1 & T2 & e' & B1 & B2 & T3). fold fx in T1, B2.
    unfold painted. rewrite !fresh_hidden by (assumption || discriminate).
    split; apply value_before; rewrite ?T1, ?T3; apply Forall_cons_2, Forall_nil_2; cbn [sg_start]; lra.
  - set (i := match it_rarity it with common | uncommon => 0 | rare => 2 | epic => 6 | legendary => 10 end%nat).
    assert (Hi : (i < fx_particles fx)%nat) by (unfold i, fx; destruct (it_rarity it); cbn; lia).
    exists i. split; [exact Hi|]. unfold painted.
    erewrite (value_holds _ _ _ _ []); [| rewrite (opacity_track _ _ _ S Hi); reflexivity | ..];
      [reflexivity | cbn [sg_start sg_end]; unfold i, fx; destruct (it_rarity it); q_compute..].
Qed.

(** Every value of the modal is moved by one animation at a time. *)
Theorem reveal_well_timed (rv : RewardReveal) (it : Item) :
  rv_item rv = Some it ->
  rand_post (show_reveal rv) (fun sh => forall a,
    from_option (fun i => i < fx_particles (RARITY_FX (it_rarity it)))%nat True (particle_of a) ->
    follow_on (track a (showing sh))).
Proof.
  intros E. eapply rand_post_weaken; [apply show_reveal_shows, E|]. intros sh S a Ha.
  destruct flight_legs as (_ & _ & L1 & L2 & L3).
  destruct (particle_of a) as [i|] eqn:P.
  - cbn [from_option] in Ha. destruct (particle_track _ _ i S Ha) as (dx & peakY & fallY & _ & T).
    rewrite (T a P). destruct a; try discriminate P; injection P as ->; eval_track; cbn [follow_on sg_start sg_end];
      repeat split; lra.
  - rewrite (frame_track _ _ _ S P). destruct a; try discriminate P; rewrite !track_app; unfold shake_plan;
      destruct (0 <? fx_shake _)%Z; cbn [from_option]; eval_track; cbn [app follow_on sg_start sg_end];
      repeat split; lra.
Qed.

(** Nothing of the burst of a reveal that is taken away moves afterwards. *)
Theorem dismissed_burst_gone (rv : RewardReveal) (it : Item) (t : Q) :
  rv_item rv = Some it ->
  rand_post (show_reveal rv) (fun sh =>
    Forall (fun s => particle_of (sg_value s) = None /\ t <= sg_start s) (left_running t sh)).
Proof.
  intros E. eapply rand_post_weaken; [apply show_reveal_shows, E|]. intros sh (ps & _ & _ & ->).
  apply Forall_forall. intros s Hs. unfold left_running in Hs. cbn [sh_shake sh_card] in Hs.
  apply list_elem_of_filter in Hs as [Hs Hin]. split; [|apply js_le_iff, Hs].
  apply elem_of_app in Hin as [Hin|Hin]; clear Hs; revert s Hin; apply Forall_forall; [apply shake_moves | apply card_moves].
Qed.
End Reveal.

Definition LOST_DROP : string := " Inventory full — this drop was lost. Clear space to keep future finds.".

(** The card of a victory says what the victory paid: the experience, a level exactly when
    one was gained, and that the drop was lost exactly when the inventory did not take it. *)
Theorem card_announces (now : Z) (p : Player) (c : Creature) (force : bool) (rarity : option Rarity) :
  wf_player p -> creature_ok c ->
  rand_post (victory_rewards now p c force rarity) (fun r =>
    let '(p', rv) := r in
    exists body, reveal_card rv
      = body ++ ["+" +:+ pretty (activeCombatXp (getExperienceReward c)) +:+ " XP"]
        ++ (if (p_level p <? p_level p')%Z then ["LEVEL UP! → " +:+ pretty (p_level p')] else [])
      /\ match rv_item rv with
         | Some it => body !! 0%nat = Some (it_name it)
                      /\ (last body = Some LOST_DROP <-> p_inventory p' = p_inventory p)
         | None => body = ["Victory!"; "Defeated " +:+ rv_creatureName rv] /\ p_inventory p' = p_inventory p
         end).
Proof.
  intros W C. eapply rand_post_weaken; [apply victory_rewards_paid; assumption|]. intros [p' rv] P. cbn [fst snd] in P.
  pose proof (wp_loot _ _ _ _ P) as L. pose proof (wp_leveled _ _ _ _ P) as (_ & Hn & Hl).
  unfold reveal_card. rewrite (wp_xp _ _ _ _ P), Hn, Hl. eexists. split; [reflexivity|].
  unfold received in L. destruct (rv_item rv) as [it|]; [|split; [reflexivity | apply L]].
  split; [reflexivity|]. destruct (rv_inventoryFull rv).
  - destruct L as [L _]. rewrite !app_assoc, last_snoc. split; [intros _; exact L | reflexivity].
  - rewrite app_nil_r, !app_assoc, last_snoc. split.
    + destruct (rv_isUpgrade rv); discriminate.
    + intros E. rewrite E in L. apply Permutation_length in L. cbn [length] in L. lia.
Qed.

(** ** Styles on an interval *)

Lemma in_add l1 h1 l2 h2 a b : l1 <= a <= h1 -> l2 <= b <= h2 -> js_add l1 l2 <= js_add a b <= js_add h1 h2.
Proof. intros [] []. split; apply js_add_mono; assumption. Qed.

Lemma in_sub l1 h1 l2 h2 a b : l1 <= a <= h1 -> l2 <= b <= h2 -> js_sub l1 h2 <= js_sub a b <= js_sub h1 l2.
Proof. intros [] []. split; apply js_sub_mono; assumption. Qed.

Lemma in_mul l1 h1 l2 h2 a b : l1 <= a <= h1 -> l2 <= b <= h2 -> 0 <= l1 -> 0 <= l2 ->
  js_mul l1 l2 <= js_mul a b <= js_mul h1 h2.
Proof.
  intros [A1 A2] [B1 B2] P1 P2. split; apply fl_mono.
  - apply Qmult_le_compat_nonneg; split; assumption.
  - apply Qmult_le_compat_nonneg; split; lra.
Qed.

Lemma in_min l h c a : l <= a <= h -> math_min c l <= math_min c a <= math_min c h.
Proof.
  intros [L U]. destruct (math_min_spec c a) as (A1 & A2 & A3), (math_min_spec c l) as (B1 & B2 & B3),
    (math_min_spec c h) as (C1 & C2 & C3). split; [destruct A3 as [->| ->] | destruct C3 as [->| ->]]; lra.
Qed.

(** Bound an expression by the bounds of its variables. *)
Ltac bounds :=
  lazymatch goal with
  | |- _ <= js_add _ _ <= _ => eapply in_add; [bounds | bounds]
  | |- _ <= js_sub _ _ <= _ => eapply in_sub; [bounds | bounds]
  | |- _ <= js_mul _ _ <= _ => eapply in_mul; [bounds | bounds | q_compute | q_compute]
  | |- _ <= math_min _ _ <= _ => eapply in_min; bounds
  | _ => first [eassumption | split; apply Qle_refl]
  end.

Ltac by_bounds :=
  match goal with
  | |- _ <= ?x <= _ => eassert (B : _ <= x <= _) by bounds;
      split; [eapply Qle_trans; [|apply (proj1 B)] | eapply Qle_trans; [apply (proj2 B)|]]; q_compute
  | |- 0 < ?x => eassert (B : _ <= x <= _) by bounds; eapply Qlt_le_trans; [|apply (proj1 B)]; q_compute
  end.

Definition rarity_rank (r : Rarity) : nat :=
  match r with common => 0 | uncommon => 1 | rare => 2 | epic => 3 | legendary => 4 end.

(** The glow grows with the rarity, is never brighter than its preset, and goes on pulsing
    for the two highest only. *)
Theorem glow_escalates (r : Rarity) (intro pulse : Q) : 0 <= intro <= 1 -> 0 <= pulse <= 1 ->
  0 <= glow_opacity (RARITY_GLOW r) intro pulse <= gl_opacity (RARITY_GLOW r)
  /\ lit 0.7 <= glow_scale intro pulse <= 109 # 100
  /\ (forall r', (rarity_rank r < rarity_rank r')%nat ->
      (gl_radius (RARITY_GLOW r) < gl_radius (RARITY_GLOW r'))%Z
      /\ gl_opacity (RARITY_GLOW r) < gl_opacity (RARITY_GLOW r'))
  /\ (gl_pulse (RARITY_GLOW r) = true <-> r = epic \/ r = legendary).
Proof.
  intros I P. unfold glow_opacity, glow_scale. split; [|split; [|split]].
  - destruct r; cbn [RARITY_GLOW gl_opacity]; by_bounds.
  - by_bounds.
  - intros r' L. destruct r, r'; cbn in L; try lia; split; q_compute.
  - destruct r; cbn; intuition congruence.
Qed.

(** A number fades from opaque to nothing as it rises, stays within its rise, and takes only
    itself off the screen when its animation has finished. *)
Theorem floater_fades (item : CombatFloater) (progress : Q) (i : Impact) : 0 <= progress <= 1 ->
  0 <= fs_opacity (floater_style item progress) <= 1
  /\ - RISE_PX <= fs_translateY (floater_style item progress) <= 0
  /\ lit 0.8 <= fs_scale (floater_style item progress) <= 1
  /\ fs_opacity (floater_style item 0) = 1 /\ fs_opacity (floater_style item 1) = 0
  /\ (forall f, f ∈ floaters (floater_done true (fl_id item) i) <-> f ∈ floaters i /\ fl_id f <> fl_id item)
  /\ floater_done false (fl_id item) i = i.
Proof.
  intros P. unfold floater_style. cbn [fs_opacity fs_translateY fs_scale].
  split; [by_bounds|]. split.
  { split; [apply fl_ge_double; [q_compute | unfold RISE_PX; lra] | apply (fl_le_Z _ 0); [lia | unfold RISE_PX; change (inject_Z 0) with 0; lra]]. }
  split; [by_bounds|]. split; [q_compute|]. split; [q_compute|]. split; [|reflexivity].
  intros f. cbn. rewrite list_elem_of_In, filter_In, <- list_elem_of_In, negb_true_iff, Z.eqb_neq. tauto.
Qed.

(** ** Cues and bodies come to rest *)

Section Cues.
Context `{CurveLaws}.

Lemma shake_magnitude_bounds amount maxHp : (0 <= amount)%Z -> SHAKE_BASE <= shake_magnitude amount maxHp <= SHAKE_MAX.
Proof.
  intros A. assert (I : 0 <= shake_intensity amount maxHp <= 1).
  { unfold shake_intensity. destruct (Z.ltb_spec 0 maxHp); [|q_compute].
    assert (D : 0 <= js_div (num amount) (js_mul (num maxHp) SHAKE_FULL_AT_FRACTION)).
    { destruct (Qlt_le_dec 0 (js_mul (num maxHp) SHAKE_FULL_AT_FRACTION)) as [P|P].
      - apply js_div_nonneg; [apply num_nonneg, A | exact P].
      - assert (Z0 : js_mul (num maxHp) SHAKE_FULL_AT_FRACTION == 0).
        { apply Qle_antisym; [exact P|]. apply js_mul_nonneg; [apply num_nonneg; lia | q_compute]. }
        unfold js_div. rewrite Z0. apply fl_nonneg. unfold Qdiv. rewrite Qmult_0_r. apply Qle_refl. }
    destruct (math_min_spec 1 (js_div (num amount) (js_mul (num maxHp) SHAKE_FULL_AT_FRACTION))) as (M1 & M2 & [M|M]);
      rewrite M in *; split; lra. }
  unfold shake_magnitude. by_bounds.
Qed.

(** A value of a cue [t] milliseconds after the cue was given. *)
Definition cue_value (t : Q) (c : Cue) (v : CueValue) : Q := value_at t (cue_rest v) v (segments 0 (cue_plan c)).

(** The range a value may move in. *)
Definition cue_range (v : CueValue) (x : Q) : Prop :=
  match v with
  | cv_shake => - SHAKE_MAX <= x <= SHAKE_MAX
  | cv_flash _ => 0 <= x <= 1
  | cv_scale _ => RECOIL_SCALE <= x <= EMPOWER_SCALE
  end.

Definition cue_ok (c : Cue) : Prop :=
  match c with Shake mag => SHAKE_BASE <= mag <= SHAKE_MAX | _ => True end.

(** A value the cue does not move stands still; the others are moved in turn. *)
Lemma cue_track c v : track v (segments 0 (cue_plan c)) = []
  \/ exists l s, track v (segments 0 (cue_plan c)) = l ++ [s] /\ sg_start s < 400 /\ sg_end s <= 400
     /\ sg_to s = cue_rest v.
Proof.
  assert (U : forall p, Forall (fun s => sg_value s <> v) (segments 0 p) -> track v (segments 0 p) = []
    \/ exists l s, track v (segments 0 p) = l ++ [s] /\ sg_start s < 400 /\ sg_end s <= 400
       /\ sg_to s = cue_rest v) by (intros p N; left; apply track_none, N).
  destruct c as [mag|target| |target];
    [ destruct (decide (v = cv_shake)) as [->|N] | destruct (decide (v = cv_flash target)) as [->|N]
    | destruct (decide (v = cv_scale CCreature)) as [->|N] | destruct (decide (v = cv_scale target)) as [->|N] ];
    try (apply U; repeat (apply Forall_cons_2; [cbn; congruence|]); apply Forall_nil_2);
    right; eval_track;
    first [eexists [_; _; _], _; split; [reflexivity|] | eexists [_], _; split; [reflexivity|]];
    cbn [sg_start sg_end sg_to]; (split; [q_compute|]); (split; [q_compute | reflexivity]).
Qed.

Lemma cue_targets c v : cue_ok c -> cue_range v (cue_rest v)
  /\ Forall (fun s => is_Some (sg_easing s) /\ cue_range v (sg_to s)) (track v (segments 0 (cue_plan c))).
Proof.
  intros K. split; [destruct v; q_compute|]. apply Forall_forall. intros s Hs.
  apply list_elem_of_filter in Hs as [<- Hs].
  assert (M : forall mag, SHAKE_BASE <= mag <= SHAKE_MAX -> - SHAKE_MAX <= js_mul (- mag) (lit 0.5) <= SHAKE_MAX).
  { intros mag [L U]. unfold SHAKE_BASE, SHAKE_MAX in *.
    assert (h : lit 0.5 == 1 # 2) by q_compute. unfold js_mul. rewrite h. split.
    - apply (fl_ge_Z _ (-9)); [lia|]. change (inject_Z (-9)) with (-9). lra.
    - apply (fl_le_Z _ 9); [lia|]. change (inject_Z 9) with 9. lra. }
  revert s Hs. apply Forall_forall. destruct c; cbn [cue_ok] in K; try specialize (M _ K);
    repeat (apply Forall_cons_2 || apply Forall_nil_2); (split; [by eexists|]); cbn [sg_value sg_to cue_range];
    unfold SHAKE_BASE, SHAKE_MAX in *; first [lra | q_compute].
Qed.

(** Whatever a hit does, the cues it gives shake the screen by at most nine pixels, flash and
    scale within their limits, and leave every value at rest. *)
Theorem cues_settle (h : CombatHitEvent) (i : Impact) : (0 <= ch_amount h)%Z ->
  exists new, cues (impact_of i h) = cues i ++ new /\ Forall (fun c => forall v,
    (forall t, cue_range v (cue_value t c v))
    /\ (forall t, 400 <= t -> cue_value t c v = cue_rest v)) new.
Proof.
  intros A.
  assert (N : exists new, cues (impact_of i h) = cues i ++ new /\ Forall cue_ok new).
  { pose proof (shake_magnitude_bounds _ (ch_targetMaxHp h) A) as Mg.
    unfold impact_of. destruct (ch_kind h), (ch_evade h) as [[]|], (ch_target h);
      first [exists []; rewrite app_nil_r; split; [reflexivity | constructor]
            | eexists; split; [reflexivity | repeat constructor; exact Mg || apply Mg]]. }
  destruct N as (new & E & F). exists new. split; [exact E|]. eapply Forall_impl; [exact F|].
  intros c K v. destruct (cue_targets c v K) as [R T]. split; intros t.
  - unfold cue_value. destruct v; apply value_within; assumption.
  - intros Ht. destruct (cue_track c v) as [Tr|(l & s & Tr & S1 & S2 & <-)]; unfold cue_value.
    + unfold value_at. rewrite Tr. reflexivity.
    + apply (value_rests _ _ _ _ _ _ Tr); lra.
Qed.
End Cues.

(** A body is never turned inside out, whatever mixes of breathing, lunging and dying; it is
    fully there while it lives and gone when it has died, and it dies exactly when the
    creature is defeated. *)
Theorem body_sound (idleStyle : CreatureIdleStyle) (deathStyle : CreatureDeathStyle) (size b a d : Q) :
  0 <= b <= 1 -> 0 <= a <= 1 -> 0 <= d <= 1 ->
  let s := body_style idleStyle deathStyle size b a d in
  0 <= bs_opacity s <= 1 /\ 0 < bs_scaleX s /\ 0 < bs_scaleY s
  /\ bs_opacity (body_style idleStyle deathStyle size b a 0) = 1
  /\ bs_opacity (body_style idleStyle deathStyle size b a 1) = 0
  /\ forall isDefeated isEnemyTurn,
     death_drive (deriveCreatureAnimState isDefeated isEnemyTurn) = Toward 1 620 ez_in_quad <-> isDefeated = true.
Proof.
  intros Hb Ha Hd. destruct idleStyle, deathStyle; unfold body_style, idle_style; cbv zeta;
    cbn [bs_opacity bs_scaleX bs_scaleY];
    (split; [by_bounds|]); (split; [by_bounds|]); (split; [by_bounds|]); (split; [q_compute|]); (split; [q_compute|]);
    intros [] []; cbn; intuition congruence.
Qed.

(** Every body the registry names sets its knobs. *)
Theorem bodies_have_knobs : Forall (fun e => is_Some (entry body_knobs (snd e))) CREATURE_BODIES.
Proof. repeat (apply Forall_cons_2; [eexists; reflexivity|]). apply Forall_nil_2. Qed.

(** ** A run *)

Module Sample.
#[local] Instance plain_curves : Curves :=
  {| ease := fun _ x => x; spring_curve := fun x => x; spring_ms := fun _ _ => 400 |}.

#[local] Instance plain_laws : CurveLaws.
Proof. split; [intros e x Hx; exact Hx | intros; reflexivity]. Qed.

#[local] Instance unit_trig : Trig :=
  {| math_sin := fun _ => 0; math_cos := fun _ => 1; math_asin := fun x => x;
     math_atan2 := fun _ _ => 0; math_sqrt := fun x => x |}.

#[local] Instance unit_range : TrigRange.
Proof. intros a. cbn. split; discriminate. Qed.

Definition ring_reveal : RewardReveal := mkReveal "Ash Wretch" 40 true 3 (Some sample_ring) true false.

(** The reveal of the sample ring settles. *)
Example ring_settles : rand_post (show_reveal ring_reveal) (fun sh =>
  painted 3000 7 initial_reveal sh av_cardOpacity = 1 /\ painted 3000 7 initial_reveal sh av_shakeX = 0).
Proof.
  eapply rand_post_weaken; [apply (reveal_settles ring_reveal sample_ring 7 initial_reveal); [reflexivity | discriminate]|].
  intros sh S. split; apply (S 3000); q_compute.
Qed.
End Sample.
