(* ===== verification/Server.v ===== *)
(** * The cloud's side

    [firestore.rules], the rules that decide which requests on the collection [players] are
    granted, and [functions/src/index.ts], the function that erases a user's document when
    the account is deleted.

    The collection maps a user to the document stored for them, a JSON value.  A write that
    finds no document is a create, one that finds one an update.  The theorems compose the
    rules with the client of [CloudSync]: in whatever order its saves arrive the newest of
    them stays, stale and foreign writes are refused, and the erasure is complete.  A rule that reads a missing field
    fails, which denies the request; the size of a name is counted in bytes, which for the
    ASCII names the client gives is the number of its characters. *)
From stdpp Require Import base decidable strings list gmap.
From Stdlib Require Import ZArith QArith Lia Lqa Sorted.
From S2P Require Import Prelude JsNumber Random Archetype Creature Config Item Player Encounter Json CloudSync.
Local Open Scope Z_scope.

(** ** The rules *)

Definition is_map (o : option json) : bool := match o with Some (JObj _) => true | _ => false end.

Definition keys_of (j : json) : list string := match j with JObj o => o.*1 | _ => [] end.

Definition hasOnly (j : json) (keys : list string) : bool := forallb (fun k => bool_decide (k ∈ keys)) (keys_of j).

Definition hasAll (j : json) (keys : list string) : bool := forallb (fun k => bool_decide (k ∈ keys_of j)) keys.

(** [v is number && v >= lo] *)
Definition number_from (lo : Q) (o : option json) : bool :=
  match o with Some (JNum q) => js_le lo q | _ => false end.

(** [v is string && v.size() >= 1 && v.size() <= 50] *)
Definition short_name (o : option json) : bool :=
  match o with
  | Some (JStr s) => (1 <=? Z.of_nat (String.length s)) && (Z.of_nat (String.length s) <=? 50)
  | _ => false
  end.

Definition required_fields : list string :=
  [ "id"; "name"; "level"; "experience"; "attack"; "defense"; "totalDistance"; "totalEncounters";
    "creaturesDefeated"; "equipment" ].

Definition isValidPlayerData (pd : json) : bool :=
  hasAll pd required_fields
  && is_string (jget pd "id")
  && short_name (jget pd "name")
  && number_from 1 (jget pd "level")
  && (match jget pd "level" with Some (JNum q) => js_le q 1000 | _ => false end)
  && number_from 0 (jget pd "experience")
  && number_from 0 (jget pd "attack")
  && number_from 0 (jget pd "defense")
  && number_from 0 (jget pd "totalDistance")
  && number_from 0 (jget pd "totalEncounters")
  && number_from 0 (jget pd "creaturesDefeated")
  && is_map (jget pd "equipment").

Definition isValidPlayerDoc (data : json) : bool :=
  hasOnly data ["playerData"; "lastSavedAt"]
  && is_number (jget data "lastSavedAt")
  && is_map (jget data "playerData")
  && from_option isValidPlayerData false (jget data "playerData").

Definition isOwner (auth : option string) (uid : string) : bool := bool_decide (auth = Some uid).

(** [a.lastSavedAt > b.lastSavedAt] *)
Definition newer (a b : json) : bool :=
  match jget a "lastSavedAt", jget b "lastSavedAt" with
  | Some (JNum x), Some (JNum y) => js_lt y x
  | _, _ => false
  end.

Abbreviation Players := (gmap string json).

Inductive Request := Read | Set_ (data : json) | Delete.

Definition allow (auth : option string) (uid : string) (req : Request) (players : Players) : bool :=
  match req with
  | Read | Delete => isOwner auth uid
  | Set_ data =>
      match players !! uid with
      | None => isOwner auth uid && isValidPlayerDoc data
      | Some resource => isOwner auth uid && isValidPlayerDoc data && newer data resource
      end
  end.

(** A request of [auth] on the document of [uid]: whether it is granted, and the collection
    after it. *)
Definition serve (auth : option string) (uid : string) (req : Request) (players : Players) : bool * Players :=
  if allow auth uid req players
  then (true, match req with Read => players | Set_ data => <[uid := data]> players | Delete => delete uid players end)
  else (false, players).

Definition serve_all (reqs : list (option string * string * Request)) (players : Players) : Players :=
  fold_left (fun ps r => snd (serve r.1.1 r.1.2 r.2 ps)) reqs players.

(** The document a save writes. *)
Definition write_doc (w : Write) : json :=
  JObj [("playerData", enc_player (wr_data w)); ("lastSavedAt", jint (wr_timestamp w))].

(** Writes of a client in the order they reach the server: whether each is granted. *)
Fixpoint upload_all (ws : list Write) (players : Players) : list bool * Players :=
  match ws with
  | [] => ([], players)
  | w :: ws =>
      let (ok, players) := serve (Some (wr_uid w)) (wr_uid w) (Set_ (write_doc w)) players in
      let (oks, players) := upload_all ws players in
      (ok :: oks, players)
  end.

(** ** The deletion trigger *)

(** [onUserDeleted] runs with the rights of the server; [reached] tells whether Firestore
    could be reached.  [None]: it throws. *)
Definition onUserDeleted (uid : string) (reached : bool) (players : Players) : option unit * Players :=
  if reached then (Some tt, delete uid players) else (None, players).

(** ** Every save is granted *)

Lemma num_le_js a b : a <= b -> js_le (num a) (num b) = true.
Proof. intros L. apply Qle_bool_iff, num_le, L. Qed.

(** What the rules ask of a player beyond being well formed. *)
Definition uploadable (p : Player) : Prop :=
  p_level p <= 1000 /\ 1 <= Z.of_nat (String.length (p_name p)) <= 50 /\ (0 <= p_totalDistance p)%Q
  /\ 0 <= p_totalEncounters p /\ 0 <= p_creaturesDefeated p.

Lemma gear_ok f p : wf_player p -> (forall it, item_ok it -> 0 <= default 0 (f it)) ->
  0 <= gear_total f (p_equipment p).
Proof.
  intros W Hf. apply gear_total_nonneg. pose proof (wf_items p W) as I. apply Forall_app in I as [_ I].
  eapply Forall_impl; [exact I | exact Hf].
Qed.

Lemma combat_stats_pos p : wf_player p -> 0 <= p_attack p /\ 0 <= p_defense p.
Proof.
  intros W. rewrite (wf_attack p W), (wf_defense p W). unfold full_attack, full_defense, deriveAttack, deriveDefense.
  pose proof (gear_ok it_attack p W ltac:(intros it O; apply O)).
  pose proof (gear_ok it_defense p W ltac:(intros it O; apply O)). lia.
Qed.

Lemma player_passes p : wf_player p -> uploadable p -> isValidPlayerData (enc_player (toJSON p)) = true.
Proof.
  intros W (L & [N1 N2] & D & E & C). destruct (combat_stats_pos p W) as [A1 A2].
  pose proof (wf_level p W) as L1. destruct (wf_experience p W) as [X _].
  unfold isValidPlayerData. rewrite !andb_true_iff.
  assert (J : forall k, jget (enc_player (toJSON p)) k = assoc k (match enc_player (toJSON p) with JObj o => o | _ => [] end))
    by reflexivity.
  repeat split; rewrite ?J; cbn -[Z.leb js_le String.length num]; try reflexivity;
    try (apply (num_le_js 0); assumption).
  - apply andb_true_iff. split; apply Z.leb_le; assumption.
  - apply (num_le_js 1); assumption.
  - apply (num_le_js _ 1000); assumption.
  - apply Qle_bool_iff, D.
Qed.

Lemma doc_passes w : isValidPlayerData (enc_player (wr_data w)) = true -> isValidPlayerDoc (write_doc w) = true.
Proof. intros V. unfold isValidPlayerDoc. rewrite !andb_true_iff. repeat split. exact V. Qed.

Lemma newer_write w d t : jget d "lastSavedAt" = Some (JNum t) -> (t < num (wr_timestamp w))%Q ->
  newer (write_doc w) d = true.
Proof. intros E L. unfold newer. rewrite E. cbn. apply js_lt_iff, L. Qed.

(** The collection is older than a write. *)
Definition behind (players : Players) (w : Write) : Prop :=
  forall d, players !! wr_uid w = Some d ->
  exists t, jget d "lastSavedAt" = Some (JNum t) /\ (t < num (wr_timestamp w))%Q.

Lemma write_granted w players : isValidPlayerData (enc_player (wr_data w)) = true -> behind players w ->
  serve (Some (wr_uid w)) (wr_uid w) (Set_ (write_doc w)) players = (true, <[wr_uid w := write_doc w]> players).
Proof.
  intros V B. unfold serve, allow, isOwner. rewrite bool_decide_true by reflexivity.
  rewrite (doc_passes w V). destruct (players !! wr_uid w) as [d|] eqn:E; [|reflexivity].
  destruct (B d E) as (t & T & L). rewrite (newer_write w d t T L). reflexivity.
Qed.

Lemma write_served w v players : isValidPlayerData (enc_player (wr_data w)) = true ->
  players !! wr_uid w = Some (write_doc v) ->
  serve (Some (wr_uid w)) (wr_uid w) (Set_ (write_doc w)) players
  = if wr_timestamp v <? wr_timestamp w then (true, <[wr_uid w := write_doc w]> players) else (false, players).
Proof.
  intros V E. unfold serve, allow, isOwner. rewrite bool_decide_true by reflexivity.
  rewrite (doc_passes w V), E. cbn [andb].
  change (newer (write_doc w) (write_doc v)) with (js_lt (num (wr_timestamp v)) (num (wr_timestamp w))).
  destruct (Z.ltb_spec (wr_timestamp v) (wr_timestamp w)) as [L|L].
  - rewrite (proj2 (js_lt_iff _ _) (num_lt _ _ L)). reflexivity.
  - destruct (js_ltP (num (wr_timestamp v)) (num (wr_timestamp w))) as [X|X]; [|reflexivity].
    unfold num in X. rewrite <- Zlt_Qlt in X. lia.
Qed.

Lemma upload_all_snoc ws w players :
  upload_all (ws ++ [w]) players
  = let (oks, ps) := upload_all ws players in
    let (ok, ps) := serve (Some (wr_uid w)) (wr_uid w) (Set_ (write_doc w)) ps in (oks ++ [ok], ps).
Proof.
  revert players. induction ws as [|v ws IH]; intros players; cbn [upload_all app].
  - destruct (serve _ _ _ players). reflexivity.
  - destruct (serve _ _ _ players) as [ok ps]. rewrite IH. destruct (upload_all ws ps) as [oks ps'].
    destruct (serve _ _ _ ps'). reflexivity.
Qed.

(** The newest of the writes that have arrived for [uid]. *)
Definition newest (uid : string) (ws : list Write) : option Write :=
  fold_left (fun o w =>
    if decide (wr_uid w = uid) then
      match o with Some v => if wr_timestamp v <? wr_timestamp w then Some w else o | None => Some w end
    else o) ws None.

Lemma newest_snoc uid ws w : newest uid (ws ++ [w])
  = if decide (wr_uid w = uid) then
      match newest uid ws with Some v => if wr_timestamp v <? wr_timestamp w then Some w else Some v | None => Some w end
    else newest uid ws.
Proof. unfold newest. rewrite fold_left_app. cbn [fold_left]. repeat case_match; reflexivity. Qed.

Lemma newest_spec uid ws : 
  match newest uid ws with
  | Some w => w ∈ ws /\ wr_uid w = uid /\ forall v, v ∈ ws -> wr_uid v = uid -> wr_timestamp v <= wr_timestamp w
  | None => forall v, v ∈ ws -> wr_uid v <> uid
  end.
Proof.
  induction ws as [|w ws IH] using rev_ind; [intros v []%not_elem_of_nil|].
  assert (X : forall v, v ∈ ws ++ [w] <-> v ∈ ws \/ v = w)
    by (intros v; rewrite elem_of_app, list_elem_of_singleton; reflexivity).
  rewrite newest_snoc. destruct (decide (wr_uid w = uid)) as [U|U], (newest uid ws) as [v|].
  - destruct IH as (A & B & C). destruct (Z.ltb_spec (wr_timestamp v) (wr_timestamp w)).
    + split; [apply X; auto|]. split; [exact U|]. intros x [I| ->]%X E; [specialize (C x I E); lia | lia].
    + split; [apply X; auto|]. split; [exact B|]. intros x [I| ->]%X E; [apply C; assumption | lia].
  - split; [apply X; auto|]. split; [exact U|]. intros x [I| ->]%X E; [destruct (IH x I E) | lia].
  - destruct IH as (A & B & C). split; [apply X; auto|]. split; [exact B|].
    intros x [I| ->]%X E; [apply C; assumption | contradiction].
  - intros x [I| ->]%X; [apply IH, I | exact U].
Qed.

(** Later than everything that has arrived before for its account. *)
Definition latest_so_far (before : list Write) (w : Write) : bool :=
  forallb (fun v => negb (bool_decide (wr_uid v = wr_uid w)) || (wr_timestamp v <? wr_timestamp w)) before.

Lemma latest_newest before w : latest_so_far before w
  = match newest (wr_uid w) before with Some v => wr_timestamp v <? wr_timestamp w | None => true end.
Proof.
  pose proof (newest_spec (wr_uid w) before) as S. apply eq_true_iff_eq. unfold latest_so_far.
  rewrite forallb_forall. destruct (newest (wr_uid w) before) as [v|].
  - destruct S as (A & B & C). split.
    + intros F. apply list_elem_of_In in A. specialize (F v A). rewrite bool_decide_true in F by exact B. exact F.
    + intros L x Hx%list_elem_of_In. case_bool_decide as U; [|reflexivity]. cbn.
      apply Z.ltb_lt in L. apply Z.ltb_lt. specialize (C x Hx U). lia.
  - split; [reflexivity|]. intros _ x Hx%list_elem_of_In. rewrite bool_decide_false by (apply S, Hx). reflexivity.
Qed.

Section Arrivals.
Context (players : Players).

Lemma arrivals ws :
  Forall (fun w => isValidPlayerData (enc_player (wr_data w)) = true) ws -> Forall (behind players) ws ->
  (forall uid, snd (upload_all ws players) !! uid
     = match newest uid ws with Some w => Some (write_doc w) | None => players !! uid end)
  /\ forall n w, ws !! n = Some w -> fst (upload_all ws players) !! n = Some (latest_so_far (take n ws) w).
Proof.
  induction ws as [|w ws IH] using rev_ind; intros V B; [split; [reflexivity | intros [] ?; discriminate]|].
  apply Forall_app in V as [V [Vw _]%Forall_cons]. apply Forall_app in B as [B [Bw _]%Forall_cons].
  destruct (IH V B) as [D G]. rewrite upload_all_snoc.
  assert (Len : length (fst (upload_all ws players)) = length ws).
  { clear. revert players. induction ws as [|v ws IH]; intros players; [reflexivity|]. cbn [upload_all].
    destruct (serve _ _ _ players) as [ok ps]. specialize (IH ps). destruct (upload_all ws ps). cbn in *. congruence. }
  destruct (upload_all ws players) as [oks ps]. cbn [fst snd] in *.
  assert (S : serve (Some (wr_uid w)) (wr_uid w) (Set_ (write_doc w)) ps
    = if latest_so_far ws w then (true, <[wr_uid w := write_doc w]> ps) else (false, ps)).
  { rewrite latest_newest. specialize (D (wr_uid w)). destruct (newest (wr_uid w) ws) as [v|].
    - apply write_served; assumption.
    - apply write_granted; [exact Vw|]. intros d E. apply Bw. congruence. }
  rewrite S. split.
  - intros uid. rewrite newest_snoc. specialize (D uid). pose proof (latest_newest ws w) as L.
    destruct (decide (wr_uid w = uid)) as [<-|N].
    + rewrite L. destruct (newest (wr_uid w) ws) as [v|]; [destruct (_ <? _)|]; cbn [snd];
        rewrite ?lookup_insert_eq; auto.
    + destruct (latest_so_far ws w); cbn [snd]; [rewrite lookup_insert_ne by exact N|]; exact D.
  - intros n x E. destruct (latest_so_far ws w) eqn:K; cbn [fst];
      (apply lookup_snoc_Some in E as [[L E]|[-> <-]];
        [rewrite lookup_app_l by lia; rewrite take_app_le by lia; apply G, E
        |rewrite <- Len, list_lookup_middle by reflexivity; rewrite Len, take_app_length, K; reflexivity]).
Qed.
End Arrivals.

Lemma increasing_cons a l : increasing (a :: l) -> Forall (Z.lt a) l /\ increasing l.
Proof.
  revert a. induction l as [|b l IH]; intros a I; [split; [constructor | exact I]|].
  destruct I as [L I]. destruct (IH b I) as [F _]. split; [|exact I].
  constructor; [exact L|]. eapply Forall_impl; [exact F|]. intros; lia.
Qed.

Lemma increasing_sorted ws : increasing (wr_timestamp <$> ws) ->
  StronglySorted (fun v w => wr_timestamp v < wr_timestamp w) ws.
Proof.
  induction ws as [|w ws IH]; intros I; [constructor|].
  apply increasing_cons in I as [F I]. constructor; [apply IH, I|]. exact (proj1 (Forall_fmap wr_timestamp _ ws) F).
Qed.

(** In the order of issue, every write is later than the ones before it. *)
Lemma in_order ws n w : StronglySorted (fun v w => wr_timestamp v < wr_timestamp w) ws ->
  ws !! n = Some w -> latest_so_far (take n ws) w = true.
Proof.
  revert n. induction ws as [|v ws IH]; intros n S E; [discriminate|].
  apply StronglySorted_inv in S as [S F]. destruct n as [|n]; [reflexivity|].
  cbn [take latest_so_far forallb]. cbn in E. apply andb_true_iff. split; [|apply IH; assumption].
  apply orb_true_iff. right. apply Z.ltb_lt. rewrite Forall_forall in F.
  apply F, list_elem_of_lookup_2 with n, E.
Qed.

Lemma sorted_sublist ws' ws : ws' `sublist_of` ws ->
  StronglySorted (fun v w => wr_timestamp v < wr_timestamp w) ws ->
  StronglySorted (fun v w => wr_timestamp v < wr_timestamp w) ws'.
Proof.
  induction 1 as [|x l1 l2 Sub IH|x l1 l2 Sub IH]; intros S; [constructor | | apply IH];
    apply StronglySorted_inv in S as [S F]; [|exact S].
  constructor; [apply IH, S|]. rewrite Forall_forall in F |- *. intros y Hy. apply F, (elem_of_submseteq l1); [exact Hy|].
  apply sublist_submseteq, Sub.
Qed.

(** C24: The cloud ends with the newest save that reaches it, in whatever order saves
    arrive.  Let a session of the client do anything (saves of any accounts with any
    clocks, suspensions, writes settling in any order) and let any of the writes it issued
    reach the server, in any order, some of them twice or never; the players saved are ones
    the rules admit and the collection is older than the session.  Then each arrival is
    granted exactly when it is later than all earlier arrivals for its account, so a write
    overtaken by a newer one is refused and writes that arrive in the order of issue are
    all granted; and at the end each account's document is its newest write that arrived,
    and an account none arrived for has the document it had. *)
Theorem newest_save_stays (y : Sync) (players : Players) (arrived : list Write) :
  rtc sync_step initial_sync y ->
  Forall (fun w => exists p, wr_data w = toJSON p /\ wf_player p /\ uploadable p) (sy_issued y) ->
  Forall (behind players) (sy_issued y) ->
  Forall (fun w => w ∈ sy_issued y) arrived ->
  let (granted, players') := upload_all arrived players in
  (forall n w, arrived !! n = Some w -> granted !! n = Some (latest_so_far (take n arrived) w))
  /\ (arrived `sublist_of` sy_issued y -> forall n w, arrived !! n = Some w -> granted !! n = Some true)
  /\ (forall w, w ∈ arrived ->
        (forall v, v ∈ arrived -> wr_uid v = wr_uid w -> v = w \/ wr_timestamp v < wr_timestamp w) ->
        players' !! wr_uid w = Some (write_doc w))
  /\ (forall uid, (forall w, w ∈ arrived -> wr_uid w <> uid) -> players' !! uid = players !! uid).
Proof.
  intros R V B A. destruct (arrivals players arrived) as [D G].
  { eapply Forall_impl; [exact A|]. intros w Hw. rewrite Forall_forall in V.
    destruct (V w Hw) as (p & -> & W & U). apply player_passes; assumption. }
  { eapply Forall_impl; [exact A|]. intros w Hw. rewrite Forall_forall in B. apply B, Hw. }
  destruct (upload_all arrived players) as [granted players']. cbn [fst snd] in *.
  split; [exact G|]. split; [|split].
  - intros Sub n w E. rewrite (G n w E). f_equal. apply (in_order arrived); [|exact E].
    apply (sorted_sublist _ _ Sub), increasing_sorted, sk_increasing, sync_run_ok, R.
  - intros w Hw M. rewrite D. pose proof (newest_spec (wr_uid w) arrived) as S.
    destruct (newest (wr_uid w) arrived) as [v|]; [|destruct (S w Hw eq_refl)].
    destruct S as (Hv & U & L). destruct (M v Hv U) as [-> | X]; [reflexivity|].
    specialize (L w Hw eq_refl). lia.
  - intros uid N. rewrite D. pose proof (newest_spec uid arrived) as S.
    destruct (newest uid arrived) as [v|]; [|reflexivity]. destruct S as (Hv & U & _). destruct (N v Hv U).
Qed.

(** ** What the rules protect *)

Definition stamp (d : json) : Q := match jget d "lastSavedAt" with Some (JNum t) => t | _ => 0%Q end.

Definition valid_docs (players : Players) : Prop := forall uid d, players !! uid = Some d -> isValidPlayerDoc d = true.

(** What a request by anyone may have done to the document of [uid]. *)
Definition kept (uid : string) (players players' : Players) : Prop :=
  forall d, players !! uid = Some d ->
  exists d', players' !! uid = Some d' /\ isValidPlayerDoc d' = true /\ (stamp d <= stamp d')%Q.

Definition deletes (uid : string) (r : option string * string * Request) : Prop :=
  r = (Some uid, uid, Delete).

Lemma newer_stamp a b : newer a b = true -> (stamp b <= stamp a)%Q.
Proof.
  unfold newer, stamp. repeat case_match; try discriminate. intros L%js_lt_iff. lra.
Qed.

Lemma serve_valid auth uid req players : valid_docs players -> valid_docs (snd (serve auth uid req players)).
Proof.
  intros V. unfold serve. destruct (allow auth uid req players) eqn:A; [|exact V]. cbn [snd].
  destruct req as [|data|]; [exact V| |].
  - assert (D : isValidPlayerDoc data = true).
    { cbn in A. destruct (players !! uid); rewrite ?andb_true_iff in A; apply A. }
    intros u d. destruct (decide (uid = u)) as [<-|N];
      [rewrite lookup_insert_eq; intros [= <-]; exact D | rewrite lookup_insert_ne by exact N; apply V].
  - intros u d [_ E]%lookup_delete_Some. apply (V u d E).
Qed.

Lemma serve_kept uid auth u req players : valid_docs players -> ~ deletes uid (auth, u, req) ->
  kept uid players (snd (serve auth u req players)).
Proof.
  intros V N d E. assert (Same : exists d', players !! uid = Some d' /\ isValidPlayerDoc d' = true /\ (stamp d <= stamp d')%Q)
    by (exists d; split; [exact E | split; [apply (V _ _ E) | apply Qle_refl]]).
  unfold serve. destruct (allow auth u req players) eqn:A; [|exact Same]. cbn [snd].
  destruct (decide (u = uid)) as [->|Nu].
  - destruct req as [|data|]; [exact Same | |].
    + cbn in A. rewrite E, !andb_true_iff in A. destruct A as [ [_ D] L].
      exists data. rewrite lookup_insert_eq. split; [reflexivity | split; [exact D | apply newer_stamp, L]].
    + exfalso. apply N. cbn in A. apply bool_decide_eq_true in A. unfold deletes. congruence.
  - destruct req; [exact Same | rewrite lookup_insert_ne by exact Nu | rewrite lookup_delete_ne by exact Nu]; exact Same.
Qed.

Lemma serve_foreign uid auth u req players : auth <> Some uid ->
  snd (serve auth u req players) !! uid = players !! uid.
Proof.
  intros N. unfold serve. destruct (allow auth u req players) eqn:A; [|reflexivity]. cbn [snd].
  destruct (decide (u = uid)) as [->|Nu].
  - assert (O : isOwner auth uid = true).
    { destruct req; cbn in A; [exact A| |exact A]. destruct (players !! uid); rewrite ?andb_true_iff in A; apply A. }
    apply bool_decide_eq_true in O. contradiction.
  - destruct req; [reflexivity | apply lookup_insert_ne, Nu | apply lookup_delete_ne, Nu].
Qed.

(** C25: The rules protect a save.  Over any sequence of requests by anybody on any document
    (stale writes, malformed ones, other users', several devices of the owner), as long as
    the owner does not delete it: a stored save stays, it is valid and its timestamp never
    goes back; and if none of the requests is the owner's, it does not change at all. *)
Theorem save_protected (uid : string) (d : json) (players : Players)
    (reqs : list (option string * string * Request)) :
  valid_docs players -> players !! uid = Some d -> Forall (fun r => ~ deletes uid r) reqs ->
  (exists d', serve_all reqs players !! uid = Some d' /\ isValidPlayerDoc d' = true /\ (stamp d <= stamp d')%Q)
  /\ (Forall (fun r => r.1.1 <> Some uid) reqs -> serve_all reqs players !! uid = Some d).
Proof.
  intros V E F. split.
  - revert d players V E. induction F as [|r reqs N _ IH]; intros d players V E;
      [exists d; split; [exact E | split; [apply (V _ _ E) | apply Qle_refl]]|].
    destruct r as [ [auth u] req]. cbn [serve_all fold_left fst snd].
    destruct (serve_kept uid auth u req players V N d E) as (d1 & E1 & _ & L1).
    destruct (IH d1 _ (serve_valid auth u req players V) E1) as (d2 & E2 & V2 & L2).
    exists d2. split; [exact E2 | split; [exact V2 | lra]].
  - intros G. clear V F. revert players E. induction G as [|r reqs N _ IH]; intros players E; [exact E|].
    destruct r as [ [auth u] req]. cbn [serve_all fold_left fst snd] in *. apply IH.
    rewrite serve_foreign by exact N. exact E.
Qed.

(** The erasure is complete and repeatable: when the function returns, the user has no
    document, whether or not the client had deleted it first; when it throws nothing has
    changed; and in both cases no other user's document has. *)
Theorem erased_on_deletion (uid : string) (reached : bool) (players : Players) :
  let (r, players') := onUserDeleted uid reached players in
  (r = Some tt -> players' !! uid = None /\ snd (onUserDeleted uid reached players') = players')
  /\ (r = None -> players' = players)
  /\ forall u, u <> uid -> players' !! u = players !! u.
Proof.
  unfold onUserDeleted. destruct reached.
  - split; [|split; [discriminate | intros u N; apply lookup_delete_ne; congruence]].
    intros _. split; [apply lookup_delete_eq|]. cbn. apply delete_id, lookup_delete_eq.
  - split; [discriminate | auto].
Qed.

(** ** Concrete servers *)

Definition veteran : Player := setLevel sample_player 1001.

(** The client lets a player grow past what the rules admit: a well-formed player of level
    1001 is refused, whatever the collection holds. *)
Theorem uncapped_level_refused (uid : string) (t : Z) (players : Players) :
  wf_player veteran
  /\ serve (Some uid) uid (Set_ (write_doc (mkWrite 0 uid (toJSON veteran) t))) players = (false, players).
Proof.
  split; [apply setLevel_wf, sample_player_wf|].
  assert (D : isValidPlayerDoc (write_doc (mkWrite 0 uid (toJSON veteran) t)) = false) by (vm_compute; reflexivity).
  unfold serve, allow. rewrite D. destruct (players !! uid); rewrite andb_false_r; reflexivity.
Qed.

Definition after_save (y : Sync) (at_ : Z) : Sync :=
  let (s, w) := savePlayerData (sy_service y) (Some "u1") (length (sy_issued y)) (toJSON sample_player) at_ in
  mkSync s (sy_inflight y ++ option_list (wr_id <$> w)) (sy_issued y ++ option_list w).

(** Two saves, the second with a clock that was set back. *)
Definition two_saves : Sync := after_save (after_save initial_sync 1000) 900.

Definition old_server : Players := {["u1" := write_doc (mkWrite 0 "u1" (toJSON sample_player) 500)]}.

Lemma two_saves_run : rtc sync_step initial_sync two_saves.
Proof. eapply rtc_l; [apply sync_save | apply rtc_once, sync_save]. Qed.

Lemma sample_uploadable : uploadable sample_player.
Proof. unfold uploadable. vm_compute. intuition discriminate. Qed.

(** The two saves arrive in the opposite order: the older one is refused. *)
Lemma newest_save_stays_witness :
  let arrived := reverse (sy_issued two_saves) in
  let (granted, players') := upload_all arrived old_server in
  (forall n w, arrived !! n = Some w -> granted !! n = Some (latest_so_far (take n arrived) w))
  /\ granted = [true; false]
  /\ players' !! "u1" = Some (write_doc (mkWrite 1 "u1" (toJSON sample_player) 1001)).
Proof.
  pose proof (newest_save_stays two_saves old_server (reverse (sy_issued two_saves)) two_saves_run) as K.
  cbv zeta. destruct (upload_all _ _) as [granted players'] eqn:E.
  split; [apply K|].
  - repeat (apply Forall_cons_2; [exists sample_player; split; [reflexivity | split; [apply sample_player_wf | apply sample_uploadable]]|]).
    apply Forall_nil_2.
  - repeat (apply Forall_cons_2; [intros d [= <-]; eexists; split; [reflexivity | reflexivity]|]). apply Forall_nil_2.
  - apply Forall_forall. intros w. apply elem_of_reverse.
  - revert E. vm_compute. intros [= <- <-]. split; reflexivity.
Defined.

Lemma save_protected_witness :
  exists d', serve_all [(Some "u2", "u1", Delete); (Some "u1", "u1", Set_ JNull)] old_server !! "u1" = Some d'
  /\ isValidPlayerDoc d' = true.
Proof.
  destruct (save_protected "u1" (write_doc (mkWrite 0 "u1" (toJSON sample_player) 500)) old_server
              [(Some "u2", "u1", Delete); (Some "u1", "u1", Set_ JNull)]) as [(d' & E & V & _) _]; [| | |eauto].
  - intros uid d E. unfold old_server in E. apply lookup_singleton_Some in E as [<- <-]. vm_compute. reflexivity.
  - reflexivity.
  - repeat (apply Forall_cons_2; [intros [=]|]). apply Forall_nil_2.
Defined.
